(* ===== verification/_CoqProject ===== *)
-Q . S2P
Prelude.v
Mem.v
Layout.v
Machine.v
Kalloc.v
Mp.v
Boot.v
Sched.v
Semaphore.v
Sleeplock.v
Spinlock.v
Disk.v
Bio.v
Log.v
Tx.v
Vm.v
Fs.v
Blocks.v
Inode.v
Contents.v
Console.v
Pipe.v
File.v
Filewrite.v
Process.v
Exec.v
Syscall.v
Sysfile.v
Trap.v
Grep.v
Sh.v
Umalloc.v
User.v
Ulib.v
Utils.v
Lsh.v
Runcmd.v
Mkfs.v
MkfsImage.v
