(* ===== verification/Prelude.v ===== *)
(** * A verification of the OS-EX kernel and its user programs

    The repository is a fork of xv6 for x86: a small Unix kernel (src/code, mostly C) with
    additions to the process manager (semaphores, threads made by [clone], [wait2], selectable
    scheduling policies, priorities and statistics), a second disk driver that keeps the disk
    in memory, and user programs.  This library translates the C code to executable Rocq
    functions and proves what makes the parts correct.

    ** How C code becomes definitions

    Kernel functions are programs of the monad [K] of Machine.v over one record [kernel] that
    collects the kernel's data: process table, memory, page allocator, buffers, log, inodes, files,
    pipes, console, devices.  A run ends in an [outcome]: [Ret] a value, [Panic] with the
    message of the code, [Undef] where the C program has no defined meaning, [Fuel] where the
    bound given to a loop was too small, or [Swtch], a call of [swtch] carrying the rest of the
    function.  A context switch is therefore visible in every theorem: what holds across one is
    either stated for every state the process can be resumed in ([rg]), or for a machine
    on which one process is active and the idle loop serves the interrupts it waits for
    ([alone], [solo]).  Machine integers are [Z] with wrap-around written out ([u32], [i32], [u8]).
    Memory is a function from addresses to bytes; page tables, the free list of
    pages and user memory are in it.  Locks are the list [held]; that this view of spin locks is
    right on several CPUs is what Spinlock.v shows.

    ** The parts

    - Prelude.v (this file): record update, tactics, wrap-around arithmetic, list lemmas.
    - Mem.v: string.c and byte memory.  Layout.v: memlayout.h and mmu.h.
    - Machine.v: the structures of proc.h, buf.h, file.h and the static data; the monad; spin
      locks as a running CPU sees them.
    - Kalloc.v: kalloc.c.  Pages on the free list, pages in use, nothing lost or given twice.
    - Sched.v: proc.c from [sched] to [wakeup], the policies and [scheduler].  Semaphore.v:
      proc.c's [sem_*].  Sleeplock.v: sleeplock.c.
    - Spinlock.v: spinlock.c instruction by instruction on any number of CPUs: mutual exclusion,
      interrupts off while a lock is held, refinement of atomic locks.
    - Disk.v: ide.c and memide.c, two instances of the class [BlockDriver] with laws
      [BlockDriverLaws]; everything above is proved against the class.
    - Bio.v: bio.c.  The cache is transparent: [view] is what a block reads as.
    - Log.v: log.c.  A commit is one atomic change of the disk across crashes.
    - Vm.v: vm.c.  Page tables as the hardware walks them; address spaces own their pages.
    - Fs.v: fs.c.  Console.v: console.c and kbd.c.  Pipe.v: pipe.c.  File.v: file.c.
    - Process.v: proc.c from [allocproc] to [wait], [clone], [join].  Exec.v: exec.c.
    - Syscall.v, Sysfile.v, Trap.v: syscall.c, sysproc.c, sysfile.c, trap.c.
    - Mp.v: mp.c, on the bytes of the tables.  Boot.v: bootmain.c, from the bytes of the disk.
    - Grep.v, Sh.v, Umalloc.v: grep.c, the parser of sh.c, umalloc.c.
    - Tx.v, Blocks.v, Inode.v, Contents.v, Filewrite.v: what fs.c and file.c do inside a
      transaction.  [txn] (Tx.v) is the state of a process in the middle of an operation: the
      buffers it holds, the blocks it has logged, the file system it sees.  Blocks.v has the
      allocator, Inode.v the pointers of a file and [bmap], Contents.v files as lists of bytes with
      [readi], [writei] and [iupdate], Filewrite.v whole calls of [filewrite] with their
      transactions and crashes.
    - Mkfs.v, MkfsImage.v: mkfs.c, and that the image it makes is a file system.
    - User.v: user programs as interaction trees over the system calls of user.h ([sysE]); what the
      calls may do, as a relation ([step]) between states of an abstract operating system with
      names, files, descriptors, open files with the offsets that [dup] shares, and a console,
      which keeps what the process has done ([past]: forks, waits, programs not executed); total correctness against all of it ([wp]).
      Ulib.v: ulib.c and printf.c.  Utils.v: cat.c, wc.c, head.c, cp.c, ls.c and the smaller
      programs.  Lsh.v: lsh.c.  Runcmd.v: [runcmd] and the main loop of sh.c, init.c.
    Calls go down this list: a trap dispatches a system call, which fetches its arguments from
    user memory through Vm, works on files and processes, which use inodes, the log, the buffer
    cache and at the bottom a disk driver; all of them use spin locks, sleep and wakeup.

    ** What is shown

    - Start: the boot loader puts the segments of the kernel in memory.
    - Memory: the allocator conserves pages; address spaces are built, copied and freed
      completely or not at all; [fork] and [wait] compose these for whole processes.
    - Concurrency: mutual exclusion of spin locks, no lost wakeups, sleep locks, what semaphores
      do and do not guarantee.
    - Storage: the drivers agree, the cache is transparent, transactions are atomic, an inode
      is cached once, directory paths are split as specified.
    - Files: [readi] reads and [writei] replaces the bytes of a file, allocating only free blocks
      and leaving all other files alone; [filewrite] composes begin_op, ilock, writei, iunlock,
      end_op and the commit, down to the block writes of a disk driver: after a power failure
      anywhere, recovery leaves the file with some first part of the bytes written.
      The image that mkfs makes satisfies what these theorems assume of the file system.
    - Input and output: pipes are bounded queues; the console's line discipline delivers the
      edited lines.
    - User programs: parsing ends, inverts printing and gives well-formed commands; the shells
      make a child for each program of a line, which executes it, with the arguments and
      descriptors the line calls for, or exits having tried to; they wait, and keep their own
      descriptors; [cp] copies, [wc] counts and [head] prints what declarative readings
      say, for every way in which [read] may deliver the input; the matcher agrees with a
      semantics of patterns, the allocator keeps blocks apart and loses no memory.
    Where the code does something else than it means to, the theorem states what it does:
    [sem_wait_never_consumes], [setscheduler_accepts_five].

    ** Loop bounds

    Loops over tables recurse on the number of entries left.  Loops that wait (for a lock, a
    tick, a child, the disk) take a number of rounds as fuel; the theorems about them either
    choose the number from the state and show that it is enough, or hold for every number.
    Loops over data take the number of bytes or blocks plus one.  Loops of user programs are
    interaction trees and need no bound; [wp] is total, so that their theorems include that
    they end.  [Fuel] is not a result of
    the code, and no theorem counts it as success.

    ** Not modelled

    - Boot code, start-up of the other CPUs, APICs, PIC, serial port, descriptor tables
      (bootasm.S, entry.S, main.c, lapic.c, ioapic.c, picirq.c, uart.c, [seginit],
      [tvinit]): they write hardware registers and tables once; the model starts from
      the machine they set up.
    - usys.S, trapasm.S, vectors.pl: stubs that move registers.  The trap frame is a record.
    - ps.c prints the table that [getptable] fills.  [main] of grep.c only opens files.
    - [step] of User.v is a specification of the system calls, not derived from Sysfile.v; it
      leaves open whatever the kernel may decide (how much a [read] delivers, failures for want of
      resources, everything but the descriptors once there are other processes), and the
      memory of a user program is not modelled below its strings and arrays.
    - The test programs: they exercise system calls and print. *)
From stdpp Require Import base list list_numbers gmap gmultiset strings.
From Stdlib Require Import ZArith Lia.

#[global] Set Default Goal Selector "!".

Create HintDb xv6.

Local Open Scope Z_scope.

(** ** Record update *)
Class Eta (R : Type) : Type := eta : R -> R.
Class Upd {R T : Type} (proj : R -> T) : Type := upd : (T -> T) -> R -> R.
Arguments upd {R T} proj {_} f r.

Ltac derive_upd :=
  lazymatch goal with
  | |- @Upd ?R ?T ?proj =>
      let inst := constr:(_ : Eta R) in
      let body := eval hnf in inst in
      lazymatch eval pattern proj in body with
      | ?F _ =>
          let t := eval cbv beta in (fun (f : T -> T) => F (fun r => f (proj r))) in
          exact t
      end
  end.

Declare Scope record_scope.
Delimit Scope record_scope with rec.
Notation "r <| proj := v |>" := (upd proj (fun _ => v) r)
  (at level 12, proj at level 9, left associativity) : record_scope.
Notation "r <| proj ::= f |>" := (upd proj f r)
  (at level 12, proj at level 9, left associativity) : record_scope.
#[global] Open Scope record_scope.

(** ** Machine integers *)

Definition u8 (z : Z) : Z := z mod 2 ^ 8.
Definition u16 (z : Z) : Z := z mod 2 ^ 16.
Definition u32 (z : Z) : Z := z mod 2 ^ 32.
Definition s32 (z : Z) : Z := (z + 2 ^ 31) mod 2 ^ 32 - 2 ^ 31.

Lemma u32_range z : 0 <= u32 z < 2 ^ 32.
Proof. apply Z.mod_pos_bound. lia. Qed.


(** ** Tactics *)

(** Case analysis on an integer comparison of the goal. *)
Ltac case_zb :=
  match goal with
  | |- context [Z.eqb ?x ?y] => destruct (Z.eqb_spec x y)
  | |- context [Z.leb ?x ?y] => destruct (Z.leb_spec x y)
  | |- context [Z.ltb ?x ?y] => destruct (Z.ltb_spec x y)
  end.

(** All of them, closing the cases that arithmetic decides. *)
Ltac zcases := repeat (case_zb; cbn [andb orb negb]; try lia).

(** Linear arithmetic with division and modulo by constants. *)
Ltac dlia := Z.to_euclidean_division_equations; lia.

(** ** Permutations of lists of pages

    A permutation of concatenations is an equation of multisets, which [perm] solves. *)

Definition ms (l : list Z) : gmultiset Z := list_to_set_disj l.

Lemma perm_ms l1 l2 : l1 ≡ₚ l2 <-> ms l1 = ms l2.
Proof.
  unfold ms. split; [apply list_to_set_disj_perm|].
  assert (forall l : list Z, elements (list_to_set_disj l : gmultiset Z) ≡ₚ l) as He.
  { induction l as [|x l IH]; simpl; [done|]. by rewrite gmultiset_elements_disj_union, gmultiset_elements_singleton, IH. }
  intros H. rewrite <- (He l1), H. apply He.
Qed.

Lemma ms_app l1 l2 : ms (l1 ++ l2) = ms l1 ⊎ ms l2.
Proof. apply list_to_set_disj_app. Qed.

Lemma ms_cons x l : ms (x :: l) = {[+ x +]} ⊎ ms l.
Proof. done. Qed.

Lemma ms_nil : ms [] = ∅.
Proof. done. Qed.

Ltac perm :=
  apply perm_ms;
  repeat match goal with H : @Permutation Z _ _ |- _ => apply perm_ms in H; revert H end;
  repeat first [rewrite ms_app | rewrite ms_cons | rewrite ms_nil];
  clear; intros; multiset_solver.
