(* ===== verification/Mem.v ===== *)
(** * Mem: byte-addressed memory and string.c

    The kernel's directly mapped memory as a function from address to byte, with
    32-bit little-endian loads and stores, and the routines of string.c.  [memset]
    and [memmove] work on the memory, because what they do depends on alignment and
    on overlap; the string routines work on the bytes of the objects their pointers
    point into, from the pointer to the end of the object, and are undefined
    ([None]) when they run past that end. *)
From stdpp Require Import base list list_numbers strings.
From Stdlib Require Import ZArith Lia.
From S2P Require Import Prelude.
Local Open Scope Z_scope.

Definition memory : Type := Z -> Z.

Definition store8 (m : memory) (a v : Z) : memory := fun x => if x =? a then u8 v else m x.

Definition load32 (m : memory) (a : Z) : Z :=
  m a + 2 ^ 8 * m (a + 1) + 2 ^ 16 * m (a + 2) + 2 ^ 24 * m (a + 3).

Definition store32 (m : memory) (a v : Z) : memory :=
  store8 (store8 (store8 (store8 m a v) (a + 1) (Z.shiftr v 8)) (a + 2) (Z.shiftr v 16))
    (a + 3) (Z.shiftr v 24).

Definition bytes_ok (m : memory) : Prop := forall a, 0 <= m a < 256.

(** ** [memset] *)

(** [stosb] and [stosl] (x86.h): store a byte or a word [cnt] times, upwards. *)
Fixpoint stosb (m : memory) (a c : Z) (cnt : nat) : memory :=
  match cnt with
  | O => m
  | S n => stosb (store8 m a c) (a + 1) c n
  end.

Fixpoint stosl (m : memory) (a w : Z) (cnt : nat) : memory :=
  match cnt with
  | O => m
  | S n => stosl (store32 m a w) (a + 4) w n
  end.

Definition memset (m : memory) (dst c n : Z) : memory :=
  if (Z.rem (s32 dst) 4 =? 0) && (n mod 4 =? 0) then
    let c := Z.land c 255 in
    stosl m dst
      (u32 (Z.lor (Z.lor (Z.lor (Z.shiftl c 24) (Z.shiftl c 16)) (Z.shiftl c 8)) c))
      (Z.to_nat (n / 4))
  else stosb m dst c (Z.to_nat n).

(** ** [memmove] *)
Fixpoint copy_up (m : memory) (d s : Z) (n : nat) : memory :=
  match n with
  | O => m
  | S n' => copy_up (store8 m d (m s)) (d + 1) (s + 1) n'
  end.

Fixpoint copy_down (m : memory) (d s : Z) (n : nat) : memory :=
  match n with
  | O => m
  | S n' => copy_down (store8 m (d - 1) (m (s - 1))) (d - 1) (s - 1) n'
  end.

Definition memmove (m : memory) (dst src n : Z) : memory :=
  if (src <? dst) && (src + n >? dst)
  then copy_down m (dst + n) (src + n) (Z.to_nat n)
  else copy_up m dst src (Z.to_nat n).

Definition memcpy (m : memory) (dst src n : Z) : memory := memmove m dst src n.

(** Copying from an object elsewhere, given its bytes. *)
Fixpoint store_bytes (m : memory) (a : Z) (l : list Z) : memory :=
  match l with
  | [] => m
  | b :: l' => store_bytes (store8 m a b) (a + 1) l'
  end.

(** ** [memcmp] and the string routines *)
Fixpoint memcmp (s1 s2 : list Z) (n : nat) : option Z :=
  match n, s1, s2 with
  | O, _, _ => Some 0
  | S n', a :: s1', b :: s2' => if a =? b then memcmp s1' s2' n' else Some (a - b)
  | S _, _, _ => None
  end.

Fixpoint strncmp (p q : list Z) (n : nat) : option Z :=
  match n, p, q with
  | O, _, _ => Some 0
  | S n', a :: p', b :: q' =>
      if negb (a =? 0) && (a =? b) then strncmp p' q' n' else Some (u8 a - u8 b)
  | S _, _, _ => None
  end.

(** The second loop of [strncpy]: zero the rest of the [n] bytes. *)
Fixpoint strncpy_pad (s : list Z) (n : nat) : option (list Z) :=
  match n, s with
  | O, _ => Some s
  | S n', _ :: s' => cons 0 <$> strncpy_pad s' n'
  | S _, [] => None
  end.

Fixpoint strncpy (s t : list Z) (n : nat) : option (list Z) :=
  match n, s, t with
  | O, _, _ => Some s
  | S n', _ :: s', c :: t' =>
      if c =? 0 then cons 0 <$> strncpy_pad s' n' else cons c <$> strncpy s' t' n'
  | S _, _, _ => None
  end.

(** The loop of [safestrcpy], entered with [n] still to be decremented. *)
Fixpoint safestrcpy_loop (s t : list Z) (n : nat) : option (list Z) :=
  match n with
  | O => None
  | S O => match s with _ :: s' => Some (0 :: s') | [] => None end
  | S n' =>
      match s, t with
      | _ :: s', c :: t' =>
          if c =? 0 then
            match s' with _ :: s'' => Some (0 :: 0 :: s'') | [] => None end
          else cons c <$> safestrcpy_loop s' t' n'
      | _, _ => None
      end
  end.

Definition safestrcpy (s t : list Z) (n : Z) : option (list Z) :=
  if n <=? 0 then Some s else safestrcpy_loop s t (Z.to_nat n).

Fixpoint strlen (s : list Z) : option nat :=
  match s with
  | [] => None
  | c :: s' => if c =? 0 then Some O else S <$> strlen s'
  end.

(** ** Lemmas: memory *)
Lemma u8_small z : 0 <= z < 256 -> u8 z = z.
Proof. intros. apply Z.mod_small. lia. Qed.

Lemma u8_range z : 0 <= u8 z < 256.
Proof. apply Z.mod_pos_bound. lia. Qed.
#[export] Hint Resolve u8_range : xv6.

Lemma bytes_ok_store8 m a v : bytes_ok m -> bytes_ok (store8 m a v).
Proof. intros H x. unfold store8. destruct (x =? a); [apply u8_range | apply H]. Qed.
#[export] Hint Resolve bytes_ok_store8 : xv6.

Lemma bytes_ok_store32 m a v : bytes_ok m -> bytes_ok (store32 m a v).
Proof. intros H. unfold store32. auto with xv6. Qed.
#[export] Hint Resolve bytes_ok_store32 : xv6.

Lemma store32_other m a v x : x < a \/ a + 4 <= x -> store32 m a v x = m x.
Proof.
  intros H. unfold store32, store8.
  zcases; done.
Qed.

(** Splitting a word into its four bytes and putting it together again. *)
Lemma word_of_bytes v :
  u8 v + 2 ^ 8 * u8 (Z.shiftr v 8) + 2 ^ 16 * u8 (Z.shiftr v 16)
    + 2 ^ 24 * u8 (Z.shiftr v 24) = u32 v.
Proof.
  unfold u8, u32. rewrite !Z.shiftr_div_pow2 by lia.
  change (2 ^ 8) with 256. change (2 ^ 16) with 65536. change (2 ^ 24) with 16777216.
  change (2 ^ 32) with 4294967296.
  pose proof (Z.div_mod v 256 ltac:(lia)). pose proof (Z.mod_pos_bound v 256 ltac:(lia)).
  replace (v / 65536) with (v / 256 / 256) by (rewrite Z.div_div by lia; done).
  replace (v / 16777216) with (v / 256 / 256 / 256) by (rewrite !Z.div_div by lia; done).
  set (q := v / 256) in *.
  pose proof (Z.div_mod q 256 ltac:(lia)). pose proof (Z.mod_pos_bound q 256 ltac:(lia)).
  set (q' := q / 256) in *.
  pose proof (Z.div_mod q' 256 ltac:(lia)). pose proof (Z.mod_pos_bound q' 256 ltac:(lia)).
  set (q'' := q' / 256) in *.
  pose proof (Z.div_mod q'' 256 ltac:(lia)). pose proof (Z.mod_pos_bound q'' 256 ltac:(lia)).
  apply (Z.mod_unique_pos _ _ (q'' / 256)); lia.
Qed.

Lemma load32_store32 m a v : load32 (store32 m a v) a = u32 v.
Proof.
  rewrite <- word_of_bytes. unfold load32, store32, store8.
  zcases.
Qed.

Lemma load32_ext m m' a :
  (forall x, a <= x < a + 4 -> m x = m' x) -> load32 m a = load32 m' a.
Proof. intros H. unfold load32. rewrite !H by lia. done. Qed.

Lemma load32_store32_other m a v b :
  b + 4 <= a \/ a + 4 <= b -> load32 (store32 m a v) b = load32 m b.
Proof. intros. apply load32_ext. intros. apply store32_other. lia. Qed.

Lemma load32_range m a : bytes_ok m -> 0 <= load32 m a < 2 ^ 32.
Proof.
  intros H. unfold load32.
  pose proof (H a). pose proof (H (a + 1)). pose proof (H (a + 2)). pose proof (H (a + 3)).
  change (2 ^ 8) with 256. change (2 ^ 16) with 65536. change (2 ^ 24) with 16777216.
  change (2 ^ 32) with 4294967296. lia.
Qed.

(** ** Lemmas: [memset] *)
Lemma stosb_spec n : forall m a c x,
  stosb m a c n x = if (a <=? x) && (x <? a + Z.of_nat n) then u8 c else m x.
Proof.
  induction n as [|n IH]; intros m a c x; simpl.
  - zcases; done.
  - rewrite IH. unfold store8. zcases; done.
Qed.

(** A word with the same byte four times stores that byte four times. *)
Lemma store32_repeat m a c w x :
  (forall i, 0 <= i < 4 -> u8 (Z.shiftr w (8 * i)) = u8 c) ->
  store32 m a w x = if (a <=? x) && (x <? a + 4) then u8 c else m x.
Proof.
  intros Hw. unfold store32, store8.
  pose proof (Hw 0 ltac:(lia)) as H0. pose proof (Hw 1 ltac:(lia)) as H1.
  pose proof (Hw 2 ltac:(lia)) as H2. pose proof (Hw 3 ltac:(lia)) as H3.
  simpl in *. rewrite Z.shiftr_0_r in H0.
  zcases; done.
Qed.

Lemma stosl_spec n : forall m a c w x,
  (forall i, 0 <= i < 4 -> u8 (Z.shiftr w (8 * i)) = u8 c) ->
  stosl m a w n x = if (a <=? x) && (x <? a + 4 * Z.of_nat n) then u8 c else m x.
Proof.
  induction n as [|n IH]; intros m a c w x Hw; simpl.
  - zcases; done.
  - rewrite (IH _ _ c) by done. rewrite (store32_repeat _ _ c) by done.
    zcases; done.
Qed.

(** The word [memset] builds has the byte in each of its four places. *)
Lemma memset_word c i : 0 <= i < 4 ->
  let b := Z.land c 255 in
  u8 (Z.shiftr (u32 (Z.lor (Z.lor (Z.lor (Z.shiftl b 24) (Z.shiftl b 16)) (Z.shiftl b 8)) b))
        (8 * i)) = u8 c.
Proof.
  intros Hi b. unfold u8, u32. rewrite <- !Z.land_ones by lia.
  apply Z.bits_inj'. intros n Hn. unfold b. clear b.
  rewrite !Z.land_spec, Z.shiftr_spec, Z.land_spec by lia.
  rewrite !Z.lor_spec, !Z.shiftl_spec, !Z.land_spec by lia.
  change 255 with (Z.ones 8).
  destruct (Z.ltb_spec n 8).
  - rewrite (Z.ones_spec_low 8 n), (Z.ones_spec_low 32) by lia. rewrite !andb_true_r.
    assert (forall j, 8 <= j -> Z.testbit (Z.ones 8) j = false) as Hhi
      by (intros; apply Z.ones_spec_high; lia).
    assert (forall j, j < 0 -> Z.testbit c j && Z.testbit (Z.ones 8) j = false) as Hneg
      by (intros; rewrite Z.testbit_neg_r by lia; done).
    assert (i = 0 \/ i = 1 \/ i = 2 \/ i = 3) as [-> | [-> | [-> | ->]]] by lia;
      repeat match goal with
        | |- context [Z.testbit (Z.ones 8) ?j] =>
            first [ rewrite (Hhi j) by lia
                  | rewrite (Z.ones_spec_low 8 j) by lia
                  | rewrite (Z.testbit_neg_r (Z.ones 8) j) by lia ]
        end; rewrite ?andb_false_r, ?andb_true_r, ?orb_false_r, ?orb_false_l; f_equal; lia.
  - rewrite (Z.ones_spec_high 8 n) by lia. rewrite !andb_false_r. done.
Qed.

(** [memset] sets exactly the [n] bytes from [dst] to the low byte of [c],
    whichever of the word loop and the byte loop the alignment test selects. *)
Lemma memset_spec m dst c n x :
  0 <= n ->
  memset m dst c n x = if (dst <=? x) && (x <? dst + n) then u8 c else m x.
Proof.
  intros Hn. unfold memset. case_match eqn:E.
  - apply andb_prop in E as [_ E%Z.eqb_eq].
    rewrite (stosl_spec _ _ _ c) by (intros; apply memset_word; done).
    assert (4 * Z.of_nat (Z.to_nat (n / 4)) = n) as -> by (pose proof (Z.div_mod n 4); lia).
    done.
  - rewrite stosb_spec. rewrite Z2Nat.id by lia. done.
Qed.

(** ** Lemmas: [memmove] *)
Lemma copy_up_spec n : forall m d s x,
  bytes_ok m -> d <= s \/ s + Z.of_nat n <= d ->
  copy_up m d s n x = if (d <=? x) && (x <? d + Z.of_nat n) then m (s + (x - d)) else m x.
Proof.
  induction n as [|n IH]; intros m d s x Hm Hds; simpl.
  - zcases; done.
  - rewrite IH by (auto with xv6; lia). unfold store8. rewrite u8_small by apply Hm.
    zcases; try done; f_equal; lia.
Qed.

Lemma copy_down_spec n : forall m d s x,
  bytes_ok m -> s <= d ->
  copy_down m d s n x = if (d - Z.of_nat n <=? x) && (x <? d) then m (s - (d - x)) else m x.
Proof.
  induction n as [|n IH]; intros m d s x Hm Hds; simpl.
  - zcases; done.
  - rewrite IH by (auto with xv6; lia). unfold store8. rewrite u8_small by apply Hm.
    zcases; try done; f_equal; lia.
Qed.

(** [memmove] copies as if through a temporary buffer: every destination byte
    gets the byte its source had before the call, overlap or not, and nothing else
    changes. *)
Lemma memmove_spec m dst src n x :
  bytes_ok m -> 0 <= n ->
  memmove m dst src n x = if (dst <=? x) && (x <? dst + n) then m (src + (x - dst)) else m x.
Proof.
  intros Hm Hn. unfold memmove. destruct ((src <? dst) && (src + n >? dst)) eqn:E.
  - rewrite copy_down_spec by (done || lia). rewrite Z2Nat.id by lia.
    zcases; try done; f_equal; lia.
  - rewrite copy_up_spec; rewrite ?Z2Nat.id by lia; [done..|].
    apply andb_false_iff in E. lia.
Qed.

(** [memmove] copies as if through a temporary buffer: every destination byte gets
    the byte its source had before the call, however the two ranges overlap, and no
    byte outside the destination changes. *)
Theorem memmove_correct m dst src n x :
  bytes_ok m -> 0 <= n ->
  memmove m dst src n x = if (dst <=? x) && (x <? dst + n) then m (src + (x - dst)) else m x.
Proof. apply memmove_spec. Qed.

(** Overlapping move by one byte upwards. *)
Lemma memmove_correct_witness :
  map (memmove (fun a => a mod 256) 11 10 4) [10; 11; 12; 13; 14; 15] = [10; 10; 11; 12; 13; 15].
Proof.
  assert (bytes_ok (fun a => a mod 256)) as Hm by (intros a; apply Z.mod_pos_bound; lia).
  simpl. by rewrite !(memmove_correct (fun a => a mod 256) 11 10 4) by (done || lia).
Defined.

(** ** Lemmas: counted strings *)

(** The string an array of [n] bytes holds: the bytes before the first zero, if the
    array has one, else all of them. *)
Fixpoint cname (n : nat) (l : list Z) : list Z :=
  match n, l with
  | S n', c :: l' => if c =? 0 then [] else c :: cname n' l'
  | _, _ => []
  end.

(** [creadable n l]: reading up to [n] bytes of [l], but none after a zero, stays
    inside the object. *)
Fixpoint creadable (n : nat) (l : list Z) : bool :=
  match n, l with
  | O, _ => true
  | S n', c :: l' => (c =? 0) || creadable n' l'
  | S _, [] => false
  end.

Definition bytes (l : list Z) : Prop := Forall (fun c => 0 <= c < 256) l.

Lemma strncmp_zero_iff n : forall p q,
  creadable n p -> creadable n q -> bytes p -> bytes q ->
  strncmp p q n = Some 0 <-> cname n p = cname n q.
Proof.
  induction n as [|n IH]; intros [|a p] [|b q] Hp Hq Bp Bq; simpl in *; try done.
  apply Forall_cons in Bp as [Ba Bp]. apply Forall_cons in Bq as [Bb Bq].
  rewrite (u8_small a), (u8_small b) by lia.
  destruct (Z.eqb_spec a 0), (Z.eqb_spec a b), (Z.eqb_spec b 0); simpl in *; subst; try lia;
    try (split; intros; simplify_eq; lia); try (split; [done|intros; f_equal; lia]).
  rewrite IH by done. split; [by intros ->|]. intros H; by injection H.
Qed.

Lemma strncpy_pad_spec n : forall s, (n <= length s)%nat ->
  strncpy_pad s n = Some (replicate n 0 ++ drop n s).
Proof.
  induction n as [|n IH]; intros [|b s] Hs; simpl in *; try done; try lia.
  rewrite IH by lia. done.
Qed.

Lemma cname_replicate n l : cname n (replicate n 0 ++ l) = [].
Proof. destruct n; done. Qed.

(** [strncpy] writes [n] bytes that hold the source's counted string, and keeps the
    rest of the destination. *)
Lemma strncpy_spec n : forall s t,
  (n <= length s)%nat -> creadable n t ->
  exists r, strncpy s t n = Some r /\ length r = length s /\ cname n r = cname n t /\
    drop n r = drop n s /\ creadable n r.
Proof.
  induction n as [|n IH]; intros [|b s] [|c t] Hs Ht; simpl in *; try lia; try done; try by eexists.
  destruct (Z.eqb_spec c 0) as [->|]; simpl in *.
  - rewrite strncpy_pad_spec by lia. simpl. eexists. split; [done|].
    simpl. rewrite length_app, length_replicate, length_drop.
    split; [lia|]. split; [done|]. rewrite drop_app_length' by (by rewrite length_replicate).
    done.
  - destruct (IH s t) as (r & -> & Hl & Hc & Hd & Hr); [lia|done|]. simpl.
    eexists. split; [done|]. simpl. rewrite (proj2 (Z.eqb_neq c 0)) by done.
    rewrite Hl, Hc, Hd. done.
Qed.

Lemma strncpy_bytes n : forall s t r, bytes s -> bytes t -> strncpy s t n = Some r -> bytes r.
Proof.
  assert (forall n s r, bytes s -> strncpy_pad s n = Some r -> bytes r) as Hpad.
  { clear n. intros n. induction n as [|n IH]; intros [|b s] r Hs; simpl; intros; simplify_eq; try done.
    apply Forall_cons in Hs as [_ Hs]. destruct (strncpy_pad s n) eqn:E; simplify_eq/=.
    constructor; [lia | eapply IH; [|eassumption]; done]. }
  induction n as [|n IH]; intros [|b s] [|c t] r Hs Ht; simpl; intros; simplify_eq; try done.
  apply Forall_cons in Hs as [_ Hs]. apply Forall_cons in Ht as [Hc Ht].
  destruct (c =? 0).
  - destruct (strncpy_pad s n) eqn:E; simplify_eq/=. constructor; [lia | eapply Hpad; [|eassumption]; done].
  - destruct (strncpy s t n) eqn:E; simplify_eq/=. constructor; [lia | eapply IH; [| |eassumption]; done].
Qed.

(** A name stored with [strncpy] compares equal, under [strncmp], to exactly the
    names that have the same counted string: the round trip that directory entries
    ([dirlink] then [dirlookup]) rely on. *)
Theorem strncpy_strncmp_roundtrip n s t u r :
  (n <= length s)%nat -> creadable n t -> creadable n u ->
  bytes s -> bytes t -> bytes u ->
  strncpy s t n = Some r ->
  strncmp u r n = Some 0 <-> cname n u = cname n t.
Proof.
  intros Hs Ht Hu Bs Bt Bu Hr.
  destruct (strncpy_spec n s t Hs Ht) as (r' & Hr' & Hl & Hc & _ & Hrd). simplify_eq.
  assert (bytes r) by (eapply strncpy_bytes; [| |eassumption]; done).
  rewrite strncmp_zero_iff by done. by rewrite Hc.
Qed.

(** "usr" stored in a 4-byte name and looked up as "usr". *)
Lemma strncpy_strncmp_roundtrip_witness :
  strncmp [117; 115; 114; 0; 47] [117; 115; 114; 0] 4 = Some 0.
Proof.
  apply (strncpy_strncmp_roundtrip 4 [1; 2; 3; 4] [117; 115; 114; 0] [117; 115; 114; 0; 47]);
    try done; try (repeat constructor; lia).
Defined.

(** [safestrcpy] into an array of [n > 0] bytes stays inside the array, leaves a
    NUL-terminated string, and that string is the source cut to [n - 1] characters. *)
Theorem safestrcpy_terminates n s t :
  (0 < n)%nat -> (n <= length s)%nat -> creadable (n - 1) t ->
  exists r, safestrcpy s t (Z.of_nat n) = Some r /\ length r = length s /\
    strlen r = Some (length (cname (n - 1) t)) /\
    cname n r = cname (n - 1) t /\ drop n r = drop n s.
Proof.
  intros Hn Hs Ht. unfold safestrcpy. rewrite (proj2 (Z.leb_gt _ _)) by lia.
  rewrite Nat2Z.id. revert s t Hs Ht.
  induction n as [|n IH]; [lia|]. intros [|b s] t Hs Ht; simpl in Hs; [lia|].
  replace (S n - 1)%nat with n in * by lia.
  destruct n as [|n]; [by eexists|]. destruct t as [|c t]; [done|]. simpl in Ht |- *.
  destruct (Z.eqb_spec c 0) as [->|Hc0].
  - destruct s as [|b' s]; simpl in *; [lia|]. by eexists.
  - destruct (IH ltac:(lia) s t) as (r & Hr & Hl & Hlen & Hcn & Hd);
      [lia | by rewrite Nat.sub_succ, Nat.sub_0_r |].
    rewrite Nat.sub_succ, Nat.sub_0_r in *. rewrite Hr. simpl. eexists. split; [done|]. simpl.
    rewrite (proj2 (Z.eqb_neq c 0)) by done.
    rewrite Hlen, Hl, Hd. simpl. by rewrite <- Hcn.
Qed.

(** A name longer than its array. *)
Lemma safestrcpy_terminates_witness :
  exists r, safestrcpy [9; 9; 9; 9] [97; 98; 99; 100; 101; 0] 3 = Some r /\ strlen r = Some 2%nat.
Proof.
  destruct (safestrcpy_terminates 3 [9; 9; 9; 9] [97; 98; 99; 100; 101; 0])
    as (r & Hr & _ & Hl & _); [lia|simpl; lia|done|]. by exists r.
Defined.
