(* ===== verification/Layout.v ===== *)
(** * Layout: the address-space constants and macros of memlayout.h and mmu.h *)
From stdpp Require Import base tactics.
From Stdlib Require Import ZArith Lia.
From S2P Require Import Prelude.
Local Open Scope Z_scope.

Definition EXTMEM : Z := 1048576.          (* 0x100000 *)
Definition PHYSTOP : Z := 234881024.       (* 0xE000000 *)
Definition DEVSPACE : Z := 4261412864.     (* 0xFE000000 *)
Definition KERNBASE : Z := 2147483648.     (* 0x80000000 *)
Definition KERNLINK : Z := KERNBASE + EXTMEM.

Definition V2P (a : Z) : Z := u32 (a - KERNBASE).
Definition P2V (a : Z) : Z := u32 (a + KERNBASE).

Definition NPDENTRIES : Z := 1024.
Definition NPTENTRIES : Z := 1024.
Definition PGSIZE : Z := 4096.
Definition PTXSHIFT : Z := 12.
Definition PDXSHIFT : Z := 22.

(** [~(PGSIZE-1)] and [~0xFFF] as 32-bit masks. *)
Definition PGMASK : Z := 4294963200.

Definition PDX (va : Z) : Z := Z.land (Z.shiftr va PDXSHIFT) 1023.
Definition PTX (va : Z) : Z := Z.land (Z.shiftr va PTXSHIFT) 1023.
Definition PGADDR (d t o : Z) : Z :=
  u32 (Z.lor (Z.lor (Z.shiftl d PDXSHIFT) (Z.shiftl t PTXSHIFT)) o).
Definition PGROUNDUP (sz : Z) : Z := Z.land (u32 (sz + PGSIZE - 1)) PGMASK.
Definition PGROUNDDOWN (a : Z) : Z := Z.land a PGMASK.

Definition PTE_P : Z := 1.
Definition PTE_W : Z := 2.
Definition PTE_U : Z := 4.
Definition PTE_PS : Z := 128.

Definition PTE_ADDR (pte : Z) : Z := Z.land pte PGMASK.
Definition PTE_FLAGS (pte : Z) : Z := Z.land pte 4095.

(** ** Lemmas *)

(** Clearing the low twelve bits of a 32-bit word rounds it down to a page. *)
Lemma land_pgmask a : 0 <= a < 2 ^ 32 -> Z.land a PGMASK = PGSIZE * (a / PGSIZE).
Proof.
  intros Ha. change PGSIZE with (2 ^ 12).
  rewrite Z.mul_comm, <- Z.shiftl_mul_pow2, <- Z.shiftr_div_pow2 by lia.
  change PGMASK with (Z.shiftl (Z.ones 20) 12).
  apply Z.bits_inj'. intros n Hn. rewrite Z.land_spec.
  destruct (Z.ltb_spec n 12).
  - rewrite !Z.shiftl_spec_low by lia. apply andb_false_r.
  - rewrite !Z.shiftl_spec, Z.shiftr_spec by lia. replace (n - 12 + 12) with n by lia.
    destruct (Z.ltb_spec n 32).
    + rewrite Z.ones_spec_low by lia. apply andb_true_r.
    + rewrite Z.ones_spec_high by lia. rewrite andb_false_r.
      destruct (Z.eq_dec a 0) as [->|]; [by rewrite Z.bits_0|].
      symmetry. apply Z.bits_above_log2; [lia|].
      apply Z.log2_lt_pow2; [lia|].
      apply Z.lt_le_trans with (2 ^ 32); [lia|]. apply Z.pow_le_mono_r; lia.
Qed.

Lemma pgrounddown_spec a : 0 <= a < 2 ^ 32 -> PGROUNDDOWN a = PGSIZE * (a / PGSIZE).
Proof. apply land_pgmask. Qed.

Lemma pgroundup_spec a : 0 <= a <= 2 ^ 32 - PGSIZE ->
  PGROUNDUP a = PGSIZE * ((a + PGSIZE - 1) / PGSIZE).
Proof.
  intros Ha. unfold PGROUNDUP, u32. unfold PGSIZE in *.
  rewrite Z.mod_small by lia. apply land_pgmask. lia.
Qed.

(** [PGROUNDUP a] is the least page boundary at or above [a]. *)
Lemma pgroundup_least a : 0 <= a <= 2 ^ 32 - PGSIZE ->
  a <= PGROUNDUP a < a + PGSIZE /\ PGROUNDUP a mod PGSIZE = 0.
Proof.
  intros Ha. rewrite pgroundup_spec by done. unfold PGSIZE in *.
  split; [|rewrite Z.mul_comm; apply Z.mod_mul; lia].
  pose proof (Z.div_mod (a + 4096 - 1) 4096 ltac:(lia)).
  pose proof (Z.mod_pos_bound (a + 4096 - 1) 4096 ltac:(lia)). lia.
Qed.

Lemma pte_addr_spec p : 0 <= p < 2 ^ 32 -> PTE_ADDR p = PGSIZE * (p / PGSIZE).
Proof. apply land_pgmask. Qed.

Lemma V2P_kern a : KERNBASE <= a < 2 ^ 32 -> V2P a = a - KERNBASE.
Proof. intros. unfold V2P, u32, KERNBASE in *. apply Z.mod_small. lia. Qed.

Lemma P2V_phys a : 0 <= a < 2 ^ 32 - KERNBASE -> P2V a = a + KERNBASE.
Proof. intros. unfold P2V, u32, KERNBASE in *. apply Z.mod_small. lia. Qed.

(** A page-aligned address and flags below it do not share bits. *)
Lemma lor_flags a f : a mod PGSIZE = 0 -> 0 <= f < PGSIZE -> Z.lor a f = a + f.
Proof.
  intros Ha Hf. rewrite <- Z.lxor_lor, <- Z.add_nocarry_lxor; try done; unfold PGSIZE in *.
  all: apply Z.bits_inj'; intros n Hn; rewrite Z.land_spec, Z.bits_0; destruct (Z.ltb_spec n 12).
  1,3: assert (a = Z.shiftl (a / 4096) 12) as -> by (rewrite Z.shiftl_mul_pow2 by lia; dlia);
       by rewrite Z.shiftl_spec_low by lia.
  all: rewrite (Z.bits_above_log2 f), andb_false_r; try lia.
  all: destruct (Z.eq_dec f 0) as [->|]; [simpl; lia|].
  all: assert (Z.log2 f < 12) by (apply Z.log2_lt_pow2; lia); lia.
Qed.

(** The page and the flags of an entry. *)
Lemma pte_parts a f : a mod PGSIZE = 0 -> 0 <= a < 2 ^ 32 -> 0 <= f < PGSIZE ->
  PTE_ADDR (a + f) = a /\ PTE_FLAGS (a + f) = f.
Proof.
  intros Ha Hr Hf. unfold PTE_FLAGS. unfold PGSIZE in *. split.
  - rewrite pte_addr_spec by (unfold PGSIZE; dlia). unfold PGSIZE. dlia.
  - change 4095 with (Z.ones 12). rewrite Z.land_ones by lia. change (2 ^ 12) with 4096. dlia.
Qed.

Lemma PDX_spec va : 0 <= va < 2 ^ 32 -> PDX va = va / 2 ^ 22.
Proof.
  intros Hv. unfold PDX, PDXSHIFT. change 1023 with (Z.ones 10). rewrite Z.land_ones, Z.shiftr_div_pow2 by lia.
  apply Z.mod_small. split; [apply Z.div_pos; lia|]. apply Z.div_lt_upper_bound; lia.
Qed.

Lemma PTX_spec va : 0 <= va < 2 ^ 32 -> PTX va = (va / 2 ^ 12) mod 2 ^ 10.
Proof.
  intros Hv. unfold PTX, PTXSHIFT. change 1023 with (Z.ones 10). by rewrite Z.land_ones, Z.shiftr_div_pow2 by lia.
Qed.

Lemma PDX_range va : 0 <= va < 2 ^ 32 -> 0 <= PDX va < 1024.
Proof. intros Hv. rewrite PDX_spec by done. dlia. Qed.

Lemma PTX_range va : 0 <= va < 2 ^ 32 -> 0 <= PTX va < 1024.
Proof. intros Hv. rewrite PTX_spec by done. apply Z.mod_pos_bound. lia. Qed.

(** The two indices determine the page. *)
Lemma index_page va va' : 0 <= va < 2 ^ 32 -> 0 <= va' < 2 ^ 32 ->
  PDX va = PDX va' -> PTX va = PTX va' -> va / PGSIZE = va' / PGSIZE.
Proof. intros Hv Hv'. rewrite !PDX_spec, !PTX_spec by done. unfold PGSIZE. intros. dlia. Qed.

Lemma page_index va va' : 0 <= va < 2 ^ 32 -> 0 <= va' < 2 ^ 32 ->
  va / PGSIZE = va' / PGSIZE -> PDX va = PDX va' /\ PTX va = PTX va'.
Proof. intros Hv Hv'. rewrite !PDX_spec, !PTX_spec by done. unfold PGSIZE. intros. dlia. Qed.

Lemma pgrounddown_aligned a : 0 <= a < 2 ^ 32 -> a mod PGSIZE = 0 -> PGROUNDDOWN a = a.
Proof. intros Ha Hm. rewrite pgrounddown_spec by done. unfold PGSIZE in *. dlia. Qed.

Lemma u32_small z : 0 <= z < 2 ^ 32 -> u32 z = z.
Proof. apply Z.mod_small. Qed.
