(* ===== verification/Machine.v ===== *)
(** * Machine: the kernel's state and the kernel monad

    The records of proc.h, spinlock.h, sleeplock.h and of the static structs of
    proc.c, pipe.c and kalloc.c; the state [kernel] that collects the kernel's
    globals; and the monad [K] in which kernel functions are written.  A kernel
    function runs until it returns ([Ret]), calls [panic] ([Panic]), does something
    the C language leaves undefined ([Undef]), runs out of the loop bound it was
    given ([Fuel]), or gives the CPU back to the scheduler ([Swtch], which carries
    what the process does once it is switched to again). *)
From stdpp Require Import base list list_numbers gmap strings.
From Stdlib Require Import ZArith Lia.
From S2P Require Import Prelude Mem.
Local Open Scope Z_scope.

(** ** Constants of param.h *)
Definition NPROC : nat := 64.
Definition KSTACKSIZE : Z := 4096.
Definition NOFILE : nat := 16.
Definition NFILE : nat := 100.
Definition NSEM : nat := 32.

(** ** Names of locks and sleep channels
    A lock or a channel is an address in the code; distinct objects have distinct
    addresses, so the model names the object. *)
Inductive slid := BufLock (i : nat) | InodeLock (i : nat).

Inductive lockid :=
  | PtableLock | SchedulerLock | SemaLock (i : nat) | TicksLock | KmemLock
  | FtableLock | IcacheLock | BcacheLock | LogLock | IdeLock | ConsLock
  | PipeLock (a : Z) | SleepLk (s : slid).

Inductive channel :=
  | ChanNone | ChanProc (i : nat) | ChanSema (i : nat) | ChanTicks
  | ChanPipeRead (a : Z) | ChanPipeWrite (a : Z) | ChanSleep (s : slid)
  | ChanBuf (i : nat) | ChanLog | ChanInput.

#[export] Instance slid_eq_dec : EqDecision slid.
Proof. solve_decision. Defined.
#[export] Instance lockid_eq_dec : EqDecision lockid.
Proof. solve_decision. Defined.
#[export] Instance channel_eq_dec : EqDecision channel.
Proof. solve_decision. Defined.

(** ** Processes *)

(** [enum procstate] (proc.h). *)
Inductive procstate := UNUSED | EMBRYO | SLEEPING | RUNNABLE | RUNNING | ZOMBIE.

#[export] Instance procstate_eq_dec : EqDecision procstate.
Proof. solve_decision. Defined.

(** [struct trapframe] (x86.h), without the padding halves. *)
Record trapframe := mkTrapframe {
  tf_edi : Z;
  tf_esi : Z;
  tf_ebp : Z;
  tf_oesp : Z;
  tf_ebx : Z;
  tf_edx : Z;
  tf_ecx : Z;
  tf_eax : Z;
  tf_gs : Z;
  tf_fs : Z;
  tf_es : Z;
  tf_ds : Z;
  tf_trapno : Z;
  tf_err : Z;
  tf_eip : Z;
  tf_cs : Z;
  tf_eflags : Z;
  tf_esp : Z;
  tf_ss : Z;
}.
#[export] Instance eta_trapframe : Eta trapframe := fun r => mkTrapframe (tf_edi r)
  (tf_esi r) (tf_ebp r) (tf_oesp r) (tf_ebx r) (tf_edx r) (tf_ecx r) (tf_eax r) (tf_gs
  r) (tf_fs r) (tf_es r) (tf_ds r) (tf_trapno r) (tf_err r) (tf_eip r) (tf_cs r)
  (tf_eflags r) (tf_esp r) (tf_ss r).
#[export] Instance upd_tf_eax : Upd tf_eax := ltac:(derive_upd).
#[export] Instance upd_tf_eip : Upd tf_eip := ltac:(derive_upd).
#[export] Instance upd_tf_esp : Upd tf_esp := ltac:(derive_upd).
#[export] Instance upd_tf_ebp : Upd tf_ebp := ltac:(derive_upd).
#[export] Instance upd_tf_cs : Upd tf_cs := ltac:(derive_upd).
#[export] Instance upd_tf_ds : Upd tf_ds := ltac:(derive_upd).
#[export] Instance upd_tf_es : Upd tf_es := ltac:(derive_upd).
#[export] Instance upd_tf_ss : Upd tf_ss := ltac:(derive_upd).
#[export] Instance upd_tf_eflags : Upd tf_eflags := ltac:(derive_upd).

(** [struct context] (proc.h). *)
Record ctxt := mkContext {
  ctx_edi : Z;
  ctx_esi : Z;
  ctx_ebx : Z;
  ctx_ebp : Z;
  ctx_eip : Z;
}.
#[export] Instance eta_ctxt : Eta ctxt := fun r => mkContext (ctx_edi r) (ctx_esi r)
  (ctx_ebx r) (ctx_ebp r) (ctx_eip r).
#[export] Instance upd_ctx_eip : Upd ctx_eip := ltac:(derive_upd).

(** [struct proc] (proc.h). Pointers to table slots are indices, [None] is the null
    pointer; the trap frame and the context live on the process's own kernel stack
    and are held by value. *)
Record proc := mkProc {
  sz : Z;
  pgdir : Z;
  kstack : Z;
  state : procstate;
  pid : Z;
  priority : Z;
  parent : option nat;
  tf : trapframe;
  context : ctxt;
  chan : channel;
  killed : Z;
  ofile : list (option nat);
  cwd : option nat;
  name : list Z;
  isthread : Z;
  stack : Z;
  ctime : Z;
  stime : Z;
  retime : Z;
  rutime : Z;
  sem_held : list Z;
}.
#[export] Instance eta_proc : Eta proc := fun r => mkProc (sz r) (pgdir r) (kstack r)
  (state r) (pid r) (priority r) (parent r) (tf r) (context r) (chan r) (killed r)
  (ofile r) (cwd r) (name r) (isthread r) (stack r) (ctime r) (stime r) (retime r)
  (rutime r) (sem_held r).
#[export] Instance upd_sz : Upd sz := ltac:(derive_upd).
#[export] Instance upd_pgdir : Upd pgdir := ltac:(derive_upd).
#[export] Instance upd_kstack : Upd kstack := ltac:(derive_upd).
#[export] Instance upd_state : Upd state := ltac:(derive_upd).
#[export] Instance upd_pid : Upd pid := ltac:(derive_upd).
#[export] Instance upd_priority : Upd priority := ltac:(derive_upd).
#[export] Instance upd_parent : Upd parent := ltac:(derive_upd).
#[export] Instance upd_tf : Upd tf := ltac:(derive_upd).
#[export] Instance upd_context : Upd context := ltac:(derive_upd).
#[export] Instance upd_chan : Upd chan := ltac:(derive_upd).
#[export] Instance upd_killed : Upd killed := ltac:(derive_upd).
#[export] Instance upd_ofile : Upd ofile := ltac:(derive_upd).
#[export] Instance upd_cwd : Upd cwd := ltac:(derive_upd).
#[export] Instance upd_name : Upd name := ltac:(derive_upd).
#[export] Instance upd_isthread : Upd isthread := ltac:(derive_upd).
#[export] Instance upd_stack : Upd stack := ltac:(derive_upd).
#[export] Instance upd_ctime : Upd ctime := ltac:(derive_upd).
#[export] Instance upd_stime : Upd stime := ltac:(derive_upd).
#[export] Instance upd_retime : Upd retime := ltac:(derive_upd).
#[export] Instance upd_rutime : Upd rutime := ltac:(derive_upd).
#[export] Instance upd_sem_held : Upd sem_held := ltac:(derive_upd).

Definition zero_tf : trapframe := mkTrapframe 0 0 0 0 0 0 0 0 0 0 0 0 0 0 0 0 0 0 0.
Definition zero_ctxt : ctxt := mkContext 0 0 0 0 0.

(** A slot of the zero-initialised process table. *)
Definition zero_proc : proc :=
  mkProc 0 0 0 UNUSED 0 0 None zero_tf zero_ctxt ChanNone 0 (replicate NOFILE None) None
    (replicate 16 0) 0 0 0 0 0 0 (replicate NSEM 0).

#[export] Instance proc_inhabited : Inhabited proc := populate zero_proc.

(** ** Semaphores, sleep locks, pipes, the page allocator *)

(** [struct semaphore] (proc.c); its lock is [SemaLock i]. *)
Record semaphore := mkSemaphore {
  value : Z;
  active : Z;
}.
#[export] Instance eta_semaphore : Eta semaphore := fun r => mkSemaphore (value r)
  (active r).
#[export] Instance upd_value : Upd value := ltac:(derive_upd).
#[export] Instance upd_active : Upd active := ltac:(derive_upd).

#[export] Instance semaphore_inhabited : Inhabited semaphore := populate (mkSemaphore 0 0).

(** [struct sleeplock] (sleeplock.h); its spin lock is [SleepLk s]. *)
Record sleeplock := mkSleeplock { slocked : Z; spid : Z }.

(** [struct pipe] (pipe.c); its lock is [PipeLock a], [a] the page it lives in. *)
Record pipe := mkPipe {
  pdata : list Z;
  nread : Z;
  nwrite : Z;
  readopen : Z;
  writeopen : Z;
}.
#[export] Instance eta_pipe : Eta pipe := fun r => mkPipe (pdata r) (nread r) (nwrite
  r) (readopen r) (writeopen r).
#[export] Instance upd_pdata : Upd pdata := ltac:(derive_upd).
#[export] Instance upd_nread : Upd nread := ltac:(derive_upd).
#[export] Instance upd_nwrite : Upd nwrite := ltac:(derive_upd).
#[export] Instance upd_readopen : Upd readopen := ltac:(derive_upd).
#[export] Instance upd_writeopen : Upd writeopen := ltac:(derive_upd).

(** [kmem] (kalloc.c). The free list is threaded through the free pages themselves: the
    [next] word of the [struct run] at page [a] is [load32 (mem k) a]. *)
Record kmemstate := mkKmem {
  use_lock : bool;
  freelist : Z;
}.
#[export] Instance eta_kmemstate : Eta kmemstate := fun r => mkKmem (use_lock r)
  (freelist r).
#[export] Instance upd_use_lock : Upd use_lock := ltac:(derive_upd).
#[export] Instance upd_freelist : Upd freelist := ltac:(derive_upd).

(** ** The scheduling policies of sdh.h *)
Inductive sched_policy :=
  | defaultScheduler | priorityScheduler | fcfsScheduler | rrScheduler | smlScheduler.

(** The static words of [random] (proc.c). *)
Record rngstate := mkRng {
  z1 : Z;
  z2 : Z;
  z3 : Z;
  z4 : Z;
}.

(** ** Buffers, the disk and the log *)
Definition BSIZE : nat := 512.
Definition MAXOPBLOCKS : Z := 10.
Definition LOGSIZE : Z := MAXOPBLOCKS * 3.
Definition NBUF : nat := 30.
Definition FSSIZE : Z := 1000.
Definition ROOTDEV : Z := 1.

(** [struct buf] (buf.h). The two bits of [flags] are [bvalid] (B_VALID) and [bdirty]
    (B_DIRTY); its lock is [BufLock i]; the links [prev], [next] and [qnext] are the
    lists [lru] and [idequeue] below. *)
Record buf := mkBuf {
  bvalid : bool;
  bdirty : bool;
  bdev : Z;
  bblockno : Z;
  refcnt : Z;
  bdata : list Z;
}.
#[export] Instance eta_buf : Eta buf := fun r => mkBuf (bvalid r) (bdirty r) (bdev r)
  (bblockno r) (refcnt r) (bdata r).
#[export] Instance upd_bvalid : Upd bvalid := ltac:(derive_upd).
#[export] Instance upd_bdirty : Upd bdirty := ltac:(derive_upd).
#[export] Instance upd_bdev : Upd bdev := ltac:(derive_upd).
#[export] Instance upd_bblockno : Upd bblockno := ltac:(derive_upd).
#[export] Instance upd_refcnt : Upd refcnt := ltac:(derive_upd).
#[export] Instance upd_bdata : Upd bdata := ltac:(derive_upd).
Definition zero_buf : buf := mkBuf false false 0 0 0 (replicate BSIZE 0).
#[export] Instance buf_inhabited : Inhabited buf := populate zero_buf.

(** [struct log] with its header [lh] (log.c); its lock is [LogLock]. *)
Record logstate := mkLog {
  lstart : Z;
  lsize : Z;
  outstanding : Z;
  committing : bool;
  ldev : Z;
  lhn : Z;
  lhblock : list Z;
}.
#[export] Instance eta_logstate : Eta logstate := fun r => mkLog (lstart r) (lsize r)
  (outstanding r) (committing r) (ldev r) (lhn r) (lhblock r).
#[export] Instance upd_lstart : Upd lstart := ltac:(derive_upd).
#[export] Instance upd_lsize : Upd lsize := ltac:(derive_upd).
#[export] Instance upd_outstanding : Upd outstanding := ltac:(derive_upd).
#[export] Instance upd_committing : Upd committing := ltac:(derive_upd).
#[export] Instance upd_ldev : Upd ldev := ltac:(derive_upd).
#[export] Instance upd_lhn : Upd lhn := ltac:(derive_upd).
#[export] Instance upd_lhblock : Upd lhblock := ltac:(derive_upd).

(** ** Address spaces, files and the console *)
Definition NINODE : nat := 50.
Definition NDIRECT : nat := 12.
Definition INPUT_BUF : nat := 128.

(** The page-table globals of vm.c: [data] (kernel.ld) and [kpgdir], and of the CPU %cr3
    (a physical address) and [mycpu()->ts.esp0]. *)
Record vmstate := mkVm {
  kdata : Z;
  kpgdir : Z;
  cr3 : Z;
  esp0 : Z;
}.
#[export] Instance eta_vmstate : Eta vmstate := fun r => mkVm (kdata r) (kpgdir r)
  (cr3 r) (esp0 r).
#[export] Instance upd_kdata : Upd kdata := ltac:(derive_upd).
#[export] Instance upd_kpgdir : Upd kpgdir := ltac:(derive_upd).
#[export] Instance upd_cr3 : Upd cr3 := ltac:(derive_upd).
#[export] Instance upd_esp0 : Upd esp0 := ltac:(derive_upd).

(** The [type] of a [struct file]. *)
Inductive filetype := FD_NONE | FD_PIPE | FD_INODE.
#[export] Instance filetype_eq_dec : EqDecision filetype.
Proof. solve_decision. Defined.

(** [struct file] (file.h); a pipe is the page it lives in, an inode its cache slot. *)
Record file := mkFile {
  ftype : filetype;
  fref : Z;
  readable : bool;
  writable : bool;
  fpipe : Z;
  fip : option nat;
  foff : Z;
}.
#[export] Instance eta_file : Eta file := fun r => mkFile (ftype r) (fref r) (readable
  r) (writable r) (fpipe r) (fip r) (foff r).
#[export] Instance upd_ftype : Upd ftype := ltac:(derive_upd).
#[export] Instance upd_fref : Upd fref := ltac:(derive_upd).
#[export] Instance upd_readable : Upd readable := ltac:(derive_upd).
#[export] Instance upd_writable : Upd writable := ltac:(derive_upd).
#[export] Instance upd_fpipe : Upd fpipe := ltac:(derive_upd).
#[export] Instance upd_fip : Upd fip := ltac:(derive_upd).
#[export] Instance upd_foff : Upd foff := ltac:(derive_upd).
Definition zero_file : file := mkFile FD_NONE 0 false false 0 None 0.
#[export] Instance file_inhabited : Inhabited file := populate zero_file.

(** [struct inode] (file.h); its lock is [InodeLock i]. *)
Record inode := mkInode {
  idev : Z;
  inum : Z;
  iref : Z;
  ivalid : Z;
  itype : Z;
  major : Z;
  minor : Z;
  nlink : Z;
  isize : Z;
  addrs : list Z;
}.
#[export] Instance eta_inode : Eta inode := fun r => mkInode (idev r) (inum r) (iref
  r) (ivalid r) (itype r) (major r) (minor r) (nlink r) (isize r) (addrs r).
#[export] Instance upd_idev : Upd idev := ltac:(derive_upd).
#[export] Instance upd_inum : Upd inum := ltac:(derive_upd).
#[export] Instance upd_iref : Upd iref := ltac:(derive_upd).
#[export] Instance upd_ivalid : Upd ivalid := ltac:(derive_upd).
#[export] Instance upd_itype : Upd itype := ltac:(derive_upd).
#[export] Instance upd_major : Upd major := ltac:(derive_upd).
#[export] Instance upd_minor : Upd minor := ltac:(derive_upd).
#[export] Instance upd_nlink : Upd nlink := ltac:(derive_upd).
#[export] Instance upd_isize : Upd isize := ltac:(derive_upd).
#[export] Instance upd_addrs : Upd addrs := ltac:(derive_upd).
Definition zero_inode : inode := mkInode 0 0 0 0 0 0 0 0 0 (replicate (S NDIRECT) 0).
#[export] Instance inode_inhabited : Inhabited inode := populate zero_inode.

(** [struct superblock] (fs.h). *)
Record superblock := mkSuperblock {
  sb_size : Z; sb_nblocks : Z; sb_ninodes : Z; sb_nlog : Z; sb_logstart : Z; sb_inodestart : Z; sb_bmapstart : Z
}.

(** The tables of file.c and fs.c, the in-memory superblock, and the static [first] of
    [forkret] (proc.c). *)
Record fsstate := mkFs {
  ftable : list file;
  icache : list inode;
  ksb : superblock;
  first : bool;
}.
#[export] Instance eta_fsstate : Eta fsstate := fun r => mkFs (ftable r) (icache r)
  (ksb r) (first r).
#[export] Instance upd_ftable : Upd ftable := ltac:(derive_upd).
#[export] Instance upd_icache : Upd icache := ltac:(derive_upd).
#[export] Instance upd_ksb : Upd ksb := ltac:(derive_upd).
#[export] Instance upd_first : Upd first := ltac:(derive_upd).

(** [input] of console.c, the characters given to [consputc], oldest first, and the static
    [shift] of kbd.c. *)
Record consstate := mkCons {
  ibuf : list Z;
  ir : Z;
  iw : Z;
  ie : Z;
  conout : list Z;
  kbdshift : Z;
}.
#[export] Instance eta_consstate : Eta consstate := fun r => mkCons (ibuf r) (ir r)
  (iw r) (ie r) (conout r) (kbdshift r).
#[export] Instance upd_ibuf : Upd ibuf := ltac:(derive_upd).
#[export] Instance upd_ir : Upd ir := ltac:(derive_upd).
#[export] Instance upd_iw : Upd iw := ltac:(derive_upd).
#[export] Instance upd_ie : Upd ie := ltac:(derive_upd).
#[export] Instance upd_conout : Upd conout := ltac:(derive_upd).
#[export] Instance upd_kbdshift : Upd kbdshift := ltac:(derive_upd).

(** ** The kernel state *)

(** The kernel's globals, as seen by the CPU that runs. [disk dev n] is the content of block [n]
    of disk [dev] and [dwrites] the history of the writes to disks, oldest first; [lru]
    is the list through [next] from [bcache.head], and [diskerr] what the drive reports. *)
Record kernel := mkKernel {
  held : list lockid;
  curproc : option nat;
  ptable : list proc;
  nextpid : Z;
  initproc : option nat;
  sema : list semaphore;
  ready_process : sched_policy;
  schedSelected : Z;
  rng : rngstate;
  ticks : Z;
  kend : Z;
  mem : memory;
  kmem : kmemstate;
  pipes : gmap Z pipe;
  slocks : slid -> sleeplock;
  console : list (string * list Z);
  bufs : list buf;
  lru : list nat;
  idequeue : list nat;
  havedisk1 : bool;
  diskerr : bool;
  disksize : Z;
  disk : Z -> Z -> list Z;
  dwrites : list (Z * Z * list Z);
  klog : logstate;
  vmst : vmstate;
  fsys : fsstate;
  kcons : consstate;
}.
#[export] Instance eta_kernel : Eta kernel := fun r => mkKernel (held r) (curproc r)
  (ptable r) (nextpid r) (initproc r) (sema r) (ready_process r) (schedSelected r)
  (rng r) (ticks r) (kend r) (mem r) (kmem r) (pipes r) (slocks r) (console r) (bufs
  r) (lru r) (idequeue r) (havedisk1 r) (diskerr r) (disksize r) (disk r) (dwrites r)
  (klog r) (vmst r) (fsys r) (kcons r).
#[export] Instance upd_held : Upd held := ltac:(derive_upd).
#[export] Instance upd_curproc : Upd curproc := ltac:(derive_upd).
#[export] Instance upd_ptable : Upd ptable := ltac:(derive_upd).
#[export] Instance upd_nextpid : Upd nextpid := ltac:(derive_upd).
#[export] Instance upd_initproc : Upd initproc := ltac:(derive_upd).
#[export] Instance upd_sema : Upd sema := ltac:(derive_upd).
#[export] Instance upd_ready_process : Upd ready_process := ltac:(derive_upd).
#[export] Instance upd_schedSelected : Upd schedSelected := ltac:(derive_upd).
#[export] Instance upd_rng : Upd rng := ltac:(derive_upd).
#[export] Instance upd_ticks : Upd ticks := ltac:(derive_upd).
#[export] Instance upd_kend : Upd kend := ltac:(derive_upd).
#[export] Instance upd_mem : Upd mem := ltac:(derive_upd).
#[export] Instance upd_kmem : Upd kmem := ltac:(derive_upd).
#[export] Instance upd_pipes : Upd pipes := ltac:(derive_upd).
#[export] Instance upd_slocks : Upd slocks := ltac:(derive_upd).
#[export] Instance upd_console : Upd console := ltac:(derive_upd).
#[export] Instance upd_bufs : Upd bufs := ltac:(derive_upd).
#[export] Instance upd_lru : Upd lru := ltac:(derive_upd).
#[export] Instance upd_idequeue : Upd idequeue := ltac:(derive_upd).
#[export] Instance upd_havedisk1 : Upd havedisk1 := ltac:(derive_upd).
#[export] Instance upd_diskerr : Upd diskerr := ltac:(derive_upd).
#[export] Instance upd_disksize : Upd disksize := ltac:(derive_upd).
#[export] Instance upd_disk : Upd disk := ltac:(derive_upd).
#[export] Instance upd_dwrites : Upd dwrites := ltac:(derive_upd).
#[export] Instance upd_klog : Upd klog := ltac:(derive_upd).
#[export] Instance upd_vmst : Upd vmst := ltac:(derive_upd).
#[export] Instance upd_fsys : Upd fsys := ltac:(derive_upd).
#[export] Instance upd_kcons : Upd kcons := ltac:(derive_upd).
(** Two states are equal if they agree field by field. *)
Lemma kernel_eq (k k' : kernel) :
  held k = held k' ->
  curproc k = curproc k' ->
  ptable k = ptable k' ->
  nextpid k = nextpid k' ->
  initproc k = initproc k' ->
  sema k = sema k' ->
  ready_process k = ready_process k' ->
  schedSelected k = schedSelected k' ->
  rng k = rng k' ->
  ticks k = ticks k' ->
  kend k = kend k' ->
  mem k = mem k' ->
  kmem k = kmem k' ->
  pipes k = pipes k' ->
  slocks k = slocks k' ->
  console k = console k' ->
  bufs k = bufs k' ->
  lru k = lru k' ->
  idequeue k = idequeue k' ->
  havedisk1 k = havedisk1 k' ->
  diskerr k = diskerr k' ->
  disksize k = disksize k' ->
  disk k = disk k' ->
  dwrites k = dwrites k' ->
  klog k = klog k' ->
  vmst k = vmst k' ->
  fsys k = fsys k' ->
  kcons k = kcons k' ->
  k = k'.
Proof. destruct k, k'; simpl. intros. by subst. Qed.

(** Equality of states built by updates; leaves the fields that differ in form. *)
Ltac kernel_ext := apply kernel_eq; try reflexivity.

(** The kernel's data segment as the loader leaves it, with [data] at [0x80108000] and the
    image ending at [0x80116000]. *)
Definition kernel0 : kernel :=
  mkKernel [] None (replicate NPROC zero_proc) 1 None (replicate NSEM (mkSemaphore 0 0))
    defaultScheduler 0 (mkRng 12345 12345 12345 12345) 0 2148622336 (fun _ => 0) (mkKmem false 0)
    ∅ (fun _ => mkSleeplock 0 0) []
    (replicate NBUF zero_buf) [] [] false false 0 (fun _ _ => replicate BSIZE 0) []
    (mkLog 0 0 0 false 0 0 (replicate 30 0))
    (mkVm 2148564992 0 0 0)
    (mkFs (replicate NFILE zero_file) (replicate NINODE zero_inode) (mkSuperblock 0 0 0 0 0 0 0) true)
    (mkCons (replicate INPUT_BUF 0) 0 0 0 [] 0).


(** ** Outcomes of kernel code *)
Inductive outcome (A : Type) :=
  | Ret (a : A) (k : kernel)
  | Panic (msg : string)
  | Undef (why : string)
  | Fuel
  | Swtch (k : kernel) (resume : kernel -> outcome A).
Arguments Ret {A}.
Arguments Panic {A}.
Arguments Undef {A}.
Arguments Fuel {A}.
Arguments Swtch {A}.

Definition K (A : Type) : Type := kernel -> outcome A.

Fixpoint obind {A B} (f : A -> K B) (o : outcome A) : outcome B :=
  match o with
  | Ret a k => f a k
  | Panic m => Panic m
  | Undef w => Undef w
  | Fuel => Fuel
  | Swtch k r => Swtch k (fun k' => obind f (r k'))
  end.

#[export] Instance K_ret : MRet K := fun A a k => Ret a k.
#[export] Instance K_bind : MBind K := fun A B f m k => obind f (m k).

Definition gets {A} (f : kernel -> A) : K A := fun k => Ret (f k) k.
Definition modify (f : kernel -> kernel) : K unit := fun k => Ret tt (f k).
Definition panic {A} (msg : string) : K A := fun _ => Panic msg.
Definition undef {A} (why : string) : K A := fun _ => Undef why.
Definition out_of_fuel {A} : K A := fun _ => Fuel.

(** Run [m] when the flag is set. *)
Definition whenK (b : bool) (m : K unit) : K unit := if b then m else mret tt.

(** [cprintf] appends its format and integer arguments to the console. *)
Definition cprintf (fmt : string) (args : list Z) : K unit :=
  modify (fun k => k <| console ::= (fun c => c ++ [(fmt, args)]) |>).

(** [returns o Q]: the call returns, in a state and with a value that satisfy [Q]. *)
Definition returns {A} (o : outcome A) (Q : A -> kernel -> Prop) : Prop :=
  match o with Ret a k => Q a k | _ => False end.

Lemma returns_bind {A B} (f : A -> K B) (m : K A) k Q R :
  returns (m k) R -> (forall a k', R a k' -> returns (f a k') Q) ->
  returns ((m ≫= f) k) Q.
Proof.
  unfold mbind, K_bind, returns. destruct (m k); simpl; intros HR HQ; naive_solver.
Qed.

Lemma returns_Ret {A} (o : outcome A) Q : returns o Q -> exists a k, o = Ret a k /\ Q a k.
Proof. destruct o; simpl; [eauto|done..]. Qed.

Lemma returns_mono {A} (o : outcome A) (Q R : A -> kernel -> Prop) :
  returns o R -> (forall a k, R a k -> Q a k) -> returns o Q.
Proof. destruct o; simpl; naive_solver. Qed.

(** [rg R G k0 o Q]: rely and guarantee along a call that may switch away any number of
    times. [k0] is the state in which the current segment began; every segment that
    ends in a switch satisfies [G]; after a switch the process is resumed in any state
    related by [R]; and the call, when it returns, satisfies [Q] of its last segment.
    It neither panics nor does anything undefined; running out of the bound of a wait
    loop stands for waiting on. *)
Fixpoint rg {A} (R G : kernel -> kernel -> Prop) (k0 : kernel) (o : outcome A)
    (Q : A -> kernel -> kernel -> Prop) : Prop :=
  match o with
  | Ret a k => Q a k0 k
  | Panic _ | Undef _ => False
  | Fuel => True
  | Swtch k r => G k0 k /\ forall k', R k k' -> rg R G k' (r k') Q
  end.

Lemma rg_bind {A B} R G k0 (f : A -> K B) (o : outcome A) Q :
  rg R G k0 o (fun a k0' k => rg R G k0' (f a k) Q) -> rg R G k0 (obind f o) Q.
Proof.
  revert k0. induction o as [| | | |k r IH]; intros k0; simpl; try done.
  intros [HG HR]. split; [done|]. intros k' Hk'. by apply IH, HR.
Qed.

Lemma rg_mono {A} R G k0 (o : outcome A) (Q Q' : A -> kernel -> kernel -> Prop) :
  rg R G k0 o Q -> (forall a k1 k2, Q a k1 k2 -> Q' a k1 k2) -> rg R G k0 o Q'.
Proof.
  intros H HQ. revert k0 H. induction o as [| | | |k r IH]; intros k0; simpl; try done.
  - apply HQ.
  - intros [HG HR]. split; [done|]. intros k' Hk'. by apply IH, HR.
Qed.

(** A call that returns without switching. *)
Lemma rg_returns {A} R G k0 (o : outcome A) (Q : A -> kernel -> kernel -> Prop) :
  returns o (fun a k => Q a k0 k) -> rg R G k0 o Q.
Proof. by destruct o. Qed.

(** Signed addition: overflow is undefined. *)
Definition sadd (a b : Z) : K Z :=
  if (- 2 ^ 31 <=? a + b) && (a + b <? 2 ^ 31) then mret (a + b) else undef "signed overflow".

Lemma sadd_ok a b k : - 2 ^ 31 <= a + b < 2 ^ 31 -> sadd a b k = Ret (a + b) k.
Proof.
  intros H. unfold sadd. rewrite (proj2 (Z.leb_le _ _)), (proj2 (Z.ltb_lt _ _)) by lia. done.
Qed.

(** ** Spin locks as the running CPU sees them
    [held] lists the locks this CPU holds, latest first; [mycpu()->ncli] is its
    length (Spinlock.v relates the two). *)
Definition holding (l : lockid) (k : kernel) : bool := bool_decide (l ∈ held k).

Definition acquire (l : lockid) : K unit := fun k =>
  if holding l k then Panic "acquire" else Ret tt (k <| held ::= cons l |>).

Definition release (l : lockid) : K unit := fun k =>
  if holding l k then Ret tt (k <| held ::= filter (fun l' => l' <> l) |>)
  else Panic "release".

Definition initlock (l : lockid) : K unit :=
  modify (fun k => k <| held ::= filter (fun l' => l' <> l) |>).

(** ** The current process *)

Definition myproc (k : kernel) : proc :=
  from_option (fun i => ptable k !!! i) zero_proc (curproc k).
Definition upd_proc (i : nat) (f : proc -> proc) (k : kernel) : kernel :=
  k <| ptable ::= alter f i |>.

(** ** Automation for kernel code *)
(** [l ∉ [l1; ...; ln]] for explicit, distinct locks. *)
Ltac notheld :=
  repeat (apply not_elem_of_cons; split; [by try intros ? | ]); apply not_elem_of_nil.

Lemma alter_same {A} `{Inhabited A} (f : A -> A) (l : list A) i :
  (i < length l)%nat -> alter f i l !!! i = f (l !!! i).
Proof. intros. rewrite list_lookup_total_alter. by rewrite decide_True. Qed.

Lemma alter_other {A} `{Inhabited A} (f : A -> A) (l : list A) i j :
  i <> j -> alter f i l !!! j = l !!! j.
Proof. apply list_lookup_total_alter_ne. Qed.

Lemma alter_alter {A} (f g : A -> A) (l : list A) i :
  alter f i (alter g i l) = alter (fun x => f (g x)) i l.
Proof. apply list_alter_alter_eq. Qed.

Ltac kunfold := unfold whenK, mbind, K_bind, mret, K_ret, gets, modify, panic, undef.

Lemma filter_remove_notin (l : lockid) (ls : list lockid) :
  l ∉ ls -> filter (fun l' => l' <> l) ls = ls.
Proof.
  induction ls as [|l' ls IH]; [done|]. intros H.
  apply not_elem_of_cons in H as [H1 H2].
  rewrite filter_cons_True by done. by rewrite IH.
Qed.

Lemma filter_remove_top (l : lockid) (ls : list lockid) :
  l ∉ ls -> filter (fun l' => l' <> l) (l :: ls) = ls.
Proof. intros H. rewrite filter_cons_False by naive_solver. by apply filter_remove_notin. Qed.

Lemma acquire_ok l k : l ∉ held k -> acquire l k = Ret tt (k <| held ::= cons l |>).
Proof. intros H. unfold acquire, holding. by rewrite bool_decide_false. Qed.

Lemma acquire_panic l k : l ∈ held k -> acquire l k = Panic "acquire".
Proof. intros H. unfold acquire, holding. by rewrite bool_decide_true. Qed.

Lemma release_ok l ls k : held k = l :: ls -> l ∉ ls -> release l k = Ret tt (k <| held := ls |>).
Proof.
  intros H Hl. unfold release, holding. rewrite bool_decide_true by (rewrite H; set_solver).
  f_equal. destruct k; simpl in *; subst. unfold upd, upd_held. simpl.
  by rewrite filter_remove_top.
Qed.

Lemma release_any l k : l ∈ held k ->
  release l k = Ret tt (k <| held ::= filter (fun l' => l' <> l) |>).
Proof. intros H. unfold release, holding. by rewrite bool_decide_true. Qed.

#[global] Opaque acquire release.
