(* ===== verification/Kalloc.v ===== *)
(** * Kalloc: the physical page allocator (kalloc.c) *)
From stdpp Require Import base list list_numbers gmap strings sorting.
From Stdlib Require Import ZArith Lia.
From S2P Require Import Prelude Mem Layout Machine.
Local Open Scope Z_scope.

(** ** Operations *)
Definition kfree (v : Z) : K unit := fun k =>
  if negb (v mod PGSIZE =? 0) || (v <? kend k) || (PHYSTOP <=? V2P v) then Panic "kfree"
  else
    (modify (fun k => k <| mem ::= fun m => memset m v 1 PGSIZE |>) ;;
     b ← gets (fun k => use_lock (kmem k)) ;
     whenK b (acquire KmemLock) ;;
     modify (fun k => k <| mem ::= fun m => store32 m v (freelist (kmem k)) |>) ;;
     modify (fun k => k <| kmem ::= upd freelist (fun _ => v) |>) ;;
     b ← gets (fun k => use_lock (kmem k)) ;
     whenK b (release KmemLock)) k.

Definition kalloc : K Z :=
  b ← gets (fun k => use_lock (kmem k)) ;
  whenK b (acquire KmemLock) ;;
  r ← gets (fun k => freelist (kmem k)) ;
  whenK (negb (r =? 0))
    (modify (fun k => k <| kmem ::= upd freelist (fun _ => load32 (mem k) r) |>)) ;;
  b ← gets (fun k => use_lock (kmem k)) ;
  whenK b (release KmemLock) ;;
  mret r.

(** The loop of [freerange]; [fuel] bounds its iterations. *)
Fixpoint freerange_loop (fuel : nat) (p vend : Z) : K unit :=
  if p + PGSIZE <=? vend then
    match fuel with
    | O => out_of_fuel
    | S fuel' => kfree p ;; freerange_loop fuel' (p + PGSIZE) vend
    end
  else mret tt.

Definition freerange (vstart vend : Z) : K unit :=
  let p := PGROUNDUP vstart in
  freerange_loop (Z.to_nat ((vend - p) / PGSIZE)) p vend.

Definition kinit1 (vstart vend : Z) : K unit :=
  initlock KmemLock ;;
  modify (fun k => k <| kmem ::= upd use_lock (fun _ => false) |>) ;;
  freerange vstart vend.

Definition kinit2 (vstart vend : Z) : K unit :=
  freerange vstart vend ;;
  modify (fun k => k <| kmem ::= upd use_lock (fun _ => true) |>).

(** ** The free list *)

(** [chain m a l]: following the [next] words of [m] from [a] visits [l] and ends at 0. *)
Fixpoint chain (m : memory) (a : Z) (l : list Z) : Prop :=
  match l with
  | [] => a = 0
  | p :: l' => a = p /\ p <> 0 /\ chain m (load32 m p) l'
  end.

(** The pages [kfree] accepts. *)
Definition page_ok (kend v : Z) : Prop :=
  v mod PGSIZE = 0 /\ KERNBASE <= kend <= v /\ v < KERNBASE + PHYSTOP.

(** The representation invariant: the free list of [k] is [l]. *)
Definition free_rep (k : kernel) (l : list Z) : Prop :=
  chain (mem k) (freelist (kmem k)) l /\ NoDup l /\ Forall (page_ok (kend k)) l /\
  bytes_ok (mem k) /\ KERNBASE <= kend k /\
  (use_lock (kmem k) = true -> KmemLock ∉ held k).

Lemma page_ok_kfree e v : page_ok e v ->
  negb (v mod PGSIZE =? 0) || (v <? e) || (PHYSTOP <=? V2P v) = false.
Proof.
  intros (Hm & [He Hv] & Ht). rewrite Hm. simpl. unfold KERNBASE, PHYSTOP in *.
  rewrite V2P_kern by (unfold KERNBASE; lia). unfold KERNBASE. zcases.
Qed.

Lemma kfree_eq v k : page_ok (kend k) v ->
  (use_lock (kmem k) = true -> KmemLock ∉ held k) ->
  kfree v k = Ret tt (k <| mem := store32 (memset (mem k) v 1 PGSIZE) v (freelist (kmem k)) |>
                        <| kmem ::= upd freelist (fun _ => v) |>).
Proof.
  intros Hv Hl. unfold kfree. rewrite page_ok_kfree by done. kunfold. simpl.
  destruct (use_lock (kmem k)) eqn:E; simpl; [|by rewrite E].
  rewrite acquire_ok by (simpl; auto). simpl. rewrite E. simpl.
  rewrite (release_ok _ (held k)) by (simpl; auto). done.
Qed.

Lemma kalloc_eq k :
  (use_lock (kmem k) = true -> KmemLock ∉ held k) ->
  kalloc k =
    let r := freelist (kmem k) in
    Ret r (if r =? 0 then k else k <| kmem ::= upd freelist (fun _ => load32 (mem k) r) |>).
Proof.
  intros Hl. unfold kalloc. kunfold. simpl.
  destruct (use_lock (kmem k)) eqn:E; simpl.
  - rewrite acquire_ok by auto. simpl. destruct (Z.eqb_spec (freelist (kmem k)) 0) as [Hz|]; simpl;
      rewrite E; simpl; rewrite (release_ok _ (held k)) by (simpl; auto); [|done].
    destruct k; simpl in *. by rewrite Hz.
  - destruct (Z.eqb_spec (freelist (kmem k)) 0); simpl; rewrite E; done.
Qed.

(** Distinct pages do not overlap. *)
Lemma pages_disjoint p q x : p mod PGSIZE = 0 -> q mod PGSIZE = 0 -> p <> q ->
  p <= x < p + PGSIZE -> x < q \/ q + PGSIZE <= x.
Proof.
  unfold PGSIZE. intros Hp Hq Hne Hx.
  pose proof (Z.div_mod p 4096 ltac:(lia)). pose proof (Z.div_mod q 4096 ltac:(lia)). lia.
Qed.

Lemma chain_ext m m' l : forall a,
  (forall p, p ∈ l -> load32 m p = load32 m' p) -> chain m a l -> chain m' a l.
Proof.
  induction l as [|p l IH]; intros a H; simpl; [done|]. intros (-> & Hp & Hc).
  split; [done|]. split; [done|]. rewrite <- H by set_solver.
  apply IH; [|done]. intros. apply H. set_solver.
Qed.

Lemma chain_head m a l : chain m a l -> a = 0 <-> l = [].
Proof. destruct l; simpl; [done|]. intros (-> & ? & _). done. Qed.

Lemma page_ok_pos e v : page_ok e v -> 0 < v < 2 ^ 32 - PGSIZE.
Proof. unfold page_ok, KERNBASE, PHYSTOP, PGSIZE. lia. Qed.

(** What [kfree] leaves in memory: junk in the page but for the link word, and no
    change anywhere else. *)
Lemma kfree_mem_other m v w x : x < v \/ v + PGSIZE <= x ->
  store32 (memset m v 1 PGSIZE) v w x = m x.
Proof.
  intros Hx. unfold PGSIZE in *. rewrite store32_other by lia.
  rewrite memset_spec by lia. zcases; done.
Qed.

Lemma bytes_ok_memset m a c n : bytes_ok m -> 0 <= n -> bytes_ok (memset m a c n).
Proof.
  intros Hm Hn x. rewrite memset_spec by done. case_match; [apply u8_range | apply Hm].
Qed.

Lemma kfree_rep k l v : free_rep k l -> page_ok (kend k) v -> v ∉ l ->
  returns (kfree v k) (fun _ k' => free_rep k' (v :: l) /\ held k' = held k).
Proof.
  intros (Hc & Hnd & Hok & Hm & Hke & Hl) Hv Hvl.
  rewrite kfree_eq by done. simpl. split; [|done].
  pose proof (page_ok_pos _ _ Hv) as Hpos.
  unfold free_rep; simpl; split_and!; try done.
  - lia.
  - rewrite load32_store32.
    assert (0 <= freelist (kmem k) < 2 ^ 32) as Hf.
    { destruct l as [|p l]; simpl in Hc; [lia|]. destruct Hc as (-> & _).
      apply Forall_cons in Hok as [Hp _]. apply page_ok_pos in Hp. unfold PGSIZE in Hp. lia. }
    unfold u32. rewrite Z.mod_small by done.
    eapply chain_ext; [|done]. intros p Hp. apply load32_ext. intros x Hx.
    symmetry. apply kfree_mem_other.
    assert (page_ok (kend k) p) as (Hpm & _ & _) by (rewrite Forall_forall in Hok; auto).
    destruct Hv as (Hvm & _ & _).
    apply (pages_disjoint p v); [done|done|by intros ->|]. unfold PGSIZE. lia.
  - by constructor.
  - by constructor.
  - apply bytes_ok_store32, bytes_ok_memset; [done|unfold PGSIZE; lia].
Qed.

Lemma kalloc_rep k l : free_rep k l ->
  returns (kalloc k) (fun r k' =>
    r = default 0 (head l) /\ free_rep k' (tail l) /\ held k' = held k /\ mem k' = mem k).
Proof.
  intros (Hc & Hnd & Hok & Hm & Hke & Hl). rewrite kalloc_eq by done. simpl.
  destruct l as [|p l]; simpl in Hc |- *.
  - rewrite Hc. simpl. unfold free_rep. by split_and!.
  - destruct Hc as (-> & Hp & Hc). rewrite (proj2 (Z.eqb_neq p 0)) by done.
    apply NoDup_cons in Hnd as [_ Hnd]. apply Forall_cons in Hok as [_ Hok].
    unfold free_rep. by split_and!.
Qed.

(** ** Conservation of pages *)

(** What the rest of the kernel does with the allocator: it allocates, frees a page
    it has, and writes bytes of pages it has. The second component is the list of
    pages handed out and not yet returned. *)
Inductive alloc_step : kernel * list Z -> kernel * list Z -> Prop :=
  | step_kalloc k live r k' :
      kalloc k = Ret r k' ->
      alloc_step (k, live) (k', if r =? 0 then live else r :: live)
  | step_kfree k l1 v l2 k' :
      kfree v k = Ret tt k' -> alloc_step (k, l1 ++ v :: l2) (k', l1 ++ l2)
  | step_write k live p a b :
      p ∈ live -> p <= a < p + PGSIZE ->
      alloc_step (k, live) (k <| mem ::= fun m => store8 m a b |>, live).

Definition alloc_inv (l0 : list Z) (kl : kernel * list Z) : Prop :=
  exists l, free_rep kl.1 l /\ Forall (page_ok (kend kl.1)) kl.2 /\ kl.2 ++ l ≡ₚ l0.

Lemma free_rep_write k l p a b : free_rep k l -> p mod PGSIZE = 0 -> p ∉ l ->
  p <= a < p + PGSIZE -> free_rep (k <| mem ::= fun m => store8 m a b |>) l.
Proof.
  intros (Hc & Hnd & Hok & Hm & Hke & Hl) Hp Hpl Ha.
  unfold free_rep; simpl; split_and!; try done; [|by apply bytes_ok_store8].
  eapply chain_ext; [|done]. intros q Hq. apply load32_ext. intros x Hx.
  unfold store8. rewrite (proj2 (Z.eqb_neq x a)); [done|].
  rewrite Forall_forall in Hok. destruct (Hok q Hq) as (Hqm & _).
  destruct (pages_disjoint p q a) as [|]; [done..|by intros ->|done|lia|].
  unfold PGSIZE in *. lia.
Qed.

Lemma alloc_step_inv l0 s s' : NoDup l0 -> alloc_inv l0 s -> alloc_step s s' -> alloc_inv l0 s'.
Proof.
  intros Hnd0 (l & Hrep & Hlive & Hperm) Hstep.
  assert (NoDup (s.2 ++ l)) as Hnd by (by rewrite Hperm).
  destruct Hstep as [k live r k' Hr | k l1 v l2 k' Hr | k live p a b Hp Ha]; simpl in *.
  - pose proof (kalloc_rep k l Hrep) as Hs. rewrite Hr in Hs. simpl in Hs.
    destruct Hs as (-> & Hrep' & _ & _). exists (tail l). simpl.
    assert (kend k' = kend k) as Hke.
    { revert Hr. rewrite kalloc_eq by apply Hrep. simpl. intros. simplify_eq. by case_match. }
    rewrite Hke. destruct l as [|q l]; simpl in *; [done|].
    destruct Hrep as (_ & _ & Hok & _). apply Forall_cons in Hok as [Hq _].
    pose proof (page_ok_pos _ _ Hq). rewrite (proj2 (Z.eqb_neq q 0)) by lia.
    split; [done|]. split; [by constructor|]. rewrite <- Hperm. simpl.
    by rewrite Permutation_middle.
  - apply Forall_app in Hlive as [Hl1 Hl2]. apply Forall_cons in Hl2 as [Hv Hl2].
    assert (v ∉ l) as Hvl.
    { rewrite NoDup_app in Hnd. apply Hnd, elem_of_app. right. by left. }
    pose proof (kfree_rep k l v Hrep Hv Hvl) as Hs. rewrite Hr in Hs. destruct Hs as [Hrep' _].
    assert (kend k' = kend k) as Hke.
    { revert Hr. rewrite kfree_eq by (done || apply Hrep). intros. by simplify_eq. }
    exists (v :: l). simpl. rewrite Hke. split; [done|]. split; [by apply Forall_app|].
    rewrite <- Hperm. rewrite <- !(assoc_L (++)). simpl.
    by rewrite <- Permutation_middle.
  - rewrite Forall_forall in Hlive. pose proof (Hlive p Hp) as (Hpm & _).
    exists l. simpl. split; [|split; [by rewrite Forall_forall|done]].
    apply (free_rep_write k l p); try done. rewrite NoDup_app in Hnd. by apply Hnd.
Qed.

(** C8. Whatever sequence of [kalloc]s, [kfree]s of pages obtained from [kalloc], and
    writes into such pages the kernel performs, the pages in use and the pages on
    the free list are together exactly the pages the allocator started with: no page
    is handed out twice, none is lost, and no write by an owner corrupts the list. *)
Theorem kalloc_conserves_pages k0 l0 k live :
  free_rep k0 l0 -> rtc alloc_step (k0, []) (k, live) ->
  exists l, free_rep k l /\ NoDup (live ++ l) /\ live ++ l ≡ₚ l0.
Proof.
  intros H0 Hsteps. assert (NoDup l0) as Hnd by apply H0.
  assert (alloc_inv l0 (k, live)) as (l & Hl & _ & Hp).
  { assert (alloc_inv l0 (k0, [])) as Hi by (exists l0; split_and!; [done|constructor|done]).
    revert Hi. induction Hsteps as [|s1 s2 s3 Hs _ IH]; [done|].
    intros Hi. eapply IH, alloc_step_inv; done. }
  exists l. split_and!; [done| |done]. simpl in Hp. by rewrite Hp.
Qed.

(** One free page at 4MB, taken by one [kalloc]. *)
Lemma kalloc_conserves_pages_witness :
  let k := kernel0 <| kmem := mkKmem true (P2V 4194304) |> in
  exists l, free_rep (k <| kmem ::= upd freelist (fun _ => 0) |>) l /\
    [P2V 4194304] ++ l ≡ₚ [P2V 4194304].
Proof.
  intros k. destruct (kalloc_conserves_pages k [P2V 4194304]
    (k <| kmem ::= upd freelist (fun _ => 0) |>) [P2V 4194304]) as (l & Hl & _ & Hp).
  - unfold free_rep. split_and!; try done.
    + apply NoDup_singleton.
    + apply Forall_singleton. unfold page_ok. by vm_compute.
    + intros _. apply not_elem_of_nil.
  - apply rtc_once. apply (step_kalloc k [] (P2V 4194304)). reflexivity.
  - by exists l.
Defined.

(** ** [freerange] and the two-phase initialisation *)

(** The [n] pages from [p] on, in the order they end up on the free list. *)
Fixpoint pages_from (p : Z) (n : nat) : list Z :=
  match n with
  | O => []
  | S n' => p :: pages_from (p + PGSIZE) n'
  end.

Lemma elem_of_pages_from n : forall p q, p mod PGSIZE = 0 ->
  q ∈ pages_from p n <-> q mod PGSIZE = 0 /\ p <= q < p + PGSIZE * Z.of_nat n.
Proof.
  induction n as [|n IH]; intros p q Hp; simpl.
  - split; [set_solver|unfold PGSIZE; lia].
  - rewrite elem_of_cons, IH by (unfold PGSIZE in *; dlia). unfold PGSIZE in *.
    split; [intros [->|[? ?]]; lia|]. intros [Hq Hr].
    destruct (Z.eq_dec q p); [by left|right]. dlia.
Qed.

Lemma freerange_loop_rep n : forall k l p vend,
  free_rep k l -> p mod PGSIZE = 0 -> kend k <= p -> vend <= KERNBASE + PHYSTOP ->
  (forall q, q ∈ l -> q < p \/ vend <= q) ->
  p + PGSIZE * Z.of_nat n <= vend < p + PGSIZE * Z.of_nat n + PGSIZE ->
  returns (freerange_loop n p vend k) (fun _ k' =>
    free_rep k' (reverse (pages_from p n) ++ l) /\ kend k' = kend k /\ held k' = held k /\
    use_lock (kmem k') = use_lock (kmem k)).
Proof.
  induction n as [|n IH]; intros k l p vend Hrep Hp Hkp Hv Hl Hn; simpl.
  - rewrite (proj2 (Z.leb_gt _ _)) by lia. by kunfold.
  - rewrite (proj2 (Z.leb_le _ _)) by (unfold PGSIZE in *; lia).
    assert (page_ok (kend k) p) as Hok.
    { split; [done|]. pose proof Hrep as (_ & _ & _ & _ & ? & _). unfold PGSIZE in *. lia. }
    assert (p ∉ l) as Hpl. { intros Hin. destruct (Hl p Hin); unfold PGSIZE in *; lia. }
    pose proof (kfree_rep k l p Hrep Hok Hpl) as Hs. kunfold.
    rewrite kfree_eq in Hs |- * by (done || apply Hrep). simpl in Hs |- *.
    destruct Hs as [Hrep' _].
    eapply returns_mono.
    + apply (IH _ (p :: l)); simpl; try done; unfold PGSIZE in *; try dlia.
      intros q [->|Hq]%elem_of_cons; [lia|]. destruct (Hl q Hq); lia.
    + simpl. intros _ k' (Hk & Hke & Hh & Hu). rewrite reverse_cons, <- (assoc_L (++)). done.
Qed.

Lemma freerange_rep k l vstart vend :
  free_rep k l -> kend k <= vstart <= vend -> PGROUNDUP vstart <= vend <= KERNBASE + PHYSTOP ->
  (forall q, q ∈ l -> q < PGROUNDUP vstart \/ vend <= q) ->
  returns (freerange vstart vend k) (fun _ k' =>
    exists l', free_rep k' (l' ++ l) /\ kend k' = kend k /\ held k' = held k /\
      use_lock (kmem k') = use_lock (kmem k) /\
      forall q, q ∈ l' <-> q mod PGSIZE = 0 /\ PGROUNDUP vstart <= q /\ q + PGSIZE <= vend).
Proof.
  intros Hrep Hk Hv Hl. pose proof Hrep as (_ & _ & _ & _ & Hke & _).
  destruct (pgroundup_least vstart) as [Hup Hal];
    [unfold PGSIZE, KERNBASE, PHYSTOP in *; lia|].
  unfold freerange. set (p := PGROUNDUP vstart) in *.
  set (n := Z.to_nat ((vend - p) / PGSIZE)).
  assert (p + PGSIZE * Z.of_nat n <= vend < p + PGSIZE * Z.of_nat n + PGSIZE) as Hn.
  { unfold n, PGSIZE in *. dlia. }
  eapply returns_mono; [apply (freerange_loop_rep n k l p vend); try done; lia|].
  intros _ k' (Hr & He & Hh & Hu). exists (reverse (pages_from p n)). split_and!; try done.
  intros q. rewrite elem_of_reverse, elem_of_pages_from by done.
  unfold PGSIZE in *. split; dlia.
Qed.

Lemma kinit1_rep k vend :
  KERNBASE <= kend k <= vend -> PGROUNDUP (kend k) <= vend <= KERNBASE + PHYSTOP ->
  bytes_ok (mem k) -> freelist (kmem k) = 0 ->
  returns (kinit1 (kend k) vend k) (fun _ k' =>
    exists l, free_rep k' l /\ kend k' = kend k /\
      held k' = filter (fun l' => l' <> KmemLock) (held k) /\
      forall q, q ∈ l <-> q mod PGSIZE = 0 /\ PGROUNDUP (kend k) <= q /\ q + PGSIZE <= vend).
Proof.
  intros Hke Hup Hm Hf.
  set (k0 := k <| held ::= filter (fun l' => l' <> KmemLock) |>
               <| kmem ::= upd use_lock (fun _ => false) |>).
  change (kinit1 (kend k) vend k) with (freerange (kend k0) vend k0).
  assert (free_rep k0 []) as H0.
  { unfold free_rep, k0; simpl. split_and!; try done; [constructor|lia]. }
  eapply returns_mono.
  - apply (freerange_rep k0 [] (kend k0) vend H0); simpl; [lia|done|]. intros q Hq. set_solver.
  - intros _ k' (l & Hr & He & Hh & _ & Hq). rewrite app_nil_r in Hr. by exists l.
Qed.

Lemma kinit2_rep k l vstart vend :
  free_rep k l -> KmemLock ∉ held k -> kend k <= vstart <= vend ->
  PGROUNDUP vstart <= vend <= KERNBASE + PHYSTOP ->
  (forall q, q ∈ l -> q < PGROUNDUP vstart) ->
  returns (kinit2 vstart vend k) (fun _ k' =>
    use_lock (kmem k') = true /\ held k' = held k /\
    exists l', free_rep k' (l' ++ l) /\
      forall q, q ∈ l' <-> q mod PGSIZE = 0 /\ PGROUNDUP vstart <= q /\ q + PGSIZE <= vend).
Proof.
  intros Hrep Hlk Hk Hv Hl. unfold kinit2.
  eapply returns_bind; [apply (freerange_rep k l vstart vend); try done; auto|].
  intros _ k' (l' & Hr & He & Hh & _ & Hq). kunfold. simpl. split_and!; [done..|].
  exists l'. split; [|done]. destruct Hr as (? & ? & ? & ? & ? & ?).
  unfold free_rep; simpl. by rewrite Hh.
Qed.

(** The two boot calls of [main] ([kinit1 end, P2V(4MB)] while only those pages
    are mapped, then [kinit2 P2V(4MB), P2V(PHYSTOP)]) complete without a panic and
    leave exactly the page frames between [end] and [PHYSTOP] on the free list, each
    once, with the allocator's lock in use. *)
Theorem boot_frees_all_pages k :
  KERNBASE <= kend k <= KERNBASE + 4194304 -> bytes_ok (mem k) ->
  freelist (kmem k) = 0 -> held k = [] ->
  returns ((kinit1 (kend k) (P2V 4194304) ;; kinit2 (P2V 4194304) (P2V PHYSTOP)) k)
    (fun _ k' => use_lock (kmem k') = true /\ held k' = [] /\ exists l, free_rep k' l /\
       forall q, q ∈ l <->
         q mod PGSIZE = 0 /\ PGROUNDUP (kend k) <= q /\ q + PGSIZE <= KERNBASE + PHYSTOP).
Proof.
  intros Hke Hm Hf Hh.
  change (P2V 4194304) with (KERNBASE + 4194304).
  change (P2V PHYSTOP) with (KERNBASE + PHYSTOP).
  destruct (pgroundup_least (kend k)) as [Hup Hal]; [unfold PGSIZE, KERNBASE in *; lia|].
  assert (PGROUNDUP (kend k) <= KERNBASE + 4194304) as Hle by (unfold KERNBASE, PGSIZE in *; dlia).
  assert (PGROUNDUP (KERNBASE + 4194304) = KERNBASE + 4194304) as E3 by done.
  eapply returns_bind; [apply kinit1_rep; unfold PHYSTOP; try done; lia|].
  intros _ k' (l & Hr & He & Hh' & Hq). rewrite Hh in Hh'. simpl in Hh'.
  eapply returns_mono; [apply (kinit2_rep k' l); rewrite ?E3, ?Hh', ?He; try done|].
  - set_solver.
  - unfold PHYSTOP. lia.
  - intros q Hin. apply Hq in Hin. unfold PGSIZE in *. lia.
  - intros _ k'' (Hu & Hh'' & l' & Hr' & Hq'). split_and!; [done|by rewrite Hh''|].
    exists (l' ++ l). split; [done|]. intros q. rewrite elem_of_app, Hq, Hq', E3.
    clear -Hup Hle. unfold PGSIZE, KERNBASE, PHYSTOP in *. split; [intros [?|?]; dlia|]. dlia.
Qed.

Lemma boot_frees_all_pages_witness :
  returns ((kinit1 (kend kernel0) (P2V 4194304) ;; kinit2 (P2V 4194304) (P2V PHYSTOP)) kernel0)
    (fun _ k' => use_lock (kmem k') = true /\ held k' = [] /\ exists l, free_rep k' l /\
       forall q, q ∈ l <->
         q mod PGSIZE = 0 /\ PGROUNDUP (kend kernel0) <= q /\ q + PGSIZE <= KERNBASE + PHYSTOP).
Proof. by apply boot_frees_all_pages. Defined.
