(* ===== verification/Mp.v ===== *)
(** * Mp: the tables of the processors (mp.c)

    The search for the floating pointer structure, the checks of the configuration table and
    the loop over its entries, on the bytes of memory.  Shown: the search finds the first
    structure with the right signature and checksum; the loop takes from a table the numbers
    of the processors, as many as there is room for; on an entry of unknown type it does not
    end. *)
From stdpp Require Import base list.
From Stdlib Require Import ZArith Lia.
From S2P Require Import Prelude Mem Layout.
Local Open Scope Z_scope.

Definition NCPU : Z := 8.

(** The bytes at an address, and a [ushort]. *)
Definition load_bytes (m : memory) (a : Z) (n : nat) : list Z := (fun i => m (a + Z.of_nat i)) <$> seq 0 n.
Definition load16 (m : memory) (a : Z) : Z := m a + 2 ^ 8 * m (a + 1).

Definition sum (m : memory) (addr : Z) (len : nat) : Z := u8 (foldl Z.add 0 (load_bytes m addr len)).

(** ** [struct mp] *)
Definition mp_size : Z := 16.
Definition mp_physaddr (m : memory) (mp : Z) : Z := load32 m (mp + 4).
Definition mp_imcrp (m : memory) (mp : Z) : Z := m (mp + 12).

Definition is_mp (m : memory) (p : Z) : bool :=
  bool_decide (memcmp (load_bytes m p 4) [95; 77; 80; 95] 4 = Some 0) && (sum m p 16 =? 0).

(** The loop of [mpsearch1] with [n] places left. *)
Fixpoint mpsearch_loop (m : memory) (p : Z) (n : nat) : option Z :=
  match n with
  | O => None
  | S n' => if is_mp m p then Some p else mpsearch_loop m (p + mp_size) n'
  end.

Definition mpsearch1 (m : memory) (a len : Z) : option Z := mpsearch_loop m (P2V a) (Z.to_nat ((len + 15) / mp_size)).

Definition mpsearch (m : memory) : option Z :=
  let bda := P2V 1024 in
  let p := Z.shiftl (Z.lor (Z.shiftl (m (bda + 15)) 8) (m (bda + 14))) 4 in
  let found :=
    if negb (p =? 0) then mpsearch1 m p 1024
    else mpsearch1 m (u32 (Z.lor (Z.shiftl (m (bda + 20)) 8) (m (bda + 19)) * 1024 - 1024)) 1024 in
  match found with
  | Some mp => Some mp
  | None => mpsearch1 m 983040 65536
  end.

(** ** [struct mpconf] *)
Definition conf_size : Z := 44.
Definition conf_length (m : memory) (conf : Z) : Z := load16 m (conf + 4).
Definition conf_version (m : memory) (conf : Z) : Z := m (conf + 6).
Definition conf_lapicaddr (m : memory) (conf : Z) : Z := load32 m (conf + 36).

Definition mpconfig (m : memory) : option (Z * Z) :=
  match mpsearch m with
  | None => None
  | Some mp =>
      if mp_physaddr m mp =? 0 then None
      else
        let conf := P2V (mp_physaddr m mp) in
        if negb (bool_decide (memcmp (load_bytes m conf 4) [80; 67; 77; 80] 4 = Some 0)) then None
        else if negb (conf_version m conf =? 1) && negb (conf_version m conf =? 4) then None
        else if negb (sum m conf (Z.to_nat (conf_length m conf)) =? 0) then None
        else Some (mp, conf)
  end.

(** ** [mpinit] *)

(** [apicids] are the entries of [cpus] up to [ncpu]. *)
Record mps := mkMps { apicids : list Z; ioapicid : Z; ismp : bool }.

Definition MPPROC : Z := 0.
Definition MPBUS : Z := 1.
Definition MPIOAPIC : Z := 2.
Definition MPIOINTR : Z := 3.
Definition MPLINTR : Z := 4.

(** The [switch]: the next entry, and what is known then. *)
Definition mp_entry (m : memory) (p : Z) (st : mps) : Z * mps :=
  let t := m p in
  if t =? MPPROC then
    (p + 20, if Z.of_nat (length (apicids st)) <? NCPU then mkMps (apicids st ++ [m (p + 1)]) (ioapicid st) (ismp st) else st)
  else if t =? MPIOAPIC then (p + 8, mkMps (apicids st) (m (p + 1)) (ismp st))
  else if (t =? MPBUS) || (t =? MPIOINTR) || (t =? MPLINTR) then (p + 8, st)
  else (p, mkMps (apicids st) (ioapicid st) false).

(** [None] if the loop has not ended after [fuel] rounds. *)
Fixpoint mp_loop (fuel : nat) (m : memory) (p e : Z) (st : mps) : option mps :=
  match fuel with
  | O => None
  | S fuel' =>
      if p <? e then let '(p, st) := mp_entry m p st in mp_loop fuel' m p e st
      else Some st
  end.

(** A panic, or the address of the local controller, what is known, and whether the IMCR is written. *)
Inductive mp_result := MpPanic | MpOk (lapic : Z) (st : mps) (imcr : bool).

Definition mpinit (fuel : nat) (m : memory) : option mp_result :=
  match mpconfig m with
  | None => Some MpPanic
  | Some (mp, conf) =>
      st ← mp_loop fuel m (conf + conf_size) (conf + conf_length m conf) (mkMps [] 0 true) ;
      if negb (ismp st) then Some MpPanic
      else Some (MpOk (conf_lapicaddr m conf) st (negb (mp_imcrp m mp =? 0)))
  end.

(** ** The search *)
Lemma mpsearch_loop_first m n : forall p,
  match mpsearch_loop m p n with
  | Some q => exists k, (k < n)%nat /\ q = p + mp_size * Z.of_nat k /\ is_mp m q = true /\
      forall j, (j < k)%nat -> is_mp m (p + mp_size * Z.of_nat j) = false
  | None => forall j, (j < n)%nat -> is_mp m (p + mp_size * Z.of_nat j) = false
  end.
Proof.
  induction n as [|n IH]; intros p; cbn [mpsearch_loop]; [intros j; lia|]. destruct (is_mp m p) eqn:E.
  { exists O. split_and!; [lia|lia|done|lia]. }
  assert (forall k, (forall j, (j < k)%nat -> is_mp m (p + mp_size + mp_size * Z.of_nat j) = false) ->
            forall j, (j < S k)%nat -> is_mp m (p + mp_size * Z.of_nat j) = false) as Hs.
  { intros k H [|j] Hj; [by replace (p + mp_size * Z.of_nat 0) with p by lia|].
    replace (p + mp_size * Z.of_nat (S j)) with (p + mp_size + mp_size * Z.of_nat j) by lia. apply H. lia. }
  specialize (IH (p + mp_size)). destruct (mpsearch_loop m (p + mp_size) n) as [q|].
  - destruct IH as (k & Hk & -> & Hq & Hb). exists (S k). split_and!; [lia|lia|done|]. by apply Hs.
  - by apply Hs.
Qed.

(** [mpsearch1] finds the first structure with the signature and the checksum in the area, which is
    searched in steps of its size. *)
Theorem mpsearch1_first m a len : 0 <= len ->
  match mpsearch1 m a len with
  | Some q => exists k, mp_size * Z.of_nat k < len /\ q = P2V a + mp_size * Z.of_nat k /\ is_mp m q = true /\
      forall j, (j < k)%nat -> is_mp m (P2V a + mp_size * Z.of_nat j) = false
  | None => forall j, mp_size * Z.of_nat j < len -> is_mp m (P2V a + mp_size * Z.of_nat j) = false
  end.
Proof.
  intros Hlen. unfold mpsearch1. pose proof (mpsearch_loop_first m (Z.to_nat ((len + 15) / mp_size)) (P2V a)) as H.
  unfold mp_size in *. destruct (mpsearch_loop _ _ _) as [q|].
  - destruct H as (k & Hk & -> & H). exists k. split; [dlia|]. by split.
  - intros j Hj. apply H. dlia.
Qed.

(** ** The table *)
Inductive entry := EProc (apicid : Z) | EIoapic (apicno : Z) | EOther (type : Z).

Definition entry_size (en : entry) : Z := match en with EProc _ => 20 | _ => 8 end.

Definition entry_at (m : memory) (p : Z) (en : entry) : Prop :=
  match en with
  | EProc id => m p = MPPROC /\ m (p + 1) = id
  | EIoapic no => m p = MPIOAPIC /\ m (p + 1) = no
  | EOther t => m p = t /\ (t = MPBUS \/ t = MPIOINTR \/ t = MPLINTR)
  end.

(** The entries in memory from [p] to [e]. *)
Fixpoint table_at (m : memory) (p e : Z) (es : list entry) : Prop :=
  match es with
  | [] => e <= p
  | en :: es' => p < e /\ entry_at m p en /\ table_at m (p + entry_size en) e es'
  end.

Definition procs (es : list entry) : list Z := omap (fun en => match en with EProc id => Some id | _ => None end) es.
Definition ioapics (es : list entry) : list Z := omap (fun en => match en with EIoapic no => Some no | _ => None end) es.

Lemma mp_loop_next fuel m p e st : p < e -> mp_loop (S fuel) m p e st = mp_loop fuel m (mp_entry m p st).1 e (mp_entry m p st).2.
Proof. intros Hp. cbn [mp_loop]. rewrite (proj2 (Z.ltb_lt _ _)) by done. by destruct (mp_entry m p st). Qed.

Lemma last_next (l : list Z) : forall x d, List.last (x :: l) d = List.last l x.
Proof. induction l as [|a l IH]; intros x d; [done|]. change (List.last (a :: l) d = List.last (a :: l) x). by rewrite !IH. Qed.

Lemma mp_loop_table m e es : forall p st, table_at m p e es -> (length (apicids st) <= 8)%nat ->
  mp_loop (S (length es)) m p e st = Some (mkMps (take 8 (apicids st ++ procs es)) (List.last (ioapics es) (ioapicid st)) (ismp st)).
Proof.
  induction es as [|en es IH]; intros p [ids io b] H Hl; cbn [table_at] in H; cbn [length].
  - cbn [mp_loop]. rewrite (proj2 (Z.ltb_ge _ _)) by done. cbn. rewrite app_nil_r, take_ge by done. done.
  - destruct H as (Hp & He & Ht). rewrite mp_loop_next by done. unfold mp_entry.
    destruct en as [id|no|t]; cbn [entry_at entry_size] in *; destruct He as [-> He].
    + cbn [Z.eqb MPPROC fst snd]. rewrite He. cbn [apicids ioapicid ismp] in *. destruct (Z.ltb_spec (Z.of_nat (length ids)) NCPU) as [Hlt|Hge]; unfold NCPU in *.
      * rewrite IH; [|done|cbn [apicids]; rewrite length_app; simpl; lia]. cbn [apicids ioapicid ismp]. by rewrite <- (assoc_L (++)).
      * rewrite IH by done. cbn [apicids ioapicid ismp]. by rewrite !take_app_le by lia.
    + cbn [Z.eqb MPPROC MPIOAPIC fst snd]. rewrite He. rewrite IH by done. cbn [apicids ioapicid ismp]. do 2 f_equal.
      change (ioapics (EIoapic no :: es)) with (no :: ioapics es). by rewrite last_next.
    + assert ((t =? MPPROC) = false /\ (t =? MPIOAPIC) = false /\ (t =? MPBUS) || (t =? MPIOINTR) || (t =? MPLINTR) = true) as (-> & -> & ->)
        by (destruct He as [-> |[-> | ->]]; done). by rewrite IH.
Qed.

(** [mpinit] takes from a table its processors, the first eight, and the last I/O controller. *)
Theorem mpinit_reads_table m mp conf es : mpconfig m = Some (mp, conf) ->
  table_at m (conf + conf_size) (conf + conf_length m conf) es ->
  mpinit (S (length es)) m =
    Some (MpOk (conf_lapicaddr m conf) (mkMps (take 8 (procs es)) (List.last (ioapics es) 0) true) (negb (mp_imcrp m mp =? 0))).
Proof. intros Hc Ht. unfold mpinit. rewrite Hc, mp_loop_table by (done || simpl; lia). done. Qed.

(** On an entry of unknown type, [mpinit] does not go on to the next, nor to its panic: the loop stays
    where it is. *)
Theorem mp_loop_stuck fuel m p e st : p < e -> m p ∉ [MPPROC; MPBUS; MPIOAPIC; MPIOINTR; MPLINTR] -> mp_loop fuel m p e st = None.
Proof.
  intros Hp Ht. rewrite !not_elem_of_cons in Ht. destruct Ht as (H0 & H1 & H2 & H3 & H4 & _). revert st.
  induction fuel as [|fuel IH]; intros st; [done|]. cbn [mp_loop]. rewrite (proj2 (Z.ltb_lt _ _)) by done. unfold mp_entry.
  rewrite !(proj2 (Z.eqb_neq _ _)) by done. apply IH.
Qed.
