(* ===== verification/Boot.v ===== *)
(** * Boot: the boot loader (bootmain.c)

    The loader reads the kernel, an ELF file that starts at sector 1, into memory.  A sector is
    read by the disk when it is ready; [disk] gives the bytes by their place on the disk.
    Shown: the segments of the kernel come to be in memory, zeroes behind them, although the
    loader copies whole sectors and so more than it is asked for. *)
From stdpp Require Import base list list_numbers.
From Stdlib Require Import ZArith Lia.
From S2P Require Import Prelude Mem Mp.
Local Open Scope Z_scope.

Definition SECTSIZE : Z := 512.
Definition ELF_MAGIC : Z := 1179403647.   (* 0x464C457F *)

Section bootmain.
Context (disk : Z -> Z).

Definition readsect (m : memory) (dst offset : Z) : memory :=
  store_bytes m dst ((fun i => disk (SECTSIZE * offset + i)) <$> seqZ 0 SECTSIZE).

(** [None] if it has not ended after [fuel] sectors. *)
Fixpoint readseg_loop (fuel : nat) (m : memory) (pa epa offset : Z) : option memory :=
  match fuel with
  | O => None
  | S fuel' =>
      if pa <? epa then readseg_loop fuel' (readsect m pa offset) (u32 (pa + SECTSIZE)) epa (u32 (offset + 1))
      else Some m
  end.

Definition readseg (m : memory) (pa count offset : Z) : option memory :=
  let epa := u32 (pa + count) in
  let pa := u32 (pa - offset mod SECTSIZE) in
  let offset := offset / SECTSIZE + 1 in
  readseg_loop (Z.to_nat (count / SECTSIZE + 3)) m pa epa offset.

(** The fields of [struct proghdr] that are used. *)
Record segment := mkSeg { g_off : Z; g_paddr : Z; g_filesz : Z; g_memsz : Z }.
Definition segment_at (m : memory) (ph : Z) : segment :=
  mkSeg (load32 m (ph + 4)) (load32 m (ph + 12)) (load32 m (ph + 16)) (load32 m (ph + 20)).

(** [n] headers are left. *)
Fixpoint load_segments (n : nat) (m : memory) (ph : Z) : option memory :=
  match n with
  | O => Some m
  | S n' =>
      let g := segment_at m ph in
      m ← readseg m (g_paddr g) (g_filesz g) (g_off g) ;
      let m := if g_filesz g <? g_memsz g then stosb m (g_paddr g + g_filesz g) 0 (Z.to_nat (g_memsz g - g_filesz g)) else m in
      load_segments n' m (ph + 32)
  end.

(** [bootmain] returns if there is no kernel, or jumps to its entry. *)
Inductive booted := NoKernel | Enter (entry : Z) (m : memory).

Definition bootmain (m : memory) : option booted :=
  let elf := 65536 in
  m ← readseg m elf 4096 0 ;
  if negb (load32 m elf =? ELF_MAGIC) then Some NoKernel
  else
    m ← load_segments (Z.to_nat (load16 m (elf + 44))) m (elf + load32 m (elf + 28)) ;
    Some (Enter (load32 m (elf + 24)) m).

(** ** Segments in memory *)
Context (Hdisk : forall a, 0 <= disk a < 256).

(** The bytes of the kernel. *)
Definition image : memory := fun o => disk (SECTSIZE + o).

Lemma store_bytes_spec l : forall m a x, Forall (fun c => 0 <= c < 256) l ->
  store_bytes m a l x = if (a <=? x) && (x <? a + Z.of_nat (length l)) then l !!! Z.to_nat (x - a) else m x.
Proof.
  induction l as [|b l IH]; intros m a x Hl; cbn [store_bytes].
  - rewrite (proj2 (andb_false_iff _ _)); [done|]. rewrite Z.leb_gt, Z.ltb_ge. simpl. lia.
  - inversion Hl; subst. rewrite IH by done. unfold store8. cbn [length]. destruct (Z.eqb_spec x a) as [->|Hne].
    + destruct (Z.leb_spec (a + 1) a), (Z.leb_spec a a), (Z.ltb_spec a (a + Z.of_nat (S (length l)))); try lia. cbn [andb]. rewrite Z.sub_diag. change (u8 b = b). unfold u8. rewrite Z.mod_small; lia.
    + destruct (Z.leb_spec (a + 1) x), (Z.leb_spec a x); try lia; cbn [andb]; [|done].
      replace (a + 1 + Z.of_nat (length l)) with (a + Z.of_nat (S (length l))) by lia. destruct (Z.ltb_spec x (a + Z.of_nat (S (length l)))); [|done].
      by replace (Z.to_nat (x - a)) with (S (Z.to_nat (x - (a + 1)))) by lia.
Qed.

Lemma readsect_spec m dst offset a : readsect m dst offset a =
  if (dst <=? a) && (a <? dst + SECTSIZE) then disk (SECTSIZE * offset + (a - dst)) else m a.
Proof.
  unfold readsect. rewrite store_bytes_spec by (apply Forall_fmap, Forall_true; intros; apply Hdisk).
  rewrite length_fmap, length_seqZ. change (Z.of_nat (Z.to_nat SECTSIZE)) with SECTSIZE.
  destruct (Z.leb_spec dst a), (Z.ltb_spec a (dst + SECTSIZE)); cbn [andb]; try done.
  apply list_lookup_total_correct. rewrite list_lookup_fmap, lookup_seqZ_lt by lia. cbn. do 2 f_equal. lia.
Qed.

Lemma readseg_loop_spec n : forall m pa epa offset, 0 <= pa -> pa + SECTSIZE * Z.of_nat n < 2 ^ 32 -> epa <= pa + SECTSIZE * Z.of_nat n ->
  0 <= offset -> offset + Z.of_nat n < 2 ^ 32 ->
  exists m', readseg_loop (S n) m pa epa offset = Some m' /\
    (forall a, pa <= a < epa -> m' a = disk (SECTSIZE * offset + (a - pa))) /\ (forall a, a < pa -> m' a = m a).
Proof.
  induction n as [|n IH]; intros m pa epa offset Hpa Hb He Ho Hob; unfold SECTSIZE in *.
  - exists m. cbn [readseg_loop]. rewrite (proj2 (Z.ltb_ge _ _)) by lia. split_and!; [done|lia|done].
  - remember (S n) as k eqn:Ek. cbn [readseg_loop]. subst k. destruct (Z.ltb_spec pa epa) as [Hlt|Hge]; [|exists m; split_and!; [done|lia|done]].
    unfold u32, SECTSIZE. rewrite !Z.mod_small by lia.
    destruct (IH (readsect m pa offset) (pa + 512) epa (offset + 1)) as (m' & E & Hin & Hout); [lia..|]. exists m'. split; [done|].
    assert (forall a, a < pa + 512 -> m' a = if pa <=? a then disk (512 * offset + (a - pa)) else m a) as Hs.
    { intros a Ha. rewrite Hout by lia. rewrite readsect_spec. unfold SECTSIZE. rewrite (proj2 (Z.ltb_lt _ _)) by lia. by rewrite andb_true_r. }
    split; intros a Ha.
    + destruct (decide (a < pa + 512)) as [H|H]; [rewrite Hs by done; by rewrite (proj2 (Z.leb_le _ _)) by lia|].
      rewrite Hin by lia. f_equal. lia.
    + rewrite Hs by lia. by rewrite (proj2 (Z.leb_gt _ _)) by lia.
Qed.

Lemma readseg_spec m pa count off : 0 <= count -> 0 <= off < 2 ^ 32 -> off mod SECTSIZE <= pa -> pa + count + 1024 < 2 ^ 32 ->
  exists m', readseg m pa count off = Some m' /\ (forall k, 0 <= k < count -> m' (pa + k) = image (off + k)) /\
    (forall a, a < pa - off mod SECTSIZE -> m' a = m a).
Proof.
  intros Hc Ho Hr Hb. unfold readseg, u32. pose proof (Z.mod_pos_bound off SECTSIZE eq_refl) as Hm. pose proof (Z.div_mod off SECTSIZE ltac:(done)) as Hd.
  assert (0 <= count / SECTSIZE /\ SECTSIZE * (count / SECTSIZE) <= count < SECTSIZE * (count / SECTSIZE) + SECTSIZE) as Hq by (unfold SECTSIZE; dlia).
  assert (off / SECTSIZE < 2 ^ 23) as Hs by (unfold SECTSIZE; dlia).
  replace (Z.to_nat (count / SECTSIZE + 3)) with (S (Z.to_nat (count / SECTSIZE + 2))) by lia.
  set (q := off / SECTSIZE) in *. set (r := off mod SECTSIZE) in *. set (c := count / SECTSIZE) in *. unfold SECTSIZE in *. rewrite !Z.mod_small by lia.
  destruct (readseg_loop_spec (Z.to_nat (c + 2)) m (pa - r) (pa + count) (q + 1)) as (m' & -> & Hin & Hout); unfold SECTSIZE in *; [lia..|].
  exists m'. split_and!; [done| |done]. intros k Hk. rewrite Hin by lia. unfold image, SECTSIZE. f_equal. lia.
Qed.

(** The segment [g] of the kernel is in memory. *)
Definition loaded (m : memory) (g : segment) : Prop :=
  (forall k, 0 <= k < g_filesz g -> m (g_paddr g + k) = image (g_off g + k)) /\
  (forall k, g_filesz g <= k < g_memsz g -> m (g_paddr g + k) = 0).

Definition g_end (g : segment) : Z := g_paddr g + Z.max (g_filesz g) (g_memsz g).

(** The segments follow each other, from [lo] on, also if each begins with a whole sector. *)
Fixpoint placed (lo : Z) (gs : list segment) : Prop :=
  match gs with
  | [] => True
  | g :: gs' => lo <= g_paddr g - g_off g mod SECTSIZE /\ g_end g + 1024 < 2 ^ 32 /\ placed (g_end g) gs'
  end.

(** The program headers of the kernel, [n] from [o] on. *)
Fixpoint headers (n : nat) (o : Z) : list segment :=
  match n with O => [] | S n' => segment_at image o :: headers n' (o + 32) end.

Lemma image_bytes : bytes_ok image.
Proof. intros a. apply Hdisk. Qed.

(** The first page of the kernel is where the loader looks at it. *)
Definition scratch (m : memory) : Prop := forall o, 0 <= o < 4096 -> m (65536 + o) = image o.

Lemma scratch_load m o : scratch m -> 0 <= o -> o + 4 <= 4096 -> load32 m (65536 + o) = load32 image o.
Proof. intros Hm H0 Ho. unfold load32. rewrite <- !Z.add_assoc, !Hm by lia. done. Qed.

Lemma scratch_segment m o : scratch m -> 0 <= o -> o + 32 <= 4096 -> segment_at m (65536 + o) = segment_at image o.
Proof. intros Hm H0 Ho. unfold segment_at. rewrite <- !Z.add_assoc, !scratch_load by (done || lia). done. Qed.

Lemma load_segments_spec n : forall m o lo, scratch m -> 0 <= o -> o + 32 * Z.of_nat n <= 4096 -> 69632 <= lo -> placed lo (headers n o) ->
  exists m', load_segments n m (65536 + o) = Some m' /\ Forall (loaded m') (headers n o) /\ (forall a, a < lo -> m' a = m a).
Proof.
  induction n as [|n IH]; intros m o lo Hm H0 Ho Hlo Hp; [by exists m|]. cbn [headers placed] in Hp. destruct Hp as (Hg & Hb & Hp).
  cbn [load_segments headers]. rewrite scratch_segment by (done || lia). set (g := segment_at image o) in *.
  assert (0 <= g_off g < 2 ^ 32 /\ 0 <= g_filesz g /\ 0 <= g_memsz g) as (Hoff & Hf & Hms) by (split_and!; apply load32_range, image_bytes).
  pose proof (Z.mod_pos_bound (g_off g) SECTSIZE eq_refl) as Hr. unfold g_end in *.
  destruct (readseg_spec m (g_paddr g) (g_filesz g) (g_off g)) as (m1 & -> & Hin & Hout); [lia..|]. cbn [mbind option_bind].
  set (m2 := if g_filesz g <? g_memsz g then _ else m1). assert (loaded m2 g /\ forall a, a < lo -> m2 a = m a) as [Hl Hk].
  { unfold m2. destruct (Z.ltb_spec (g_filesz g) (g_memsz g)); [|split; [split; [done|lia]|intros; apply Hout; lia]].
    split; [split|]; [intros k Hk'; rewrite stosb_spec; destruct (Z.leb_spec (g_paddr g + g_filesz g) (g_paddr g + k)); [lia|by apply Hin]| |].
    - intros k Hk'. rewrite stosb_spec, (proj2 (Z.leb_le _ _)), (proj2 (Z.ltb_lt _ _)) by lia. done.
    - intros a Ha. rewrite stosb_spec, (proj2 (Z.leb_gt _ _)) by lia. apply Hout. lia. }
  rewrite <- Z.add_assoc. destruct (IH m2 (o + 32) (g_paddr g + Z.max (g_filesz g) (g_memsz g))) as (m' & -> & Hall & Hlow); [|lia..|done|].
  { intros k Hk'. rewrite Hk by lia. by apply Hm. }
  exists m'. split; [done|]. split; [constructor; [|done]|].
  - destruct Hl as [H1 H2]. split; intros k Hk'; rewrite Hlow by lia; auto.
  - intros a Ha. rewrite Hlow by lia. by apply Hk.
Qed.

(** C23. The boot loader puts the kernel in memory: if its headers are in its first page and its segments are
    above the page where the loader looks at it, in increasing order and a sector apart
    where they do not start with one, then every segment has its bytes and its zeroes when
    the kernel is entered. *)
Theorem bootmain_loads_kernel m : load32 image 0 = ELF_MAGIC ->
  load32 image 28 + 32 * load16 image 44 <= 4096 -> placed 69632 (headers (Z.to_nat (load16 image 44)) (load32 image 28)) ->
  exists m', bootmain m = Some (Enter (load32 image 24) m') /\ Forall (loaded m') (headers (Z.to_nat (load16 image 44)) (load32 image 28)).
Proof.
  intros Hmagic Hh Hp. unfold bootmain. destruct (readseg_spec m 65536 4096 0) as (m0 & -> & Hin & _); [lia|lia|done|lia|]. cbn [mbind option_bind].
  assert (scratch m0) as Hm by (intros o Ho; by rewrite Hin). assert (0 <= load32 image 28) as H28 by (apply load32_range, image_bytes).
  assert (0 <= load16 image 44) as H44 by (unfold load16; pose proof (image_bytes 44); pose proof (image_bytes (44 + 1)); lia).
  assert (load16 m0 (65536 + 44) = load16 image 44) as -> by (unfold load16; rewrite <- !Z.add_assoc; by rewrite !Hm by lia).
  replace (load32 m0 65536) with (load32 image 0) by (symmetry; by apply (scratch_load m0 0)). rewrite Hmagic. cbn [negb Z.eqb Pos.eqb ELF_MAGIC].
  rewrite !scratch_load by (done || lia).
  destruct (load_segments_spec (Z.to_nat (load16 image 44)) m0 (load32 image 28) 69632) as (m' & -> & Hall & Hlow); [done|lia..|done|].
  exists m'. split; [|done]. cbn. rewrite (scratch_load m' 24); [done| |lia|lia]. intros o Ho. rewrite Hlow by lia. by apply Hm.
Qed.
End bootmain.

(** A kernel with one segment of four bytes and four zeroes, at 200 in the file. *)
Definition demo_kernel : list Z :=
  [127; 69; 76; 70] ++ replicate 20 0 ++ [12; 0; 16; 0; 52; 0; 0; 0] ++ replicate 12 0 ++ [1; 0] ++ replicate 10 0 ++
  [200; 0; 0; 0] ++ replicate 4 0 ++ [0; 0; 16; 0; 4; 0; 0; 0; 8; 0; 0; 0] ++ replicate 124 0 ++ [1; 2; 3; 4].
Definition demo_disk (a : Z) : Z := default 0 (demo_kernel !! Z.to_nat (a - 512)).

Lemma demo_disk_bytes a : 0 <= demo_disk a < 256.
Proof.
  unfold demo_disk. destruct (demo_kernel !! _) as [x|] eqn:E; [|simpl; lia].
  assert (Forall (fun x => 0 <= x < 256) demo_kernel) as H by (apply (bool_decide_unpack _); vm_compute; done).
  by apply (Forall_lookup_1 _ _ _ _ H E).
Qed.

Lemma bootmain_loads_kernel_witness : exists m', bootmain demo_disk (fun _ => 0) = Some (Enter 1048588 m') /\
  Forall (loaded demo_disk m') [mkSeg 200 1048576 4 8].
Proof. apply (bootmain_loads_kernel demo_disk demo_disk_bytes (fun _ => 0)); vm_compute; split_and?; done. Defined.
