(* ===== verification/Sched.v ===== *)
(** * Sched: the process table, sleep and wakeup, and the scheduler (proc.c)

    The part of proc.c that touches nothing but the process table: [wakeup1],
    [wakeup], [sched], [yield], [sleep], [kill], [setpriority],
    [update_statistics], [random], the scheduling policies and their selection, and
    one round of [scheduler]. *)
From stdpp Require Import base list list_numbers gmap strings.
From Stdlib Require Import ZArith Lia.
From S2P Require Import Prelude Mem Layout Machine.
Local Open Scope Z_scope.

(** ** Operations *)

(** [myproc()] where the code dereferences the result. *)
Definition cur : K nat := fun k =>
  match curproc k with Some i => Ret i k | None => Undef "myproc() is null" end.

Definition wakeup1 (c : channel) : K unit :=
  modify (fun k => k <| ptable ::= fmap (fun p =>
    if bool_decide (state p = SLEEPING) && bool_decide (chan p = c)
    then p <| state := RUNNABLE |> else p) |>).

Definition wakeup (c : channel) : K unit :=
  acquire PtableLock ;; wakeup1 c ;; release PtableLock.

(** The address [sched] resumes at when the process is switched to again, and the
    address of [forkret], where a new process starts. *)
Definition SCHED_RESUME : Z := 1.
Definition FORKRET : Z := 2.

(** [swtch(&p->context, mycpu()->scheduler)]: save the context, run the scheduler;
    what comes back is the state in which the process is switched to. *)
Definition swtch_out (i : nat) : K unit := fun k =>
  Swtch (upd_proc i (fun p => p <| context ::= upd ctx_eip (fun _ => SCHED_RESUME) |>) k)
    (fun k' => Ret tt k').

Definition sched : K unit :=
  i ← cur ;
  k ← gets id ;
  if negb (holding PtableLock k) then panic "sched ptable.lock"
  else if negb (Nat.eqb (length (held k)) 1) then panic "sched locks"
  else if bool_decide (state (ptable k !!! i) = RUNNING) then panic "sched running"
  else swtch_out i.

Definition yield : K unit :=
  acquire PtableLock ;;
  i ← cur ;
  modify (upd_proc i (fun p => p <| state := RUNNABLE |>)) ;;
  sched ;;
  release PtableLock.

(** [sleep] over the two operations on spin locks, so that the code can also be run with
    other CPUs between them. *)
Section sleep.
Context (acquire release : lockid -> K unit).

(** The two guarded lock exchanges of [sleep], at [sleeplock0] and [sleeplock2]. *)
Definition sleep_lock (lk : lockid) : K unit :=
  whenK (bool_decide (lk <> PtableLock)) (acquire PtableLock ;; release lk).
Definition sleep_unlock (lk : lockid) : K unit :=
  whenK (bool_decide (lk <> PtableLock)) (release PtableLock ;; acquire lk).

(** [lk] is the address of a spin lock, [None] the null pointer. *)
Definition sleep_with (c : channel) (lk : option lockid) : K unit :=
  p ← gets curproc ;
  match p, lk with
  | None, _ => panic "sleep"
  | Some _, None => panic "sleep without lk"
  | Some i, Some lk =>
      sleep_lock lk ;;
      modify (upd_proc i (fun p => p <| chan := c |>)) ;;
      modify (upd_proc i (fun p => p <| state := SLEEPING |>)) ;;
      sched ;;
      modify (upd_proc i (fun p => p <| chan := ChanNone |>)) ;;
      sleep_unlock lk
  end.
End sleep.

Definition sleep : channel -> option lockid -> K unit := sleep_with acquire release.

Definition kill (n : Z) : K Z :=
  acquire PtableLock ;;
  ps ← gets ptable ;
  match list_find (fun p => pid p = n) ps with
  | Some (i, p) =>
      modify (upd_proc i (fun p => p <| killed := 1 |>)) ;;
      whenK (bool_decide (state p = SLEEPING))
        (modify (upd_proc i (fun p => p <| state := RUNNABLE |>))) ;;
      release PtableLock ;;
      mret 0
  | None => release PtableLock ;; mret (-1)
  end.

Definition setpriority (n prio : Z) : K Z :=
  if (prio <? 1) || (20 <? prio) then mret (-1)
  else
    acquire PtableLock ;;
    ps ← gets ptable ;
    match list_find (fun p => pid p = n) ps with
    | Some (i, _) =>
        modify (upd_proc i (fun p => p <| priority := prio |>)) ;;
        release PtableLock ;; mret 0
    | None => release PtableLock ;; mret (-1)
    end.

(** One process's counters at a clock tick. *)
Definition tick_proc (p : proc) : proc :=
  match state p with
  | SLEEPING => p <| stime ::= fun t => s32 (t + 1) |>
  | RUNNABLE => p <| retime ::= fun t => s32 (t + 1) |>
  | RUNNING => p <| rutime ::= fun t => s32 (t + 1) |>
  | _ => p
  end.

Definition update_statistics : K unit :=
  acquire PtableLock ;;
  modify (fun k => k <| ptable ::= fmap tick_proc |>) ;;
  release PtableLock.

(** [random]: [int] words, shifted left modulo 2^32 and right arithmetically; the
    masks are [long long] constants, so the second shift of each word is wide and
    its result is cut back to an [int]. *)
Definition lfsr (sh1 sh2 mask sh3 z : Z) : Z :=
  let b := Z.shiftr (Z.lxor (s32 (Z.shiftl z sh1)) z) sh2 in
  s32 (Z.lxor (Z.shiftl (Z.land z mask) sh3) b).

Definition random (max : Z) : K Z :=
  if max <=? 0 then mret 1
  else
    g ← gets rng ;
    let a1 := lfsr 6 13 4294967294 18 (z1 g) in
    let a2 := lfsr 2 27 4294967288 2 (z2 g) in
    let a3 := lfsr 13 21 4294967280 7 (z3 g) in
    let a4 := lfsr 3 12 4294967168 13 (z4 g) in
    modify (fun k => k <| rng := mkRng a1 a2 a3 a4 |>) ;;
    let rand := Z.rem (Z.lxor (Z.lxor (Z.lxor a1 a2) a3) a4) max in
    mret (if rand <? 0 then s32 (rand * -1) else rand).

(** The loop of [defaultScheduler]: [i] counts up to [NPROC]. *)
Fixpoint default_loop (ps : list proc) (rnd : Z) (left : nat) (i : Z) : option nat :=
  match left with
  | O => None
  | S left' =>
      let j := Z.to_nat (Z.rem (rnd + i) (Z.of_nat NPROC)) in
      if bool_decide (state (ps !!! j) = RUNNABLE) then Some j
      else default_loop ps rnd left' (i + 1)
  end.

(** The policies of sdh.h. Only [defaultScheduler] has a body; the other four return
    no value, and [scheduler] uses the value. *)
Definition run_policy (f : sched_policy) : K (option nat) :=
  match f with
  | defaultScheduler =>
      rnd ← random (Z.of_nat NPROC) ;
      gets (fun k => default_loop (ptable k) rnd NPROC 0)
  | priorityScheduler => undef "priorityScheduler returns no value"
  | fcfsScheduler => undef "fcfsScheduler returns no value"
  | rrScheduler => undef "rrScheduler returns no value"
  | smlScheduler => undef "smlScheduler returns no value"
  end.

(** [schedulerFunction]: five entries. *)
Definition schedulerFunction : list sched_policy :=
  [defaultScheduler; priorityScheduler; fcfsScheduler; rrScheduler; smlScheduler].

Definition getscheduler : K Z :=
  acquire SchedulerLock ;;
  sid ← gets schedSelected ;
  release SchedulerLock ;;
  mret sid.

Definition setscheduler (sid : Z) : K Z :=
  let max := 5 in
  if (sid <? 0) || (max <? sid) then mret (-1)
  else
    acquire SchedulerLock ;;
    match schedulerFunction !! Z.to_nat sid with
    | None => undef "schedulerFunction index out of bounds"
    | Some f =>
        modify (fun k => k <| ready_process := f |>) ;;
        modify (fun k => k <| schedSelected := sid |>) ;;
        release SchedulerLock ;;
        mret sid
    end.

(** [switchuvm] and [switchkvm] (vm.c): load %cr3, and the kernel stack interrupts use. *)
Definition switchuvm (p : proc) : K unit :=
  if kstack p =? 0 then panic "switchuvm: no kstack"
  else if pgdir p =? 0 then panic "switchuvm: no pgdir"
  else
    modify (fun k => k <| vmst ::= upd esp0 (fun _ => u32 (kstack p + KSTACKSIZE)) |>) ;;
    modify (fun k => k <| vmst ::= upd cr3 (fun _ => V2P (pgdir p)) |>).

Definition switchkvm : K unit :=
  modify (fun k => k <| vmst ::= upd cr3 (fun _ => V2P (kpgdir (vmst k))) |>).

(** A round of [scheduler] up to [swtch]: choose a process and make it current. *)
Definition scheduler_pick : K (option nat) :=
  acquire PtableLock ;;
  acquire SchedulerLock ;;
  f ← gets ready_process ;
  p ← run_policy f ;
  release SchedulerLock ;;
  match p with
  | None => mret None
  | Some i =>
      modify (fun k => k <| curproc := Some i |>) ;;
      k ← gets id ;
      switchuvm (ptable k !!! i) ;;
      modify (upd_proc i (fun p => p <| state := RUNNING |>)) ;;
      mret (Some i)
  end.

(** And from the return of [swtch] to the end of the round. *)
Definition scheduler_done (p : option nat) : K unit :=
  match p with
  | Some _ => switchkvm ;; modify (fun k => k <| curproc := None |>)
  | None => mret tt
  end ;;
  release PtableLock.

Definition sys_yield : K Z := yield ;; mret 0.

(** ** Machine integers of [random] *)
Lemma s32_range z : - 2 ^ 31 <= s32 z < 2 ^ 31.
Proof. unfold s32. pose proof (Z.mod_pos_bound (z + 2 ^ 31) (2 ^ 32)). lia. Qed.

Lemma s32_small z : - 2 ^ 31 <= z < 2 ^ 31 -> s32 z = z.
Proof. intros. unfold s32. rewrite Z.mod_small by lia. lia. Qed.

(** For a positive bound [random] returns a number in [0, max), whatever its state; it
    changes only its own four words. *)
Lemma random_spec max k :
  0 < max < 2 ^ 31 ->
  returns (random max k) (fun r k' => 0 <= r < max /\ k' = k <| rng := rng k' |>).
Proof.
  intros Hmax. unfold random. rewrite (proj2 (Z.leb_gt _ _)) by lia. kunfold. simpl.
  match goal with |- context [Z.rem ?x max] => set (w := x) end.
  pose proof (Z.rem_bound_abs w max ltac:(lia)) as Hr. split; [|done].
  rewrite (Z.abs_eq max) in Hr by lia.
  destruct (Z.ltb_spec (Z.rem w max) 0); [|lia].
  rewrite s32_small by lia. lia.
Qed.

(** ** The default policy *)
Lemma default_loop_sound ps rnd n : forall i j,
  0 <= rnd -> 0 <= i -> default_loop ps rnd n i = Some j ->
  state (ps !!! j) = RUNNABLE /\ (j < NPROC)%nat.
Proof.
  induction n as [|n IH]; intros i j Hr Hi; simpl; [done|].
  case_bool_decide; [|apply IH; lia]. intros. simplify_eq. split; [done|].
  pose proof (Z.rem_bound_pos (rnd + i) (Z.of_nat NPROC)). unfold NPROC in *. lia.
Qed.

Lemma default_loop_none ps rnd n : forall i j,
  0 <= i -> default_loop ps rnd n i = None ->
  i <= j < i + Z.of_nat n ->
  state (ps !!! Z.to_nat (Z.rem (rnd + j) (Z.of_nat NPROC))) <> RUNNABLE.
Proof.
  induction n as [|n IH]; intros i j Hi; simpl; [lia|].
  case_bool_decide as Hs; [done|]. intros Hn Hj.
  destruct (Z.eq_dec i j) as [->|]; [done|]. apply (IH (i + 1)); [lia|done|lia].
Qed.

(** Starting anywhere and going round once visits every slot. *)
Lemma round_covers rnd s : 0 <= rnd < Z.of_nat NPROC -> (s < NPROC)%nat ->
  exists j, 0 <= j < 0 + Z.of_nat NPROC /\ Z.to_nat (Z.rem (rnd + j) (Z.of_nat NPROC)) = s.
Proof.
  intros Hr Hs. exists ((Z.of_nat s - rnd) mod Z.of_nat NPROC). unfold NPROC in *.
  rewrite Z.rem_mod_nonneg by dlia. split; dlia.
Qed.

Lemma default_policy_spec k :
  returns (run_policy defaultScheduler k) (fun r k' =>
    k' = k <| rng := rng k' |> /\
    match r with
    | Some i => (i < NPROC)%nat /\ state (ptable k !!! i) = RUNNABLE
    | None => forall i, (i < NPROC)%nat -> state (ptable k !!! i) <> RUNNABLE
    end).
Proof.
  unfold run_policy. eapply returns_bind.
  { apply random_spec. unfold NPROC. lia. }
  intros rnd k' [Hr ->]. unfold gets. cbn [returns ptable upd upd_rng]. split; [done|].
  destruct (default_loop (ptable k) rnd NPROC 0) as [i|] eqn:E.
  - destruct (default_loop_sound (ptable k) rnd NPROC 0 i); [lia..|done|by split].
  - intros i Hi. destruct (round_covers rnd i Hr Hi) as (j & Hj & <-).
    eapply (default_loop_none _ _ _ 0); [lia|exact E|exact Hj].
Qed.

(** ** Rounds of the scheduler *)

(** A process that may be scheduled has a kernel stack and a page table. *)
Definition runnable_ok (k : kernel) : Prop :=
  forall i, state (ptable k !!! i) = RUNNABLE -> kstack (ptable k !!! i) <> 0 /\ pgdir (ptable k !!! i) <> 0.

(** The part of the page-table state that switching leaves alone. *)
Definition vm_fixed (v : vmstate) : Z * Z := (kdata v, kpgdir v).

Lemma scheduler_pick_spec k :
  held k = [] -> ready_process k = defaultScheduler -> length (ptable k) = NPROC ->
  runnable_ok k ->
  returns (scheduler_pick k) (fun r k' =>
    held k' = [PtableLock] /\
    k' = k <| rng := rng k' |> <| held := held k' |> <| curproc := curproc k' |>
           <| ptable := ptable k' |> <| vmst := vmst k' |> /\
    match r with
    | Some i =>
        (i < NPROC)%nat /\ state (ptable k !!! i) = RUNNABLE /\ curproc k' = Some i /\
        cr3 (vmst k') = V2P (pgdir (ptable k !!! i)) /\ vm_fixed (vmst k') = vm_fixed (vmst k) /\
        ptable k' = alter (fun p => p <| state := RUNNING |>) i (ptable k)
    | None =>
        (forall i, (i < NPROC)%nat -> state (ptable k !!! i) <> RUNNABLE) /\
        curproc k' = curproc k /\ ptable k' = ptable k /\ vmst k' = vmst k
    end).
Proof.
  intros Hh Hf Hl Hok. unfold scheduler_pick, mbind, K_bind.
  rewrite acquire_ok by (rewrite Hh; notheld). cbn [obind].
  rewrite acquire_ok by (simpl; rewrite Hh; notheld). unfold gets. cbn [obind].
  set (k1 := k <| held ::= cons PtableLock |> <| held ::= cons SchedulerLock |>).
  change (ready_process k1) with (ready_process k). rewrite Hf.
  pose proof (default_policy_spec k1) as Hp.
  destruct (run_policy defaultScheduler k1) as [r k2| | | |]; try done.
  destruct Hp as [Hk2 Hr]. cbn [obind].
  assert (held k2 = [SchedulerLock; PtableLock]) as Hh2 by (rewrite Hk2; simpl; by rewrite Hh).
  assert (ptable k2 = ptable k) as Hp2 by (by rewrite Hk2).
  assert (curproc k2 = curproc k) as Hc2 by (by rewrite Hk2).
  rewrite (release_ok _ [PtableLock]) by (done || notheld). cbn [obind].
  destruct r as [i|]; unfold modify; cbn [obind].
  - destruct Hr as [Hi Hs]. change (ptable k1) with (ptable k) in Hs.
    destruct (Hok i Hs) as [Hk Hg]. unfold switchuvm.
    simpl. rewrite Hp2. rewrite (proj2 (Z.eqb_neq _ _)) by done.
    rewrite (proj2 (Z.eqb_neq _ _)) by done. kunfold. simpl. rewrite Hp2. split_and!; try done; [|by rewrite Hk2].
    kernel_ext; simpl; by rewrite Hk2.
  - kunfold. simpl. rewrite Hp2. split_and!; try done; [|by rewrite Hk2]. kernel_ext; simpl; by rewrite Hk2.
Qed.

(** A round of [scheduler] under the default policy is work-conserving: if some
    process is RUNNABLE it selects one, makes it current and RUNNING, loads its page
    table and changes no other slot; it goes idle only if none is; it panics in no case and leaves with
    exactly [ptable.lock] held, as [swtch] requires. *)
Theorem scheduler_work_conserving k :
  held k = [] -> ready_process k = defaultScheduler -> length (ptable k) = NPROC ->
  runnable_ok k ->
  returns (scheduler_pick k) (fun r k' =>
    held k' = [PtableLock] /\
    match r with
    | Some i =>
        state (ptable k !!! i) = RUNNABLE /\ curproc k' = Some i /\
        state (ptable k' !!! i) = RUNNING /\ cr3 (vmst k') = V2P (pgdir (ptable k !!! i)) /\
        (forall j, j <> i -> ptable k' !!! j = ptable k !!! j)
    | None => (forall i, (i < NPROC)%nat -> state (ptable k !!! i) <> RUNNABLE) /\
        ptable k' = ptable k
    end).
Proof.
  intros Hh Hf Hl Hok. eapply returns_mono; [by apply scheduler_pick_spec|].
  intros [i|] k' (Hh' & _ & Hr); split; try done; [|by destruct Hr as (? & _ & ? & _)].
  destruct Hr as (Hi & Hs & Hc & Hcr & _ & ->). split_and!; try done.
  - by rewrite alter_same by lia.
  - intros j Hj. by rewrite alter_other.
Qed.

(** A table with one process, pid 7, in slot 3, in the given state. *)
Definition one_slot (s : procstate) : proc :=
  zero_proc <| state := s |> <| pid := 7 |> <| kstack := 2151677952 |> <| pgdir := 2151682048 |>.
Definition one_proc (s : procstate) : kernel :=
  kernel0 <| ptable ::= <[3%nat := one_slot s]> |>.

(** That process running, on its own page table. *)
Definition one_running : kernel :=
  one_proc RUNNING <| curproc := Some 3%nat |> <| vmst ::= upd cr3 (fun _ => V2P 2151682048) |>.

Lemma one_proc_other s i : i <> 3%nat -> ptable (one_proc s) !!! i = zero_proc.
Proof.
  intros Hi. change (<[3%nat := one_slot s]> (replicate NPROC zero_proc) !!! i = zero_proc).
  rewrite list_lookup_total_insert_ne by done.
  destruct (decide (i < NPROC)%nat).
  - by apply lookup_total_replicate_2.
  - by rewrite list_lookup_total_alt, lookup_ge_None_2 by (rewrite length_replicate; lia).
Qed.

Lemma scheduler_work_conserving_witness :
  returns (scheduler_pick (one_proc RUNNABLE)) (fun r k' => r = Some 3%nat /\
    state (ptable k' !!! 3%nat) = RUNNING).
Proof.
  eapply returns_mono; [apply scheduler_work_conserving; try reflexivity|].
  - intros i. destruct (decide (i = 3%nat)) as [->|Hi]; [done|]. by rewrite one_proc_other.
  - intros [i|] k' [_ H].
    + destruct H as (Hs & _ & Hr & _). destruct (decide (i = 3%nat)) as [->|Hi]; [done|].
      rewrite one_proc_other in Hs; done.
    + destruct H as [H _]. by destruct (H 3%nat ltac:(unfold NPROC; lia)).
Defined.

(** ** Sleep and wakeup *)
Lemma upd_proc_compose i f g k :
  upd_proc i f (upd_proc i g k) = upd_proc i (fun p => f (g p)) k.
Proof. unfold upd_proc, upd, upd_ptable. simpl. by rewrite alter_alter. Qed.

Lemma sleep_lock_spec lk k : held k = [lk] ->
  sleep_lock acquire release lk k = Ret tt (k <| held := [PtableLock] |>).
Proof.
  intros Hh. unfold sleep_lock. kunfold. case_bool_decide as Hlk.
  - rewrite acquire_ok by (rewrite Hh; notheld). simpl.
    rewrite release_any by (simpl; rewrite Hh; set_solver +).
    f_equal. destruct k; simpl in *; subst. unfold upd, upd_held. simpl.
    rewrite filter_cons_True by done. rewrite filter_remove_top by notheld. done.
  - subst lk. destruct k; simpl in *. by subst.
Qed.

Lemma sleep_unlock_spec lk k : held k = [PtableLock] ->
  sleep_unlock acquire release lk k = Ret tt (k <| held := [lk] |>).
Proof.
  intros Hh. unfold sleep_unlock. kunfold. case_bool_decide as Hlk.
  - rewrite (release_ok _ []) by (done || notheld). simpl.
    rewrite acquire_ok by notheld. done.
  - subst lk. destruct k; simpl in *. by subst.
Qed.

Lemma sched_spec i k :
  held k = [PtableLock] -> curproc k = Some i -> state (ptable k !!! i) <> RUNNING ->
  sched k = swtch_out i k.
Proof.
  intros Hh Hc Hs. unfold sched, cur. kunfold. rewrite Hc. simpl.
  unfold holding. rewrite Hh. rewrite bool_decide_true by set_solver +. simpl.
  by rewrite bool_decide_false.
Qed.

(** The slot of a process that has gone to sleep on [c]. *)
Definition asleep (c : channel) (p : proc) : proc :=
  p <| chan := c |> <| state := SLEEPING |>
    <| context ::= upd ctx_eip (fun _ => SCHED_RESUME) |>.

Lemma sleep_blocks c lk i k :
  held k = [lk] -> curproc k = Some i -> (i < length (ptable k))%nat ->
  exists r,
    sleep c (Some lk) k = Swtch (upd_proc i (asleep c) (k <| held := [PtableLock] |>)) r /\
    forall k', held k' = [PtableLock] ->
      r k' = Ret tt (upd_proc i (fun p => p <| chan := ChanNone |>) k' <| held := [lk] |>).
Proof.
  intros Hh Hc Hi. unfold sleep, sleep_with. kunfold. simpl. rewrite Hc. simpl.
  rewrite sleep_lock_spec by done. cbn [obind]. rewrite upd_proc_compose.
  rewrite (sched_spec i) by (try done; simpl; by rewrite alter_same).
  unfold swtch_out. cbn [obind]. rewrite upd_proc_compose.
  eexists. split; [done|]. intros k' Hk'. cbn [obind].
  by rewrite sleep_unlock_spec.
Qed.

(** [sleep] under rely and guarantee. *)
Definition awake (i : nat) (lk : lockid) (k : kernel) : kernel :=
  upd_proc i (fun p => p <| chan := ChanNone |>) k <| held := [lk] |>.

Lemma sleep_rg R G c lk i k k0 (Q : unit -> kernel -> kernel -> Prop) :
  held k = [lk] -> curproc k = Some i -> (i < length (ptable k))%nat ->
  let k1 := upd_proc i (asleep c) (k <| held := [PtableLock] |>) in
  G k0 k1 ->
  (forall k', R k1 k' -> held k' = [PtableLock] /\ Q tt k' (awake i lk k')) ->
  rg R G k0 (sleep c (Some lk) k) Q.
Proof.
  intros Hh Hc Hi k1 HG HQ. destruct (sleep_blocks c lk i k) as (r & -> & Hr); try done.
  split; [done|]. intros k' Hk'. destruct (HQ k' Hk') as [Hh' HQ']. by rewrite Hr.
Qed.

(** The states in which the scheduler resumes process [i] (after [sched] in its own
    kernel thread): [ptable.lock] is held and [i] is current; the table keeps its size. *)
Definition resumed (i : nat) (k k' : kernel) : Prop :=
  held k' = [PtableLock] /\ curproc k' = Some i /\ length (ptable k') = length (ptable k).

(** What [wakeup1] does to one slot. *)
Definition woken (c : channel) (p : proc) : proc :=
  if bool_decide (state p = SLEEPING) && bool_decide (chan p = c)
  then p <| state := RUNNABLE |> else p.

Lemma fmap_lookup_total_proc (f : proc -> proc) (ps : list proc) i :
  (i < length ps)%nat -> (f <$> ps) !!! i = f (ps !!! i).
Proof. apply list_lookup_total_fmap. Qed.

Lemma wakeup_spec c k : PtableLock ∉ held k ->
  wakeup c k = Ret tt (k <| ptable ::= fmap (woken c) |>).
Proof.
  intros Hh. unfold wakeup, wakeup1. kunfold. rewrite acquire_ok by done. simpl.
  rewrite (release_ok _ (held k)) by done. by destruct k.
Qed.

(** [sleep] with the other CPUs running. They may run around every operation on a lock; a
    point at which they do is a switch. *)
Definition others_run : K unit := fun k => Swtch k (fun k' => Ret tt k').
Definition acquire_mp (lk : lockid) : K unit := others_run ;; acquire lk ;; others_run.
Definition release_mp (lk : lockid) : K unit := release lk ;; others_run.

(** What a process waits for: whether it has come about, and whether the [wakeup] of the one
    who brought it about is still to be done. *)
Record waited : Type := mkWaited { ready : bool; due : bool }.

(** A step of the other CPUs, while this one holds [held k]: with [lk] they bring about what
    is waited for, and owe a [wakeup] from then on; they do the [wakeup], which takes
    [ptable.lock]; or they do anything else, which leaves this CPU's locks and process. *)
Inductive others (c : channel) (lk : lockid) : kernel * waited -> kernel * waited -> Prop :=
  | others_ready k w : lk ∉ held k -> others c lk (k, w) (k, mkWaited true true)
  | others_wakeup k k' b : wakeup c k = Ret tt k' -> others c lk (k, mkWaited b true) (k', mkWaited b false)
  | others_rest k k' w : held k' = held k -> curproc k' = curproc k ->
      length (ptable k') = length (ptable k) -> others c lk (k, w) (k', w).

(** Whatever the others do, the call comes to a switch at which [P] holds. *)
Fixpoint comes_to {A} (c : channel) (lk : lockid) (P : kernel -> waited -> Prop) (w : waited) (o : outcome A) : Prop :=
  match o with
  | Swtch k r => P k w \/ forall k' w', rtc (others c lk) (k, w) (k', w') -> comes_to c lk P w' (r k')
  | _ => False
  end.

(** A process that is asleep has its [wakeup] before it: once what it waits for is there, the
    [wakeup] is still due. *)
Definition safely_asleep (c : channel) (i : nat) (k : kernel) (w : waited) : Prop :=
  held k = [PtableLock] /\ state (ptable k !!! i) = SLEEPING /\ chan (ptable k !!! i) = c /\ (ready w = true -> due w = true).

(** What holds on the way there, with [H] the locks held here. *)
Definition dozing (lk : lockid) (i : nat) (n : nat) (H : list lockid) (x : kernel * waited) : Prop :=
  held x.1 = H /\ curproc x.1 = Some i /\ length (ptable x.1) = n /\
  (lk ∈ H -> ready x.2 = false) /\ (ready x.2 = true -> due x.2 = true).

Lemma wakeup_inv c k k' : wakeup c k = Ret tt k' -> PtableLock ∉ held k /\ k' = (k <| ptable ::= fmap (woken c) |>).
Proof.
  intros E. assert (PtableLock ∉ held k) as Hn.
  { intros Hin. revert E. unfold wakeup. kunfold. by rewrite acquire_panic. }
  rewrite wakeup_spec in E by done. by injection E as <-.
Qed.

Lemma others_dozing c lk i n H x x' :
  lk ∈ H \/ PtableLock ∈ H -> rtc (others c lk) x x' -> dozing lk i n H x -> dozing lk i n H x'.
Proof.
  intros HH. induction 1 as [|x y z Hs _ IH]; [done|]. intros (Hh & Hc & Hl & Hr & Hd). apply IH. clear IH.
  destruct Hs as [k w Hn|k k' b E|k k' w E1 E2 E3]; simpl in *.
  - rewrite Hh in Hn. split_and!; simpl; try done.
  - apply wakeup_inv in E as [Hn ->]. rewrite Hh in Hn. destruct HH as [HH|?]; [|done].
    specialize (Hr HH). subst b. split_and!; simpl; try done. by rewrite length_fmap.
  - by split_and!; simpl; rewrite ?E1, ?E2, ?E3.
Qed.

Lemma comes_to_run {A} c lk (P : kernel -> waited -> Prop) w (r : kernel -> outcome A) i n H k :
  dozing lk i n H (k, w) -> lk ∈ H \/ PtableLock ∈ H ->
  (forall k' w', dozing lk i n H (k', w') -> comes_to c lk P w' (r k')) -> comes_to c lk P w (Swtch k r).
Proof. intros Hz HH Hf. right. intros k' w' Ho. by eapply Hf, others_dozing. Qed.

Lemma sleep_lock_safely c lk P w (f : unit -> K unit) i n k :
  dozing lk i n [lk] (k, w) ->
  (forall k' w', dozing lk i n [PtableLock] (k', w') -> comes_to c lk P w' (f tt k')) ->
  comes_to c lk P w (obind f (sleep_lock acquire_mp release_mp lk k)).
Proof.
  intros Hz Hf. unfold sleep_lock. case_bool_decide as Hlk.
  2: { subst lk. by apply Hf. }
  unfold acquire_mp, release_mp. kunfold. simpl.
  eapply comes_to_run; [done|left; by left|]. intros k1 w1 (Hh1 & Hc1 & Hn1 & Hr1 & Hd1). simpl in *.
  rewrite acquire_ok by (rewrite Hh1; notheld). simpl.
  eapply (comes_to_run _ _ _ _ _ i n [PtableLock; lk]); [|right; by left|].
  { split_and!; simpl; try done; [by rewrite Hh1|]. intros _. by apply Hr1; left. }
  intros k2 w2 (Hh2 & Hc2 & Hn2 & Hr2 & Hd2). simpl in *. rewrite release_any by (rewrite Hh2; right; left). simpl.
  eapply (comes_to_run _ _ _ _ _ i n [PtableLock]); [|right; by left|done].
  split_and!; simpl; try done; [|by intros ->%list_elem_of_singleton].
  rewrite Hh2, filter_cons_True, filter_remove_top; [done|notheld|done].
Qed.

Lemma sleep_safely c lk i w k :
  held k = [lk] -> curproc k = Some i -> (i < length (ptable k))%nat -> ready w = false ->
  comes_to c lk (safely_asleep c i) w (sleep_with acquire_mp release_mp c (Some lk) k).
Proof.
  intros Hh Hc Hi Hw. unfold sleep_with. kunfold. simpl. rewrite Hc. simpl.
  eapply (sleep_lock_safely _ _ _ _ _ i (length (ptable k))); [by split_and!; simpl; [..|rewrite Hw]|].
  intros k1 w1 (Hh1 & Hc1 & Hn1 & _ & Hd1). simpl in *. rewrite upd_proc_compose.
  rewrite (sched_spec i) by (try done; simpl; rewrite alter_same by lia; done).
  left. unfold safely_asleep. simpl. rewrite !alter_same by (rewrite ?length_alter; lia). done.
Qed.

(** C7. No wakeup is lost. A process that calls [sleep(c, lk)] holding only [lk] reaches
    the scheduler SLEEPING on [c] with [ptable.lock] as the only lock held. The others may run
    between any two lock operations of the call, bring about what it waits for (with [lk]) and
    do the [wakeup] they then owe (which takes [ptable.lock]): if it was not there at the
    call, then when the process is asleep it is still not there or the [wakeup] is still due,
    because [ptable.lock] is taken before [lk] is given up. As long as its slot is unchanged a
    [wakeup] on [c] makes it RUNNABLE, one on another channel leaves it asleep, and
    when it is resumed [sleep] returns with [lk] held again and the channel cleared. *)
Theorem sleep_loses_no_wakeup c lk i k :
  held k = [lk] -> curproc k = Some i -> (i < length (ptable k))%nat ->
  (forall w, ready w = false -> comes_to c lk (safely_asleep c i) w (sleep_with acquire_mp release_mp c (Some lk) k)) /\
  exists k1 r,
    sleep c (Some lk) k = Swtch k1 r /\ held k1 = [PtableLock] /\
    state (ptable k1 !!! i) = SLEEPING /\ chan (ptable k1 !!! i) = c /\
    (forall j, j <> i -> ptable k1 !!! j = ptable k !!! j) /\
    (forall c' k2, PtableLock ∉ held k2 -> (i < length (ptable k2))%nat ->
       ptable k2 !!! i = ptable k1 !!! i ->
       returns (wakeup c' k2) (fun _ k3 => held k3 = held k2 /\
         state (ptable k3 !!! i) = if bool_decide (c' = c) then RUNNABLE else SLEEPING)) /\
    (forall k', held k' = [PtableLock] -> (i < length (ptable k'))%nat ->
       returns (r k') (fun _ k'' => held k'' = [lk] /\ chan (ptable k'' !!! i) = ChanNone)).
Proof.
  intros Hh Hc Hi. split; [intros w Hw; by apply sleep_safely|].
  destruct (sleep_blocks c lk i k) as (r & Hs & Hr); try done.
  eexists _, r. split; [exact Hs|]. simpl. rewrite alter_same by done.
  split_and!; try done.
  - intros j Hj. by rewrite alter_other.
  - intros c' k2 Hk2 Hi2 He. rewrite wakeup_spec by done. simpl. split; [done|].
    rewrite fmap_lookup_total_proc, He by done. unfold woken. simpl.
    by repeat case_bool_decide; try congruence.
  - intros k' Hk' Hi'. rewrite Hr by done. simpl. by rewrite alter_same.
Qed.

Lemma sleep_loses_no_wakeup_witness :
  let k := one_proc RUNNING <| held := [TicksLock] |> <| curproc := Some 3%nat |> in
  exists k1 r, sleep ChanTicks (Some TicksLock) k = Swtch k1 r /\
    returns (wakeup ChanTicks (k1 <| held := [] |>)) (fun _ k3 =>
      state (ptable k3 !!! 3%nat) = RUNNABLE).
Proof.
  intros k. destruct (sleep_loses_no_wakeup ChanTicks TicksLock 3 k)
    as (_ & k1 & r & H1 & _ & _ & _ & _ & Hw & _); [done..|by vm_compute; lia|].
  exists k1, r. split; [done|]. injection H1 as <- _.
  eapply returns_mono; [apply Hw|]; [notheld|by vm_compute; lia|done|]. by intros _ k3 [_ ?].
Defined.

(** Sleeping with a second spin lock held is always caught: [sched] panics rather
    than switch away with the lock held. *)
Theorem sleep_with_two_locks_panics c lk ls i k :
  held k = lk :: ls -> NoDup (held k) -> ls <> [] -> lk <> PtableLock -> PtableLock ∉ ls ->
  curproc k = Some i -> sleep c (Some lk) k = Panic "sched locks".
Proof.
  intros Hh Hnd Hls Hlk Hpt Hc. rewrite Hh in Hnd. apply NoDup_cons in Hnd as [Hnl _].
  unfold sleep, sleep_with, sleep_lock. kunfold. simpl. rewrite Hc. simpl.
  rewrite bool_decide_true by done.
  rewrite acquire_ok by (rewrite Hh; by apply not_elem_of_cons). simpl.
  rewrite release_any by (simpl; rewrite Hh; right; left). simpl.
  unfold sched, cur. kunfold. simpl. rewrite Hc. simpl.
  unfold holding. simpl. rewrite Hh, filter_cons_True, filter_remove_top by done.
  rewrite bool_decide_true by left. simpl. by destruct ls.
Qed.

Lemma sleep_with_two_locks_panics_witness :
  sleep ChanTicks (Some TicksLock)
    (one_proc RUNNING <| held := [TicksLock; IdeLock] |> <| curproc := Some 3%nat |>)
  = Panic "sched locks".
Proof.
  apply (sleep_with_two_locks_panics _ _ [IdeLock] 3); try done.
  - apply NoDup_cons. split; [notheld|apply NoDup_singleton].
  - notheld.
Defined.

(** ** kill *)
Lemma kill_spec n k :
  PtableLock ∉ held k ->
  kill n k =
    match list_find (fun p => pid p = n) (ptable k) with
    | Some (i, p) => Ret 0 (upd_proc i (fun p => (if bool_decide (state p = SLEEPING)
                                          then p <| state := RUNNABLE |> else p) <| killed := 1 |>) k)
    | None => Ret (-1) k
    end.
Proof.
  intros Hh. unfold kill. kunfold. rewrite acquire_ok by done. simpl.
  destruct (list_find _ (ptable k)) as [[i p]|] eqn:E.
  - simpl. apply list_find_Some in E as (Hi & _ & _).
    assert (ptable k !!! i = p) as Hp by by apply list_lookup_total_correct.
    assert (i < length (ptable k))%nat as Hl by by eapply lookup_lt_Some.
    case_bool_decide as Hs; simpl; rewrite (release_ok _ (held k)) by done; simpl; f_equal;
      destruct k; unfold upd_proc, upd, upd_ptable, upd_held; simpl in *; f_equal;
      rewrite ?alter_alter; apply list_alter_ext; try done; intros x Hx;
      rewrite Hi in Hx; simplify_eq; by case_bool_decide.
  - rewrite (release_ok _ (held k)) by done. by destruct k.
Qed.

(** [kill(n)] on a pid of the table: it returns 0, the first slot with that pid is
    marked killed and is not left SLEEPING, whatever channel it slept on, and no other
    slot changes. On any other pid it returns -1 and changes nothing. *)
Theorem kill_wakes_its_victim n k :
  PtableLock ∉ held k ->
  returns (kill n k) (fun r k' => held k' = held k /\
    ((r = 0 /\ exists i, (i < length (ptable k))%nat /\ pid (ptable k !!! i) = n /\
        (forall j, (j < i)%nat -> pid (ptable k !!! j) <> n) /\
        killed (ptable k' !!! i) = 1 /\ state (ptable k' !!! i) <> SLEEPING /\
        (forall j, j <> i -> ptable k' !!! j = ptable k !!! j)) \/
     (r = -1 /\ k' = k /\ forall p, p ∈ ptable k -> pid p <> n))).
Proof.
  intros Hh. rewrite kill_spec by done.
  destruct (list_find _ (ptable k)) as [[i p]|] eqn:E; simpl; (split; [done|]).
  - apply list_find_Some in E as (Hi & Hp & Hj). left. split; [done|]. exists i.
    assert (i < length (ptable k))%nat as Hl by by eapply lookup_lt_Some.
    rewrite (list_lookup_total_correct _ _ _ Hi). split_and!; try done.
    + intros j Hji. eapply Hj; [|done]. apply list_lookup_lookup_total_lt. lia.
    + by rewrite alter_same.
    + rewrite alter_same by done. by case_bool_decide.
    + intros j Hji. by rewrite alter_other.
  - right. split_and!; [done..|]. intros p Hp.
    apply list_find_None in E. rewrite Forall_forall in E. by apply E.
Qed.

Lemma kill_wakes_its_victim_witness :
  returns (kill 7 (one_proc SLEEPING)) (fun r k' => r = 0 /\
    killed (ptable k' !!! 3%nat) = 1 /\ state (ptable k' !!! 3%nat) <> SLEEPING).
Proof.
  eapply returns_mono; [apply (kill_wakes_its_victim 7); notheld|].
  intros r k' [_ [(-> & i & Hi & Hp & _ & Hk & Hs & _)|(_ & _ & H)]].
  - destruct (decide (i = 3%nat)) as [->|Hne]; [done|]. by rewrite one_proc_other in Hp.
  - destruct (H (ptable (one_proc SLEEPING) !!! 3%nat)); [|done].
    apply list_elem_of_lookup_total_2. by vm_compute; lia.
Defined.

(** C40. [setscheduler] on the five ids of the policy table installs the policy and
    returns the id, and any id below 0 or above 5 is refused with -1; but 5 passes the
    range check and indexes the table out of bounds. *)
Theorem setscheduler_accepts_five sid k :
  SchedulerLock ∉ held k ->
  match setscheduler sid k with
  | Ret r k' => held k' = held k /\ ptable k' = ptable k /\
      ((0 <= sid < 5 /\ r = sid /\ schedSelected k' = sid /\
        schedulerFunction !! Z.to_nat sid = Some (ready_process k')) \/
       ((sid < 0 \/ 5 < sid) /\ r = -1 /\ k' = k))
  | Undef _ => sid = 5
  | _ => False
  end.
Proof.
  intros Hh. unfold setscheduler. kunfold. zcases; simpl; try (split_and!; auto; lia).
  destruct (Z.eq_dec sid 5) as [->|]; [by rewrite acquire_ok by done|].
  assert (sid = 0 \/ sid = 1 \/ sid = 2 \/ sid = 3 \/ sid = 4) as Hs by lia.
  rewrite acquire_ok by done.
  destruct Hs as [-> |[-> |[-> |[-> | ->]]]]; simpl; rewrite (release_ok _ (held k)) by done;
    split_and!; try done; left; split_and!; done.
Qed.

Lemma setscheduler_accepts_five_witness :
  returns (setscheduler 2 kernel0) (fun r k' => r = 2 /\ ready_process k' = fcfsScheduler).
Proof.
  pose proof (setscheduler_accepts_five 2 kernel0 (not_elem_of_nil _)) as H.
  destruct (setscheduler 2 kernel0) as [r k'| | | |]; try done.
  destruct H as (_ & _ & [(_ & -> & _ & Hf)|[? _]]); [|lia]. by injection Hf.
Defined.
