(* ===== verification/Semaphore.v ===== *)
(** * Semaphore: the kernel semaphores (proc.c)

    [sem_init], [sem_destroy], [sem_wait] and [sem_signal] over the table [sema], with
    the per-process account [sem_held] and the loop of [exit] that settles it. *)
From stdpp Require Import base list list_numbers gmap strings.
From Stdlib Require Import ZArith Lia.
From S2P Require Import Prelude Mem Layout Machine Sched.
Local Open Scope Z_scope.

(** ** Operations *)
Definition sem_at (k : kernel) (sem : Z) : semaphore := sema k !!! Z.to_nat sem.
Definition upd_sem (sem : Z) (f : semaphore -> semaphore) (k : kernel) : kernel :=
  k <| sema ::= alter f (Z.to_nat sem) |>.
Definition sem_lock (sem : Z) : lockid := SemaLock (Z.to_nat sem).
Definition sem_chan (sem : Z) : channel := ChanSema (Z.to_nat sem).

Definition sem_init (sem v : Z) : K Z :=
  if (sem <? 0) || (32 <=? sem) then mret (-1)
  else
    acquire (sem_lock sem) ;;
    s ← gets (fun k => sem_at k sem) ;
    if active s =? 1 then release (sem_lock sem) ;; mret (-1)
    else
      modify (upd_sem sem (fun s => s <| value := v |>)) ;;
      modify (upd_sem sem (fun s => s <| active := 1 |>)) ;;
      release (sem_lock sem) ;;
      mret 0.

Definition sem_destroy (sem : Z) : K Z :=
  if (sem <? 0) || (32 <=? sem) then mret (-1)
  else
    acquire (sem_lock sem) ;;
    s ← gets (fun k => sem_at k sem) ;
    if active s =? 0 then release (sem_lock sem) ;; mret (-1)
    else
      modify (upd_sem sem (fun s => s <| active := 0 |>)) ;;
      modify (upd_sem sem (fun s => s <| value := 0 |>)) ;;
      release (sem_lock sem) ;;
      mret 0.

(** [sema[sem].value += d]. *)
Definition sem_add (sem d : Z) : K unit :=
  v ← gets (fun k => value (sem_at k sem)) ;
  v' ← sadd v d ;
  modify (upd_sem sem (fun s => s <| value := v' |>)).

(** The loop of [sem_wait]; [false] is the return of -1 after a wait on a semaphore that
    was destroyed meanwhile. *)
Fixpoint sem_wait_loop (fuel : nat) (sem count : Z) : K bool :=
  s ← gets (fun k => sem_at k sem) ;
  if value s <? count then
    match fuel with
    | O => out_of_fuel
    | S fuel' =>
        sleep (sem_chan sem) (Some (sem_lock sem)) ;;
        s ← gets (fun k => sem_at k sem) ;
        if active s =? 0 then release (sem_lock sem) ;; mret false
        else sem_wait_loop fuel' sem count
    end
  else mret true.

(** The account of the current process after its wait. *)
Definition settle (sem count : Z) : K unit :=
  i ← cur ;
  modify (upd_proc i (fun p => p <| sem_held ::= alter (fun h =>
    if count <=? h then s32 (h - count) else 0) (Z.to_nat sem) |>)).

Definition sem_wait (fuel : nat) (sem count : Z) : K Z :=
  if (sem <? 0) || (32 <=? sem) then mret (-1)
  else
    acquire (sem_lock sem) ;;
    s ← gets (fun k => sem_at k sem) ;
    if active s =? 0 then release (sem_lock sem) ;; mret (-1)
    else
      ok ← sem_wait_loop fuel sem count ;
      if ok : bool then
        sem_add sem (- count) ;;
        sem_add sem count ;;
        settle sem count ;;
        wakeup (sem_chan sem) ;;
        release (sem_lock sem) ;;
        mret 0
      else mret (-1).

Definition sem_signal (sem count : Z) : K Z :=
  if (sem <? 0) || (32 <=? sem) then mret (-1)
  else
    acquire (sem_lock sem) ;;
    s ← gets (fun k => sem_at k sem) ;
    if active s =? 0 then release (sem_lock sem) ;; mret (-1)
    else
      sem_add sem count ;;
      wakeup (sem_chan sem) ;;
      release (sem_lock sem) ;;
      mret 0.

(** The loop of [exit] (proc.c) over the account of slot [i]. *)
Fixpoint exit_sems (i : nat) (left : nat) (n : Z) : K unit :=
  match left with
  | O => mret tt
  | S left' =>
      p ← gets (fun k => ptable k !!! i) ;
      let count := sem_held p !!! Z.to_nat n in
      whenK (0 <? count) (
        cprintf "WARNING: pid %d exited with %d resources of sem %d held. Auto-releasing.\n"
          [pid p; count; n] ;;
        _ ← sem_signal n count ;
        modify (upd_proc i (fun p => p <| sem_held ::= <[Z.to_nat n := 0]> |>))) ;;
      exit_sems i left' (n + 1)
  end.

(** ** Invariant *)
Definition sema_ok (k : kernel) : Prop :=
  length (sema k) = NSEM /\ forall n, - 2 ^ 31 <= value (sem_at k n) < 2 ^ 31.

Lemma sem_at_upd sem f k : 0 <= sem < 32 -> length (sema k) = NSEM ->
  sem_at (upd_sem sem f k) sem = f (sem_at k sem).
Proof. intros. unfold sem_at, upd_sem. simpl. apply alter_same. unfold NSEM in *. lia. Qed.

Lemma sem_add_ok sem d k :
  - 2 ^ 31 <= value (sem_at k sem) + d < 2 ^ 31 ->
  sem_add sem d k = Ret tt (upd_sem sem (fun s => s <| value := value (sem_at k sem) + d |>) k).
Proof. intros. unfold sem_add. kunfold. simpl. by rewrite sadd_ok. Qed.

(** Adding and taking back leaves the table as it was. *)
Lemma sem_add_undone sem count k :
  sema_ok k -> 0 <= sem < 32 -> 0 <= count <= value (sem_at k sem) ->
  (sem_add sem (- count) ;; sem_add sem count) k = Ret tt k.
Proof.
  intros [Hl Hr] Hs Hc. pose proof (Hr sem). kunfold. rewrite sem_add_ok by lia. simpl.
  assert (sem_at (upd_sem sem (fun s => s <| value := value (sem_at k sem) + - count |>) k) sem
          = sem_at k sem <| value := value (sem_at k sem) + - count |>) as E
    by (by rewrite sem_at_upd by done).
  rewrite sem_add_ok; rewrite E; simpl; [|lia]. f_equal.
  destruct k; unfold upd_sem, upd, upd_sema in *; simpl in *; f_equal.
  rewrite alter_alter. apply list_eq. intros j. rewrite list_lookup_alter.
  case_decide; [subst j|done]. unfold sem_at. simpl.
  destruct (sema !! Z.to_nat sem) as [s|] eqn:E'; [simpl|done].
  rewrite (list_lookup_total_correct _ _ _ E'). destruct s; simpl.
  unfold upd, upd_value. simpl. repeat f_equal. lia.
Qed.

(** ** sem_wait *)

(** Every account is zero. *)
Definition accounts_zero (k : kernel) : Prop :=
  Forall (fun p => Forall (eq 0) (sem_held p)) (ptable k).

(** The environment of a waiter: it is resumed with the table well formed, and its
    own switches leave the table as it was and accounts that are zero, zero. *)
Definition sem_rely (i : nat) (k k' : kernel) : Prop := resumed i k k' /\ sema_ok k'.
Definition sem_same (k k' : kernel) : Prop :=
  sema k' = sema k /\ (accounts_zero k -> accounts_zero k').

Lemma accounts_upd_proc i f k :
  (forall p, Forall (eq 0) (sem_held p) -> Forall (eq 0) (sem_held (f p))) ->
  accounts_zero k -> accounts_zero (upd_proc i f k).
Proof. intros Hf H. apply Forall_alter; [done|]. intros p _. apply Hf. Qed.

Lemma accounts_woken c k :
  accounts_zero k -> accounts_zero (k <| ptable ::= fmap (woken c) |>).
Proof.
  intros H. apply Forall_fmap. eapply Forall_impl; [done|]. intros p Hp. simpl.
  unfold woken. by destruct (_ && _).
Qed.

(** What the waiter relies on between its waits. *)
Definition waiting (i : nat) (sem : Z) (k : kernel) : Prop :=
  held k = [sem_lock sem] /\ curproc k = Some i /\ (i < length (ptable k))%nat /\ sema_ok k.

Lemma sem_same_at k k' n : sema k' = sema k -> sem_at k' n = sem_at k n.
Proof. unfold sem_at. by intros ->. Qed.

Lemma sema_ok_same k k' : sema k' = sema k -> sema_ok k -> sema_ok k'.
Proof. intros H [Hl Hr]. split; [by rewrite H|]. intros n. by rewrite (sem_same_at k k'). Qed.

Lemma sem_wait_loop_rg fuel i sem count : forall k0 k,
  waiting i sem k -> active (sem_at k sem) <> 0 -> sem_same k0 k ->
  rg (sem_rely i) sem_same k0 (sem_wait_loop fuel sem count k) (fun ok k1 k2 =>
    sem_same k1 k2 /\
    if ok : bool then waiting i sem k2 /\ active (sem_at k2 sem) <> 0 /\ count <= value (sem_at k2 sem)
    else held k2 = [] /\ active (sem_at k2 sem) = 0).
Proof.
  induction fuel as [|fuel IH]; intros k0 k Hw Ha H0; simpl; kunfold; simpl;
    destruct (Z.ltb_spec (value (sem_at k sem)) count); try done.
  destruct Hw as (Hh & Hc & Hi & Hs). apply rg_bind, (sleep_rg _ _ _ _ i); try done.
  { destruct H0 as [H0 H0']. split; [done|]. intros. apply accounts_upd_proc; [done|]. by apply H0'. }
  intros k' [(Hh' & Hc' & Hl') Hs']. split; [done|]. simpl in Hl'. rewrite length_alter in Hl'.
  unfold awake. cbn [obind].
  set (k2 := upd_proc i _ k' <| held := [sem_lock sem] |>).
  assert (waiting i sem k2) as Hw2.
  { split_and!; try done; simpl. by rewrite length_alter, Hl'. }
  assert (sem_same k' k2) as Hk2 by (split; [done|]; intros; by apply accounts_upd_proc).
  destruct (Z.eqb_spec (active (sem_at k2 sem)) 0) as [E|E]; [|by apply IH].
  rewrite (release_ok _ []) by (done || notheld). simpl. by split_and!.
Qed.

(** The end of a wait that succeeds. *)
Lemma sem_wait_end i sem count k :
  waiting i sem k -> 0 <= sem < 32 -> 0 <= count <= value (sem_at k sem) ->
  returns ((sem_add sem (- count) ;; sem_add sem count ;; settle sem count ;;
     wakeup (sem_chan sem) ;; release (sem_lock sem) ;; mret 0) k)
    (fun r k' => r = 0 /\ held k' = [] /\ sem_same k k' /\ length (ptable k') = length (ptable k)).
Proof.
  intros (Hh & Hc & Hi & Hs) Hsem Hcount.
  pose proof (sem_add_undone sem count k Hs Hsem Hcount) as E. revert E. kunfold.
  destruct (sem_add sem (- count) k) as [[] k1| | | |]; simpl; try done.
  destruct (sem_add sem count k1) as [[] k2| | | |]; simpl; try done. intros [= ->].
  unfold settle, cur. kunfold. rewrite Hc. simpl.
  rewrite wakeup_spec by (simpl; rewrite Hh; notheld). simpl.
  rewrite (release_ok _ []) by (done || notheld). split_and!; try done.
  2: { simpl. by rewrite length_fmap, length_alter. }
  split; [done|]. intros Hz. apply accounts_woken, accounts_upd_proc; [|done]. intros p Hp. simpl.
  apply Forall_alter; [done|]. intros h _ <-. zcases. by replace count with 0 by lia.
Qed.

(** [sem_wait] never consumes: through any number of waits, whatever the other
    processes do meanwhile, none of its own segments changes the table of semaphores,
    and accounts ([sem_held]) that are zero stay zero. It returns 0 only at a moment when the semaphore is active and its value covers the
    request, and -1 only if the id is out of range or the semaphore inactive; it leaves
    no lock held and cannot panic. *)
Theorem sem_wait_never_consumes fuel i sem count k :
  held k = [] -> curproc k = Some i -> (i < length (ptable k))%nat -> sema_ok k -> 0 <= count ->
  rg (sem_rely i) sem_same k (sem_wait fuel sem count k) (fun r k1 k2 =>
    sem_same k1 k2 /\ held k2 = [] /\
    ((r = 0 /\ active (sem_at k2 sem) <> 0 /\ count <= value (sem_at k2 sem)) \/
     (r = -1 /\ (~ 0 <= sem < 32 \/ active (sem_at k2 sem) = 0)))).
Proof.
  intros Hh Hc Hi Hs Hcount. unfold sem_wait.
  destruct ((sem <? 0) || (32 <=? sem)) eqn:Er.
  { simpl. split_and!; try done. right. split; [done|]. left. lia. }
  assert (0 <= sem < 32) as Hsem by lia. unfold mbind at 1, K_bind at 1.
  rewrite acquire_ok by (rewrite Hh; notheld). kunfold. cbn [obind].
  set (k1 := k <| held ::= cons (sem_lock sem) |>).
  destruct (Z.eqb_spec (active (sem_at k1 sem)) 0) as [E|E].
  { rewrite (release_ok _ []) by ((simpl; by rewrite Hh) || notheld). simpl. split_and!; try done.
    right. split; [done|]. by right. }
  apply rg_bind. eapply rg_mono; [apply (sem_wait_loop_rg fuel i); try done|].
  { split_and!; try done; simpl. by rewrite Hh. }
  intros ok k2 k3 [Hsame Hok]. destruct ok.
  - destruct Hok as (Hw & Ha & Hv). apply rg_returns.
    eapply returns_mono; [by apply (sem_wait_end i)|].
    intros r k4 (-> & Hh4 & Hs4 & _). rewrite (sem_same_at k3) by apply Hs4.
    destruct Hsame, Hs4 as [Hs4 ?]. split_and!; try done; [split; [congruence|auto]|by left].
  - destruct Hok as [Hh3 Ha]. simpl. split_and!; try done. right. split; [done|]. by right.
Qed.

(** Slot 3 runs and semaphore 5 is active with value [v]. *)
Definition sem_demo (v : Z) : kernel :=
  one_proc RUNNING <| curproc := Some 3%nat |> <| sema ::= <[5%nat := mkSemaphore v 1]> |>.

Lemma sem_demo_ok v : - 2 ^ 31 <= v < 2 ^ 31 -> sema_ok (sem_demo v).
Proof.
  intros Hv. split; [done|]. intros n. unfold sem_at.
  change (sema (sem_demo v)) with (<[5%nat := mkSemaphore v 1]> (replicate NSEM (mkSemaphore 0 0))).
  destruct (decide (Z.to_nat n = 5%nat)) as [->|Hn].
  - rewrite list_lookup_total_insert_eq by (vm_compute; lia). done.
  - rewrite list_lookup_total_insert_ne by done.
    destruct (decide (Z.to_nat n < NSEM)%nat).
    + rewrite lookup_total_replicate_2 by done. simpl. lia.
    + rewrite list_lookup_total_alt, lookup_ge_None_2 by (rewrite length_replicate; lia). simpl. lia.
Qed.

(** ** sem_signal and the waiters *)
Lemma sem_signal_spec sem d k :
  0 <= sem < 32 -> sem_lock sem ∉ held k -> PtableLock ∉ held k ->
  active (sem_at k sem) <> 0 -> - 2 ^ 31 <= value (sem_at k sem) + d < 2 ^ 31 ->
  sem_signal sem d k = Ret 0 (upd_sem sem (fun s => s <| value := value (sem_at k sem) + d |>) k
                               <| ptable ::= fmap (woken (sem_chan sem)) |>).
Proof.
  intros Hsem Hl Hp Ha Hr. unfold sem_signal.
  replace ((sem <? 0) || (32 <=? sem)) with false by lia. kunfold.
  rewrite acquire_ok by done. cbn [obind].
  set (k1 := k <| held ::= cons (sem_lock sem) |>).
  rewrite (proj2 (Z.eqb_neq _ _)) by done. rewrite sem_add_ok by done. cbn [obind].
  rewrite wakeup_spec by (simpl; apply not_elem_of_cons; done). cbn [obind].
  rewrite (release_ok _ (held k)) by done. by destruct k.
Qed.

(** A wait that cannot be served goes to sleep on the semaphore, and is served at a
    resumption that finds enough. *)
Lemma sem_wait_blocks fuel i sem count k :
  waiting i sem (k <| held ::= cons (sem_lock sem) |>) -> 0 <= sem < 32 ->
  active (sem_at k sem) <> 0 -> value (sem_at k sem) < count -> 0 <= count ->
  exists k1 r, sem_wait (S fuel) sem count k = Swtch k1 r /\
    held k1 = [PtableLock] /\ sema k1 = sema k /\
    ptable k1 = alter (asleep (sem_chan sem)) i (ptable k) /\
    forall k', resumed i k1 k' -> sema_ok k' -> active (sem_at k' sem) <> 0 ->
      count <= value (sem_at k' sem) ->
      returns (r k') (fun v k'' => v = 0 /\ held k'' = [] /\ sema k'' = sema k').
Proof.
  intros (Hh & Hc & Hi & Hs) Hsem Ha Hv Hcount. unfold sem_wait.
  replace ((sem <? 0) || (32 <=? sem)) with false by lia.
  simpl in Hh. injection Hh as Hh. unfold mbind at 1, K_bind at 1.
  rewrite acquire_ok by (rewrite Hh; notheld). kunfold. cbn [obind].
  set (k0 := k <| held ::= cons (sem_lock sem) |>).
  rewrite (proj2 (Z.eqb_neq _ _)) by done. cbn [sem_wait_loop]. kunfold. cbn [obind].
  change (sem_at k0 sem) with (sem_at k sem). rewrite (proj2 (Z.ltb_lt _ _)) by done.
  destruct (sleep_blocks (sem_chan sem) (sem_lock sem) i k0) as (r & -> & Hr); try done.
  { simpl. by rewrite Hh. }
  eexists _, _. split; [done|]. split_and!; try done.
  intros k' (Hh' & Hc' & Hl') Hs' Ha' Hv'. rewrite Hr by done. cbn [obind].
  set (k2 := upd_proc i _ k' <| held := [sem_lock sem] |>).
  change (sem_at k2 sem) with (sem_at k' sem). rewrite (proj2 (Z.eqb_neq _ _)) by done.
  assert (sem_wait_loop fuel sem count k2 = Ret true k2) as ->.
  { destruct fuel; cbn [sem_wait_loop]; kunfold; cbn [obind];
      change (sem_at k2 sem) with (sem_at k' sem); by rewrite (proj2 (Z.ltb_ge _ _)). }
  cbn [obind]. eapply returns_mono; [apply (sem_wait_end i sem count k2)|]; try done.
  - split_and!; try done. simpl in *. rewrite length_alter in *. by rewrite Hl'.
  - intros v k'' (-> & Hh'' & [Hs'' _] & _). done.
Qed.

Lemma sem_wait_never_consumes_witness :
  exists k1 r, sem_wait 1 5 2 (sem_demo 1) = Swtch k1 r /\ sema k1 = sema (sem_demo 1).
Proof.
  pose proof (sem_wait_never_consumes 1 3 5 2 (sem_demo 1)) as H.
  destruct (sem_wait_blocks 0 3 5 2 (sem_demo 1)) as (k1 & r & E & _); try done.
  { split_and!; try done; [by vm_compute; lia|]. by apply sem_demo_ok. }
  rewrite E in H. exists k1, r. split; [done|].
  by apply H; try done; [vm_compute; lia|apply sem_demo_ok].
Defined.

(** A signal releases its waiter. A process that asks an active semaphore for more
    than its value sleeps on it without touching it; a [sem_signal] that brings the
    value up to the request, issued while the waiter's slot and the semaphore are as
    the waiter left them, returns 0, adds exactly its count, and makes the waiter
    RUNNABLE; and when the waiter runs again on that table, its [sem_wait] returns 0. *)
Theorem sem_signal_releases_waiter fuel i sem count d k :
  held k = [] -> curproc k = Some i -> (i < length (ptable k))%nat -> sema_ok k ->
  0 <= sem < 32 -> active (sem_at k sem) <> 0 -> 0 <= count ->
  value (sem_at k sem) < count <= value (sem_at k sem) + d ->
  value (sem_at k sem) + d < 2 ^ 31 ->
  exists k1 r, sem_wait (S fuel) sem count k = Swtch k1 r /\
    state (ptable k1 !!! i) = SLEEPING /\
    forall k2, held k2 = [] -> sema k2 = sema k1 -> length (ptable k2) = length (ptable k) ->
      ptable k2 !!! i = ptable k1 !!! i ->
      exists k3, sem_signal sem d k2 = Ret 0 k3 /\ held k3 = [] /\
        value (sem_at k3 sem) = value (sem_at k sem) + d /\
        state (ptable k3 !!! i) = RUNNABLE /\
        forall k4, resumed i k1 k4 -> sema k4 = sema k3 ->
          returns (r k4) (fun v k5 => v = 0 /\ held k5 = [] /\ sema k5 = sema k3).
Proof.
  intros Hh Hc Hi Hs Hsem Ha Hcount Hv Hd.
  destruct (sem_wait_blocks fuel i sem count k) as (k1 & r & E & Hh1 & Hs1 & Hp1 & Hr); try done.
  { split_and!; try done. simpl. by rewrite Hh. }
  { lia. }
  exists k1, r. split; [done|]. rewrite Hp1, alter_same by done. split; [done|].
  intros k2 Hh2 Hs2 Hl2 Hi2. pose proof (sem_same_at k k2 sem) as Hat.
  rewrite Hs2, Hs1 in Hat. specialize (Hat eq_refl). destruct Hs as [HsL HsR].
  rewrite (sem_signal_spec sem d k2); rewrite ?Hat, ?Hh2; [|done|notheld..|done|pose proof (HsR sem); lia].
  eexists. split; [done|]. split; [done|].
  assert (length (sema k2) = NSEM) as HL by (by rewrite Hs2, Hs1).
  assert (forall f, sem_at (upd_sem sem f k2) sem = f (sem_at k sem)) as Hup
    by (intros f; by rewrite sem_at_upd, Hat).
  split_and!.
  - rewrite (sem_same_at (upd_sem sem (fun s => s <| value := value (sem_at k sem) + d |>) k2)) by done.
    by rewrite Hup.
  - simpl. rewrite fmap_lookup_total_proc, Hi2 by lia. unfold woken. simpl.
    by rewrite bool_decide_true.
  - intros k4 Hk4 Hs4.
    pose proof (sem_same_at (upd_sem sem (fun s => s <| value := value (sem_at k sem) + d |>) k2) k4 sem Hs4) as H4.
    rewrite Hup in H4. eapply returns_mono; [apply Hr; try done|].
    + split; [by rewrite Hs4; simpl; rewrite length_alter|]. intros n.
      rewrite (sem_same_at _ k4 n Hs4). unfold sem_at. simpl.
      destruct (decide (Z.to_nat sem = Z.to_nat n)) as [<-|].
      * rewrite alter_same by (unfold NSEM in *; lia). simpl. pose proof (HsR sem). unfold sem_at in *. lia.
      * rewrite alter_other by done. rewrite Hs2, Hs1. apply HsR.
    + by rewrite H4.
    + rewrite H4. simpl. lia.
    + intros v k5 (-> & Hh5 & ->). by rewrite Hs4.
Qed.

Lemma sem_signal_releases_waiter_witness :
  exists k1 r, sem_wait 1 5 2 (sem_demo 1) = Swtch k1 r /\
    returns (sem_signal 5 1 (k1 <| held := [] |>)) (fun v k3 => v = 0 /\
      state (ptable k3 !!! 3%nat) = RUNNABLE).
Proof.
  assert (sema_ok (sem_demo 1)) as Hs by by apply sem_demo_ok.
  assert (3 < length (ptable (sem_demo 1)))%nat as Hi by by vm_compute; lia.
  destruct (sem_wait_blocks 0 3 5 2 (sem_demo 1)) as (k1 & r & E & _ & Hs1 & Hp1 & _); try done.
  destruct (sem_signal_releases_waiter 0 3 5 2 1 (sem_demo 1)) as (k1' & r' & E' & _ & H); try done.
  rewrite E in E'. injection E' as <- <-. exists k1, r. split; [done|].
  destruct (H (k1 <| held := [] |>)) as (k3 & -> & _ & _ & Hr & _); try done.
  simpl. by rewrite Hp1, length_alter.
Defined.

(** ** The account and the lack of mutual exclusion *)
Lemma sem_wait_served fuel i sem count k :
  held k = [] -> curproc k = Some i -> (i < length (ptable k))%nat -> sema_ok k ->
  0 <= sem < 32 -> active (sem_at k sem) <> 0 -> 0 <= count <= value (sem_at k sem) ->
  returns (sem_wait fuel sem count k) (fun r k' => r = 0 /\ held k' = [] /\ sema k' = sema k /\
    length (ptable k') = length (ptable k)).
Proof.
  intros Hh Hc Hi Hs Hsem Ha Hv. unfold sem_wait.
  replace ((sem <? 0) || (32 <=? sem)) with false by lia. unfold mbind at 1, K_bind at 1.
  rewrite acquire_ok by (rewrite Hh; notheld). kunfold. cbn [obind].
  set (k1 := k <| held ::= cons (sem_lock sem) |>).
  change (sem_at k1 sem) with (sem_at k sem). rewrite (proj2 (Z.eqb_neq _ _)) by done.
  assert (sem_wait_loop fuel sem count k1 = Ret true k1) as ->.
  { destruct fuel; cbn [sem_wait_loop]; kunfold; cbn [obind];
      change (sem_at k1 sem) with (sem_at k sem); by rewrite (proj2 (Z.ltb_ge _ _)) by lia. }
  cbn [obind]. eapply returns_mono; [apply (sem_wait_end i sem count k1)|]; try done.
  - split_and!; try done. simpl. by rewrite Hh.
  - intros r k' (-> & ? & [? _] & ?). by split_and!.
Qed.

(** The processes [js] one after the other in [sem_wait], with no wait allowed. *)
Fixpoint sem_wait_each (sem count : Z) (js : list nat) : K (list Z) :=
  match js with
  | [] => mret []
  | j :: js' =>
      modify (fun k => k <| curproc := Some j |>) ;;
      r ← sem_wait 0 sem count ;
      rs ← sem_wait_each sem count js' ;
      mret (r :: rs)
  end.

(** C29. A semaphore of this kernel does not exclude: when its value covers a request,
    any number of processes in turn pass [sem_wait] with that request and no
    [sem_signal] in between, and the table of semaphores is the same after all of
    them. With value 1 and requests of 1 this puts every process into the critical
    section at once. *)
Theorem sem_wait_admits_everyone sem count (js : list nat) k :
  held k = [] -> sema_ok k -> 0 <= sem < 32 -> active (sem_at k sem) <> 0 ->
  0 <= count <= value (sem_at k sem) -> Forall (fun j => j < length (ptable k))%nat js ->
  returns (sem_wait_each sem count js k)
    (fun rs k' => rs = replicate (length js) 0 /\ sema k' = sema k).
Proof.
  revert k. induction js as [|j js IH]; intros k Hh Hs Hsem Ha Hv Hjs; [done|].
  apply Forall_cons in Hjs as [Hj Hjs]. cbn [sem_wait_each]. kunfold. cbn [obind].
  pose proof (sem_wait_served 0 j sem count (k <| curproc := Some j |>)) as H.
  destruct (sem_wait 0 sem count _) as [r k1| | | |]; try by apply H.
  destruct H as (-> & Hh1 & Hs1 & Hl1); try done. cbn [obind].
  pose proof (IH k1) as H1. rewrite (sem_same_at k k1), Hl1 in H1 by done.
  destruct (sem_wait_each sem count js k1) as [rs k2| | | |];
    try by apply H1; try done; apply (sema_ok_same k).
  destruct H1 as [-> Hk2]; try done; [by apply (sema_ok_same k)|].
  cbn [obind returns]. split; [done|]. by rewrite Hk2, Hs1.
Qed.

Lemma sem_wait_admits_everyone_witness :
  returns (sem_wait_each 5 1 [3; 4; 9]%nat (sem_demo 1)) (fun rs k' => rs = [0; 0; 0]).
Proof.
  eapply returns_mono; [apply (sem_wait_admits_everyone 5 1); try done|by intros rs k' [-> _]].
  - by apply sem_demo_ok; lia.
  - repeat constructor; vm_compute; lia.
Defined.

(** With every account zero the release loop of [exit] does nothing: no warning
    is printed and no semaphore is signalled. As [sem_wait] keeps zero accounts zero
    and nothing else adds to them, that is every exit of a process whose requests are
    not negative. *)
Theorem exit_releases_nothing i k :
  accounts_zero k -> (i < length (ptable k))%nat -> length (sem_held (ptable k !!! i)) = NSEM ->
  exit_sems i NSEM 0 k = Ret tt k.
Proof.
  intros Hz Hi Hl. apply list_lookup_lookup_total_lt in Hi.
  pose proof (Forall_lookup_1 _ _ _ _ Hz Hi) as Hf.
  assert (forall left n, 0 <= n -> n + Z.of_nat left = Z.of_nat NSEM ->
    exit_sems i left n k = Ret tt k) as H; [|by apply H].
  induction left as [|left IH]; intros n Hn Hsum; [done|].
  destruct (lookup_lt_is_Some_2 (sem_held (ptable k !!! i)) (Z.to_nat n)) as [x Hx]; [lia|].
  pose proof (Forall_lookup_1 _ _ _ _ Hf Hx) as Hx0. cbv beta in Hx0. subst x.
  cbn [exit_sems]. kunfold. cbn [obind]. rewrite (list_lookup_total_correct _ _ _ Hx).
  simpl. apply IH; lia.
Qed.

Lemma exit_releases_nothing_witness : exit_sems 3 NSEM 0 (sem_demo 1) = Ret tt (sem_demo 1).
Proof.
  apply exit_releases_nothing; [|vm_compute; lia|done].
  repeat constructor.
Defined.
