(* ===== verification/Sleeplock.v ===== *)
(** * Sleeplock: sleeping locks (sleeplock.c)

    [initsleeplock], [acquiresleep], [releasesleep] and [holdingsleep] over the locks
    of buffers and inodes. *)
From stdpp Require Import base list list_numbers gmap strings functions.
From Stdlib Require Import ZArith Lia.
From S2P Require Import Prelude Mem Layout Machine Sched.
Local Open Scope Z_scope.

(** ** Operations *)
Definition set_sleeplock (s : slid) (v : sleeplock) (k : kernel) : kernel :=
  k <| slocks ::= <[s := v]> |>.

Definition initsleeplock (s : slid) : K unit :=
  initlock (SleepLk s) ;;
  modify (set_sleeplock s (mkSleeplock 0 0)).

(** [while (lk->locked) sleep(lk, &lk->lk);] *)
Fixpoint acquiresleep_loop (fuel : nat) (s : slid) : K unit :=
  l ← gets (fun k => slocks k s) ;
  if slocked l =? 0 then mret tt
  else
    match fuel with
    | O => out_of_fuel
    | S fuel' => sleep (ChanSleep s) (Some (SleepLk s)) ;; acquiresleep_loop fuel' s
    end.

Definition acquiresleep (fuel : nat) (s : slid) : K unit :=
  acquire (SleepLk s) ;;
  acquiresleep_loop fuel s ;;
  i ← cur ;
  modify (fun k => set_sleeplock s (mkSleeplock 1 (pid (ptable k !!! i))) k) ;;
  release (SleepLk s).

Definition releasesleep (s : slid) : K unit :=
  acquire (SleepLk s) ;;
  modify (set_sleeplock s (mkSleeplock 0 0)) ;;
  wakeup (ChanSleep s) ;;
  release (SleepLk s).

Definition holdingsleep (s : slid) : K bool :=
  acquire (SleepLk s) ;;
  r ← gets (fun k => negb (slocked (slocks k s) =? 0)) ;
  release (SleepLk s) ;;
  mret r.

(** ** Exclusion *)
Definition slocks_same (k k' : kernel) : Prop := slocks k' = slocks k.

Lemma acquiresleep_loop_rg fuel i s : forall k0 k,
  held k = [SleepLk s] -> curproc k = Some i -> (i < length (ptable k))%nat -> slocks_same k0 k ->
  rg (resumed i) slocks_same k0 (acquiresleep_loop fuel s k) (fun _ k1 k2 =>
    slocks_same k1 k2 /\ slocked (slocks k2 s) = 0 /\ held k2 = [SleepLk s] /\ curproc k2 = Some i).
Proof.
  induction fuel as [|fuel IH]; intros k0 k Hh Hc Hi H0; simpl; kunfold; simpl;
    destruct (Z.eqb_spec (slocked (slocks k s)) 0); try done.
  apply rg_bind, (sleep_rg _ _ _ _ i); try done.
  intros k' (Hh' & Hc' & Hl'). simpl in Hl'. rewrite length_alter in Hl'. split; [done|].
  apply IH; try done. simpl. by rewrite length_alter, Hl'.
Qed.

(** Sleeping locks exclude. Through any number of waits and whatever other
    processes do meanwhile, [acquiresleep] touches no sleep lock until the segment in
    which it returns, and in that segment the lock was free and is now held under the
    pid of the caller; all other sleep locks are as they were. *)
Theorem acquiresleep_excludes fuel i s k :
  held k = [] -> curproc k = Some i -> (i < length (ptable k))%nat ->
  rg (resumed i) slocks_same k (acquiresleep fuel s k) (fun _ k1 k2 =>
    held k2 = [] /\ slocked (slocks k1 s) = 0 /\
    slocks k2 s = mkSleeplock 1 (pid (ptable k2 !!! i)) /\
    forall s', s' <> s -> slocks k2 s' = slocks k1 s').
Proof.
  intros Hh Hc Hi. unfold acquiresleep, mbind, K_bind.
  rewrite acquire_ok by (rewrite Hh; notheld). cbn [obind].
  apply rg_bind. eapply rg_mono; [apply (acquiresleep_loop_rg fuel i); try done; simpl; by rewrite Hh|].
  intros _ k1 k2 (Hs & H0 & Hh2 & Hc2). unfold cur. rewrite Hc2. cbn [obind].
  unfold modify. cbn [obind]. rewrite (release_ok _ []) by (done || notheld).
  simpl. rewrite Hs in *. split_and!; try done.
  - by rewrite fn_lookup_insert.
  - intros s' Hs'. by rewrite fn_lookup_insert_ne.
Qed.

Lemma acquiresleep_excludes_witness :
  let k := one_proc RUNNING <| curproc := Some 3%nat |> in
  returns (acquiresleep 0 (BufLock 4) k) (fun _ k' => slocks k' (BufLock 4) = mkSleeplock 1 7).
Proof.
  intros k. pose proof (acquiresleep_excludes 0 3 (BufLock 4) k) as H.
  assert (exists k2, acquiresleep 0 (BufLock 4) k = Ret tt k2) as [k2 E]
    by (eexists; with_strategy transparent [acquire release] reflexivity).
  rewrite E in H |- *. destruct H as (_ & _ & H & _); [done..|by vm_compute; lia|].
  simpl. rewrite H. by injection E as <-.
Defined.

(** [releasesleep] frees the lock, keeps the others, and makes every process that
    waits for it RUNNABLE. *)
Theorem releasesleep_frees s k :
  held k = [] ->
  returns (releasesleep s k) (fun _ k' => held k' = [] /\
    slocked (slocks k' s) = 0 /\ (forall s', s' <> s -> slocks k' s' = slocks k s') /\
    forall i, (i < length (ptable k))%nat ->
      ptable k' !!! i = if bool_decide (state (ptable k !!! i) = SLEEPING /\ chan (ptable k !!! i) = ChanSleep s)
                        then (ptable k !!! i) <| state := RUNNABLE |> else ptable k !!! i).
Proof.
  intros Hh. unfold releasesleep. kunfold. rewrite acquire_ok by (rewrite Hh; notheld). cbn [obind].
  rewrite wakeup_spec by (simpl; rewrite Hh; notheld). cbn [obind].
  rewrite (release_ok _ []) by ((simpl; by rewrite Hh) || notheld).
  simpl. split_and!; try done.
  - by rewrite fn_lookup_insert.
  - intros s' Hs'. by rewrite fn_lookup_insert_ne.
  - intros i Hi. rewrite fmap_lookup_total_proc by done. unfold woken. by rewrite bool_decide_and.
Qed.

Lemma releasesleep_frees_witness :
  let k := one_proc SLEEPING <| ptable ::= alter (fun p => p <| chan := ChanSleep (BufLock 4) |>) 3%nat |>
             <| slocks := fun _ => mkSleeplock 1 9 |> in
  returns (releasesleep (BufLock 4) k) (fun _ k' => slocked (slocks k' (BufLock 4)) = 0 /\
    state (ptable k' !!! 3%nat) = RUNNABLE).
Proof.
  intros k. eapply returns_mono; [by apply releasesleep_frees|].
  intros _ k' (_ & Hs & _ & Hp). split; [done|]. rewrite Hp by (vm_compute; lia). reflexivity.
Defined.
