(* ===== verification/Spinlock.v ===== *)
(** * Spinlock: spin locks on several CPUs (spinlock.c)

    [acquire], [release], [holding], [pushcli] and [popcli] at the granularity of single
    memory accesses, executed by any number of CPUs in any interleaving.  The routines
    are shown to implement atomic locks with an owner, which is the view the other
    files take ([held] in Machine.v), and to keep interrupts off while a lock is held. *)
From stdpp Require Import base list list_numbers gmap strings functions relations.
From Stdlib Require Import ZArith Lia.
From S2P Require Import Prelude Mem Layout Machine.
Local Open Scope Z_scope.

Module Smp.

(** ** State *)

(** [struct spinlock] (spinlock.h) without the debugging fields [name] and [pcs]. *)
Record spinlock := mkSpinlock { locked : Z; lcpu : option nat }.

(** The fields of [struct cpu] (proc.h) the lock code uses, and the interrupt flag of
    %eflags. [nested] counts the calls of [pushcli] by code other than the lock code
    ([myproc], [switchuvm]) that have no [popcli] yet. *)
Record cpu := mkCpu { ncli : Z; intena : bool; IF : bool; nested : nat }.

(** Where a CPU is: outside the lock code, or about to execute the named access. *)
Inductive pc :=
  | Outside
  | AcqHoldLocked (l : lockid)
  | AcqHoldCpu (l : lockid)
  | AcqXchg (l : lockid)
  | AcqSetCpu (l : lockid)
  | RelHoldLocked (l : lockid)
  | RelHoldCpu (l : lockid)
  | RelClearCpu (l : lockid)
  | RelStore (l : lockid)
  | RelPopcli
  | Panicked (msg : string).

Record core := mkCore { at_ : pc; regs : cpu }.
Record smp := mkSmp { cores : nat -> core; spin : lockid -> spinlock }.

(** What the code outside calls next. *)
Inductive call := CallAcquire (l : lockid) | CallRelease (l : lockid) | CallPushcli | CallPopcli | SetIF (b : bool).

(** ** Operations *)
Definition pushcli (c : cpu) : cpu :=
  mkCpu (ncli c + 1) (if ncli c =? 0 then IF c else intena c) false (nested c).

Definition popcli (c : cpu) : string + cpu :=
  if IF c then inl "popcli - interruptible"
  else if ncli c - 1 <? 0 then inl "popcli"
  else inr (mkCpu (ncli c - 1) (intena c) ((ncli c - 1 =? 0) && intena c) (nested c)).

Definition bump (f : nat -> nat) (c : cpu) : cpu := mkCpu (ncli c) (intena c) (IF c) (f (nested c)).

(** One access of CPU [c]. A spinning [xchg] that finds the lock taken writes the 1 that
    is there; [call] is consulted outside the lock code only. Bare [popcli]s are matched
    with bare [pushcli]s, and the interrupt flag is set or cleared by other code only
    while no [pushcli] is outstanding. *)
Definition step_core (c : nat) (next : call) (s : smp) : option (core * (lockid -> spinlock)) :=
  let r := regs (cores s c) in
  let m := spin s in
  match at_ (cores s c) with
  | Outside =>
      match next with
      | CallAcquire l => Some (mkCore (AcqHoldLocked l) (pushcli r), m)
      | CallRelease l => Some (mkCore (RelHoldLocked l) r, m)
      | CallPushcli => Some (mkCore Outside (bump S (pushcli r)), m)
      | CallPopcli =>
          match nested r, popcli r with
          | O, _ => None
          | _, inl msg => Some (mkCore (Panicked msg) r, m)
          | _, inr r' => Some (mkCore Outside (bump pred r'), m)
          end
      | SetIF b => if ncli r =? 0 then Some (mkCore Outside (mkCpu (ncli r) (intena r) b (nested r)), m) else None
      end
  | AcqHoldLocked l =>
      Some (mkCore (if locked (m l) =? 0 then AcqXchg l else AcqHoldCpu l) r, m)
  | AcqHoldCpu l =>
      Some (mkCore (if bool_decide (lcpu (m l) = Some c) then Panicked "acquire" else AcqXchg l) r, m)
  | AcqXchg l =>
      Some (mkCore (if locked (m l) =? 0 then AcqSetCpu l else AcqXchg l) r,
            <[l := mkSpinlock 1 (lcpu (m l))]> m)
  | AcqSetCpu l => Some (mkCore Outside r, <[l := mkSpinlock (locked (m l)) (Some c)]> m)
  | RelHoldLocked l =>
      Some (mkCore (if locked (m l) =? 0 then Panicked "release" else RelHoldCpu l) r, m)
  | RelHoldCpu l =>
      Some (mkCore (if bool_decide (lcpu (m l) = Some c) then RelClearCpu l else Panicked "release") r, m)
  | RelClearCpu l => Some (mkCore (RelStore l) r, <[l := mkSpinlock (locked (m l)) None]> m)
  | RelStore l => Some (mkCore RelPopcli r, <[l := mkSpinlock 0 (lcpu (m l))]> m)
  | RelPopcli =>
      match popcli r with
      | inl msg => Some (mkCore (Panicked msg) r, m)
      | inr r' => Some (mkCore Outside r', m)
      end
  | Panicked _ => None
  end.

(** Any CPU takes the next step. *)
Inductive step : smp -> smp -> Prop :=
  | step_cpu c next s co m :
      step_core c next s = Some (co, m) -> step s (mkSmp (<[c := co]> (cores s)) m).

(** [initlock] on every lock; the CPUs start outside with interrupts off. *)
Definition boot : smp :=
  mkSmp (fun _ => mkCore Outside (mkCpu 0 false false 0)) (fun _ => mkSpinlock 0 None).

Definition reachable (s : smp) : Prop := rtc step boot s.

(** CPU [c] is between its successful [xchg] on [l] and the store that frees it. *)
Definition owns (s : smp) (c : nat) (l : lockid) : Prop :=
  lcpu (spin s l) = Some c \/ at_ (cores s c) = AcqSetCpu l \/ at_ (cores s c) = RelStore l.

(** ** Mutual exclusion *)

(** What holds of lock [l] in every reachable state. *)
Record lock_inv (s : smp) (l : lockid) : Prop := {
  inv_bit : locked (spin s l) = 0 \/ locked (spin s l) = 1;
  inv_free c : locked (spin s l) = 0 -> ~ owns s c l;
  inv_taken : locked (spin s l) <> 0 -> exists c, owns s c l;
  inv_unique c c' : owns s c l -> owns s c' l -> c = c';
  inv_early c : at_ (cores s c) = AcqSetCpu l \/ at_ (cores s c) = RelStore l -> lcpu (spin s l) = None;
  inv_clear c : at_ (cores s c) = RelClearCpu l -> lcpu (spin s l) = Some c;
  inv_spin c : at_ (cores s c) = AcqXchg l -> lcpu (spin s l) <> Some c;
}.

Lemma boot_inv l : lock_inv boot l.
Proof. by split; unfold owns, boot; simpl; naive_solver. Qed.

(** The program points at which the lock [l] matters. *)
Definition window (p : pc) (l : lockid) : Prop :=
  p = AcqXchg l \/ p = AcqSetCpu l \/ p = RelStore l \/ p = RelClearCpu l.

(** A step of CPU [c] that neither changes lock [l] nor is in one of its windows, before
    or after, except to enter the spin loop or a release that its checks have allowed. *)
Lemma inv_quiet s l c co m :
  lock_inv s l -> m l = spin s l ->
  at_ (cores s c) <> AcqSetCpu l -> at_ (cores s c) <> RelStore l ->
  at_ co <> AcqSetCpu l -> at_ co <> RelStore l ->
  (at_ co = AcqXchg l -> lcpu (spin s l) <> Some c) ->
  (at_ co = RelClearCpu l -> lcpu (spin s l) = Some c) ->
  lock_inv (mkSmp (<[c := co]> (cores s)) m) l.
Proof.
  intros [Hbit Hfree Htaken Huniq Hearly Hclear Hspin] Hm H1 H2 H3 H4 H5 H6.
  assert (forall c', owns (mkSmp (<[c := co]> (cores s)) m) c' l <-> owns s c' l) as Ho.
  { intros c'. unfold owns. simpl. rewrite Hm. destruct (decide (c = c')) as [<-|];
      [rewrite fn_lookup_insert|by rewrite fn_lookup_insert_ne]. naive_solver. }
  split; simpl; rewrite ?Hm; try done.
  - intros c'. rewrite Ho. auto.
  - intros. setoid_rewrite Ho. auto.
  - intros c1 c2. rewrite !Ho. auto.
  - intros c'. destruct (decide (c = c')) as [<-|];
      [rewrite fn_lookup_insert; naive_solver|rewrite fn_lookup_insert_ne by done; eauto].
  - intros c'. destruct (decide (c = c')) as [<-|];
      [rewrite fn_lookup_insert; naive_solver|rewrite fn_lookup_insert_ne by done; eauto].
  - intros c'. destruct (decide (c = c')) as [<-|];
      [rewrite fn_lookup_insert; naive_solver|rewrite fn_lookup_insert_ne by done; eauto].
Qed.

(** A step of CPU [c] on lock [l] after which the lock has owner [o] (if any), all other
    CPUs keeping away from the windows that need another owner. *)
Lemma inv_owner s l c co m (o : option nat) :
  (locked (m l) = if o is Some _ then 1 else 0) ->
  (forall c', owns (mkSmp (<[c := co]> (cores s)) m) c' l <-> o = Some c') ->
  (forall c', at_ ((<[c := co]> (cores s)) c') = AcqSetCpu l \/ at_ ((<[c := co]> (cores s)) c') = RelStore l ->
     lcpu (m l) = None) ->
  (forall c', at_ ((<[c := co]> (cores s)) c') = RelClearCpu l -> lcpu (m l) = Some c') ->
  (forall c', at_ ((<[c := co]> (cores s)) c') = AcqXchg l -> lcpu (m l) <> Some c') ->
  lock_inv (mkSmp (<[c := co]> (cores s)) m) l.
Proof.
  intros Hl Ho H1 H2 H3. split; simpl; try done.
  - destruct o; auto.
  - intros c' H. rewrite Ho, Hl in *. by destruct o.
  - rewrite Hl. destruct o as [c0|]; [|done]. exists c0. by apply Ho.
  - intros c1 c2. rewrite !Ho. congruence.
Qed.

(** Is the CPU [c'] the one that moved? *)
Ltac who c c' :=
  destruct (decide (c = c')) as [<-|];
  [rewrite ?fn_lookup_insert in *|rewrite ?fn_lookup_insert_ne in * by done].

Section steps.
Context (s : smp) (c : nat) (l : lockid) (r : cpu).
Hypothesis Hinv : lock_inv s l.

Lemma step_xchg :
  at_ (cores s c) = AcqXchg l -> locked (spin s l) = 0 ->
  lock_inv (mkSmp (<[c := mkCore (AcqSetCpu l) r]> (cores s))
                  (<[l := mkSpinlock 1 (lcpu (spin s l))]> (spin s))) l.
Proof using Hinv.
  intros Ep E0. destruct Hinv as [_ Hfree _ _ Hearly Hclear Hspin].
  assert (forall c', ~ owns s c' l) as Hno by auto. unfold owns in Hno.
  assert (lcpu (spin s l) = None) as Hn
    by (destruct (lcpu (spin s l)) as [c0|] eqn:E; [|done]; destruct (Hno c0); auto).
  apply (inv_owner _ _ _ _ _ (Some c)); unfold owns; simpl; rewrite ?fn_lookup_insert; simpl;
    rewrite ?Hn; try done; intros c'; who c c'; simpl; naive_solver.
Qed.

Lemma step_setcpu :
  at_ (cores s c) = AcqSetCpu l ->
  lock_inv (mkSmp (<[c := mkCore Outside r]> (cores s))
                  (<[l := mkSpinlock (locked (spin s l)) (Some c)]> (spin s))) l.
Proof using Hinv.
  intros Ep. destruct Hinv as [Hbit Hfree _ Huniq Hearly Hclear Hspin].
  assert (owns s c l) as Ho by (unfold owns; auto).
  assert (locked (spin s l) = 1) as H1 by naive_solver.
  assert (lcpu (spin s l) = None) as Hn by eauto.
  assert (forall c', c <> c' -> ~ owns s c' l) as Hno by naive_solver. unfold owns in Hno.
  apply (inv_owner _ _ _ _ _ (Some c)); unfold owns; simpl; rewrite ?fn_lookup_insert; simpl;
    try done; intros c'; who c c'; simpl; try naive_solver.
Qed.

Lemma step_clearcpu :
  at_ (cores s c) = RelClearCpu l ->
  lock_inv (mkSmp (<[c := mkCore (RelStore l) r]> (cores s))
                  (<[l := mkSpinlock (locked (spin s l)) None]> (spin s))) l.
Proof using Hinv.
  intros Ep. destruct Hinv as [Hbit Hfree _ Huniq Hearly Hclear Hspin].
  pose proof (Hclear c Ep) as Hc.
  assert (owns s c l) as Ho by (unfold owns; auto).
  assert (locked (spin s l) = 1) as H1 by naive_solver.
  assert (forall c', c <> c' -> ~ owns s c' l) as Hno by naive_solver. unfold owns in Hno.
  apply (inv_owner _ _ _ _ _ (Some c)); unfold owns; simpl; rewrite ?fn_lookup_insert; simpl;
    try done; intros c'; who c c'; simpl; try naive_solver.
Qed.

Lemma step_store :
  at_ (cores s c) = RelStore l ->
  lock_inv (mkSmp (<[c := mkCore RelPopcli r]> (cores s))
                  (<[l := mkSpinlock 0 (lcpu (spin s l))]> (spin s))) l.
Proof using Hinv.
  intros Ep. destruct Hinv as [Hbit Hfree _ Huniq Hearly Hclear Hspin].
  assert (owns s c l) as Ho by (unfold owns; auto).
  assert (lcpu (spin s l) = None) as Hn by eauto.
  assert (forall c', c <> c' -> ~ owns s c' l) as Hno by naive_solver. unfold owns in Hno.
  apply (inv_owner _ _ _ _ _ None); unfold owns; simpl; rewrite ?fn_lookup_insert; simpl;
    rewrite ?Hn; try done; intros c'; who c c'; simpl; try naive_solver.
Qed.
End steps.

Lemma step_inv s s' : (forall l, lock_inv s l) -> step s s' -> forall l, lock_inv s' l.
Proof.
  intros Hinv Hstep l'. destruct Hstep as [c next s co m Hs]. pose proof (Hinv l') as Hl.
  unfold step_core in Hs. destruct (at_ (cores s c)) as [ |l|l|l|l|l|l|l|l| | ] eqn:Ep.
  - destruct next; repeat case_match; simplify_eq; apply inv_quiet; rewrite ?Ep; done.
  - simplify_eq. apply inv_quiet; rewrite ?Ep; try done; simpl; case_match eqn:E0; try done.
    intros [= ->] Hc. destruct Hl as [_ Hfree _ _ _ _ _]. apply (Hfree c); [lia|by left].
  - simplify_eq. apply inv_quiet; rewrite ?Ep; try done; simpl; case_bool_decide; naive_solver.
  - simplify_eq. destruct (decide (l = l')) as [<-|].
    + destruct (Z.eqb_spec (locked (spin s l)) 0); [by apply step_xchg|].
      assert (mkSpinlock 1 (lcpu (spin s l)) = spin s l) as Em
        by (destruct Hl as [[?|?] _ _ _ _ _ _]; [lia|]; destruct (spin s l); simpl in *; congruence).
      apply inv_quiet; rewrite ?Ep, ?fn_lookup_insert, ?Em; try done. intros _. by apply Hl.
    + apply inv_quiet; rewrite ?Ep; try done; simpl; [by rewrite fn_lookup_insert_ne|case_match; naive_solver..].
  - simplify_eq. destruct (decide (l = l')) as [<-|]; [by apply step_setcpu|].
    apply inv_quiet; rewrite ?Ep; try done; simpl; [by rewrite fn_lookup_insert_ne|naive_solver..].
  - simplify_eq. apply inv_quiet; rewrite ?Ep; try done; simpl; case_match; done.
  - simplify_eq. apply inv_quiet; rewrite ?Ep; try done; simpl; case_bool_decide; naive_solver.
  - simplify_eq. destruct (decide (l = l')) as [<-|]; [by apply step_clearcpu|].
    apply inv_quiet; rewrite ?Ep; try done; simpl; [by rewrite fn_lookup_insert_ne|naive_solver..].
  - simplify_eq. destruct (decide (l = l')) as [<-|]; [by apply step_store|].
    apply inv_quiet; rewrite ?Ep; try done; simpl; [by rewrite fn_lookup_insert_ne|naive_solver..].
  - case_match; simplify_eq; apply inv_quiet; rewrite ?Ep; done.
  - done.
Qed.

Lemma reachable_inv s l : reachable s -> lock_inv s l.
Proof.
  intros Hr. assert (forall l, lock_inv boot l) as H0 by apply boot_inv.
  revert l. unfold reachable in Hr. induction Hr as [|s1 s2 s3 Hs _ IH]; [done|].
  apply IH. by eapply step_inv.
Qed.

(** A schedule: which CPU moves, and what it calls if it is outside the lock code. *)
Fixpoint run (sched : list (nat * call)) (s : smp) : smp :=
  match sched with
  | [] => s
  | (c, next) :: sched' =>
      match step_core c next s with
      | Some (co, m) => run sched' (mkSmp (<[c := co]> (cores s)) m)
      | None => run sched' s
      end
  end.

Lemma run_reachable sched : forall s, reachable s -> reachable (run sched s).
Proof.
  induction sched as [|[c next] sched IH]; intros s Hs; simpl; [done|].
  destruct (step_core c next s) as [[co m]|] eqn:E; [|by apply IH].
  apply IH. eapply rtc_r; [exact Hs|]. by econstructor.
Qed.

(** CPU 0 acquires the allocator's lock while CPU 1 tries to: both have passed their
    check before CPU 0 executes its [xchg], and CPU 1 spins. *)
Definition race : smp :=
  run [(0%nat, CallAcquire KmemLock); (1%nat, CallAcquire KmemLock); (0%nat, CallPushcli);
       (1%nat, CallPushcli); (0%nat, CallPushcli); (1%nat, CallPushcli); (0%nat, CallPushcli)] boot.

Lemma race_reachable : reachable race.
Proof. apply run_reachable. apply rtc_refl. Qed.

(** C6. Mutual exclusion: in every state that any interleaving of the CPUs can reach, at
    most one CPU is between its successful [xchg] on a lock and the store that frees
    it; the lock word is 1 exactly then; and [holding], although it reads two words
    without any lock, is exact: for CPU [c] outside the lock code the test
    [locked && cpu == c] holds exactly if [c] is that CPU. *)
Theorem spin_mutual_exclusion s l :
  reachable s ->
  (forall c c', owns s c l -> owns s c' l -> c = c') /\
  (locked (spin s l) = 1 <-> exists c, owns s c l) /\
  (forall c, at_ (cores s c) = Outside ->
     (locked (spin s l) <> 0 /\ lcpu (spin s l) = Some c <-> owns s c l)).
Proof.
  intros Hr. destruct (reachable_inv s l Hr) as [Hbit Hfree Htaken Huniq _ _ _].
  split; [done|]. split.
  - split; [intros H; apply Htaken; lia|]. intros [c Hc]. destruct Hbit as [H|H]; [|done].
    by destruct (Hfree c H).
  - intros c Ho. split; [by intros [_ ?]; left|]. intros Hc. split.
    + intros H. by apply (Hfree c H).
    + destruct Hc as [?|[?|?]]; [done|congruence..].
Qed.

Lemma spin_mutual_exclusion_witness :
  locked (spin race KmemLock) = 1 /\ forall c, owns race c KmemLock -> c = 0%nat.
Proof.
  assert (owns race 0 KmemLock) as H0 by (left; reflexivity).
  destruct (spin_mutual_exclusion race KmemLock race_reachable) as (Hu & Hl & _).
  split; [apply Hl; by exists 0%nat|]. intros c Hc. by apply Hu.
Defined.

(** ** Atomic locks *)

(** How one step changes who owns what. *)
Definition owns_after (s : smp) (c c' : nat) (l' : lockid) : Prop :=
  match at_ (cores s c) with
  | AcqXchg l => owns s c' l' \/ (locked (spin s l) = 0 /\ c' = c /\ l' = l)
  | RelStore l => owns s c' l' /\ l' <> l
  | _ => owns s c' l'
  end.

Lemma step_owns s c next co m c' l' :
  (forall l, lock_inv s l) -> step_core c next s = Some (co, m) ->
  owns (mkSmp (<[c := co]> (cores s)) m) c' l' <-> owns_after s c c' l'.
Proof.
  intros Hinv Hs. destruct (Hinv l') as [_ _ _ Huniq Hearly Hclear _].
  assert (forall c0, at_ (cores s c0) = RelStore l' -> owns s c0 l') as Hst by (unfold owns; auto).
  unfold step_core in Hs. unfold owns_after.
  destruct (at_ (cores s c)) as [ |l|l|l|l|l|l|l|l| | ] eqn:Ep.
  - destruct next; repeat case_match; simplify_eq; unfold owns; simpl; who c c'; rewrite ?Ep; naive_solver.
  - simplify_eq. unfold owns; simpl; who c c'; rewrite ?Ep; simpl; try case_match; naive_solver.
  - simplify_eq. unfold owns; simpl; who c c'; rewrite ?Ep; simpl; try case_bool_decide; naive_solver.
  - simplify_eq. assert (lcpu ((<[l := mkSpinlock 1 (lcpu (spin s l))]> (spin s)) l') = lcpu (spin s l')) as Hc
      by (destruct (decide (l = l')) as [<-|]; [by rewrite fn_lookup_insert|by rewrite fn_lookup_insert_ne]).
    unfold owns; simpl; rewrite Hc; who c c'; rewrite ?Ep; simpl.
    + destruct (Z.eqb_spec (locked (spin s l)) 0); naive_solver.
    + naive_solver.
  - simplify_eq. unfold owns in *; simpl. destruct (decide (l = l')) as [<-|];
      [rewrite fn_lookup_insert|rewrite fn_lookup_insert_ne by done]; who c c'; rewrite ?Ep; simpl; naive_solver.
  - simplify_eq. unfold owns; simpl; who c c'; rewrite ?Ep; simpl; try case_match; naive_solver.
  - simplify_eq. unfold owns; simpl; who c c'; rewrite ?Ep; simpl; try case_bool_decide; naive_solver.
  - simplify_eq. unfold owns in *; simpl. destruct (decide (l = l')) as [<-|];
      [rewrite fn_lookup_insert|rewrite fn_lookup_insert_ne by done]; who c c'; rewrite ?Ep; simpl; naive_solver.
  - simplify_eq. unfold owns in *; simpl. destruct (decide (l = l')) as [<-|];
      [rewrite fn_lookup_insert|rewrite fn_lookup_insert_ne by done]; who c c'; rewrite ?Ep; simpl; naive_solver.
  - case_match; simplify_eq; unfold owns; simpl; who c c'; rewrite ?Ep; naive_solver.
  - done.
Qed.

(** ** Interrupts *)

(** A [pushcli] of the lock code that no owned lock accounts for. *)
Definition inflight (p : pc) : Z :=
  match p with AcqHoldLocked _ | AcqHoldCpu _ | AcqXchg _ | RelPopcli => 1 | _ => 0 end.

Definition panicked (p : pc) : bool := match p with Panicked _ => true | _ => false end.

(** [H] is the list of locks CPU [c] owns: the [held] of Machine.v. *)
Definition holds (s : smp) (c : nat) (H : list lockid) : Prop :=
  NoDup H /\ forall l, l ∈ H <-> owns s c l.

Definition irq_inv (s : smp) (c : nat) : Prop :=
  panicked (at_ (cores s c)) = false ->
  exists H, holds s c H /\
    let r := regs (cores s c) in
    ncli r = Z.of_nat (length H) + Z.of_nat (nested r) + inflight (at_ (cores s c)) /\
    (ncli r <> 0 -> IF r = false).

Lemma irq_inv_other s s' c :
  cores s' c = cores s c -> (forall l, owns s' c l <-> owns s c l) -> irq_inv s c -> irq_inv s' c.
Proof.
  intros Hc Ho Hi. unfold irq_inv in *. rewrite Hc. intros Hp. destruct (Hi Hp) as (H & [Hn Hh] & Hr).
  exists H. split; [|done]. split; [done|]. intros l. by rewrite Ho.
Qed.

(** Owned locks before and after a step of [c] itself. *)
Lemma holds_step s c next co m H :
  (forall l, lock_inv s l) -> step_core c next s = Some (co, m) -> holds s c H ->
  exists H', holds (mkSmp (<[c := co]> (cores s)) m) c H' /\
    Z.of_nat (length H') = Z.of_nat (length H) +
      match at_ (cores s c) with
      | AcqXchg l => if locked (spin s l) =? 0 then 1 else 0
      | RelStore _ => -1
      | _ => 0
      end.
Proof.
  intros Hinv Hs [Hnd Hh].
  assert (forall l', owns (mkSmp (<[c := co]> (cores s)) m) c l' <-> owns_after s c c l') as Ho
    by (intros l'; by eapply step_owns).
  unfold owns_after in Ho. unfold holds. setoid_rewrite Ho.
  destruct (at_ (cores s c)) as [ |l|l|l|l|l|l|l|l| | ] eqn:Ep; try (exists H; split; [done|lia]).
  - destruct (Z.eqb_spec (locked (spin s l)) 0) as [E0|E0].
    + exists (l :: H). split; [|simpl; lia]. split.
      * apply NoDup_cons. split; [|done]. rewrite Hh. by apply (Hinv l).
      * intros l'. rewrite elem_of_cons, Hh. naive_solver.
    + exists H. split; [|lia]. split; [done|]. intros l'. rewrite Hh. naive_solver.
  - assert (l ∈ H) as Hin by (apply Hh; right; by right).
    destruct (list_elem_of_split _ _ Hin) as (H1 & H2 & ->).
    rewrite <- Permutation_middle in Hnd. apply NoDup_cons in Hnd as [Hnin Hnd].
    exists (H1 ++ H2). split; [|rewrite !length_app; simpl; lia]. split; [done|].
    intros l'. rewrite <- Hh. rewrite !elem_of_app, elem_of_cons. rewrite elem_of_app in Hnin. naive_solver.
Qed.

Ltac irq_close :=
  first [done | split; simpl; [lia | first [done | solve [auto] | intros; lia
    | intros; by rewrite (proj2 (Z.eqb_neq _ _)) by lia]]].

Lemma irq_inv_step s s' : (forall l, lock_inv s l) -> step s s' ->
  (forall c, irq_inv s c) -> forall c, irq_inv s' c.
Proof.
  intros Hinv Hstep Hirq c'. destruct Hstep as [c next s co m Hs].
  destruct (decide (c = c')) as [<-|Hne]; cycle 1.
  { apply (irq_inv_other s); [by apply fn_lookup_insert_ne| |done].
    intros l. rewrite (step_owns s c next co m c' l) by done. unfold owns_after.
    case_match eqn:Ep; try done; [naive_solver|]. split; [by intros []|]. intros Ho. split; [done|].
    intros Hl. apply Hne. destruct (Hinv l) as [_ _ _ Hu _ _ _].
    apply Hu; [right; right; congruence|done]. }
  unfold irq_inv. simpl. rewrite fn_lookup_insert. intros Hp.
  assert (panicked (at_ (cores s c)) = false) as Hp0.
  { unfold step_core in Hs. by destruct (at_ (cores s c)). }
  destruct (Hirq c Hp0) as (H & Hh & Hn & Hif).
  destruct (holds_step s c next co m H Hinv Hs Hh) as (H' & Hh' & Hl).
  exists H'. split; [done|]. revert Hs Hl Hn Hif Hp. unfold step_core.
  destruct (at_ (cores s c)) as [ |l|l|l|l|l|l|l|l| | ] eqn:Ep; simpl.
  - destruct next; unfold popcli; repeat case_match; intros; simplify_eq/=; irq_close.
  - intros; simplify_eq/=; case_match; irq_close.
  - intros; simplify_eq/=; case_bool_decide; irq_close.
  - intros; simplify_eq/=; case_match; irq_close.
  - intros; simplify_eq/=; irq_close.
  - intros; simplify_eq/=; case_match; irq_close.
  - intros; simplify_eq/=; case_bool_decide; irq_close.
  - intros; simplify_eq/=; irq_close.
  - intros; simplify_eq/=; irq_close.
  - unfold popcli; repeat case_match; intros; simplify_eq/=; irq_close.
  - done.
Qed.

Lemma reachable_irq s c : reachable s -> irq_inv s c.
Proof.
  assert (forall s1, rtc step s1 s -> (forall l, lock_inv s1 l) -> (forall c, irq_inv s1 c) ->
    forall c, irq_inv s c) as H.
  { induction 1 as [|s1 s2 s3 Hs _ IH]; [done|]. intros Hl Hi.
    apply IH; [by eapply step_inv|by eapply irq_inv_step]. }
  intros Hr. apply (H boot Hr); [apply boot_inv|].
  intros c' _. exists []. split_and!; try done. split; [constructor|].
  intros l. unfold owns, boot. simpl. rewrite elem_of_nil. naive_solver.
Qed.

(** Interrupts are off whenever a CPU owns a lock or is in the middle of acquiring
    or releasing one, and [ncli] counts exactly the locks it owns, plus the [pushcli]s
    outstanding in other code and the one of an acquisition or release in progress:
    outside the lock code, the test [ncli == 1] of [sched] means that one lock is owned
    and nothing else is pending. *)
Theorem spin_interrupts_off s c :
  reachable s -> panicked (at_ (cores s c)) = false ->
  exists H, holds s c H /\
    ncli (regs (cores s c)) =
      Z.of_nat (length H) + Z.of_nat (nested (regs (cores s c))) + inflight (at_ (cores s c)) /\
    (H <> [] \/ inflight (at_ (cores s c)) <> 0 -> IF (regs (cores s c)) = false).
Proof.
  intros Hr Hp. destruct (reachable_irq s c Hr Hp) as (H & Hh & Hn & Hif).
  exists H. split_and!; try done. intros [HH|Hi]; apply Hif; rewrite Hn.
  - destruct H; [done|]. simpl. unfold inflight. case_match; lia.
  - revert Hi. unfold inflight. case_match; lia.
Qed.

Lemma spin_interrupts_off_witness :
  IF (regs (cores race 0)) = false /\ IF (regs (cores race 1)) = false /\ ncli (regs (cores race 1)) = 1.
Proof.
  destruct (spin_interrupts_off race 0 race_reachable eq_refl) as (H & [_ Hh] & _ & H0).
  destruct (spin_interrupts_off race 1 race_reachable eq_refl) as (H' & _ & _ & H1).
  split_and!; [|apply H1; by right|done]. apply H0. left. intros ->.
  by apply (not_elem_of_nil KmemLock), Hh; left.
Defined.

(** ** Refinement of atomic locks *)

(** The specification: a lock has at most one owner and is acquired and released in one
    step; acquiring a lock one owns and releasing one does not own are fatal. *)
Inductive phase := Idle | Acquiring (l : lockid) | Releasing (l : lockid) | Dead (msg : string).

Record alocks := mkAlocks { own : nat -> lockid -> Prop; ph : nat -> phase }.

Definition same_own (a a' : alocks) : Prop := forall c l, own a' c l <-> own a c l.

Inductive amove (c : nat) (a a' : alocks) : Prop :=
  | a_silent : ph a' c = ph a c -> same_own a a' -> amove c a a'
  | a_call_acquire l : ph a c = Idle -> ph a' c = Acquiring l -> same_own a a' -> amove c a a'
  | a_acquire l :
      ph a c = Acquiring l -> ph a' c = Idle -> (forall c', ~ own a c' l) ->
      (forall c' l', own a' c' l' <-> own a c' l' \/ (c' = c /\ l' = l)) -> amove c a a'
  | a_acquire_twice l :
      ph a c = Acquiring l -> own a c l -> ph a' c = Dead "acquire" -> same_own a a' -> amove c a a'
  | a_call_release l : ph a c = Idle -> ph a' c = Releasing l -> same_own a a' -> amove c a a'
  | a_release l :
      ph a c = Releasing l -> own a c l -> ph a' c = Idle ->
      (forall c' l', own a' c' l' <-> own a c' l' /\ l' <> l) -> amove c a a'
  | a_release_free l :
      ph a c = Releasing l -> ~ own a c l -> ph a' c = Dead "release" -> same_own a a' -> amove c a a'.

Definition astep (c : nat) (a a' : alocks) : Prop :=
  amove c a a' /\ forall c', c' <> c -> ph a' c' = ph a c'.

Definition abs_pc (p : pc) : phase :=
  match p with
  | Outside | AcqSetCpu _ | RelPopcli => Idle
  | AcqHoldLocked l | AcqHoldCpu l | AcqXchg l => Acquiring l
  | RelHoldLocked l | RelHoldCpu l | RelClearCpu l | RelStore l => Releasing l
  | Panicked m => Dead m
  end.

Definition abs (s : smp) : alocks := mkAlocks (owns s) (fun c => abs_pc (at_ (cores s c))).

(** The end of [popcli] is never reached with [ncli] zero or interrupts on. *)
Lemma popcli_safe r : 0 < ncli r -> IF r = false -> exists r', popcli r = inr r'.
Proof.
  intros Hn Hi. unfold popcli. rewrite Hi. destruct (Z.ltb_spec (ncli r - 1) 0); [lia|by eexists].
Qed.

Lemma owns_window s c l :
  at_ (cores s c) <> AcqSetCpu l -> at_ (cores s c) <> RelStore l ->
  owns s c l <-> lcpu (spin s l) = Some c.
Proof. unfold owns. naive_solver. Qed.

(** C37. The lock code refines atomic locks: every single memory access of every CPU is, of
    the owners, either invisible or one whole transition of the specification. So
    [acquire] returns only by taking a lock nobody owned, and panics exactly if the
    caller owns it; [release] frees a lock the caller owns, and panics exactly if it
    does not; and [popcli] never panics. *)
Theorem spin_refines_atomic_locks s c next co m :
  reachable s -> step_core c next s = Some (co, m) ->
  astep c (abs s) (abs (mkSmp (<[c := co]> (cores s)) m)).
Proof.
  intros Hr Hs. assert (forall l, lock_inv s l) as Hinv by (intros; by apply reachable_inv).
  pose proof (fun c' l' => step_owns s c next co m c' l' Hinv Hs) as Ho. unfold owns_after in Ho.
  split; [|intros c' Hc'; simpl; by rewrite fn_lookup_insert_ne].
  pose proof (reachable_irq s c Hr) as Hirq. revert Hs. unfold step_core.
  destruct (at_ (cores s c)) as [ |l|l|l|l|l|l|l|l| | ] eqn:Ep.
  - destruct next as [l|l| | |b]; intros Hs.
    + eapply (a_call_acquire _ _ _ l); simpl; rewrite ?Ep, ?fn_lookup_insert; by simplify_eq.
    + eapply (a_call_release _ _ _ l); simpl; rewrite ?Ep, ?fn_lookup_insert; by simplify_eq.
    + apply a_silent; simpl; rewrite ?Ep, ?fn_lookup_insert; by simplify_eq.
    + destruct Hirq as (H & _ & Hn & Hif); [by rewrite Ep|].
      destruct (nested (regs (cores s c))) eqn:En; [done|]. rewrite Ep in Hn. simpl in Hn.
      destruct (popcli_safe (regs (cores s c))) as [r' Hr']; [lia|apply Hif; lia|].
      rewrite Hr' in Hs. apply a_silent; simpl; rewrite ?Ep, ?fn_lookup_insert; by simplify_eq.
    + case_match; simplify_eq. apply a_silent; simpl; by rewrite ?Ep, ?fn_lookup_insert.
  - intros [= <- <-]. apply a_silent; simpl; rewrite ?Ep, ?fn_lookup_insert; [by case_match|done].
  - intros [= <- <-]. pose proof (owns_window s c l) as Hw. rewrite Ep in Hw. case_bool_decide as Hc.
    + eapply (a_acquire_twice _ _ _ l); simpl; rewrite ?Ep, ?fn_lookup_insert; try done. by apply Hw.
    + apply a_silent; simpl; by rewrite ?Ep, ?fn_lookup_insert.
  - intros [= <- <-]. destruct (Z.eqb_spec (locked (spin s l)) 0) as [E0|E0].
    + eapply (a_acquire _ _ _ l); simpl; rewrite ?Ep, ?fn_lookup_insert; try done.
      * intros c'. by apply (Hinv l).
      * intros c' l'. rewrite Ho. naive_solver.
    + apply a_silent; simpl; rewrite ?Ep, ?fn_lookup_insert; [done|]. intros c' l'. simpl. rewrite Ho. naive_solver.
  - intros [= <- <-]. apply a_silent; simpl; by rewrite ?Ep, ?fn_lookup_insert.
  - intros [= <- <-]. destruct (Z.eqb_spec (locked (spin s l)) 0) as [E0|E0].
    + eapply (a_release_free _ _ _ l); simpl; rewrite ?Ep, ?fn_lookup_insert; try done. by apply (Hinv l).
    + apply a_silent; simpl; by rewrite ?Ep, ?fn_lookup_insert.
  - intros [= <- <-]. pose proof (owns_window s c l) as Hw. rewrite Ep in Hw. case_bool_decide as Hc.
    + apply a_silent; simpl; by rewrite ?Ep, ?fn_lookup_insert.
    + eapply (a_release_free _ _ _ l); simpl; rewrite ?Ep, ?fn_lookup_insert; try done. by rewrite Hw.
  - intros [= <- <-]. apply a_silent; simpl; by rewrite ?Ep, ?fn_lookup_insert.
  - intros [= <- <-]. eapply (a_release _ _ _ l); simpl; rewrite ?Ep, ?fn_lookup_insert; try done.
    right. by right.
  - destruct Hirq as (H & _ & Hn & Hif); [by rewrite Ep|]. rewrite Ep in Hn. simpl in Hn.
    destruct (popcli_safe (regs (cores s c))) as [r' ->]; [lia|apply Hif; lia|].
    intros [= <- <-]. apply a_silent; simpl; by rewrite ?Ep, ?fn_lookup_insert.
  - done.
Qed.

(** The next access of the spinning CPU. *)
Lemma spin_refines_atomic_locks_witness :
  exists co m, step_core 1 CallPushcli race = Some (co, m) /\
    astep 1 (abs race) (abs (mkSmp (<[1%nat := co]> (cores race)) m)).
Proof.
  eexists _, _. split; [reflexivity|]. apply (spin_refines_atomic_locks race 1 CallPushcli);
    [apply race_reachable|reflexivity].
Defined.

End Smp.
