(* ===== verification/Disk.v ===== *)
(** * Disk: the two disk drivers (ide.c and memide.c)

    The kernel is linked with one of two drivers: ide.c queues requests for the
    controller and sleeps until its interrupt; memide.c copies to and from an image in
    memory.  Both are modelled, and the contract the buffer cache relies on is a class
    of which both are instances: on a machine with one active process, whose waits are
    ended by the disk's interrupt, [iderw] returns with the buffer and the disk in step. *)
From stdpp Require Import base list list_numbers gmap strings functions.
From Stdlib Require Import ZArith Lia.
From S2P Require Import Prelude Mem Layout Machine Sched Sleeplock.
Local Open Scope Z_scope.

(** ** Buffers and blocks *)
Definition buf_at (k : kernel) (b : nat) : buf := bufs k !!! b.
Definition upd_buf (b : nat) (f : buf -> buf) (k : kernel) : kernel :=
  k <| bufs ::= alter f b |>.

(** The drive executes a write command. *)
Definition disk_write (dev n : Z) (data : list Z) (k : kernel) : kernel :=
  k <| disk ::= (fun d => <[dev := <[n := data]> (d dev)]> d) |>
    <| dwrites ::= (fun ws => ws ++ [(dev, n, data)]) |>.

(** ** memide.c *)
Module Memide.

Definition iderw (b : nat) : K unit :=
  h ← holdingsleep (BufLock b) ;
  x ← gets (fun k => buf_at k b) ;
  size ← gets disksize ;
  if negb h then panic "iderw: buf not locked"
  else if bvalid x && negb (bdirty x) then panic "iderw: nothing to do"
  else if negb (bdev x =? 1) then panic "iderw: request not for disk 1"
  else if size <=? bblockno x then panic "iderw: block out of range"
  else
    (if bdirty x then
       modify (upd_buf b (fun x => x <| bdirty := false |>)) ;;
       modify (disk_write 1 (bblockno x) (bdata x))
     else
       modify (fun k => upd_buf b (fun x => x <| bdata := disk k 1 (bblockno x) |>) k)) ;;
    modify (upd_buf b (fun x => x <| bvalid := true |>)).

Definition ideintr : K unit := mret tt.

End Memide.

(** ** ide.c *)
Module Ide.

(** Start the request for [b], [None] being the null pointer. A block is one sector;
    the controller is ready when [idewait] returns. *)
Definition idestart (b : option nat) : K unit :=
  match b with
  | None => panic "idestart"
  | Some b =>
      x ← gets (fun k => buf_at k b) ;
      if FSSIZE <=? bblockno x then panic "incorrect blockno"
      else whenK (bdirty x) (modify (disk_write (Z.land (bdev x) 1) (bblockno x) (bdata x)))
  end.

(** The interrupt handler; [diskerr] is what [idewait(1)] reads from the status port. *)
Definition ideintr : K unit :=
  acquire IdeLock ;;
  q ← gets idequeue ;
  match q with
  | [] => release IdeLock
  | b :: rest =>
      modify (fun k => k <| idequeue := rest |>) ;;
      x ← gets (fun k => buf_at k b) ;
      err ← gets diskerr ;
      whenK (negb (bdirty x) && negb err)
        (modify (fun k => upd_buf b (fun x => x <| bdata := disk k (Z.land (bdev x) 1) (bblockno x) |>) k)) ;;
      modify (upd_buf b (fun x => x <| bvalid := true |>)) ;;
      modify (upd_buf b (fun x => x <| bdirty := false |>)) ;;
      wakeup (ChanBuf b) ;;
      whenK (negb (bool_decide (rest = []))) (idestart (head rest)) ;;
      release IdeLock
  end.

(** Wait for the request to finish. *)
Fixpoint iderw_wait (fuel : nat) (b : nat) : K unit :=
  x ← gets (fun k => buf_at k b) ;
  if bvalid x && negb (bdirty x) then mret tt
  else
    match fuel with
    | O => out_of_fuel
    | S fuel' => sleep (ChanBuf b) (Some IdeLock) ;; iderw_wait fuel' b
    end.

Definition iderw (fuel : nat) (b : nat) : K unit :=
  h ← holdingsleep (BufLock b) ;
  x ← gets (fun k => buf_at k b) ;
  have1 ← gets havedisk1 ;
  if negb h then panic "iderw: buf not locked"
  else if bvalid x && negb (bdirty x) then panic "iderw: nothing to do"
  else if negb (bdev x =? 0) && negb have1 then panic "iderw: ide disk 1 not present"
  else
    acquire IdeLock ;;
    modify (fun k => k <| idequeue ::= (fun q => q ++ [b]) |>) ;;
    q ← gets idequeue ;
    whenK (bool_decide (head q = Some b)) (idestart (Some b)) ;;
    iderw_wait fuel b ;;
    release IdeLock.

End Ide.

(** ** A machine with one active process *)

(** [alone idle o]: run a call to its end, [idle] being what the machine does between a
    switch away and the switch back. *)
Fixpoint alone {A} (idle : kernel -> kernel) (o : outcome A) : outcome A :=
  match o with
  | Swtch k r => alone idle (r (idle k))
  | o => o
  end.

Lemma alone_bind {A B} idle (f : A -> K B) (o : outcome A) Q R :
  returns (alone idle o) R -> (forall a k, R a k -> returns (alone idle (f a k)) Q) ->
  returns (alone idle (obind f o)) Q.
Proof.
  intros HR HQ. induction o as [a k| | | |k r IH]; simpl in *; try done.
  - by apply HQ.
  - by apply IH.
Qed.

Lemma alone_returns {A} idle (o : outcome A) Q : returns o Q -> returns (alone idle o) Q.
Proof. by destruct o. Qed.

(** Process [i] runs on its page table, no other is runnable or asleep, and no spin lock is
    held. *)
Definition solo (i : nat) (k : kernel) : Prop :=
  held k = [] /\ curproc k = Some i /\ length (ptable k) = NPROC /\ (i < NPROC)%nat /\
  state (ptable k !!! i) = RUNNING /\ kstack (ptable k !!! i) <> 0 /\ pgdir (ptable k !!! i) <> 0 /\
  ready_process k = defaultScheduler /\ cr3 (vmst k) = V2P (pgdir (ptable k !!! i)) /\
  forall j, (j < NPROC)%nat -> j <> i -> state (ptable k !!! j) <> RUNNABLE /\ state (ptable k !!! j) <> SLEEPING.

Definition no_sleeper (k : kernel) : Prop := Forall (fun p => state p <> SLEEPING) (ptable k).

Lemma wakeup_quiet c k : no_sleeper k -> PtableLock ∉ held k -> wakeup c k = Ret tt k.
Proof.
  intros Hn Hh. rewrite wakeup_spec by done. f_equal. destruct k. unfold upd, upd_ptable. simpl in *.
  f_equal. rewrite <- (list_fmap_id ptable) at 2. apply list_fmap_ext. intros j p Hp. unfold woken.
  rewrite bool_decide_false; [done|]. by apply (Forall_lookup_1 _ _ _ _ Hn Hp).
Qed.

Lemma solo_no_sleeper i k : solo i k -> no_sleeper k.
Proof.
  intros (_ & _ & Hl & Hi & Hs & _ & _ & _ & _ & Ho). apply Forall_lookup_2. intros j p Hp.
  assert (j < NPROC)%nat as Hj by (rewrite <- Hl; by eapply lookup_lt_Some).
  apply list_lookup_total_correct in Hp as <-.
  destruct (decide (j = i)) as [->|Hne]; [by rewrite Hs|]. by apply Ho.
Qed.

(** Sleep locks in a quiet machine: no waiting, no switching. *)
Lemma holdingsleep_spec s k : SleepLk s ∉ held k ->
  holdingsleep s k = Ret (negb (slocked (slocks k s) =? 0)) k.
Proof.
  intros Hh. unfold holdingsleep. kunfold. rewrite acquire_ok by done. cbn [obind].
  rewrite (release_ok _ (held k)) by done. by destruct k.
Qed.

Lemma acquiresleep_free fuel i s k :
  curproc k = Some i -> SleepLk s ∉ held k -> slocked (slocks k s) = 0 ->
  acquiresleep fuel s k = Ret tt (set_sleeplock s (mkSleeplock 1 (pid (ptable k !!! i))) k).
Proof.
  intros Hc Hh H0. unfold acquiresleep. kunfold. rewrite acquire_ok by done. cbn [obind].
  assert (forall k', slocked (slocks k' s) = 0 -> acquiresleep_loop fuel s k' = Ret tt k') as Hl.
  { intros k' E. destruct fuel; cbn [acquiresleep_loop]; kunfold; cbn [obind]; by rewrite E. }
  rewrite Hl by done. cbn [obind]. unfold cur. simpl curproc. rewrite Hc. cbn [obind].
  rewrite (release_ok _ (held k)) by done. by destruct k.
Qed.

Lemma releasesleep_quiet s k :
  no_sleeper k -> SleepLk s ∉ held k -> PtableLock ∉ held k ->
  releasesleep s k = Ret tt (set_sleeplock s (mkSleeplock 0 0) k).
Proof.
  intros Hn Hh Hp. unfold releasesleep. kunfold. rewrite acquire_ok by done. cbn [obind].
  rewrite wakeup_quiet by (simpl; try done; by apply not_elem_of_cons). cbn [obind].
  rewrite (release_ok _ (held k)) by done. by destruct k.
Qed.

(** ** What input and output leave alone *)

(** The part of a process that waiting does not touch. *)
Definition body (p : proc) : proc := p <| state := UNUSED |> <| chan := ChanNone |> <| context := zero_ctxt |>.

(** Everything but the disk and its buffers, their locks, the spin locks, the log, and what
    switching to the scheduler and back changes. *)
Definition core (k : kernel) :=
  (nextpid k, initproc k, sema k, ready_process k, schedSelected k, ticks k, kend k, mem k, kmem k, pipes k,
   vm_fixed (vmst k), fsys k, kcons k, body <$> ptable k, fun n => slocks k (InodeLock n)).

Definition same_core (k k' : kernel) : Prop := core k' = core k.

#[export] Instance same_core_preorder : PreOrder same_core.
Proof. split; [done|]. unfold same_core. intros k1 k2 k3 H1 H2. congruence. Qed.

Lemma body_alter f i (ps : list proc) : (forall p, body (f p) = body p) -> body <$> alter f i ps = body <$> ps.
Proof.
  intros Hf. apply list_eq. intros j. rewrite !list_lookup_fmap.
  destruct (decide (i = j)) as [->|Hne]; [|by rewrite list_lookup_alter_ne].
  rewrite list_lookup_alter_eq. destruct (ps !! j); simpl; [by rewrite Hf|done].
Qed.

Lemma body_table (ps ps' : list proc) :
  length ps' = length ps -> (forall j, (j < length ps)%nat -> body (ps' !!! j) = body (ps !!! j)) ->
  body <$> ps' = body <$> ps.
Proof.
  intros Hl Hb. apply list_eq. intros j. rewrite !list_lookup_fmap.
  destruct (decide (j < length ps)%nat) as [Hj|Hj].
  - rewrite !list_lookup_lookup_total_lt by lia. simpl. by rewrite Hb.
  - by rewrite !lookup_ge_None_2 by lia.
Qed.

(** ** The contract *)

(** What a request does to its buffer: a read fills it from the disk. *)
Definition synced (d : Z -> list Z) (x : buf) : buf :=
  x <| bdata := if bdirty x then bdata x else d (bblockno x) |> <| bvalid := true |> <| bdirty := false |>.

(** What it does to the disk and its history: a write of a dirty buffer. *)
Definition request (x : buf) : list (Z * Z * list Z) :=
  if bdirty x then [(1, bblockno x, bdata x)] else [].

Definition apply_writes (ws : list (Z * Z * list Z)) (d : Z -> Z -> list Z) : Z -> Z -> list Z :=
  foldl (fun d w => <[w.1.1 := <[w.1.2 := w.2]> (d w.1.1)]> d) d ws.

(** The state after a request for [b], whatever happened to the process table. *)
Definition served (b : nat) (k k' : kernel) : Prop :=
  bufs k' = alter (synced (disk k 1)) b (bufs k) /\
  disk k' = apply_writes (request (buf_at k b)) (disk k) /\
  dwrites k' = dwrites k ++ request (buf_at k b) /\
  slocks k' = slocks k /\ lru k' = lru k /\ klog k' = klog k /\ same_core k k'.

Class BlockDriver := {
  iderw : nat -> nat -> K unit;
  idle : kernel -> kernel;
  drv_ok : kernel -> Prop;
}.

(** [drv_ok] is the driver's own invariant; it does not depend on buffers, locks, log
    or processes. *)
Class BlockDriverLaws (D : BlockDriver) : Prop := {
  iderw_serves fuel i b k :
    (0 < fuel)%nat -> solo i k -> drv_ok k -> (b < length (bufs k))%nat ->
    slocked (slocks k (BufLock b)) <> 0 ->
    bdev (buf_at k b) = 1 -> bblockno (buf_at k b) < FSSIZE ->
    (bvalid (buf_at k b) = true -> bdirty (buf_at k b) = true) ->
    returns (alone idle (iderw fuel b k)) (fun _ k' => solo i k' /\ drv_ok k' /\ served b k k');
  drv_ok_frame k k' :
    idequeue k' = idequeue k -> havedisk1 k' = havedisk1 k -> diskerr k' = diskerr k ->
    disksize k' = disksize k -> drv_ok k -> drv_ok k';
}.

(** ** memide.c meets it *)
Definition memide_ok (k : kernel) : Prop := FSSIZE <= disksize k.

#[export] Instance memide : BlockDriver :=
  {| iderw _ b := Memide.iderw b; idle k := k; drv_ok := memide_ok |}.

Lemma solo_same i k k' :
  held k' = held k -> curproc k' = curproc k -> ptable k' = ptable k ->
  ready_process k' = ready_process k -> vmst k' = vmst k -> solo i k -> solo i k'.
Proof. unfold solo. by intros -> -> -> -> ->. Qed.

(** An update of one buffer, computed from its value. *)
Lemma alter_buf_ext f g b k : f (buf_at k b) = g (buf_at k b) -> alter f b (bufs k) = alter g b (bufs k).
Proof.
  intros H. apply list_alter_ext; [|done]. intros x Hx.
  unfold buf_at in H. by rewrite (list_lookup_total_correct _ _ _ Hx) in H.
Qed.

Lemma memide_iderw_served i b k :
  solo i k -> memide_ok k -> slocked (slocks k (BufLock b)) <> 0 -> bdev (buf_at k b) = 1 ->
  bblockno (buf_at k b) < FSSIZE -> (bvalid (buf_at k b) = true -> bdirty (buf_at k b) = true) ->
  returns (Memide.iderw b k) (fun _ k' => solo i k' /\ memide_ok k' /\ served b k k').
Proof.
  intros Hs Hok Hl Hdev Hn Hv. unfold Memide.iderw.
  kunfold. rewrite holdingsleep_spec by (destruct Hs as [-> _]; notheld). cbn [obind].
  rewrite (proj2 (Z.eqb_neq _ _)) by done. cbn [negb].
  assert (bvalid (buf_at k b) && negb (bdirty (buf_at k b)) = false) as ->
    by (destruct (bvalid _), (bdirty _); simpl; naive_solver).
  rewrite Hdev. unfold memide_ok in Hok. rewrite (proj2 (Z.leb_gt _ _)) by lia. simpl.
  unfold served, request.
  destruct (bdirty (buf_at k b)) eqn:Ed; simpl; rewrite ?alter_alter, ?app_nil_r;
    (split; [by apply (solo_same i k)|]); (split; [done|]); split_and!; try done;
    apply alter_buf_ext; unfold synced; rewrite Ed; destruct (buf_at k b); simpl in *; by subst.
Qed.

#[export] Instance memide_serves : BlockDriverLaws memide.
Proof.
  split.
  - intros fuel i b k _ Hs Hok Hb Hl Hdev Hn Hv. apply alone_returns. by apply memide_iderw_served.
  - intros k k' _ _ _ Hd. unfold drv_ok, memide, memide_ok. by rewrite Hd.
Qed.

(** ** ide.c meets it *)

(** Between the switch away and the switch back: the scheduler releases [ptable.lock],
    the disk interrupts, and the scheduler picks a process. *)
Definition ide_idle (k : kernel) : kernel :=
  match (scheduler_done (Some 0%nat) ;; Ide.ideintr ;; scheduler_pick) k with
  | Ret _ k' => k'
  | _ => k
  end.

Definition ide_ok (k : kernel) : Prop :=
  idequeue k = [] /\ havedisk1 k = true /\ diskerr k = false.

#[export] Instance ide : BlockDriver :=
  {| iderw := Ide.iderw; idle := ide_idle; drv_ok := ide_ok |}.

Lemma ideintr_last b k :
  IdeLock ∉ held k -> PtableLock ∉ held k -> idequeue k = [b] -> diskerr k = false -> bdev (buf_at k b) = 1 ->
  Ide.ideintr k = Ret tt (upd_buf b (synced (disk k 1)) (k <| idequeue := [] |>)
                            <| ptable ::= fmap (woken (ChanBuf b)) |>).
Proof.
  intros Hi Hp Hq He Hd. unfold Ide.ideintr. kunfold. rewrite acquire_ok by done. cbn [obind].
  change (idequeue (k <| held ::= cons IdeLock |>)) with (idequeue k). rewrite Hq. cbn [obind].
  change (diskerr (k <| held ::= cons IdeLock |> <| idequeue := [] |>)) with (diskerr k). rewrite He.
  change (buf_at (k <| held ::= cons IdeLock |> <| idequeue := [] |>) b) with (buf_at k b).
  destruct (bdirty (buf_at k b)) eqn:Ed; cbn [negb andb obind];
    rewrite wakeup_spec by (simpl; apply not_elem_of_cons; done); cbn [obind];
    rewrite bool_decide_true by done; cbn [negb obind];
    rewrite (release_ok _ (held k)) by done; f_equal; kernel_ext; simpl; rewrite ?alter_alter;
    apply alter_buf_ext; unfold synced; simpl; rewrite ?Ed, ?Hd; destruct (buf_at k b); simpl in *; by subst.
Qed.

Section ide_idle.
Context (i b : nat) (k : kernel).
Hypothesis Hheld : held k = [PtableLock].
Hypothesis Hlen : length (ptable k) = NPROC.
Hypothesis Hi : (i < NPROC)%nat.
Hypothesis Hstate : state (ptable k !!! i) = SLEEPING.
Hypothesis Hchan : chan (ptable k !!! i) = ChanBuf b.
Hypothesis Hstack : kstack (ptable k !!! i) <> 0.
Hypothesis Hpgdir : pgdir (ptable k !!! i) <> 0.
Hypothesis Hpolicy : ready_process k = defaultScheduler.
Hypothesis Hothers : forall j, (j < NPROC)%nat -> j <> i ->
  state (ptable k !!! j) <> RUNNABLE /\ state (ptable k !!! j) <> SLEEPING.
Hypothesis Hqueue : idequeue k = [b].
Hypothesis Herr : diskerr k = false.
Hypothesis Hdev : bdev (buf_at k b) = 1.

(** The table after the interrupt. *)
Lemma woken_table j : (j < NPROC)%nat ->
  (woken (ChanBuf b) <$> ptable k) !!! j =
  if decide (j = i) then (ptable k !!! i) <| state := RUNNABLE |> else ptable k !!! j.
Proof using All.
  intros Hj. rewrite fmap_lookup_total_proc by lia. unfold woken. case_decide as E.
  - subst. by rewrite Hstate, Hchan, !bool_decide_true.
  - rewrite bool_decide_false; [done|]. by apply Hothers.
Qed.

Lemma ide_idle_spec :
  let k' := ide_idle k in
  held k' = [PtableLock] /\ curproc k' = Some i /\ length (ptable k') = NPROC /\
  ptable k' !!! i = (ptable k !!! i) <| state := RUNNING |> /\
  (forall j, (j < NPROC)%nat -> j <> i -> ptable k' !!! j = ptable k !!! j) /\
  bufs k' = alter (synced (disk k 1)) b (bufs k) /\ idequeue k' = [] /\
  cr3 (vmst k') = V2P (pgdir (ptable k !!! i)) /\ vm_fixed (vmst k') = vm_fixed (vmst k) /\
  k' = k <| rng := rng k' |> <| curproc := curproc k' |> <| ptable := ptable k' |>
         <| bufs := bufs k' |> <| idequeue := idequeue k' |> <| vmst := vmst k' |>.
Proof using All.
  unfold ide_idle, scheduler_done, switchkvm. kunfold. cbn [obind].
  rewrite (release_ok _ []) by (done || notheld). cbn [obind].
  set (k1 := k <| vmst ::= _ |> <| curproc := None |> <| held := [] |>).
  rewrite (ideintr_last b k1) by (done || notheld). cbn [obind].
  set (k2 := upd_buf b _ _ <| ptable ::= _ |>).
  pose proof (scheduler_pick_spec k2 eq_refl Hpolicy) as Hpick.
  assert (length (ptable k2) = NPROC) as Hl2 by (simpl; by rewrite length_fmap).
  assert (forall j, (j < NPROC)%nat -> ptable k2 !!! j =
    if decide (j = i) then (ptable k !!! i) <| state := RUNNABLE |> else ptable k !!! j) as Ht2
    by apply woken_table.
  assert (runnable_ok k2) as Hrun.
  { intros j. destruct (decide (j < NPROC)%nat) as [Hj|Hj].
    - rewrite Ht2 by done. case_decide; [done|]. intros Hr. by destruct (Hothers j).
    - by rewrite list_lookup_total_alt, lookup_ge_None_2 by lia. }
  specialize (Hpick Hl2 Hrun). destruct (scheduler_pick k2) as [r k3| | | |]; try done.
  destruct Hpick as (Hh3 & Hk3 & Hr). destruct r as [j|]; cycle 1.
  { destruct Hr as [Hr _]. destruct (Hr i Hi). rewrite Ht2 by done. by rewrite decide_True. }
  destruct Hr as (Hj & Hjs & Hc & Hcr & Hvf & Hp). rewrite Ht2 in Hjs by done.
  case_decide; [subst j|by destruct (Hothers j)]. split_and!; try done.
  - by rewrite Hp, length_alter.
  - rewrite Hp, alter_same, Ht2, decide_True by (done || lia). by destruct (ptable k !!! i).
  - intros j Hj' Hne. by rewrite Hp, alter_other, Ht2, decide_False.
  - by rewrite Hk3.
  - by rewrite Hk3.
  - rewrite Hcr, Ht2, decide_True by done. done.
  - kernel_ext; try (rewrite Hk3; reflexivity). simpl. congruence.
Qed.
End ide_idle.

Lemma idestart_spec b k : bdev (buf_at k b) = 1 -> bblockno (buf_at k b) < FSSIZE ->
  Ide.idestart (Some b) k = Ret tt (if bdirty (buf_at k b)
    then disk_write 1 (bblockno (buf_at k b)) (bdata (buf_at k b)) k else k).
Proof.
  intros Hd Hn. unfold Ide.idestart. kunfold. cbn [obind]. rewrite (proj2 (Z.leb_gt _ _)) by done.
  rewrite Hd. change (Z.land 1 1) with 1. by destruct (bdirty _).
Qed.

(** The wait for a request that has been started, with nothing else queued. *)
Lemma iderw_wait_served fuel i b k :
  solo i (k <| held := [] |>) -> held k = [IdeLock] -> idequeue k = [b] -> diskerr k = false ->
  (b < length (bufs k))%nat -> bdev (buf_at k b) = 1 ->
  bvalid (buf_at k b) && negb (bdirty (buf_at k b)) = false ->
  returns (alone ide_idle ((Ide.iderw_wait (S fuel) b ;; release IdeLock) k)) (fun _ k' =>
    solo i k' /\ bufs k' = alter (synced (disk k 1)) b (bufs k) /\ idequeue k' = [] /\
    body <$> ptable k' = body <$> ptable k /\ vm_fixed (vmst k') = vm_fixed (vmst k) /\
    k' = k <| held := [] |> <| rng := rng k' |> <| curproc := curproc k' |> <| ptable := ptable k' |>
           <| bufs := bufs k' |> <| idequeue := idequeue k' |> <| vmst := vmst k' |>).
Proof.
  intros (_ & Hc & Hlen & Hi & Hst & Hks & Hpg & Hpol & _ & Hoth) Hh Hq He Hb Hdev Hnv. simpl in *.
  cbn [Ide.iderw_wait]. kunfold. cbn [obind]. rewrite Hnv.
  destruct (sleep_blocks (ChanBuf b) IdeLock i k) as (r & -> & Hr); try done; [by rewrite Hlen|].
  cbn [obind alone]. set (k3 := upd_proc i _ _).
  assert (ptable k3 !!! i = asleep (ChanBuf b) (ptable k !!! i)) as Hp3
    by (simpl; by rewrite alter_same by lia).
  assert (forall j, j <> i -> ptable k3 !!! j = ptable k !!! j) as Hp3'
    by (intros j Hj; simpl; by rewrite alter_other).
  destruct (ide_idle_spec i b k3) as (Hh4 & Hc4 & Hl4 & Hi4 & Ho4 & Hb4 & Hq4 & Hr4 & Hv4 & Hk4); try done.
  1: simpl; by rewrite length_alter.
  1-4: by rewrite Hp3.
  { intros j Hj Hne. rewrite Hp3' by done. by apply Hoth. }
  set (k4 := ide_idle k3) in *. clearbody k4. rewrite Hr by done. cbn [obind].
  set (k5 := upd_proc i _ k4 <| held := [IdeLock] |>).
  assert (buf_at k5 b = synced (disk k 1) (buf_at k b)) as Hb5.
  { unfold buf_at. simpl. by rewrite Hb4, list_lookup_total_alter_eq. }
  assert (Ide.iderw_wait fuel b k5 = Ret tt k5) as ->.
  { destruct fuel; cbn [Ide.iderw_wait]; kunfold; cbn [obind]; by rewrite Hb5. }
  cbn [obind]. rewrite (release_ok _ []) by (done || notheld). cbn [alone returns].
  split_and!; try done.
  - unfold solo. simpl. rewrite length_alter, alter_same, Hi4, Hp3 by lia. split_and!; try done.
    + by rewrite Hk4.
    + by rewrite Hr4, Hp3.
    + intros j Hj Hne. rewrite alter_other, Ho4, Hp3' by done. by apply Hoth.
  - simpl. rewrite body_alter by done. apply body_table; [lia|]. intros j Hj. destruct (decide (j = i)) as [->|Hne].
    + by rewrite Hi4, Hp3.
    + by rewrite Ho4, Hp3' by (done || lia).
  - kernel_ext; try (simpl; rewrite Hk4; reflexivity).
Qed.

#[export] Instance ide_serves : BlockDriverLaws ide.
Proof.
  split; [|by intros k k' Hq H1 He _; unfold drv_ok, ide, ide_ok; rewrite Hq, H1, He].
  intros [|fuel] i b k Hf Hs (Hq & H1 & He) Hb Hl Hdev Hn Hv; [lia|]. simpl iderw. unfold Ide.iderw.
  pose proof Hs as [Hh _].
  kunfold. rewrite holdingsleep_spec by (rewrite Hh; notheld). cbn [obind].
  rewrite (proj2 (Z.eqb_neq _ _)) by done. cbn [negb].
  assert (bvalid (buf_at k b) && negb (bdirty (buf_at k b)) = false) as Hnv
    by (destruct (bvalid _), (bdirty _); simpl; naive_solver).
  rewrite Hnv, Hdev, H1. cbn [andb negb Z.eqb].
  rewrite acquire_ok by (rewrite Hh; notheld). cbn [obind].
  set (k1 := k <| held ::= cons IdeLock |> <| idequeue ::= _ |>).
  assert (idequeue k1 = [b]) as Hq1 by (simpl; by rewrite Hq).
  rewrite Hq1. rewrite bool_decide_true by done.
  rewrite idestart_spec by done. cbn [obind].
  change (buf_at k1 b) with (buf_at k b).
  set (k2 := if bdirty (buf_at k b) then disk_write 1 (bblockno (buf_at k b)) (bdata (buf_at k b)) k1 else k1).
  assert (k2 = k1 <| disk := disk k2 |> <| dwrites := dwrites k2 |>) as Hk2
    by (unfold k2; destruct (bdirty _); kernel_ext).
  assert (disk k2 = apply_writes (request (buf_at k b)) (disk k) /\
    dwrites k2 = dwrites k ++ request (buf_at k b)) as [Hd2 Hw2]
    by (unfold k2, request; destruct (bdirty _); simpl; by rewrite ?app_nil_r).
  clearbody k2.
  eapply returns_mono; [apply (iderw_wait_served fuel i b k2); try (by rewrite Hk2)|].
  - apply (solo_same i k); try done; rewrite Hk2; done.
  - rewrite Hk2. simpl. by rewrite Hh.
  - intros _ k' (Hs' & Hb' & Hq' & Hbd' & Hv' & Hk'). split; [done|].
    assert (served b k k') as Hsv; [|split; [|done]; split; [done|]; by rewrite Hk', Hk2].
    assert (same_core k k') as Hcore.
    { unfold same_core, core. rewrite Hbd', Hv', Hk2. rewrite Hk', Hk2. done. }
    unfold served. split_and!; try done; try (rewrite Hk', Hk2; done). rewrite Hb', Hk2. simpl. rewrite Hd2. apply alter_buf_ext. unfold synced, request.
    by destruct (bdirty (buf_at k b)).
Qed.

(** C38. The two drivers serve alike, as the kernel may be linked with either. For a locked buffer of
    disk 1 that is dirty or not valid, [iderw] of ide.c (which queues the request and
    sleeps until the interrupt) and [iderw] of memide.c (which copies at once) both
    return, and leave the same buffers, the same disk and the same history of writes:
    a dirty buffer is written, any other is filled from its block, and it is valid and
    clean afterwards. *)
Theorem drivers_agree fuel i b k :
  (0 < fuel)%nat -> solo i k -> ide_ok k -> memide_ok k -> (b < length (bufs k))%nat ->
  slocked (slocks k (BufLock b)) <> 0 -> bdev (buf_at k b) = 1 -> bblockno (buf_at k b) < FSSIZE ->
  (bvalid (buf_at k b) = true -> bdirty (buf_at k b) = true) ->
  exists k1 k2, alone ide_idle (Ide.iderw fuel b k) = Ret tt k1 /\ Memide.iderw b k = Ret tt k2 /\
    solo i k1 /\ idequeue k1 = [] /\ bufs k1 = bufs k2 /\ disk k1 = disk k2 /\ dwrites k1 = dwrites k2 /\
    buf_at k1 b = synced (disk k 1) (buf_at k b) /\ disk k1 = apply_writes (request (buf_at k b)) (disk k).
Proof.
  intros Hf Hs Hi Hm Hb Hl Hd Hn Hv.
  pose proof (iderw_serves (D := ide) fuel i b k Hf Hs Hi Hb Hl Hd Hn Hv) as H1.
  pose proof (memide_iderw_served i b k Hs Hm Hl Hd Hn Hv) as H2.
  apply returns_Ret in H1 as ([] & k1 & E1 & Hs1 & (Hq & _) & B1 & D1 & W1 & _).
  apply returns_Ret in H2 as ([] & k2 & E2 & _ & _ & B2 & D2 & W2 & _).
  exists k1, k2. split; [done|]. split; [done|].
  rewrite B1, B2, D1, D2, W1, W2. split_and!; try done. unfold buf_at at 1. rewrite B1. by rewrite alter_same.
Qed.

Lemma one_solo : solo 3 one_running.
Proof.
  unfold solo. split_and!; try done; [unfold NPROC; lia|]. intros j Hj Hne.
  change (state (ptable (one_proc RUNNING) !!! j) <> RUNNABLE /\ state (ptable (one_proc RUNNING) !!! j) <> SLEEPING).
  by rewrite one_proc_other.
Qed.

Lemma drivers_agree_witness :
  let b := mkBuf true true 1 40 1 (replicate BSIZE 5) in
  let k := one_running <| havedisk1 := true |> <| disksize := FSSIZE |>
             <| bufs := [b] |> <| slocks := fun _ => mkSleeplock 1 7 |> in
  exists k1 k2, alone ide_idle (Ide.iderw 1 0 k) = Ret tt k1 /\ Memide.iderw 0 k = Ret tt k2 /\
    disk k1 1 40 = replicate BSIZE 5 /\ disk k2 1 40 = replicate BSIZE 5.
Proof.
  intros b k. destruct (drivers_agree 1 3 0 k) as (k1 & k2 & E1 & E2 & _ & _ & _ & Hd & _ & _ & Hd').
  - lia.
  - apply (solo_same 3 one_running); [reflexivity..|apply one_solo].
  - by split_and!.
  - unfold memide_ok. simpl. lia.
  - simpl. lia.
  - done.
  - done.
  - done.
  - done.
  - exists k1, k2. split; [done|]. split; [done|]. rewrite <- Hd, Hd'. split; by vm_compute.
Defined.
