(* ===== verification/Bio.v ===== *)
(** * Bio: the buffer cache (bio.c)

    [binit], [bget], [bread], [bwrite] and [brelse] over either disk driver, with the
    list of buffers in order of use.  The cache is shown to be transparent: what a
    block reads as ([view]) changes only by writing to a locked buffer. *)
From stdpp Require Import base list list_numbers gmap strings functions sorting.
From Stdlib Require Import ZArith Lia.
From S2P Require Import Prelude Mem Layout Machine Sched Sleeplock Disk.
Local Open Scope Z_scope.

(** ** Operations *)
Fixpoint binit_loop (left : nat) (b : nat) : K unit :=
  match left with
  | O => mret tt
  | S left' =>
      initsleeplock (BufLock b) ;;
      modify (fun k => k <| lru ::= cons b |>) ;;
      binit_loop left' (S b)
  end.

Definition binit : K unit :=
  initlock BcacheLock ;;
  modify (fun k => k <| lru := [] |>) ;;
  binit_loop NBUF 0.

(** The first buffer in use order that caches the block, and the last that can be
    recycled. *)
Definition find_cached (k : kernel) (dev n : Z) : option nat :=
  snd <$> list_find (fun b => bdev (buf_at k b) = dev /\ bblockno (buf_at k b) = n) (lru k).
Definition find_unused (k : kernel) : option nat :=
  snd <$> list_find (fun b => refcnt (buf_at k b) = 0 /\ bdirty (buf_at k b) = false) (reverse (lru k)).

Section bio.
Context {D : BlockDriver} (fuel : nat).

Definition bget (dev n : Z) : K nat :=
  acquire BcacheLock ;;
  c ← gets (fun k => find_cached k dev n) ;
  match c with
  | Some b =>
      modify (upd_buf b (fun x => x <| refcnt ::= fun r => u32 (r + 1) |>)) ;;
      release BcacheLock ;;
      acquiresleep fuel (BufLock b) ;;
      mret b
  | None =>
      u ← gets find_unused ;
      match u with
      | Some b =>
          modify (upd_buf b (fun x => mkBuf false false dev n 1 (bdata x))) ;;
          release BcacheLock ;;
          acquiresleep fuel (BufLock b) ;;
          mret b
      | None => panic "bget: no buffers"
      end
  end.

Definition bread (dev n : Z) : K nat :=
  b ← bget dev n ;
  x ← gets (fun k => buf_at k b) ;
  whenK (negb (bvalid x)) (iderw fuel b) ;;
  mret b.

Definition bwrite (b : nat) : K unit :=
  h ← holdingsleep (BufLock b) ;
  if negb h then panic "bwrite"
  else
    modify (upd_buf b (fun x => x <| bdirty := true |>)) ;;
    iderw fuel b.

Definition brelse (b : nat) : K unit :=
  h ← holdingsleep (BufLock b) ;
  if negb h then panic "brelse"
  else
    releasesleep (BufLock b) ;;
    acquire BcacheLock ;;
    modify (upd_buf b (fun x => x <| refcnt ::= fun r => u32 (r - 1) |>)) ;;
    x ← gets (fun k => buf_at k b) ;
    whenK (refcnt x =? 0)
      (modify (fun k => k <| lru ::= (fun l => b :: filter (fun b' => b' <> b) l) |>)) ;;
    release BcacheLock.
End bio.

(** ** The invariant of the cache *)
Definition caches (k : kernel) (b : nat) (n : Z) : Prop :=
  (b < NBUF)%nat /\ bdev (buf_at k b) = 1 /\ bblockno (buf_at k b) = n.

(** [L] are the buffers that are locked. Each buffer holds one block of disk 1 at most
    once; an unlocked clean buffer that is valid agrees with the disk; dirty buffers
    are valid. *)
Record cache_ok (L : list nat) (k : kernel) : Prop := {
  co_len : length (bufs k) = NBUF;
  co_lru : lru k ≡ₚ seq 0 NBUF;
  co_nodup : NoDup L;
  co_locked b : b ∈ L -> (b < NBUF)%nat;
  co_refcnt b : (b < NBUF)%nat -> refcnt (buf_at k b) = if bool_decide (b ∈ L) then 1 else 0;
  co_slock b : (b < NBUF)%nat -> slocked (slocks k (BufLock b)) <> 0 <-> b ∈ L;
  co_unique b b' n : caches k b n -> caches k b' n -> b = b';
  co_clean b n : caches k b n -> b ∉ L -> bvalid (buf_at k b) = true -> bdirty (buf_at k b) = false ->
    bdata (buf_at k b) = disk k 1 n;
  co_dirty b : (b < NBUF)%nat -> bdirty (buf_at k b) = true ->
    bvalid (buf_at k b) = true /\ bdev (buf_at k b) = 1;
}.

(** What block [n] of disk 1 reads as. *)
Definition view (k : kernel) (n : Z) : list Z :=
  match list_find (fun b => bdev (buf_at k b) = 1 /\ bblockno (buf_at k b) = n /\ bvalid (buf_at k b) = true)
          (seq 0 NBUF) with
  | Some (_, b) => bdata (buf_at k b)
  | None => disk k 1 n
  end.

Lemma view_cached L k b n : cache_ok L k -> caches k b n -> bvalid (buf_at k b) = true ->
  view k n = bdata (buf_at k b).
Proof.
  intros Hok Hc Hv. unfold view. case_match eqn:E.
  - destruct p as [i b']. apply list_find_Some in E as (Hi & (Hd & Hn & Hv') & _).
    apply lookup_seq in Hi as [Hbi Hi]; simpl in Hbi; subst b'. by rewrite (co_unique L k Hok i b n).
  - apply list_find_None in E. rewrite Forall_forall in E. destruct Hc as (Hb & Hd & Hn).
    destruct (E b); [by apply elem_of_seq; lia|done].
Qed.

Lemma view_uncached k n :
  (forall b, caches k b n -> bvalid (buf_at k b) = false) -> view k n = disk k 1 n.
Proof.
  intros H. unfold view. case_match eqn:E; [|done]. destruct p as [i b].
  apply list_find_Some in E as (Hi & (Hd & Hn & Hv) & _). apply lookup_seq in Hi as [Hbi Hi]; simpl in Hbi; subst b.
  rewrite (H i) in Hv; done.
Qed.

Lemma view_cases L k n : cache_ok L k ->
  (exists b, caches k b n /\ bvalid (buf_at k b) = true /\ view k n = bdata (buf_at k b)) \/
  ((forall b, caches k b n -> bvalid (buf_at k b) = false) /\ view k n = disk k 1 n).
Proof.
  intros Hok.
  destruct (list_find (fun b => bdev (buf_at k b) = 1 /\ bblockno (buf_at k b) = n /\
    bvalid (buf_at k b) = true) (seq 0 NBUF)) as [[i b]|] eqn:E.
  - left. pose proof E as E'. apply list_find_Some in E as (Hi & (Hd & Hn & Hv) & _).
    apply lookup_seq in Hi as [Hbi Hi]; simpl in Hbi; subst b.
    exists i. split; [done|]. split; [done|]. unfold view. by rewrite E'.
  - right. apply list_find_None in E. rewrite Forall_forall in E.
    assert (forall b, caches k b n -> bvalid (buf_at k b) = false) as Hno.
    { intros b (Hb & Hd & Hn). apply not_true_iff_false. intros Hv.
      by apply (E b); [apply elem_of_seq; lia|]. }
    split; [done|]. by apply view_uncached.
Qed.

Lemma view_clean L k n : cache_ok L k ->
  (forall b, caches k b n -> (b ∉ L) /\ bdirty (buf_at k b) = false) -> view k n = disk k 1 n.
Proof.
  intros Hok H. destruct (view_cases L k n Hok) as [(b & Hc & Hv & ->)|[_ ->]]; [|done].
  destruct (H b Hc). by apply (co_clean _ _ Hok b).
Qed.

(** ** One buffer changes *)
Section change.
Context (L L' : list nat) (k k' : kernel) (b : nat).
Hypothesis Hok : cache_ok L k.
Hypothesis Hb : (b < NBUF)%nat.
Hypothesis Hlen : length (bufs k') = NBUF.
Hypothesis Hother : forall b', b' <> b -> buf_at k' b' = buf_at k b'.

(** The disk changes at most at the block the buffer now holds. *)
Hypothesis Hdisk : forall m, caches k' b m \/ disk k' 1 m = disk k 1 m.
Hypothesis Hnew : forall b' m, b' <> b -> caches k b' m -> ~ caches k' b m.

Lemma cache_ok_change :
  lru k' ≡ₚ seq 0 NBUF -> NoDup L' -> (forall b', b' <> b -> b' ∈ L' <-> b' ∈ L) ->
  (forall b', b' <> b -> slocks k' (BufLock b') = slocks k (BufLock b')) ->
  refcnt (buf_at k' b) = (if bool_decide (b ∈ L') then 1 else 0) ->
  (slocked (slocks k' (BufLock b)) <> 0 <-> b ∈ L') ->
  (forall m, caches k' b m -> b ∉ L' -> bvalid (buf_at k' b) = true -> bdirty (buf_at k' b) = false ->
     bdata (buf_at k' b) = disk k' 1 m) ->
  (bdirty (buf_at k' b) = true -> bvalid (buf_at k' b) = true /\ bdev (buf_at k' b) = 1) ->
  cache_ok L' k'.
Proof using All.
  intros Hlru Hnd HL Hsl Hr Hs Hc Hd. destruct Hok.
  assert (forall b' m, b' <> b -> caches k' b' m <-> caches k b' m) as Hca
    by (intros b' m Hne; unfold caches; by rewrite Hother).
  split; try done.
  - intros b' Hb'. destruct (decide (b' = b)) as [->|Hne]; [done|]. apply co_locked0. by apply HL.
  - intros b' Hb'. destruct (decide (b' = b)) as [->|Hne]; [done|]. rewrite Hother, co_refcnt0 by done.
    by rewrite (bool_decide_ext _ _ (HL b' Hne)).
  - intros b' Hb'. destruct (decide (b' = b)) as [->|Hne]; [done|]. by rewrite Hsl, co_slock0, HL.
  - intros b1 b2 m H1 H2. destruct (decide (b1 = b)) as [->|Hn1], (decide (b2 = b)) as [->|Hn2]; try done.
    + apply Hca in H2; [|done]. by destruct (Hnew b2 m).
    + apply Hca in H1; [|done]. by destruct (Hnew b1 m).
    + apply Hca in H1, H2; [|done..]. by eapply co_unique0.
  - intros b1 m H1 HnL. destruct (decide (b1 = b)) as [->|Hn1]; [by apply Hc|].
    apply Hca in H1; [|done]. rewrite Hother by done. intros Hv Hd1.
    destruct (Hdisk m) as [Hm| ->]; [by destruct (Hnew b1 m)|]. apply (co_clean0 b1); try done. by rewrite <- HL.
  - intros b1 Hb1. destruct (decide (b1 = b)) as [->|Hn1]; [done|]. rewrite Hother by done. by apply co_dirty0.
Qed.

Lemma view_change m :
  cache_ok L' k' ->
  (caches k' b m -> bvalid (buf_at k' b) = true -> bdata (buf_at k' b) = view k m) ->
  (caches k b m -> bvalid (buf_at k b) = true -> ~ (caches k' b m /\ bvalid (buf_at k' b) = true) ->
     bdata (buf_at k b) = disk k' 1 m) ->
  (caches k' b m -> bvalid (buf_at k' b) = false -> disk k' 1 m = disk k 1 m) ->
  view k' m = view k m.
Proof using All.
  intros Hok' H1 H2 H3.
  destruct (decide (bdev (buf_at k' b) = 1 /\ bblockno (buf_at k' b) = m /\ bvalid (buf_at k' b) = true)) as [(Hd & Hn & Hv)|Hno].
  { rewrite (view_cached L' k' b) by done. by apply H1. }
  destruct (view_cases L k m Hok) as [(b1 & Hc & Hv & ->)|[Hnone ->]].
  - destruct (decide (b1 = b)) as [->|Hne].
    + rewrite H2 by (try done; intros [(_ & ? & ?) ?]; by apply Hno). apply view_uncached. intros b2 Hc2.
      destruct (decide (b2 = b)) as [->|Hne2].
      * apply not_true_iff_false. intros ?. apply Hno. by destruct Hc2 as (_ & ? & ?).
      * destruct (Hne2 (co_unique L k Hok b2 b m ltac:(destruct Hc2 as (? & ? & ?); unfold caches; by rewrite <- Hother) Hc)).
    + rewrite (view_cached L' k' b1) by (done || (unfold caches; by rewrite Hother) || by rewrite Hother).
      by rewrite Hother.
  - rewrite view_uncached.
    + destruct (Hdisk m) as [Hm|Hm]; [|done]. apply H3; [done|].
      apply not_true_iff_false. intros ?. apply Hno. by destruct Hm as (_ & ? & ?).
    + intros b2 Hc2. destruct (decide (b2 = b)) as [->|Hne2].
      * apply not_true_iff_false. intros ?. apply Hno. by destruct Hc2 as (_ & ? & ?).
      * rewrite Hother by done. apply Hnone. destruct Hc2 as (? & ? & ?). unfold caches. by rewrite <- Hother.
Qed.
End change.

(** ** bget *)
Lemma buf_at_upd b f k b' : (b < length (bufs k))%nat ->
  buf_at (upd_buf b f k) b' = if decide (b' = b) then f (buf_at k b) else buf_at k b'.
Proof.
  intros Hb. unfold buf_at. simpl. case_decide as E; [subst; by apply alter_same|].
  by apply alter_other.
Qed.

Lemma lru_lt L k b : cache_ok L k -> b ∈ lru k <-> (b < NBUF)%nat.
Proof. intros Hok. rewrite (co_lru _ _ Hok), elem_of_seq. lia. Qed.

Lemma find_cached_spec L k n : cache_ok L k ->
  match find_cached k 1 n with
  | Some b => caches k b n
  | None => forall b, ~ caches k b n
  end.
Proof.
  intros Hok. unfold find_cached. destruct (list_find _ (lru k)) as [[i b]|] eqn:E; simpl.
  - apply list_find_Some in E as (Hi & (Hd & Hn) & _). split; [|done].
    apply (lru_lt L k b Hok). by eapply list_elem_of_lookup_2.
  - apply list_find_None in E. rewrite Forall_forall in E. intros b (Hb & Hd & Hn).
    apply (E b); [|done]. by apply (lru_lt L k b Hok).
Qed.

Definition dirty_bufs (k : kernel) : list nat :=
  filter (fun b => bdirty (buf_at k b) = true) (seq 0 NBUF).

(** There is something to recycle unless locked and dirty buffers take up the cache. *)
Lemma find_unused_spec L k : cache_ok L k -> (length L + length (dirty_bufs k) < NBUF)%nat ->
  exists b, find_unused k = Some b /\ (b < NBUF)%nat /\ (b ∉ L) /\ bdirty (buf_at k b) = false.
Proof.
  intros Hok Hroom. unfold find_unused.
  destruct (list_find _ (reverse (lru k))) as [[i b]|] eqn:E; simpl.
  - apply list_find_Some in E as (Hi & (Hr & Hd) & _). exists b.
    assert (b < NBUF)%nat as Hb.
    { apply (lru_lt L k b Hok). apply elem_of_reverse. by eapply list_elem_of_lookup_2. }
    split_and!; try done. intros HL. rewrite (co_refcnt _ _ Hok), bool_decide_true in Hr; done.
  - exfalso. apply list_find_None in E. rewrite Forall_forall in E.
    assert (seq 0 NBUF ⊆+ L ++ dirty_bufs k) as Hsub.
    { apply NoDup_submseteq; [apply NoDup_seq|]. intros b Hb. apply elem_of_app.
      assert (b < NBUF)%nat as Hlt by (apply elem_of_seq in Hb; lia).
      destruct (decide (b ∈ L)) as [|HnL]; [by left|]. right. apply list_elem_of_filter. split; [|done].
      apply not_false_iff_true. intros Hd. apply (E b).
      - apply elem_of_reverse. by apply (lru_lt L k b Hok).
      - by rewrite (co_refcnt _ _ Hok), bool_decide_false. }
    apply submseteq_length in Hsub. rewrite length_seq, length_app in Hsub. lia.
Qed.

(** There is a buffer for block [n]. *)
Definition room (L : list nat) (k : kernel) (n : Z) : Prop :=
  (exists b, caches k b n) \/ (length L + length (dirty_bufs k) < NBUF)%nat.

(** The state after locking [b] with its descriptor changed by [f]. *)
Definition grab (b : nat) (f : buf -> buf) (i : nat) (k : kernel) : kernel :=
  set_sleeplock (BufLock b) (mkSleeplock 1 (pid (ptable k !!! i))) (upd_buf b f k).

Lemma bget_eq `{BlockDriver} fuel L i k n :
  solo i k -> cache_ok L k -> (forall b, b ∈ L -> ~ caches k b n) -> room L k n ->
  exists b, (b < NBUF)%nat /\ (b ∉ L) /\
    ((caches k b n /\ bget fuel 1 n k = Ret b (grab b (fun x => x <| refcnt := 1 |>) i k)) \/
     ((forall b', ~ caches k b' n) /\ bdirty (buf_at k b) = false /\
      bget fuel 1 n k = Ret b (grab b (fun x => mkBuf false false 1 n 1 (bdata x)) i k))).
Proof.
  intros (Hh & Hc & _) Hok HL Hroom. pose proof (find_cached_spec L k n Hok) as Hf.
  unfold bget. kunfold. rewrite acquire_ok by (rewrite Hh; notheld). cbn [obind].
  change (find_cached (k <| held ::= cons BcacheLock |>) 1 n) with (find_cached k 1 n).
  assert (forall b, (b < NBUF)%nat -> b ∉ L -> slocked (slocks k (BufLock b)) = 0) as Hfree.
  { intros b Hb Hn. destruct (decide (slocked (slocks k (BufLock b)) = 0)); [done|].
    destruct Hn. by apply (co_slock _ _ Hok). }
  destruct (find_cached k 1 n) as [b|].
  - destruct Hf as [Hb Hf]. assert (b ∉ L) as HnL by (intros ?; by apply (HL b)).
    exists b. split; [done|]. split; [done|]. left. split; [done|].
    rewrite (release_ok _ []) by ((simpl; by rewrite Hh) || notheld). cbn [obind].
    rewrite (acquiresleep_free fuel i) by (simpl; (done || notheld || by apply Hfree)). cbn [obind].
    f_equal. kernel_ext; simpl; [by rewrite Hh|]. apply alter_buf_ext.
    pose proof (co_refcnt _ _ Hok b Hb) as Hr. rewrite bool_decide_false in Hr by done.
    unfold upd, upd_refcnt. by rewrite Hr.
  - cbn [obind]. change (find_unused (k <| held ::= cons BcacheLock |>)) with (find_unused k).
    destruct Hroom as [[b0 Hb0]|Hroom]; [by destruct (Hf b0)|].
    destruct (find_unused_spec L k Hok Hroom) as (b & -> & Hb & HnL & Hd).
    exists b. split; [done|]. split; [done|]. right. split; [done|]. split; [done|]. cbn [obind].
    rewrite (release_ok _ []) by ((simpl; by rewrite Hh) || notheld). cbn [obind].
    rewrite (acquiresleep_free fuel i) by (simpl; (done || notheld || by apply Hfree)). cbn [obind].
    f_equal. kernel_ext. simpl. by rewrite Hh.
Qed.

Lemma grab_at b f i k b' : (b < length (bufs k))%nat ->
  buf_at (grab b f i k) b' = if decide (b' = b) then f (buf_at k b) else buf_at k b'.
Proof. apply buf_at_upd. Qed.

(** Locking [b] with a descriptor that is as it was or that no other buffer has. *)
Lemma grab_ok L b f i k :
  cache_ok L k -> (b < NBUF)%nat -> b ∉ L -> refcnt (f (buf_at k b)) = 1 ->
  (bdirty (f (buf_at k b)) = true -> bvalid (f (buf_at k b)) = true /\ bdev (f (buf_at k b)) = 1) ->
  (forall b' m, b' <> b -> caches k b' m -> ~ (bdev (f (buf_at k b)) = 1 /\ bblockno (f (buf_at k b)) = m)) ->
  cache_ok (b :: L) (grab b f i k).
Proof.
  intros Hok Hb HnL Hr Hd Hnew. pose proof (co_len _ _ Hok) as Hlen.
  assert (forall b', buf_at (grab b f i k) b' = if decide (b' = b) then f (buf_at k b) else buf_at k b') as Hat
    by (intros b'; apply grab_at; lia).
  assert (buf_at (grab b f i k) b = f (buf_at k b)) as Hatb by (by rewrite Hat, decide_True).
  apply (cache_ok_change L _ k _ b Hok Hb); rewrite ?Hatb; try done.
  - simpl. by rewrite length_alter.
  - intros b' Hne. by rewrite Hat, decide_False.
  - intros m. by right.
  - intros b' m Hne Hc [_ Hc']. rewrite Hatb in Hc'. by apply (Hnew b' m).
  - apply (co_lru _ _ Hok).
  - apply NoDup_cons. split; [done|]. apply Hok.
  - intros b' Hne. rewrite elem_of_cons. naive_solver.
  - intros b' Hne. simpl. rewrite fn_lookup_insert_ne; [done|]. congruence.
  - rewrite Hr. by rewrite bool_decide_true by left.
  - simpl. rewrite fn_lookup_insert. split; [by left|done].
  - intros m _ []. by left.
Qed.

Lemma grab_hit L b i k n :
  cache_ok L k -> caches k b n -> b ∉ L ->
  let k' := grab b (fun x => x <| refcnt := 1 |>) i k in
  cache_ok (b :: L) k' /\ forall m, view k' m = view k m.
Proof.
  intros Hok Hc HnL k'. pose proof Hc as [Hb [Hd Hn]]. pose proof (co_len _ _ Hok) as Hlen.
  assert (cache_ok (b :: L) k') as Hok'.
  { apply grab_ok; try done; [by apply Hok|]. intros b' m Hne Hc' [_ Hm]. simpl in Hm.
    destruct Hne. apply (co_unique _ _ Hok b' b m); [done|]. by subst. }
  assert (forall b', buf_at k' b' = if decide (b' = b) then buf_at k b <| refcnt := 1 |> else buf_at k b') as Hat
    by (intros b'; apply grab_at; lia).
  split; [done|]. intros m.
  apply (view_change L (b :: L) k k' b Hok Hb); try done; rewrite ?Hat, ?decide_True by done; simpl.
  - by rewrite length_alter.
  - intros b' Hne. by rewrite Hat, decide_False.
  - intros; by right.
  - intros b' m' Hne Hc1 [_ Hc2]. rewrite Hat, decide_True in Hc2 by done. simpl in Hc2.
    destruct Hne. apply (co_unique _ _ Hok b' b m'); [done|]. by split.
  - intros [_ Hm] Hv. rewrite Hat, decide_True in Hm by done. symmetry. by eapply view_cached.
  - intros Hm Hv []. split; [|done]. unfold caches. by rewrite Hat, decide_True.
Qed.

Lemma grab_miss L b i k n :
  cache_ok L k -> (forall b', ~ caches k b' n) -> (b < NBUF)%nat -> b ∉ L -> bdirty (buf_at k b) = false ->
  let k' := grab b (fun x => mkBuf false false 1 n 1 (bdata x)) i k in
  cache_ok (b :: L) k' /\ forall m, view k' m = view k m.
Proof.
  intros Hok Hno Hb HnL Hd k'. pose proof (co_len _ _ Hok) as Hlen.
  assert (cache_ok (b :: L) k') as Hok'.
  { apply grab_ok; try done. simpl. intros b' m Hne Hc' [_ <-]. by apply (Hno b'). }
  assert (forall b', buf_at k' b' = if decide (b' = b) then mkBuf false false 1 n 1 (bdata (buf_at k b))
                                    else buf_at k b') as Hat by (intros b'; apply grab_at; lia).
  split; [done|]. intros m.
  apply (view_change L (b :: L) k k' b Hok Hb); try done; rewrite ?Hat, ?decide_True by done; simpl; try done.
  - by rewrite length_alter.
  - intros b' Hne. by rewrite Hat, decide_False.
  - intros; by right.
  - intros b' m' Hne Hc1 [_ Hc2]. rewrite Hat, decide_True in Hc2 by done. simpl in Hc2.
    destruct Hc2 as [_ <-]. by apply (Hno b').
  - intros Hm Hv _. by apply (co_clean _ _ Hok b).
Qed.

(** ** bread *)
Lemma served_at b k k' b' : served b k k' -> (b < length (bufs k))%nat ->
  buf_at k' b' = if decide (b' = b) then synced (disk k 1) (buf_at k b) else buf_at k b'.
Proof.
  intros (Hb & _) Hlt. unfold buf_at. rewrite Hb. case_decide as E; [subst; by apply alter_same|].
  by apply alter_other.
Qed.

(** The disk after a request for a buffer that caches [n]. *)
Lemma served_disk b k k' n : served b k k' -> bblockno (buf_at k b) = n ->
  forall m, disk k' 1 m = if bool_decide (m = n /\ bdirty (buf_at k b) = true) then bdata (buf_at k b) else disk k 1 m.
Proof.
  intros (_ & -> & _) Hn m. unfold request, apply_writes. destruct (bdirty (buf_at k b)); simpl.
  - rewrite Hn, fn_lookup_insert. destruct (decide (n = m)) as [<-|Hne].
    + rewrite fn_lookup_insert. by rewrite bool_decide_true.
    + rewrite fn_lookup_insert_ne by done. rewrite bool_decide_false; [done|]. by intros [-> _].
  - rewrite bool_decide_false; [done|]. by intros [_ ?].
Qed.

(** A request for a locked buffer keeps the invariant and, if the buffer was dirty or had
    nothing valid in it, what blocks read as. *)
Lemma served_ok L b k k' n :
  cache_ok L k -> b ∈ L -> caches k b n -> (bvalid (buf_at k b) = true -> bdirty (buf_at k b) = true) ->
  served b k k' -> cache_ok L k' /\ forall m, view k' m = view k m.
Proof.
  intros Hok HL Hc Hvd Hs. pose proof Hc as (Hb & Hd & Hn). pose proof (co_len _ _ Hok) as Hlen.
  assert (forall b', buf_at k' b' = if decide (b' = b) then synced (disk k 1) (buf_at k b) else buf_at k b') as Hat
    by (intros b'; apply served_at; [done|lia]).
  assert (buf_at k' b = synced (disk k 1) (buf_at k b)) as Hatb by (by rewrite Hat, decide_True).
  pose proof (served_disk b k k' n Hs Hn) as Hdk. destruct Hs as (Hbufs & _ & _ & Hsl & Hlru & _).
  assert (length (bufs k') = NBUF) as Hlen' by (by rewrite Hbufs, length_alter).
  assert (forall b' m, b' <> b -> caches k b' m -> ~ caches k' b m) as Hnew.
  { intros b' m Hne Hc1 (_ & _ & Hm). rewrite Hatb in Hm. simpl in Hm. destruct Hne.
    apply (co_unique _ _ Hok b' b m); [done|]. by subst. }
  assert (forall m, caches k' b m \/ disk k' 1 m = disk k 1 m) as Hdisk.
  { intros m. rewrite Hdk. case_bool_decide as E; [left|by right]. destruct E as [-> _].
    unfold caches. by rewrite Hatb. }
  assert (forall b', b' <> b -> buf_at k' b' = buf_at k b') as Hother
    by (intros b' Hne; by rewrite Hat, decide_False).
  assert (cache_ok L k') as Hok'.
  { apply (cache_ok_change L L k k' b Hok Hb); rewrite ?Hatb; try done; simpl.
    - rewrite Hlru. apply Hok.
    - apply Hok.
    - intros b' _. by rewrite Hsl.
    - by apply (co_refcnt _ _ Hok).
    - rewrite Hsl. by apply (co_slock _ _ Hok). }
  split; [done|]. intros m.
  apply (view_change L L k k' b Hok Hb Hlen' Hother Hdisk Hnew); rewrite ?Hatb; try done; simpl.
  - intros (_ & _ & Hm) _. rewrite Hatb in Hm. simpl in Hm. rewrite Hn in Hm. subst m.
    destruct (bdirty (buf_at k b)) eqn:Ed.
    + symmetry. eapply view_cached; try done. by apply (co_dirty _ _ Hok).
    + symmetry. rewrite <- Hn. apply view_uncached. intros b1 Hc1. rewrite Hn in Hc1.
      rewrite (co_unique _ _ Hok b1 b n) by done. apply not_true_iff_false. naive_solver.
  - intros (_ & _ & Hm) Hv []. split; [|done]. unfold caches. by rewrite Hatb.
Qed.

(** [bget] locks a buffer for the block and changes nothing anyone can see. *)
Lemma bget_spec `{BlockDriver} fuel i L k n :
  solo i k -> cache_ok L k -> (forall b, b ∈ L -> ~ caches k b n) -> room L k n ->
  exists b f, bget fuel 1 n k = Ret b (grab b f i k) /\
    let k' := grab b f i k in
    (b < NBUF)%nat /\ cache_ok (b :: L) k' /\ (forall m, view k' m = view k m) /\ caches k' b n /\
    bdirty (buf_at k' b) = bdirty (buf_at k b) /\ (bdirty (buf_at k b) = true -> caches k b n) /\
    forall b', b' <> b -> buf_at k' b' = buf_at k b'.
Proof.
  intros Hs Hok HL Hroom. pose proof (co_len _ _ Hok) as Hlen.
  destruct (bget_eq fuel L i k n Hs Hok HL Hroom) as (b & Hb & HnL & [[Hc E]|(Hno & Hd & E)]).
  - destruct (grab_hit L b i k n Hok Hc HnL) as [Hok' Hv]. eexists b, _. split; [exact E|].
    unfold caches. rewrite grab_at, decide_True by (done || lia). split_and!; try done.
    + by destruct Hc as (_ & ? & ?).
    + by destruct Hc as (_ & ? & ?).
    + intros b' Hne. by rewrite grab_at, decide_False by (done || lia).
  - destruct (grab_miss L b i k n Hok Hno Hb HnL Hd) as [Hok' Hv]. eexists b, _. split; [exact E|].
    unfold caches. rewrite grab_at, decide_True by (done || lia). rewrite Hd. split_and!; try done.
    intros b' Hne. by rewrite grab_at, decide_False by (done || lia).
Qed.

(** The client's side of the contract: the process is alone and the driver ready, and
    [L] are the buffers it has locked. *)
Definition cache_state `{BlockDriver} (i : nat) (L : list nat) (k : kernel) : Prop :=
  solo i k /\ drv_ok k /\ cache_ok L k.

(** ** Locked buffers *)
Lemma cache_ok_perm L L' k : L ≡ₚ L' -> cache_ok L k -> cache_ok L' k.
Proof.
  intros HL []. assert (forall b, b ∈ L' <-> b ∈ L) as He by (intros b; by rewrite HL).
  split; try done.
  - by rewrite <- HL.
  - intros b. rewrite He. auto.
  - intros b Hb. by rewrite (bool_decide_ext _ _ (He b)), co_refcnt0.
  - intros b Hb. rewrite He. auto.
  - intros b n. rewrite He. auto.
Qed.

(** The holder of a buffer changes its descriptor, keeping its identity and reference. *)
Lemma upd_locked_ok L k b f n :
  cache_ok L k -> b ∈ L -> caches k b n -> bvalid (buf_at k b) = true ->
  (forall x, bvalid (f x) = bvalid x /\ bdev (f x) = bdev x /\ bblockno (f x) = bblockno x /\ refcnt (f x) = refcnt x) ->
  cache_ok L (upd_buf b f k) /\
  forall m, view (upd_buf b f k) m = if bool_decide (m = n) then bdata (f (buf_at k b)) else view k m.
Proof.
  intros Hok HL Hc Hv Hf. pose proof Hc as (Hb & Hd & Hn). pose proof (co_len _ _ Hok) as Hlen.
  assert (forall b', buf_at (upd_buf b f k) b' = if decide (b' = b) then f (buf_at k b) else buf_at k b') as Hat
    by (intros b'; apply buf_at_upd; lia).
  assert (buf_at (upd_buf b f k) b = f (buf_at k b)) as Hatb by (by rewrite Hat, decide_True).
  destruct (Hf (buf_at k b)) as (Hf1 & Hf2 & Hf3 & Hf4).
  assert (forall b' m, b' <> b -> caches k b' m -> ~ caches (upd_buf b f k) b m) as Hnew.
  { intros b' m Hne Hc1 (_ & _ & Hm). rewrite Hatb, Hf3 in Hm. destruct Hne.
    apply (co_unique _ _ Hok b' b m); [done|]. by subst. }
  assert (cache_ok L (upd_buf b f k)) as Hok'.
  { apply (cache_ok_change L L k _ b Hok Hb); rewrite ?Hatb; try done.
    - simpl. by rewrite length_alter.
    - intros b' Hne. by rewrite Hat, decide_False.
    - intros m. by right.
    - apply Hok.
    - apply Hok.
    - rewrite Hf4. by apply (co_refcnt _ _ Hok).
    - by apply (co_slock _ _ Hok).
    - intros _. by rewrite Hf1, Hf2. }
  split; [done|]. intros m. case_bool_decide as E.
  - rewrite <- Hatb. eapply view_cached; [done| |by rewrite Hatb, Hf1]. subst m. unfold caches.
    by rewrite Hatb, Hf2, Hf3.
  - apply (view_change L L k _ b Hok Hb); rewrite ?Hatb; try done.
    + simpl. by rewrite length_alter.
    + intros b' Hne. by rewrite Hat, decide_False.
    + intros m'. by right.
    + intros (_ & _ & Hm). rewrite Hatb, Hf3 in Hm. congruence.
    + intros (_ & _ & Hm). congruence.
Qed.

(** The state after [brelse]. *)
Definition ungrab (b : nat) (k : kernel) : kernel :=
  set_sleeplock (BufLock b) (mkSleeplock 0 0) (upd_buf b (fun x => x <| refcnt := 0 |>) k)
    <| lru ::= (fun l => b :: filter (fun b' => b' <> b) l) |>.

Lemma brelse_eq i L k b :
  solo i k -> cache_ok (b :: L) k -> brelse b k = Ret tt (ungrab b k).
Proof.
  intros Hs Hok. pose proof Hs as [Hh _]. assert (b ∈ b :: L) as HbL by left.
  pose proof (co_locked _ _ Hok b HbL) as Hb.
  unfold brelse. kunfold. rewrite holdingsleep_spec by (rewrite Hh; notheld). cbn [obind].
  rewrite (proj2 (Z.eqb_neq _ _)) by (by apply (co_slock _ _ Hok)). cbn [negb obind].
  rewrite releasesleep_quiet by ((by eapply solo_no_sleeper) || (rewrite Hh; notheld)). cbn [obind].
  rewrite acquire_ok by (simpl; rewrite Hh; notheld). cbn [obind].
  assert (refcnt (buf_at k b) = 1) as Hr by (by rewrite (co_refcnt _ _ Hok), bool_decide_true).
  set (k1 := upd_buf b _ (_ <| held ::= _ |>)).
  assert (refcnt (buf_at k1 b) = 0) as ->.
  { unfold k1. rewrite buf_at_upd, decide_True by (done || (simpl; by rewrite (co_len _ _ Hok))).
    change (u32 (refcnt (buf_at k b) - 1) = 0). by rewrite Hr. }
  cbn [Z.eqb obind]. rewrite (release_ok _ []) by ((simpl; by rewrite Hh) || notheld).
  f_equal. kernel_ext; simpl; [done|]. apply alter_buf_ext. unfold upd, upd_refcnt. by rewrite Hr.
Qed.

Lemma move_front (l : list nat) b : NoDup l -> b ∈ l -> b :: filter (fun b' => b' <> b) l ≡ₚ l.
Proof.
  intros Hnd Hb. apply NoDup_Permutation; [|done|].
  - apply NoDup_cons. split; [|by apply NoDup_filter]. rewrite list_elem_of_filter. naive_solver.
  - intros x. rewrite elem_of_cons, list_elem_of_filter. destruct (decide (x = b)); naive_solver.
Qed.

Lemma ungrab_ok L k b n :
  cache_ok (b :: L) k -> caches k b n ->
  (bvalid (buf_at k b) = true -> bdirty (buf_at k b) = false -> bdata (buf_at k b) = disk k 1 n) ->
  cache_ok L (ungrab b k) /\ forall m, view (ungrab b k) m = view k m.
Proof.
  intros Hok Hc Hclean. pose proof Hc as (Hb & Hd & Hn). pose proof (co_len _ _ Hok) as Hlen.
  pose proof (co_nodup _ _ Hok) as Hnd. apply NoDup_cons in Hnd as [HnL Hnd].
  assert (forall b', buf_at (ungrab b k) b' = if decide (b' = b) then buf_at k b <| refcnt := 0 |> else buf_at k b') as Hat
    by (intros b'; apply buf_at_upd; lia).
  assert (buf_at (ungrab b k) b = buf_at k b <| refcnt := 0 |>) as Hatb by (by rewrite Hat, decide_True).
  assert (forall b', b' <> b -> buf_at (ungrab b k) b' = buf_at k b') as Hother
    by (intros b' Hne; by rewrite Hat, decide_False).
  assert (forall m, caches (ungrab b k) b m <-> caches k b m) as Hcb
    by (intros m; unfold caches; by rewrite Hatb).
  assert (forall b' m, b' <> b -> caches k b' m -> ~ caches (ungrab b k) b m) as Hnew.
  { intros b' m Hne Hc1 Hc2. rewrite Hcb in Hc2. by apply Hne, (co_unique _ _ Hok b' b m). }
  assert (length (bufs (ungrab b k)) = NBUF) as Hlen' by (simpl; by rewrite length_alter).
  assert (cache_ok L (ungrab b k)) as Hok'.
  { apply (cache_ok_change (b :: L) L k _ b Hok Hb); rewrite ?Hatb; try done.
    - intros m. by right.
    - simpl. rewrite <- (co_lru _ _ Hok). apply move_front; [rewrite (co_lru _ _ Hok); apply NoDup_seq|].
      by apply (lru_lt _ _ _ Hok).
    - intros b' Hne. rewrite elem_of_cons. naive_solver.
    - intros b' Hne. simpl. rewrite fn_lookup_insert_ne; [done|]. congruence.
    - by rewrite bool_decide_false.
    - simpl. rewrite fn_lookup_insert. done.
    - intros m Hm _ Hv Hdi. rewrite Hcb in Hm. destruct Hm as (_ & _ & Hm). simpl in *.
      rewrite Hclean by done. by rewrite <- Hm, Hn.
    - by apply (co_dirty _ _ Hok). }
  split; [done|]. intros m.
  apply (view_change (b :: L) L k _ b Hok Hb Hlen' Hother); rewrite ?Hatb; try done.
  - intros m'. by right.
  - rewrite Hcb. intros Hm Hv. symmetry. by eapply view_cached.
  - intros Hm Hv []. by rewrite Hcb.
Qed.

Section specs.
Context {D : BlockDriver} {DL : BlockDriverLaws D} (fuel : nat) (Hfuel : (0 < fuel)%nat).

Lemma drv_ok_grab b f i k : drv_ok k -> drv_ok (grab b f i k).
Proof using DL. by apply drv_ok_frame. Qed.

Lemma bread_spec i L k n :
  cache_state i L k -> n < FSSIZE -> (forall b, b ∈ L -> ~ caches k b n) -> room L k n ->
  returns (alone idle (bread fuel 1 n k)) (fun b k' =>
    cache_state i (b :: L) k' /\
    caches k' b n /\ bvalid (buf_at k' b) = true /\ bdata (buf_at k' b) = view k n /\
    bdirty (buf_at k' b) = bdirty (buf_at k b) /\ (bdirty (buf_at k b) = true -> caches k b n) /\
    (bdirty (buf_at k' b) = false -> bdata (buf_at k' b) = disk k 1 n) /\
    (forall b', b' <> b -> buf_at k' b' = buf_at k b') /\ (forall m, view k' m = view k m) /\
    disk k' = disk k /\ dwrites k' = dwrites k /\ klog k' = klog k /\ same_core k k').
Proof using DL Hfuel.
  intros (Hs & Hdr & Hok) Hn HL Hroom. unfold bread. kunfold.
  destruct (bget_spec fuel i L k n Hs Hok HL Hroom) as (b & f & -> & Hb & Hok1 & Hv1 & Hc1 & Hd1 & Hdc & Ho1).
  cbn [obind]. set (k1 := grab b f i k) in *.
  assert (solo i k1) as Hs1 by (by apply (solo_same i k)).
  assert (drv_ok k1) as Hdr1 by by apply drv_ok_grab.
  destruct (bvalid (buf_at k1 b)) eqn:Ev; cbn [negb obind].
  { assert (bdata (buf_at k1 b) = view k n) as Hbd by (rewrite <- Hv1; symmetry; by eapply view_cached).
    apply alone_returns. cbn [returns]. split_and!; try done.
    intros Hnd. rewrite Hbd. apply (view_clean L); [done|]. intros b' Hc'. split; [intros ?; by apply (HL b')|].
    destruct (decide (b' = b)) as [->|Hne]; [congruence|].
    exfalso. apply Hne, (co_unique _ _ Hok1 b' b n); [|done]. unfold caches. rewrite Ho1; done. }
  pose proof Hc1 as (_ & Hdev & Hbn).
  assert (b ∈ b :: L) as HbL by left.
  assert (bvalid (buf_at k1 b) = true -> bdirty (buf_at k1 b) = true) as Hvd by (by rewrite Ev).
  assert (bdirty (buf_at k1 b) = false) as Hnd.
  { apply not_true_iff_false. intros Hd. destruct (co_dirty _ _ Hok1 b Hb Hd). congruence. }
  eapply alone_bind.
  - eapply (iderw_serves fuel i b k1); try done; [|by apply (co_slock _ _ Hok1)|lia].
    by rewrite (co_len _ _ Hok1).
  - intros [] k2 (Hs2 & Hdr2 & Hsv). apply alone_returns. cbn [returns].
    destruct (served_ok (b :: L) b k1 k2 n Hok1 HbL Hc1 Hvd Hsv) as [Hok2 Hv2].
    assert (forall b', buf_at k2 b' = if decide (b' = b) then synced (disk k1 1) (buf_at k1 b) else buf_at k1 b') as Hat
      by (intros b'; apply served_at; [done|]; by rewrite (co_len _ _ Hok1)).
    assert (buf_at k2 b = synced (disk k1 1) (buf_at k1 b)) as Hatb by (by rewrite Hat, decide_True).
    assert (caches k2 b n) as Hc2 by (unfold caches; by rewrite Hatb).
    destruct Hsv as (_ & Hdk & Hdw & _ & _ & Hlg & Hcore). unfold request in Hdk, Hdw. rewrite Hnd in Hdk, Hdw.
    split_and!; try done.
    + by rewrite Hatb.
    + rewrite <- Hv1, <- Hv2. symmetry. eapply view_cached; try done. by rewrite Hatb.
    + rewrite Hatb. simpl. by rewrite <- Hd1.
    + intros _. rewrite Hatb. simpl. by rewrite Hnd, Hbn.
    + intros b' Hne. by rewrite Hat, decide_False, Ho1.
    + intros m. by rewrite Hv2.
    + rewrite Hdw. by rewrite app_nil_r.
Qed.

Lemma bwrite_spec i L k b n :
  cache_state i L k -> b ∈ L -> caches k b n -> bvalid (buf_at k b) = true -> n < FSSIZE ->
  returns (alone idle (bwrite fuel b k)) (fun _ k' =>
    cache_state i L k' /\ buf_at k' b = buf_at k b <| bdirty := false |> /\
    (forall b', b' <> b -> buf_at k' b' = buf_at k b') /\ (forall m, view k' m = view k m) /\
    disk k' = apply_writes [(1, n, bdata (buf_at k b))] (disk k) /\
    dwrites k' = dwrites k ++ [(1, n, bdata (buf_at k b))] /\ klog k' = klog k /\ same_core k k').
Proof using DL Hfuel.
  intros (Hs & Hdr & Hok) HL Hc Hv Hn. pose proof Hc as (Hb & Hdev & Hbn). unfold bwrite. kunfold.
  rewrite holdingsleep_spec by (destruct Hs as [-> _]; notheld). cbn [obind].
  rewrite (proj2 (Z.eqb_neq _ _)) by (by apply (co_slock _ _ Hok)). cbn [negb obind].
  set (k1 := upd_buf b (fun x => x <| bdirty := true |>) k).
  destruct (upd_locked_ok L k b (fun x => x <| bdirty := true |>) n Hok HL Hc Hv) as [Hok1 Hv1]; [done|].
  fold k1 in Hok1, Hv1. pose proof (co_len _ _ Hok) as Hlen.
  assert (forall b', buf_at k1 b' = if decide (b' = b) then buf_at k b <| bdirty := true |> else buf_at k b') as Hat1
    by (intros b'; apply buf_at_upd; lia).
  assert (buf_at k1 b = buf_at k b <| bdirty := true |>) as Hatb1 by (by rewrite Hat1, decide_True).
  assert (solo i k1) as Hs1 by (by apply (solo_same i k)).
  assert (drv_ok k1) as Hdr1 by by apply (drv_ok_frame k).
  assert (caches k1 b n) as Hc1 by (unfold caches; by rewrite Hatb1).
  eapply returns_mono.
  - eapply (iderw_serves fuel i b k1); rewrite ?Hatb1; try done; simpl; [|by apply (co_slock _ _ Hok)|lia].
    by rewrite length_alter, Hlen.
  - intros [] k2 (Hs2 & Hdr2 & Hsv).
    destruct (served_ok L b k1 k2 n Hok1 HL Hc1) as [Hok2 Hv2]; [by rewrite Hatb1|done|].
    assert (forall b', buf_at k2 b' = if decide (b' = b) then synced (disk k1 1) (buf_at k1 b) else buf_at k1 b') as Hat
      by (intros b'; apply served_at; [done|]; by rewrite (co_len _ _ Hok1)).
    destruct Hsv as (_ & Hdk & Hdw & _ & _ & Hlg & Hcore). unfold request in Hdk, Hdw.
    rewrite Hatb1 in Hdk, Hdw. simpl in Hdk, Hdw. rewrite Hbn in Hdk, Hdw.
    split_and!; try done.
    + rewrite Hat, decide_True, Hatb1 by done. destruct (buf_at k b). simpl in *. by subst.
    + intros b' Hne. by rewrite Hat, decide_False, Hat1, decide_False.
    + intros m. rewrite Hv2, Hv1. case_bool_decide; [|done]. subst m. symmetry. by eapply view_cached.
Qed.

Lemma brelse_spec i L k b n :
  cache_state i (b :: L) k -> caches k b n ->
  (bvalid (buf_at k b) = true -> bdirty (buf_at k b) = false -> bdata (buf_at k b) = disk k 1 n) ->
  returns (brelse b k) (fun _ k' =>
    cache_state i L k' /\ buf_at k' b = buf_at k b <| refcnt := 0 |> /\
    (forall b', b' <> b -> buf_at k' b' = buf_at k b') /\ (forall m, view k' m = view k m) /\
    disk k' = disk k /\ dwrites k' = dwrites k /\ klog k' = klog k /\ same_core k k').
Proof using DL.
  clear Hfuel. intros (Hs & Hdr & Hok) Hc Hclean. rewrite (brelse_eq i L) by done. cbn [returns].
  destruct (ungrab_ok L k b n Hok Hc Hclean) as [Hok' Hv]. pose proof (co_len _ _ Hok) as Hlen.
  assert (forall b', buf_at (ungrab b k) b' = if decide (b' = b) then buf_at k b <| refcnt := 0 |> else buf_at k b') as Hat
    by (intros b'; apply buf_at_upd; destruct Hc; lia).
  split_and!; try done.
  - split; [by apply (solo_same i k)|]. split; [by apply (drv_ok_frame k)|done].
  - by rewrite Hat, decide_True.
  - intros b' Hne. by rewrite Hat, decide_False.
Qed.
End specs.

(** ** What a client sees *)

(** The use of the cache the header comment of bio.c describes: read a block, change it,
    write it back and release it. *)
Definition rewrite_block {D : BlockDriver} (fuel : nat) (n : Z) (data : list Z) : K unit :=
  b ← bread fuel 1 n ;
  modify (upd_buf b (fun x => x <| bdata := data |>)) ;;
  bwrite fuel b ;;
  brelse b.

(** The cache is transparent and writes through, with either disk driver. Reading a
    block, replacing its contents, writing it and releasing it returns with no buffer
    locked; the disk then has the new contents in that block, by one write, and every
    other block of the disk and every other block as the cache shows it is unchanged. *)
Theorem bio_writes_through {D : BlockDriver} {DL : BlockDriverLaws D} fuel i k n data :
  (0 < fuel)%nat -> cache_state i [] k -> n < FSSIZE -> room [] k n ->
  returns (alone idle (rewrite_block fuel n data k)) (fun _ k' =>
    cache_state i [] k' /\
    disk k' = apply_writes [(1, n, data)] (disk k) /\ dwrites k' = dwrites k ++ [(1, n, data)] /\
    forall m, view k' m = if bool_decide (m = n) then data else view k m).
Proof.
  intros Hfuel Hst Hn Hroom. unfold rewrite_block.
  eapply alone_bind; [apply (bread_spec fuel Hfuel i [] k n); try done; intros b Hb; by apply elem_of_nil in Hb|].
  intros b k1 (Hst1 & Hc1 & Hv1 & _ & _ & _ & _ & _ & Hvw1 & Hd1 & Hw1 & _).
  unfold modify at 1. unfold mbind at 1, K_bind at 1. cbn [obind].
  destruct Hst1 as (Hs1 & Hdr1 & Hok1). assert (b ∈ [b]) as HbL by left.
  set (f := fun x => x <| bdata := data |>).
  destruct (upd_locked_ok [b] k1 b f n Hok1 HbL Hc1 Hv1) as [Hok2 Hvw2]; [done|].
  assert (buf_at (upd_buf b f k1) b = f (buf_at k1 b)) as Hat
    by (rewrite buf_at_upd, decide_True by (done || (rewrite (co_len _ _ Hok1); apply Hc1)); done).
  eapply alone_bind.
  { apply (bwrite_spec fuel Hfuel i [b] (upd_buf b f k1) b n); try done.
    - split; [by apply (solo_same i k1)|]. split; [by apply (drv_ok_frame k1)|done].
    - unfold caches. by rewrite Hat.
    - by rewrite Hat. }
  intros [] k2 (Hst2 & Hat2 & _ & Hvw2' & Hd2 & Hw2 & _). rewrite Hat in Hat2, Hd2, Hw2. apply alone_returns.
  assert (caches k2 b n) as Hc2 by (unfold caches; by rewrite Hat2).
  eapply returns_mono; [apply (brelse_spec i [] k2 b n); try done|].
  { intros _ _. rewrite Hat2, Hd2. simpl. by rewrite !fn_lookup_insert. }
  intros _ k3 (Hst3 & _ & _ & Hvw3 & Hd3 & Hw3 & _). split_and!; try done.
  - rewrite Hd3, Hd2. simpl. by rewrite Hd1.
  - rewrite Hw3, Hw2. simpl. by rewrite Hw1.
  - intros m. rewrite Hvw3, Hvw2', Hvw2. case_bool_decide; [done|apply Hvw1].
Qed.

(** Process 3 alone on a machine with the IDE driver, the given contents on disk, and
    nothing cached. *)
Definition cold_cache (d : Z -> list Z) : kernel :=
  one_running <| lru := seq 0 NBUF |> <| havedisk1 := true |>
    <| disk := fun _ => d |>.

Lemma zero_bufs_at k b : bufs k = replicate NBUF zero_buf -> buf_at k b = zero_buf.
Proof.
  unfold buf_at. intros ->. destruct (decide (b < NBUF)%nat); [by apply lookup_total_replicate_2|].
  by rewrite list_lookup_total_alt, lookup_ge_None_2 by (rewrite length_replicate; lia).
Qed.

(** Buffers as the loader leaves them cache nothing. *)
Lemma zero_cache_ok k :
  bufs k = replicate NBUF zero_buf -> lru k ≡ₚ seq 0 NBUF ->
  (forall b, (b < NBUF)%nat -> slocked (slocks k (BufLock b)) = 0) ->
  cache_ok [] k /\ (forall b n, ~ caches k b n) /\ forall n, view k n = disk k 1 n.
Proof.
  intros Hb Hl Hs. pose proof (fun b => zero_bufs_at k b Hb) as Hz.
  assert (forall b n, ~ caches k b n) as Hc by (intros b n; unfold caches; rewrite Hz; by intros (_ & ? & _)).
  assert (cache_ok [] k) as Hok; [split; try done|split_and!; try done].
  - by rewrite Hb.
  - constructor.
  - intros b Hin. by apply elem_of_nil in Hin.
  - intros b Hlt. by rewrite Hz.
  - intros b Hlt. rewrite Hs by done. split; [done|]. intros Hin. by apply elem_of_nil in Hin.
  - intros b b' n Hcb. by apply Hc in Hcb.
  - intros b n Hcb. by apply Hc in Hcb.
  - intros b Hlt. by rewrite Hz.
  - intros n. apply (view_clean [] k); [done|]. intros b Hcb. by apply Hc in Hcb.
Qed.

Lemma cold_ok d : cache_state 3 [] (cold_cache d) /\ (forall b n, ~ caches (cold_cache d) b n) /\
  forall n, view (cold_cache d) n = d n.
Proof.
  destruct (zero_cache_ok (cold_cache d)) as (Hok & Hc & Hv); [done..|]. split_and!; try done.
  split; [|by split]. apply (solo_same 3 one_running); [reflexivity..|apply one_solo].
Qed.

Lemma cold_room d n : room [] (cold_cache d) n.
Proof. right. apply Nat.ltb_lt. by vm_compute. Qed.

Lemma bio_writes_through_witness :
  returns (alone ide_idle (rewrite_block (D := ide) 1 40 (replicate BSIZE 5) (cold_cache (fun _ => replicate BSIZE 0))))
    (fun _ k' => disk k' 1 40 = replicate BSIZE 5 /\ disk k' 1 41 = replicate BSIZE 0).
Proof.
  eapply returns_mono;
    [apply (bio_writes_through (D := ide) 1 3 (cold_cache (fun _ => replicate BSIZE 0)) 40 (replicate BSIZE 5))|].
  - lia.
  - apply cold_ok.
  - done.
  - apply cold_room.
  - intros _ k' (_ & Hd & _ & _). by rewrite Hd.
Defined.

(** ** Boot *)
Lemma binit_loop_spec left : forall b k, (forall b, SleepLk (BufLock b) ∉ held k) ->
  binit_loop left b k = Ret tt (k
    <| slocks := foldl (fun f b => <[BufLock b := mkSleeplock 0 0]> f) (slocks k) (seq b left) |>
    <| lru ::= (fun l => reverse (seq b left) ++ l) |>).
Proof.
  induction left as [|left IH]; intros b k Hh; cbn [binit_loop seq foldl]; [by destruct k|].
  unfold initsleeplock, initlock. kunfold. cbn [obind]. rewrite IH.
  - f_equal. rewrite reverse_cons. kernel_ext; simpl; [by apply filter_remove_notin|]. by rewrite <- app_assoc.
  - intros b'. simpl. by rewrite filter_remove_notin.
Qed.

Lemma binit_unlocks s bs : forall (f : slid -> sleeplock) b, b ∈ bs ->
  slocked (foldl (fun f b => <[BufLock b := s]> f) f bs (BufLock b)) = slocked s.
Proof.
  assert (forall bs f b, slocked (f (BufLock b)) = slocked s ->
    slocked (foldl (fun f b => <[BufLock b := s]> f) f bs (BufLock b)) = slocked s) as Hkeep.
  { clear bs. induction bs as [|b' bs IH]; intros f b Hf; [done|]. apply IH.
    destruct (decide (b' = b)) as [->|]; [by rewrite fn_lookup_insert|]. rewrite fn_lookup_insert_ne; [done|congruence]. }
  induction bs as [|b' bs IH]; intros f b Hb; [by apply elem_of_nil in Hb|]. simpl.
  apply elem_of_cons in Hb as [<-|Hb]; [|by apply IH]. apply Hkeep. by rewrite fn_lookup_insert.
Qed.

(** [binit] builds the cache: on buffers as the loader leaves them (all zero) it links
    every buffer exactly once, unlocks each, and leaves a cache in which nothing is
    cached and every block reads as it is on disk. *)
Theorem binit_establishes k :
  bufs k = replicate NBUF zero_buf -> held k = [] ->
  returns (binit k) (fun _ k' =>
    cache_ok [] k' /\ (forall n, view k' n = disk k 1 n) /\ lru k' = reverse (seq 0 NBUF) /\
    bufs k' = bufs k /\ disk k' = disk k /\ dwrites k' = dwrites k).
Proof.
  intros Hb Hh. unfold binit, initlock. kunfold. cbn [obind].
  rewrite binit_loop_spec by (intros b; simpl; rewrite Hh; apply not_elem_of_nil). cbn [returns].
  match goal with |- cache_ok [] ?k1 /\ _ => destruct (zero_cache_ok k1) as (Hok & _ & Hv) end.
  - done.
  - change (reverse (seq 0 NBUF) ++ [] ≡ₚ seq 0 NBUF). rewrite app_nil_r. apply reverse_Permutation.
  - intros b Hlt. apply (binit_unlocks (mkSleeplock 0 0)). apply elem_of_seq. lia.
  - by split_and!.
Qed.

Lemma binit_establishes_witness :
  returns (binit kernel0) (fun _ k' => cache_ok [] k' /\ lru k' !! 0%nat = Some 29%nat).
Proof.
  eapply returns_mono; [by apply (binit_establishes kernel0)|].
  intros _ k' (Hok & _ & Hl & _). split; [done|]. by rewrite Hl.
Defined.
