(* ===== verification/Log.v ===== *)
(** * Log: the write-ahead log (log.c)

    The whole of log.c: transactions ([begin_op], [end_op], [log_write]), the commit
    and the recovery.  A commit is shown to write to the disk exactly a given sequence
    of blocks, and every prefix of that sequence, completed by recovery, leaves the
    file system either as it was or with all of the transaction in it. *)
From stdpp Require Import base list list_numbers gmap strings functions sorting.
From Stdlib Require Import ZArith Lia.
From S2P Require Import Prelude Mem Layout Machine Sched Sleeplock Disk Bio.
Local Open Scope Z_scope.

(** ** Words in a block *)

(** The little-endian 32-bit word at byte [o] of a block. *)
Definition word_at (d : list Z) (o : nat) : Z :=
  d !!! o + 2 ^ 8 * (d !!! (o + 1)%nat) + 2 ^ 16 * (d !!! (o + 2)%nat) + 2 ^ 24 * (d !!! (o + 3)%nat).

Definition set_word (d : list Z) (o : nat) (v : Z) : list Z :=
  <[o := u8 v]> (<[(o + 1)%nat := u8 (Z.shiftr v 8)]>
    (<[(o + 2)%nat := u8 (Z.shiftr v 16)]> (<[(o + 3)%nat := u8 (Z.shiftr v 24)]> d))).

(** The superblock as it lies on disk. *)
Definition decode_sb (d : list Z) : superblock :=
  mkSuperblock (word_at d 0) (word_at d 4) (word_at d 8) (word_at d 12) (word_at d 16) (word_at d 20) (word_at d 24).

(** ** Operations *)
Definition upd_log (f : logstate -> logstate) : K unit := modify (fun k => k <| klog ::= f |>).
Definition set_data (b : nat) (f : list Z -> list Z) : K unit := modify (upd_buf b (fun x => x <| bdata ::= f |>)).

(** Offset of [block[i]] in [struct logheader]. *)
Definition blk_off (i : Z) : nat := Z.to_nat (4 + 4 * i).

Section log.
Context {D : BlockDriver} (fuel : nat).

Definition readsb (dev : Z) : K superblock :=
  b ← bread fuel dev 1 ;
  sb ← gets (fun k => decode_sb (bdata (buf_at k b))) ;
  brelse b ;;
  mret sb.

(** [log.lh.block[i]]. *)
Definition lh_block (i : Z) : K Z :=
  l ← gets klog ;
  match lhblock l !! Z.to_nat i with
  | Some n => mret n
  | None => undef "log.lh.block index out of bounds"
  end.

Fixpoint install_loop (left : nat) (tail : Z) : K unit :=
  l ← gets klog ;
  if tail <? lhn l then
    match left with
    | O => out_of_fuel
    | S left' =>
        lbuf ← bread fuel (ldev l) (lstart l + tail + 1) ;
        n ← lh_block tail ;
        dbuf ← bread fuel (ldev l) n ;
        d ← gets (fun k => bdata (buf_at k lbuf)) ;
        set_data dbuf (fun _ => d) ;;
        bwrite fuel dbuf ;;
        brelse lbuf ;;
        brelse dbuf ;;
        install_loop left' (tail + 1)
    end
  else mret tt.

Definition install_trans : K unit := n ← gets (fun k => lhn (klog k)) ; install_loop (Z.to_nat n) 0.

(** [log.lh.block[i] = lh->block[i]] for [i < n]; [d] is the header block. *)
Fixpoint read_head_loop (left : nat) (d : list Z) (i : Z) : K unit :=
  l ← gets klog ;
  if i <? lhn l then
    match left with
    | O => out_of_fuel
    | S left' =>
        if LOGSIZE <=? i then undef "log.lh.block index out of bounds"
        else
          upd_log (fun l => l <| lhblock ::= <[Z.to_nat i := s32 (word_at d (blk_off i))]> |>) ;;
          read_head_loop left' d (i + 1)
    end
  else mret tt.

Definition read_head : K unit :=
  l ← gets klog ;
  b ← bread fuel (ldev l) (lstart l) ;
  d ← gets (fun k => bdata (buf_at k b)) ;
  upd_log (fun l => l <| lhn := s32 (word_at d 0) |>) ;;
  n ← gets (fun k => lhn (klog k)) ;
  read_head_loop (Z.to_nat n) d 0 ;;
  brelse b.

(** [hb->block[i] = log.lh.block[i]] for [i < n]. *)
Fixpoint write_head_loop (left : nat) (b : nat) (i : Z) : K unit :=
  l ← gets klog ;
  if i <? lhn l then
    match left with
    | O => out_of_fuel
    | S left' =>
        n ← lh_block i ;
        set_data b (fun d => set_word d (blk_off i) n) ;;
        write_head_loop left' b (i + 1)
    end
  else mret tt.

Definition write_head : K unit :=
  l ← gets klog ;
  b ← bread fuel (ldev l) (lstart l) ;
  set_data b (fun d => set_word d 0 (lhn l)) ;;
  write_head_loop (Z.to_nat (lhn l)) b 0 ;;
  bwrite fuel b ;;
  brelse b.

Definition recover_from_log : K unit :=
  read_head ;;
  install_trans ;;
  upd_log (fun l => l <| lhn := 0 |>) ;;
  write_head.

Definition initlog (dev : Z) : K unit :=
  if Z.of_nat BSIZE <=? 4 + 4 * LOGSIZE then panic "initlog: too big logheader"
  else
    initlock LogLock ;;
    sb ← readsb dev ;
    upd_log (fun l => l <| lstart := sb_logstart sb |>) ;;
    upd_log (fun l => l <| lsize := sb_nlog sb |>) ;;
    upd_log (fun l => l <| ldev := dev |>) ;;
    recover_from_log.

Fixpoint begin_op_loop (left : nat) : K unit :=
  l ← gets klog ;
  if committing l then
    match left with O => out_of_fuel | S left' => sleep ChanLog (Some LogLock) ;; begin_op_loop left' end
  else if LOGSIZE <? lhn l + (outstanding l + 1) * MAXOPBLOCKS then
    match left with O => out_of_fuel | S left' => sleep ChanLog (Some LogLock) ;; begin_op_loop left' end
  else
    upd_log (fun l => l <| outstanding ::= (fun o => o + 1) |>) ;;
    release LogLock.

Definition begin_op (left : nat) : K unit := acquire LogLock ;; begin_op_loop left.

Fixpoint write_log_loop (left : nat) (tail : Z) : K unit :=
  l ← gets klog ;
  if tail <? lhn l then
    match left with
    | O => out_of_fuel
    | S left' =>
        to ← bread fuel (ldev l) (lstart l + tail + 1) ;
        n ← lh_block tail ;
        from ← bread fuel (ldev l) n ;
        d ← gets (fun k => bdata (buf_at k from)) ;
        set_data to (fun _ => d) ;;
        bwrite fuel to ;;
        brelse from ;;
        brelse to ;;
        write_log_loop left' (tail + 1)
    end
  else mret tt.

Definition write_log : K unit := n ← gets (fun k => lhn (klog k)) ; write_log_loop (Z.to_nat n) 0.

Definition commit : K unit :=
  n ← gets (fun k => lhn (klog k)) ;
  whenK (0 <? n) (
    write_log ;;
    write_head ;;
    install_trans ;;
    upd_log (fun l => l <| lhn := 0 |>) ;;
    write_head).

Definition end_op : K unit :=
  acquire LogLock ;;
  upd_log (fun l => l <| outstanding ::= (fun o => o - 1) |>) ;;
  l ← gets klog ;
  if committing l then panic "log.committing"
  else
    let do_commit := outstanding l =? 0 in
    (if do_commit then upd_log (fun l => l <| committing := true |>) else wakeup ChanLog) ;;
    release LogLock ;;
    whenK do_commit (
      commit ;;
      acquire LogLock ;;
      upd_log (fun l => l <| committing := false |>) ;;
      wakeup ChanLog ;;
      release LogLock).

Definition log_write (b : nat) : K unit :=
  l ← gets klog ;
  if (LOGSIZE <=? lhn l) || (lsize l - 1 <=? lhn l) then panic "too big a transaction"
  else if outstanding l <? 1 then panic "log_write outside of trans"
  else
    acquire LogLock ;;
    l ← gets klog ;
    x ← gets (fun k => buf_at k b) ;
    let logged := take (Z.to_nat (lhn l)) (lhblock l) in
    let i := from_option fst (Z.to_nat (lhn l)) (list_find (fun n => n = bblockno x) logged) in
    upd_log (fun l => l <| lhblock ::= <[i := bblockno x]> |>) ;;
    whenK (Z.of_nat i =? lhn l) (upd_log (fun l => l <| lhn ::= (fun n => n + 1) |>)) ;;
    modify (upd_buf b (fun x => x <| bdirty := true |>)) ;;
    release LogLock.
End log.

(** ** The header block *)
Lemma set_word_length d o v : length (set_word d o v) = length d.
Proof. unfold set_word. by rewrite !length_insert. Qed.

Lemma insert_total (l : list Z) (i j : nat) x : (i < length l)%nat ->
  <[i := x]> l !!! j = if decide (i = j) then x else l !!! j.
Proof.
  intros Hi. case_decide as E; [subst; by apply list_lookup_total_insert_eq|].
  by apply list_lookup_total_insert_ne.
Qed.

Lemma set_word_lookup d o v j : (o + 3 < length d)%nat ->
  set_word d o v !!! j =
    if decide (o = j) then u8 v else if decide ((o + 1)%nat = j) then u8 (Z.shiftr v 8)
    else if decide ((o + 2)%nat = j) then u8 (Z.shiftr v 16)
    else if decide ((o + 3)%nat = j) then u8 (Z.shiftr v 24) else d !!! j.
Proof. intros Ho. unfold set_word. by rewrite !insert_total by (rewrite ?length_insert; lia). Qed.

Lemma word_set_same d o v : (o + 3 < length d)%nat -> word_at (set_word d o v) o = v mod 2 ^ 32.
Proof.
  intros Ho. unfold word_at. rewrite !set_word_lookup by done.
  repeat (case_decide; try lia). apply word_of_bytes.
Qed.

Lemma word_set_other d o v o' : (o + 3 < length d)%nat -> (o' + 4 <= o \/ o + 4 <= o')%nat ->
  word_at (set_word d o v) o' = word_at d o'.
Proof.
  intros Ho Hne. unfold word_at. rewrite !set_word_lookup by done.
  repeat (case_decide; try lia).
Qed.

(** The blocks a header block lists. *)
Definition logged (d : list Z) : list Z :=
  (fun i => s32 (word_at d (blk_off i))) <$> seqZ 0 (s32 (word_at d 0)).

(** The header block that [write_head] makes of the old one. *)
Fixpoint enc_blocks (d : list Z) (bs : list Z) (i : Z) : list Z :=
  match bs with
  | [] => d
  | n :: bs' => enc_blocks (set_word d (blk_off i) n) bs' (i + 1)
  end.
Definition encode_head (d : list Z) (bs : list Z) : list Z :=
  enc_blocks (set_word d 0 (Z.of_nat (length bs))) bs 0.

Definition block_ok (n : Z) : Prop := 0 <= n < FSSIZE.

Lemma enc_blocks_length bs : forall d i, length (enc_blocks d bs i) = length d.
Proof. induction bs as [|n bs IH]; intros d i; simpl; [done|]. by rewrite IH, set_word_length. Qed.

Lemma enc_blocks_before bs : forall d i o, 0 <= i -> i + Z.of_nat (length bs) <= LOGSIZE -> length d = BSIZE ->
  (o + 4 <= blk_off i)%nat -> word_at (enc_blocks d bs i) o = word_at d o.
Proof.
  induction bs as [|n bs IH]; intros d i o Hi Hl Hd Ho; simpl in *; [done|].
  unfold LOGSIZE, MAXOPBLOCKS, BSIZE, blk_off in *.
  rewrite IH; [apply word_set_other|..]; rewrite ?set_word_length; lia.
Qed.

Lemma enc_blocks_at bs : forall d i j n, 0 <= i -> i + Z.of_nat (length bs) <= LOGSIZE -> length d = BSIZE ->
  bs !! j = Some n -> word_at (enc_blocks d bs i) (blk_off (i + Z.of_nat j)) = n mod 2 ^ 32.
Proof.
  induction bs as [|n0 bs IH]; intros d i j n Hi Hl Hd Hj; simpl in *; [done|].
  destruct j as [|j]; simpl in Hj.
  - simplify_eq. rewrite enc_blocks_before; rewrite ?set_word_length;
      unfold LOGSIZE, MAXOPBLOCKS, BSIZE, blk_off in *; try lia.
    replace (i + Z.of_nat 0) with i by lia. apply word_set_same. lia.
  - replace (i + Z.of_nat (S j)) with (i + 1 + Z.of_nat j) by lia.
    apply IH; rewrite ?set_word_length; try done; lia.
Qed.

Lemma s32_block n : block_ok n -> s32 (n mod 2 ^ 32) = n.
Proof. unfold block_ok, FSSIZE. intros. rewrite Z.mod_small by lia. apply s32_small. lia. Qed.

Lemma logged_encode d bs :
  length d = BSIZE -> Z.of_nat (length bs) <= LOGSIZE -> Forall block_ok bs -> logged (encode_head d bs) = bs.
Proof.
  intros Hd Hl Hok. unfold logged, encode_head.
  assert (s32 (word_at (enc_blocks (set_word d 0 (Z.of_nat (length bs))) bs 0) 0) = Z.of_nat (length bs)) as ->.
  { rewrite enc_blocks_before; rewrite ?set_word_length;
      [|unfold BSIZE, LOGSIZE, MAXOPBLOCKS, blk_off in *; lia..].
    rewrite word_set_same by (unfold BSIZE in *; lia). apply s32_block.
    unfold block_ok, FSSIZE, LOGSIZE, MAXOPBLOCKS in *. lia. }
  apply list_eq. intros j. rewrite list_lookup_fmap.
  destruct (decide (j < length bs)%nat) as [Hj|Hj].
  - rewrite lookup_seqZ_lt by lia. simpl. destruct (lookup_lt_is_Some_2 _ _ Hj) as [n Hn]. rewrite Hn.
    rewrite (enc_blocks_at bs _ 0 j n); rewrite ?set_word_length; try done.
    by rewrite s32_block by (by eapply Forall_lookup_1).
  - rewrite lookup_seqZ_ge by lia. by rewrite lookup_ge_None_2 by lia.
Qed.

(** ** What a crash leaves behind *)
Definition apply1 (ws : list (Z * list Z)) (d : Z -> list Z) : Z -> list Z :=
  foldl (fun d w => <[w.1 := w.2]> d) d ws.

(** The writes of [write_log] and of [install_trans]. *)
Fixpoint to_log (start : Z) (v : Z -> list Z) (bs : list Z) (tail : Z) : list (Z * list Z) :=
  match bs with
  | [] => []
  | n :: bs' => (start + tail + 1, v n) :: to_log start v bs' (tail + 1)
  end.
Fixpoint to_home (start : Z) (d : Z -> list Z) (bs : list Z) (tail : Z) : list (Z * list Z) :=
  match bs with
  | [] => []
  | n :: bs' => (n, d (start + tail + 1)) :: to_home start d bs' (tail + 1)
  end.

(** The writes of [commit] for the blocks [bs] with contents [v], and those of
    [recover_from_log] from disk [d]. *)
Definition commit_writes (start : Z) (h : list Z) (v : Z -> list Z) (bs : list Z) : list (Z * list Z) :=
  to_log start v bs 0 ++ [(start, encode_head h bs)] ++
  ((fun n => (n, v n)) <$> bs) ++ [(start, encode_head (encode_head h bs) [])].
Definition recover_writes (start : Z) (d : Z -> list Z) : list (Z * list Z) :=
  to_home start d (logged (d start)) 0 ++ [(start, encode_head (d start) [])].

Lemma apply1_cons w ws d : apply1 (w :: ws) d = apply1 ws (<[w.1 := w.2]> d).
Proof. done. Qed.

Lemma apply1_app ws ws' d : apply1 (ws ++ ws') d = apply1 ws' (apply1 ws d).
Proof. apply foldl_app. Qed.

Lemma apply1_snoc ws w d : apply1 (ws ++ [w]) d = <[w.1 := w.2]> (apply1 ws d).
Proof. by rewrite apply1_app. Qed.

(** A prefix of a concatenation ends in its first or in its second part. *)
Lemma prefix_app_cases {A} (l1 l2 ws : list A) : ws `prefix_of` l1 ++ l2 ->
  ws `prefix_of` l1 \/ exists k, ws = l1 ++ k /\ k `prefix_of` l2.
Proof.
  revert ws. induction l1 as [|x l1 IH]; intros ws Hws; simpl in *; [right; by exists ws|].
  destruct ws as [|y ws]; [left; apply prefix_nil|].
  pose proof (prefix_cons_inv_1 _ _ _ _ Hws) as ->. apply prefix_cons_inv_2 in Hws.
  destruct (IH ws Hws) as [H|(k & -> & Hk)]; [left; by apply prefix_cons|right; by exists k].
Qed.

Lemma prefix_one {A} (x : A) ws : ws `prefix_of` [x] -> ws = [] \/ ws = [x].
Proof.
  destruct ws as [|y ws]; [by left|]. intros H. right.
  pose proof (prefix_cons_inv_1 _ _ _ _ H) as ->. apply prefix_cons_inv_2, prefix_nil_inv in H. by subst.
Qed.

Lemma apply1_notin ws : forall d m, m ∉ ws.*1 -> apply1 ws d m = d m.
Proof.
  induction ws as [|w ws IH]; intros d m Hm; [done|].
  rewrite fmap_cons, not_elem_of_cons in Hm. destruct Hm as [Hm1 Hm2].
  rewrite apply1_cons, IH by done. by rewrite fn_lookup_insert_ne.
Qed.

(** Writing to each block of [bs] what [v] says. *)
Lemma apply1_map (v : Z -> list Z) bs : forall d m,
  apply1 ((fun n => (n, v n)) <$> bs) d m = if bool_decide (m ∈ bs) then v m else d m.
Proof.
  induction bs as [|n bs IH]; intros d m; [done|].
  rewrite fmap_cons, apply1_cons, IH. cbn [fst snd]. destruct (decide (m = n)) as [->|Hne].
  - rewrite (bool_decide_true (n ∈ n :: bs)) by left. case_bool_decide; [done|]. by rewrite fn_lookup_insert.
  - rewrite (bool_decide_ext (m ∈ n :: bs) (m ∈ bs)) by (rewrite elem_of_cons; naive_solver).
    case_bool_decide; [done|]. by rewrite fn_lookup_insert_ne.
Qed.

(** What the log part of the disk is for: [bs] with contents [v]. *)
Definition log_holds (start : Z) (v : Z -> list Z) (bs : list Z) (tail : Z) (d : Z -> list Z) : Prop :=
  forall j n, bs !! j = Some n -> d (start + (tail + Z.of_nat j) + 1) = v n.

Lemma to_home_map start v bs : forall tail d, log_holds start v bs tail d ->
  to_home start d bs tail = (fun n => (n, v n)) <$> bs.
Proof.
  induction bs as [|n bs IH]; intros tail d Hd; simpl; [done|].
  rewrite (IH (tail + 1)).
  - specialize (Hd 0%nat n eq_refl). rewrite Z.add_0_r in Hd. by rewrite Hd.
  - intros j n' Hj. specialize (Hd (S j) n' Hj). rewrite <- Hd. f_equal. lia.
Qed.

Lemma to_log_dom start v bs : forall tail m, m ∈ (to_log start v bs tail).*1 ->
  start + tail < m <= start + tail + Z.of_nat (length bs).
Proof.
  induction bs as [|n bs IH]; intros tail m; simpl; [by rewrite elem_of_nil|].
  rewrite elem_of_cons. intros [->|H]; [lia|]. apply IH in H. lia.
Qed.

Lemma to_log_length start v bs : forall tail, length (to_log start v bs tail) = length bs.
Proof. induction bs as [|n bs IH]; intros tail; simpl; [done|]. by rewrite IH. Qed.

Lemma to_log_holds start v bs : forall tail d, log_holds start v bs tail (apply1 (to_log start v bs tail) d).
Proof.
  induction bs as [|n bs IH]; intros tail d j n' Hj; [done|].
  cbn [to_log]. rewrite apply1_cons. destruct j as [|j]; simpl in Hj.
  - simplify_eq. rewrite apply1_notin; [|intros Hd; apply to_log_dom in Hd; lia].
    replace (start + (tail + Z.of_nat 0) + 1) with (start + tail + 1) by lia. by rewrite fn_lookup_insert.
  - replace (start + (tail + Z.of_nat (S j)) + 1) with (start + (tail + 1 + Z.of_nat j) + 1) by lia.
    by apply IH.
Qed.

Section crash.
(** The log starts at [start] and has room for the blocks [bs], which are distinct from
    it; [v] is what the transaction wants them to contain. *)
Context (start size : Z) (bs : list Z) (v : Z -> list Z).
Definition in_log (m : Z) : Prop := start <= m < start + size.
Definition log_fits : Prop :=
  Z.of_nat (length bs) <= LOGSIZE /\ Z.of_nat (length bs) < size /\
  Forall (fun n => block_ok n /\ ~ in_log n) bs.
Hypothesis Hfits : log_fits.

(** A disk from which recovery leads to [target]: either the log is empty and [target] is
    there already, or the log holds the whole transaction, and all that may differ from
    [target] are the blocks the log has. *)
Definition recoverable (target d : Z -> list Z) : Prop :=
  length (d start) = BSIZE /\
  ((logged (d start) = [] /\ forall m, ~ in_log m -> d m = target m) \/
   (logged (d start) = bs /\ log_holds start v bs 0 d /\
    (forall m, ~ in_log m -> m ∉ bs -> d m = target m) /\ forall n, n ∈ bs -> target n = v n)).

Lemma encode_nil_logged d : length d = BSIZE -> logged (encode_head d []) = [].
Proof using. intros Hd. by apply logged_encode. Qed.

Lemma bs_home n : n ∈ bs -> ~ in_log n.
Proof using Hfits. destruct Hfits as (_ & _ & H). rewrite Forall_forall in H. apply H. Qed.

Lemma log_slot j n : bs !! j = Some n -> in_log (start + (0 + Z.of_nat j) + 1).
Proof using Hfits.
  intros Hj. apply lookup_lt_Some in Hj. destruct Hfits as (_ & Hs & _). unfold in_log. lia.
Qed.

(** Writing home blocks keeps the log part. *)
Lemma log_holds_home d ws : (forall m, m ∈ ws.*1 -> m ∈ bs) -> log_holds start v bs 0 d ->
  log_holds start v bs 0 (apply1 ws d).
Proof using Hfits.
  intros Hw Hd j n Hj. rewrite apply1_notin; [by apply Hd|]. intros Hin. apply Hw, bs_home in Hin.
  by apply Hin, (log_slot j n).
Qed.

Lemma start_in_log : in_log start.
Proof using Hfits. destruct Hfits as (_ & Hs & _). unfold in_log. lia. Qed.

Lemma prefix_fst {A} (ws ws' : list (Z * A)) m : ws `prefix_of` ws' -> m ∈ ws.*1 -> m ∈ ws'.*1.
Proof using. intros [k ->]. rewrite fmap_app, elem_of_app. by left. Qed.

(** The state reached by some of the installing writes is still recoverable. *)
Lemma recoverable_installing target d ws :
  logged (d start) = bs -> length (d start) = BSIZE -> log_holds start v bs 0 d ->
  (forall m, ~ in_log m -> m ∉ bs -> d m = target m) -> (forall n, n ∈ bs -> target n = v n) ->
  ws `prefix_of` ((fun n => (n, v n)) <$> bs) -> recoverable target (apply1 ws d).
Proof using Hfits.
  intros Hl Hlen Hh Ho Ht Hws.
  assert (forall m, m ∈ ws.*1 -> m ∈ bs) as Hdom.
  { intros m Hm. eapply prefix_fst in Hm; [|done]. by rewrite <- list_fmap_compose, list_fmap_id in Hm. }
  assert (apply1 ws d start = d start) as Hst.
  { apply apply1_notin. intros Hm. apply Hdom, bs_home in Hm. by apply Hm, start_in_log. }
  unfold recoverable. rewrite Hst. split; [done|]. right. split; [done|].
  split; [by apply log_holds_home|]. split; [|done].
  intros m Hm Hmb. rewrite apply1_notin; [by apply Ho|]. intros Hin. by apply Hmb, Hdom.
Qed.

(** All of them, and then the erased header. *)
Lemma recoverable_installed target d h :
  log_holds start v bs 0 d -> length h = BSIZE ->
  (forall m, ~ in_log m -> m ∉ bs -> d m = target m) -> (forall n, n ∈ bs -> target n = v n) ->
  let d' := apply1 (((fun n => (n, v n)) <$> bs) ++ [(start, encode_head h [])]) d in
  length (d' start) = BSIZE /\ logged (d' start) = [] /\ forall m, ~ in_log m -> d' m = target m.
Proof using Hfits.
  intros Hh Hlen Ho Ht d'.
  assert (d' start = encode_head h []) as Hst
    by (unfold d'; rewrite apply1_snoc; by rewrite fn_lookup_insert).
  rewrite Hst. split; [by unfold encode_head; rewrite enc_blocks_length, set_word_length|].
  split; [by apply encode_nil_logged|]. intros m Hm. unfold d'. rewrite apply1_snoc.
  rewrite fn_lookup_insert_ne by (intros <-; apply Hm, start_in_log).
  rewrite apply1_map. case_bool_decide; [by rewrite Ht|by apply Ho].
Qed.

(** Recovery, interrupted anywhere, can be repeated; completed, it reaches the target. *)
Lemma recover_prefix target d ws : recoverable target d -> ws `prefix_of` recover_writes start d ->
  recoverable target (apply1 ws d).
Proof using Hfits.
  intros [Hlen [[Hl Ho]|(Hl & Hh & Ho & Ht)]] Hws; unfold recover_writes in Hws; rewrite Hl in Hws.
  - apply prefix_one in Hws as [-> | ->]; [split; [done|by left]|].
    rewrite apply1_cons. cbn [apply1 foldl fst snd]. unfold recoverable. rewrite fn_lookup_insert.
    split; [unfold encode_head; by rewrite enc_blocks_length, set_word_length|]. left.
    split; [by apply encode_nil_logged|]. intros m Hm.
    rewrite fn_lookup_insert_ne by (intros <-; apply Hm, start_in_log). by apply Ho.
  - rewrite (to_home_map start v) in Hws by done.
    apply prefix_app_cases in Hws as [Hws|(k & -> & [-> | ->]%prefix_one)].
    + by apply recoverable_installing.
    + rewrite app_nil_r. by apply recoverable_installing.
    + destruct (recoverable_installed target d (d start)) as (H1 & H2 & H3); try done.
      split; [done|]. by left.
Qed.

Lemma recover_all target d : recoverable target d ->
  let d' := apply1 (recover_writes start d) d in
  length (d' start) = BSIZE /\ logged (d' start) = [] /\ forall m, ~ in_log m -> d' m = target m.
Proof using Hfits.
  intros [Hlen [[Hl Ho]|(Hl & Hh & Ho & Ht)]]; unfold recover_writes; rewrite Hl.
  - simpl. rewrite fn_lookup_insert. split; [unfold encode_head; by rewrite enc_blocks_length, set_word_length|].
    split; [by apply encode_nil_logged|]. intros m Hm.
    rewrite fn_lookup_insert_ne by (intros <-; apply Hm, start_in_log). by apply Ho.
  - rewrite (to_home_map start v) by done. by apply recoverable_installed.
Qed.

(** Disk contents after the transaction. *)
Definition updated (d : Z -> list Z) (m : Z) : list Z := if bool_decide (m ∈ bs) then v m else d m.

(** Every prefix of the commit's writes is recoverable: to the old contents up to the
    write of the header, to the new ones from then on. *)
Lemma commit_prefix d ws :
  length (d start) = BSIZE -> logged (d start) = [] -> ws `prefix_of` commit_writes start (d start) v bs ->
  recoverable (if (length ws <=? length bs)%nat then d else updated d) (apply1 ws d).
Proof using Hfits.
  intros Hlen Hl Hws. unfold commit_writes in Hws.
  assert (forall m, m ∈ (to_log start v bs 0).*1 -> in_log m /\ m <> start) as Hdom.
  { intros m Hm. apply to_log_dom in Hm. destruct Hfits as (_ & Hs & _). unfold in_log. lia. }
  assert (forall ws', ws' `prefix_of` to_log start v bs 0 -> recoverable d (apply1 ws' d)) as Hold.
  { intros ws' Hp.
    assert (forall m, m ∈ ws'.*1 -> in_log m /\ m <> start) as Hd' by (intros m Hm; eapply Hdom, prefix_fst; done).
    unfold recoverable. rewrite apply1_notin by (intros Hm; by apply Hd' in Hm as [_ ?]).
    split; [done|]. left. split; [done|]. intros m Hm. apply apply1_notin. intros Hin. by apply Hm, Hd'. }
  apply prefix_app_cases in Hws as [Hws|(k & -> & Hk)].
  { rewrite (proj2 (Nat.leb_le _ _)); [by apply Hold|]. apply prefix_length in Hws. by rewrite to_log_length in Hws. }
  rewrite length_app, to_log_length. destruct k as [|w k].
  { rewrite app_nil_r, (proj2 (Nat.leb_le _ _)) by (simpl; lia). by apply Hold. }
  pose proof (prefix_cons_inv_1 _ _ _ _ Hk) as ->. apply prefix_cons_inv_2 in Hk. cbn [app] in Hk.
  rewrite (proj2 (Nat.leb_gt _ _)) by (simpl; lia).
  rewrite apply1_app, apply1_cons. cbn [fst snd]. set (d1 := <[start := _]> _).
  destruct Hfits as (Hlogsize & Hsize & Hbs).
  assert (d1 start = encode_head (d start) bs) as Hst by (unfold d1; by rewrite fn_lookup_insert).
  assert (length (d1 start) = BSIZE) as Hlen1
    by (rewrite Hst; unfold encode_head; by rewrite enc_blocks_length, set_word_length).
  assert (logged (d1 start) = bs) as Hl1.
  { rewrite Hst. apply logged_encode; try done. eapply Forall_impl; [done|]. by intros n [? _]. }
  assert (log_holds start v bs 0 d1) as Hh1.
  { intros j n Hj. unfold d1. rewrite fn_lookup_insert_ne by lia. by apply to_log_holds. }
  assert (forall m, ~ in_log m -> m ∉ bs -> d1 m = updated d m) as Ho1.
  { intros m Hm Hmb. unfold d1, updated. rewrite bool_decide_false by done.
    rewrite fn_lookup_insert_ne by (intros <-; apply Hm, start_in_log).
    apply apply1_notin. intros Hin. by apply Hm, Hdom. }
  assert (forall n, n ∈ bs -> updated d n = v n) as Ht by (intros n Hn; unfold updated; by rewrite bool_decide_true).
  apply prefix_app_cases in Hk as [Hk|(k' & -> & [-> | ->]%prefix_one)].
  - by apply recoverable_installing.
  - rewrite app_nil_r. by apply recoverable_installing.
  - rewrite <- Hst. destruct (recoverable_installed (updated d) d1 (d1 start)) as (H1 & H2 & H3); try done.
    split; [done|]. by left.
Qed.
Lemma commit_result h d m : ~ in_log m -> apply1 (commit_writes start h v bs) d m = updated d m.
Proof using Hfits.
  intros Hm. assert (start <> m) as Hst by (intros <-; apply Hm, start_in_log).
  unfold commit_writes. rewrite !apply1_app. cbn [apply1 foldl fst snd]. rewrite fn_lookup_insert_ne by done.
  rewrite apply1_map. unfold updated. case_bool_decide; [done|]. rewrite fn_lookup_insert_ne by done.
  apply apply1_notin. intros Hin. apply to_log_dom in Hin. apply Hm. destruct Hfits as (_ & Hs & _).
  unfold in_log. lia.
Qed.
End crash.

(** ** The kernel state the log code works on *)
Definition dirty (k : kernel) (m : Z) : Prop := exists b, caches k b m /\ bdirty (buf_at k b) = true.

Lemma dirty_count L k S : cache_ok L k -> (forall m, dirty k m -> m ∈ S) -> (length (dirty_bufs k) <= length S)%nat.
Proof.
  intros Hok HS.
  assert (forall b, b ∈ dirty_bufs k -> caches k b (bblockno (buf_at k b)) /\ bdirty (buf_at k b) = true) as Hd.
  { intros b Hb. apply list_elem_of_filter in Hb as [Hb Hlt]. apply elem_of_seq in Hlt.
    assert (b < NBUF)%nat as Hlt' by lia. by destruct (co_dirty _ _ Hok b Hlt' Hb). }
  rewrite <- (length_fmap (fun b => bblockno (buf_at k b))). apply submseteq_length, NoDup_submseteq.
  - apply NoDup_fmap_2_strong; [|apply NoDup_filter, NoDup_seq].
    intros b b' Hb Hb' E. apply Hd in Hb as [Hb _], Hb' as [Hb' _]. rewrite E in Hb.
    by apply (co_unique _ _ Hok b b' (bblockno (buf_at k b'))).
  - intros m Hm. apply list_elem_of_fmap in Hm as (b & -> & Hb). apply Hd in Hb. apply HS. by exists b.
Qed.

Section base.
Context (kb : kernel).

(** Process [i] has no buffer locked, the log, disk, history, contents and dirty
    blocks are as given, and the rest of the kernel is as in [kb]. *)
Record fs_is `{BlockDriver} (i : nat) (k : kernel) (lg : logstate) (d : Z -> Z -> list Z)
    (ws : list (Z * Z * list Z)) (v : Z -> list Z) (S : list Z) : Prop := {
  fi_state : cache_state i [] k;
  fi_log : klog k = lg;
  fi_disk : disk k = d;
  fi_writes : dwrites k = ws;
  fi_view m : view k m = v m;
  fi_dirty m : dirty k m <-> m ∈ S;
  fi_core : same_core kb k;
}.

Lemma fs_is_ext `{BlockDriver} i k lg d ws v v' S S' :
  (forall m, v' m = v m) -> (forall m, m ∈ S' <-> m ∈ S) -> fs_is i k lg d ws v S -> fs_is i k lg d ws v' S'.
Proof. intros Hv HS []. split; try done; intros m; [by rewrite Hv|by rewrite HS]. Qed.

Lemma lh_block_spec n i k : lhblock (klog k) !! Z.to_nat i = Some n -> lh_block i k = Ret n k.
Proof. intros H. unfold lh_block. kunfold. simpl. by rewrite H. Qed.

Definition on1 (w : Z * list Z) : Z * Z * list Z := (1, w.1, w.2).

Lemma to_log_ext start v v' bs : forall tail, (forall n, n ∈ bs -> v' n = v n) ->
  to_log start v' bs tail = to_log start v bs tail.
Proof.
  induction bs as [|n bs IH]; intros tail Hv; simpl; [done|].
  rewrite Hv by left. f_equal. apply IH. intros n' Hn'. apply Hv. by right.
Qed.

Lemma apply_writes_app ws ws' d : apply_writes (ws ++ ws') d = apply_writes ws' (apply_writes ws d).
Proof. apply foldl_app. Qed.

Lemma to_home_ext start d d' bs : forall tail,
  (forall j, 0 <= j < Z.of_nat (length bs) -> d' (start + (tail + j) + 1) = d (start + (tail + j) + 1)) ->
  to_home start d' bs tail = to_home start d bs tail.
Proof.
  induction bs as [|n bs IH]; intros tail Hd; simpl; [done|].
  pose proof (Hd 0) as H0. rewrite Z.add_0_r in H0. rewrite H0 by (simpl; lia). f_equal. apply IH.
  intros j Hj. replace (tail + 1 + j) with (tail + (j + 1)) by lia. apply Hd. simpl. lia.
Qed.

Lemma to_home_dom start d bs : forall tail m, m ∈ (to_home start d bs tail).*1 -> m ∈ bs.
Proof.
  induction bs as [|n bs IH]; intros tail m; simpl; [done|].
  rewrite !elem_of_cons. intros [->|H]; [by left|right]. by eapply IH.
Qed.

(** The blocks from [tail] on, in the header. *)
Definition listed (lg : logstate) (tail : Z) (rest : list Z) : Prop :=
  0 <= tail /\ tail + Z.of_nat (length rest) = lhn lg /\
  forall j n, rest !! j = Some n -> lhblock lg !! Z.to_nat (tail + Z.of_nat j) = Some n.

Lemma listed_cons lg tail n rest : listed lg tail (n :: rest) ->
  lhblock lg !! Z.to_nat tail = Some n /\ tail < lhn lg /\ listed lg (tail + 1) rest.
Proof.
  intros (Ht & Hl & Hj). simpl in Hl. split; [|split; [lia|]].
  - specialize (Hj 0%nat n eq_refl). by rewrite Z.add_0_r in Hj.
  - split; [lia|]. split; [lia|]. intros j n' Hn'. specialize (Hj (S j) n' Hn'). rewrite <- Hj. f_equal. lia.
Qed.

(** Where the log is: on disk 1, within the file system, apart from the blocks [bs]. *)
Definition log_placed (lg : logstate) (bs : list Z) : Prop :=
  ldev lg = 1 /\ 0 <= lstart lg /\ lstart lg + lsize lg <= FSSIZE /\ lhn lg < lsize lg /\
  forall n, n ∈ bs -> block_ok n /\ ~ in_log (lstart lg) (lsize lg) n.

Section kernel.
Context {D : BlockDriver} {DL : BlockDriverLaws D} (fuel : nat) (Hfuel : (0 < fuel)%nat).

Lemma alone_bindK {A B} (f : A -> K B) (m : K A) k Q R :
  returns (alone idle (m k)) R -> (forall a k', R a k' -> returns (alone idle (f a k')) Q) ->
  returns (alone idle ((m ≫= f) k)) Q.
Proof using. apply alone_bind. Qed.

(** The next call returns without switching. *)
Lemma alone_next {A B} (f : A -> K B) (m : K A) a k k' Q :
  m k = Ret a k' -> returns (alone idle (f a k')) Q -> returns (alone idle ((m ≫= f) k)) Q.
Proof using. unfold mbind, K_bind. by intros ->. Qed.

(** Locking a buffer leaves the dirty blocks as they are. *)
Lemma bread_dirty k k' b n :
  caches k' b n -> bdirty (buf_at k' b) = bdirty (buf_at k b) -> (bdirty (buf_at k b) = true -> caches k b n) ->
  (forall b', b' <> b -> buf_at k' b' = buf_at k b') ->
  forall m, dirty k' m <-> dirty k m.
Proof using.
  intros Hc Hd Hdc Ho m. split; intros (b' & Hc' & Hd').
  - destruct (decide (b' = b)) as [->|Hne].
    + rewrite Hd in Hd'. exists b. split; [|done]. destruct Hc' as (_ & _ & Hm), Hc as (_ & _ & Hn).
      assert (m = n) as -> by congruence. auto.
    + exists b'. unfold caches in *. by rewrite <- !(Ho b' Hne).
  - destruct (decide (b' = b)) as [->|Hne].
    + exists b. rewrite Hd. split; [|done]. destruct (Hdc Hd') as (_ & _ & Hn), Hc' as (_ & _ & Hm).
      by assert (m = n) as -> by congruence.
    + exists b'. unfold caches in *. by rewrite Ho.
Qed.

(** The first [bread] of a pair. *)
Lemma bread_first i k lg d ws v S n :
  fs_is i k lg d ws v S -> n < FSSIZE -> (length S < NBUF)%nat ->
  returns (alone idle (bread fuel 1 n k)) (fun b k' =>
    cache_state i [b] k' /\ caches k' b n /\ bvalid (buf_at k' b) = true /\ bdata (buf_at k' b) = v n /\
    (bdirty (buf_at k' b) = false -> bdata (buf_at k' b) = d 1 n) /\
    klog k' = lg /\ disk k' = d /\ dwrites k' = ws /\ (forall m, view k' m = v m) /\ (forall m, dirty k' m <-> m ∈ S) /\
    same_core kb k').
Proof using DL Hfuel.
  intros [Hst Hlg Hd Hw Hv Hdi Hco] Hn Hl.
  eapply returns_mono; [apply (bread_spec fuel Hfuel i [] k n); try done|].
  - intros b Hb. by apply elem_of_nil in Hb.
  - right. destruct Hst as (_ & _ & Hok).
    pose proof (dirty_count [] k S Hok (fun m => proj1 (Hdi m))). simpl. lia.
  - intros b k' (Hst' & Hc & Hva & Hda & Hdd & Hdc & Hcl & Ho & Hv' & Hd' & Hw' & Hl' & Hco').
    split_and!; try done; try congruence.
    + intros H0. by rewrite Hcl, Hd by done.
    + intros m. rewrite (bread_dirty k k' b n) by done. by rewrite Hdi.
Qed.

(** Two locked buffers, for the blocks [n1] and [n2]. *)
Record pair_is (i : nat) (k : kernel) (b1 b2 : nat) (n1 n2 : Z) (lg : logstate) (d : Z -> Z -> list Z)
    (ws : list (Z * Z * list Z)) (v : Z -> list Z) (S : list Z) : Prop := {
  pi_state : cache_state i [b2; b1] k;
  pi_caches1 : caches k b1 n1;
  pi_caches2 : caches k b2 n2;
  pi_valid1 : bvalid (buf_at k b1) = true;
  pi_valid2 : bvalid (buf_at k b2) = true;
  pi_data1 : bdata (buf_at k b1) = v n1;
  pi_data2 : bdata (buf_at k b2) = v n2;
  pi_clean1 : bdirty (buf_at k b1) = false -> bdata (buf_at k b1) = d 1 n1;
  pi_clean2 : bdirty (buf_at k b2) = false -> bdata (buf_at k b2) = d 1 n2;
  pi_log : klog k = lg;
  pi_disk : disk k = d;
  pi_writes : dwrites k = ws;
  pi_view m : view k m = v m;
  pi_dirty m : dirty k m <-> m ∈ S;
  pi_core : same_core kb k;
}.

Lemma bread_second i k b1 n1 n2 lg d ws v S :
  cache_state i [b1] k -> caches k b1 n1 -> bvalid (buf_at k b1) = true -> bdata (buf_at k b1) = v n1 ->
  (bdirty (buf_at k b1) = false -> bdata (buf_at k b1) = d 1 n1) ->
  klog k = lg -> disk k = d -> dwrites k = ws -> (forall m, view k m = v m) -> (forall m, dirty k m <-> m ∈ S) ->
  same_core kb k -> n1 <> n2 -> n2 < FSSIZE -> (n2 ∈ S \/ length S + 1 < NBUF)%nat ->
  returns (alone idle (bread fuel 1 n2 k)) (fun b2 k' => pair_is i k' b1 b2 n1 n2 lg d ws v S).
Proof using DL Hfuel.
  intros Hst Hc1 Hv1 Hd1 Hcl1 Hlg Hd Hw Hv Hdi Hco Hne Hn Hroom.
  pose proof Hst as (_ & _ & Hok).
  eapply returns_mono; [apply (bread_spec fuel Hfuel i [b1] k n2); try done|].
  - intros b Hb Hc. apply list_elem_of_singleton in Hb as ->. apply Hne.
    by destruct Hc as (_ & _ & <-), Hc1 as (_ & _ & <-).
  - destruct Hroom as [HS|Hl].
    + apply Hdi in HS as (b & Hc & _). left. by exists b.
    + right. pose proof (dirty_count _ k S Hok (fun m => proj1 (Hdi m))). simpl. lia.
  - intros b2 k' (Hst' & Hc & Hva & Hda & Hdd & Hdc & Hcl & Ho & Hv' & Hd' & Hw' & Hl' & Hco').
    assert (b1 <> b2) as Hb12.
    { intros <-. destruct Hst' as (_ & _ & Hok'). apply co_nodup, NoDup_cons in Hok' as [Hn' _].
      apply Hn'. left. }
    assert (buf_at k' b1 = buf_at k b1) as Hb1 by (by apply Ho).
    split; unfold caches; rewrite ?Hb1; try done; try congruence.
    + intros H0. by rewrite Hcl, Hd by done.
    + intros m. rewrite (bread_dirty k k' b2 n2) by done. by rewrite Hdi.
Qed.

(** A write cleans one block. *)
Lemma dirty_cleaned L k k' bd dst :
  cache_ok L k -> caches k bd dst ->
  (forall b, bdev (buf_at k' b) = bdev (buf_at k b) /\ bblockno (buf_at k' b) = bblockno (buf_at k b) /\
     bdirty (buf_at k' b) = if decide (b = bd) then false else bdirty (buf_at k b)) ->
  forall m, dirty k' m <-> dirty k m /\ m <> dst.
Proof using.
  intros Hok Hc Hk' m.
  assert (forall b, caches k' b m <-> caches k b m) as Hca.
  { intros b. unfold caches. by destruct (Hk' b) as (-> & -> & _). }
  split.
  - intros (b & Hcb & Hd). destruct (Hk' b) as (_ & _ & Hdb). rewrite Hdb in Hd. case_decide as E; [done|].
    rewrite Hca in Hcb. split; [by exists b|]. intros ->. by apply E, (co_unique _ _ Hok b bd dst).
  - intros [(b & Hcb & Hd) Hne]. exists b. rewrite Hca. split; [done|]. destruct (Hk' b) as (_ & _ & ->).
    case_decide as E; [|done]. subst b. destruct Hne. by destruct Hcb as (_ & _ & <-), Hc as (_ & _ & <-).
Qed.

(** Copy [src] over [dst], write it and release both: [install_trans] locks the source
    first, [write_log] the destination. *)
Lemma copy_back i k bs bd src dst lg d ws v S (rest : K unit) Q :
  pair_is i k bs bd src dst lg d ws v S \/ pair_is i k bd bs dst src lg d ws v S ->
  src <> dst -> dst < FSSIZE ->
  (forall k', fs_is i k' lg (apply_writes [(1, dst, v src)] d) (ws ++ [(1, dst, v src)])
     (<[dst := v src]> v) (filter (fun m => m <> dst) S) -> returns (alone idle (rest k')) Q) ->
  returns (alone idle ((d ← gets (fun k => bdata (buf_at k bs)) ; set_data bd (fun _ => d) ;;
      bwrite fuel bd ;; brelse bs ;; brelse bd ;; rest) k)) Q.
Proof using DL Hfuel.
  intros Hpair Hne Hn Hrest.
  assert (cache_state i [bd; bs] k /\ caches k bs src /\ caches k bd dst /\ bvalid (buf_at k bs) = true /\
    bvalid (buf_at k bd) = true /\ bdata (buf_at k bs) = v src /\
    (bdirty (buf_at k bs) = false -> bdata (buf_at k bs) = d 1 src) /\
    klog k = lg /\ disk k = d /\ dwrites k = ws /\ (forall m, view k m = v m) /\ (forall m, dirty k m <-> m ∈ S) /\
    same_core kb k)
    as (Hst & Hcs & Hcd & Hvs & Hvd & Hds & Hcls & Hlg & Hd & Hw & Hv & Hdi & Hco).
  { destruct Hpair as [[]|[]]; split_and!; try done.
    destruct pi_state0 as (? & ? & Hok). split_and!; try done. eapply cache_ok_perm, Hok. constructor. }
  clear Hpair. pose proof Hst as (Hso & Hdr & Hok). pose proof (co_len _ _ Hok) as Hlen.
  assert (bd <> bs) as Hbb.
  { intros <-. apply co_nodup, NoDup_cons in Hok as [Hn' _]. apply Hn'. left. }
  unfold set_data. kunfold. cbn [obind]. rewrite Hds.
  set (k1 := upd_buf bd _ k).
  destruct (upd_locked_ok [bd; bs] k bd (fun x => x <| bdata ::= fun _ => v src |>) dst) as [Hok1 Hv1];
    try done; [left|]. fold k1 in Hok1, Hv1.
  assert (forall b', buf_at k1 b' = if decide (b' = bd) then buf_at k bd <| bdata := v src |> else buf_at k b') as Hat1
    by (intros b'; apply buf_at_upd; destruct Hcd; lia).
  assert (buf_at k1 bd = buf_at k bd <| bdata := v src |>) as Hd1 by (by rewrite Hat1, decide_True).
  assert (buf_at k1 bs = buf_at k bs) as Hs1 by (by rewrite Hat1, decide_False).
  assert (cache_state i [bd; bs] k1) as Hst1.
  { split; [by apply (solo_same i k)|]. split; [by apply (drv_ok_frame k)|done]. }
  eapply alone_bind; [apply (bwrite_spec fuel Hfuel i [bd; bs] k1 bd dst); try done|].
  { left. }
  { unfold caches. rewrite Hd1. apply Hcd. }
  { by rewrite Hd1. }
  intros [] k2 ((Hso2 & Hdr2 & Hok2) & Hd2 & Ho2 & Hv2 & Hdk2 & Hw2 & Hl2 & Hco2).
  rewrite Hd1 in Hd2, Hdk2, Hw2. simpl in Hdk2, Hw2.
  assert (buf_at k2 bs = buf_at k bs) as Hs2 by (by rewrite Ho2, Hs1 by done).
  assert (forall m, m <> dst -> disk k2 1 m = d 1 m) as Hdk2'.
  { intros m Hm. rewrite Hdk2, fn_lookup_insert, fn_lookup_insert_ne by done. by rewrite Hd. }
  eapply alone_bind; [apply alone_returns, (brelse_spec i [bd] k2 bs src)|].
  { split; [done|]. split; [done|]. eapply cache_ok_perm, Hok2. constructor. }
  { unfold caches. by rewrite Hs2. }
  { rewrite Hs2. intros _ H0. by rewrite Hdk2', Hcls by done. }
  intros [] k3 (Hst3 & Hs3 & Ho3 & Hv3 & Hdk3 & Hw3 & Hl3 & Hco3).
  assert (buf_at k3 bd = buf_at k bd <| bdata := v src |> <| bdirty := false |>) as Hd3 by (by rewrite Ho3, Hd2).
  eapply alone_bind; [apply alone_returns, (brelse_spec i [] k3 bd dst); try done|].
  { unfold caches. rewrite Hd3. apply Hcd. }
  { intros _ _. rewrite Hd3, Hdk3, Hdk2. simpl. by rewrite fn_lookup_insert, fn_lookup_insert. }
  intros [] k4 (Hst4 & Hd4 & Ho4 & Hv4 & Hdk4 & Hw4 & Hl4 & Hco4).
  assert (forall b, bdev (buf_at k4 b) = bdev (buf_at k b) /\ bblockno (buf_at k4 b) = bblockno (buf_at k b) /\
    bdirty (buf_at k4 b) = if decide (b = bd) then false else bdirty (buf_at k b)) as Hflags.
  { intros b. case_decide as E; [subst b; by rewrite Hd4, Hd3|]. rewrite Ho4 by done.
    destruct (decide (b = bs)) as [->|]; [by rewrite Hs3, Hs2|]. by rewrite Ho3, Ho2, Hat1, decide_False. }
  apply Hrest. split; try done.
  - by rewrite Hl4, Hl3, Hl2.
  - rewrite Hdk4, Hdk3, Hdk2. simpl. by rewrite <- Hd.
  - rewrite Hw4, Hw3, Hw2. simpl. by rewrite Hw.
  - intros m. rewrite Hv4, Hv3, Hv2, Hv1. case_bool_decide as E; [subst; by rewrite fn_lookup_insert|].
    by rewrite fn_lookup_insert_ne, Hv.
  - intros m. rewrite (dirty_cleaned [bd; bs] k k4 bd dst) by (done || intros b'; by apply Hflags).
    rewrite Hdi, list_elem_of_filter. naive_solver.
  - transitivity k; [done|]. transitivity k2; [done|]. by transitivity k3.
Qed.

(** *** The two copying loops *)
Lemma write_log_loop_spec i lg : forall rest left tail k d ws v S,
  fs_is i k lg d ws v S -> listed lg tail rest -> log_placed lg S -> (length rest <= left)%nat ->
  (forall n, n ∈ rest -> n ∈ S) -> (length S < NBUF)%nat ->
  returns (alone idle (write_log_loop fuel left tail k)) (fun _ k' =>
    let W := to_log (lstart lg) v rest tail in
    fs_is i k' lg (apply_writes (on1 <$> W) d) (ws ++ (on1 <$> W)) (apply1 W v) S).
Proof using DL Hfuel.
  induction rest as [|n rest IH]; intros left tail k d ws v S Hfs Hlist Hpl Hleft Hsub HS.
  - assert (write_log_loop fuel left tail k = Ret tt k) as ->.
    { destruct Hlist as (_ & Hl & _). simpl in Hl. destruct left; cbn [write_log_loop]; kunfold; cbn [obind];
        rewrite (fi_log _ _ _ _ _ _ _ Hfs), (proj2 (Z.ltb_ge _ _)) by lia; done. }
    simpl. by rewrite app_nil_r.
  - apply listed_cons in Hlist as (Hn & Hlt & Hlist). destruct left as [|left]; [simpl in Hleft; lia|].
    pose proof Hpl as (Hdev & Hst & Hfit & Hroom & Hhome). pose proof Hlist as (Ht & _).
    assert (n ∈ S) as HnS by (apply Hsub; left).
    destruct (Hhome n HnS) as [Hnb Hnl]. set (dst := lstart lg + tail + 1).
    assert (forall m, m ∈ S -> m <> dst) as HSd.
    { intros m Hm ->. destruct (Hhome _ Hm) as [_ Hm']. apply Hm'. unfold in_log, dst. lia. }
    cbn [write_log_loop]. eapply alone_next; [done|]. rewrite (fi_log _ _ _ _ _ _ _ Hfs), (proj2 (Z.ltb_lt _ _)) by done. rewrite Hdev.
    eapply alone_bindK; [apply (bread_first i k lg d ws v S dst Hfs); [unfold dst; lia|done]|].
    intros b1 k1 (Hst1 & Hc1 & Hv1 & Hd1 & Hcl1 & Hlg1 & Hdk1 & Hw1 & Hvw1 & Hdi1 & Hco1).
    eapply alone_next; [apply (lh_block_spec n); by rewrite Hlg1|].
    eapply alone_bindK; [apply (bread_second i k1 b1 dst n lg d ws v S); try done|].
    { intros E. by apply (HSd n). }
    { apply Hnb. }
    { by left. }
    intros b2 k2 Hp. eapply (copy_back i k2 b2 b1 n dst lg d ws v S); [by right| |unfold dst; lia|].
    { by apply HSd. }
    intros k3 Hfs3. set (v1 := <[dst := v n]> v) in *.
    assert (forall m, m ∈ S -> v1 m = v m) as Hv1S by (intros m Hm; apply fn_lookup_insert_ne; symmetry; by apply HSd).
    eapply fs_is_ext with (v' := v1) (S' := S) in Hfs3; [|done|].
    2: { intros m. rewrite list_elem_of_filter. naive_solver. }
    eapply returns_mono; [apply (IH left (tail + 1) k3 _ _ v1 S Hfs3); try done|].
    + simpl in Hleft. lia.
    + intros m Hm. apply Hsub. by right.
    + intros u k4. simpl. rewrite (to_log_ext _ v v1) by (intros m Hm; apply Hv1S, Hsub; by right).
      rewrite <- app_assoc. done.
Qed.

Lemma install_loop_spec i lg : forall rest left tail k d ws v S,
  fs_is i k lg d ws v S -> listed lg tail rest -> log_placed lg rest -> (length rest <= left)%nat ->
  (NoDup rest /\ (forall n, n ∈ rest -> n ∈ S)) \/ (length S + 1 < NBUF)%nat -> (length S < NBUF)%nat ->
  returns (alone idle (install_loop fuel left tail k)) (fun _ k' =>
    let W := to_home (lstart lg) v rest tail in
    fs_is i k' lg (apply_writes (on1 <$> W) d) (ws ++ (on1 <$> W)) (apply1 W v) (filter (fun m => m ∉ rest) S)).
Proof using DL Hfuel.
  induction rest as [|n rest IH]; intros left tail k d ws v S Hfs Hlist Hpl Hleft Hsub HS.
  - assert (install_loop fuel left tail k = Ret tt k) as ->.
    { destruct Hlist as (_ & Hl & _). simpl in Hl. destruct left; cbn [install_loop]; kunfold; cbn [obind];
        rewrite (fi_log _ _ _ _ _ _ _ Hfs), (proj2 (Z.ltb_ge _ _)) by lia; done. }
    simpl. rewrite app_nil_r. eapply fs_is_ext, Hfs; [done|]. intros m. rewrite list_elem_of_filter.
    pose proof (not_elem_of_nil m). naive_solver.
  - apply listed_cons in Hlist as (Hn & Hlt & Hlist). destruct left as [|left]; [simpl in Hleft; lia|].
    pose proof Hpl as (Hdev & Hst & Hfit & Hroom & Hhome). pose proof Hlist as (Ht & _).
    destruct (Hhome n) as [Hnb Hnl]; [left|]. set (src := lstart lg + tail + 1).
    assert (src <> n) as Hne by (intros <-; apply Hnl; unfold in_log, src; lia).
    cbn [install_loop]. eapply alone_next; [done|]. rewrite (fi_log _ _ _ _ _ _ _ Hfs), (proj2 (Z.ltb_lt _ _)) by done.
    rewrite Hdev.
    eapply alone_bindK; [apply (bread_first i k lg d ws v S src Hfs); [unfold src; lia|done]|].
    intros b1 k1 (Hst1 & Hc1 & Hv1 & Hd1 & Hcl1 & Hlg1 & Hdk1 & Hw1 & Hvw1 & Hdi1 & Hco1).
    eapply alone_next; [apply (lh_block_spec n); by rewrite Hlg1|].
    eapply alone_bindK; [apply (bread_second i k1 b1 src n lg d ws v S); try done|].
    { apply Hnb. }
    { destruct Hsub as [[_ Hsub]|?]; [left; apply Hsub; left|by right]. }
    intros b2 k2 Hp. eapply (copy_back i k2 b1 b2 src n lg d ws v S); [by left|done|apply Hnb|].
    intros k3 Hfs3. set (v1 := <[n := v src]> v) in *.
    assert (to_home (lstart lg) v1 rest (tail + 1) = to_home (lstart lg) v rest (tail + 1)) as Hhm.
    { apply to_home_ext. intros j Hj. apply fn_lookup_insert_ne. intros ->. apply Hnl.
      destruct Hlist as (_ & Hl & _). unfold in_log. lia. }
    assert (length (filter (fun m => m <> n) S) <= length S)%nat as Hfl by apply length_filter.
    eapply returns_mono; [apply (IH left (tail + 1) k3 _ _ v1 _ Hfs3); try done|].
    + split_and!; try done. intros m Hm. apply Hhome. by right.
    + simpl in Hleft. lia.
    + destruct Hsub as [[Hnd Hsub]|?]; [left|right; lia]. apply NoDup_cons in Hnd as [Hnin Hnd].
      split; [done|]. intros m Hm. apply list_elem_of_filter. split; [by intros ->|]. apply Hsub. by right.
    + lia.
    + intros u k4. cbv zeta. rewrite Hhm. intros Hfs4. cbn [to_home]. rewrite fmap_cons.
      change (on1 (n, v (lstart lg + tail + 1)) :: ?x) with ([(1, n, v src)] ++ x).
      rewrite app_assoc. eapply fs_is_ext, Hfs4; [done|]. intros m. rewrite !list_elem_of_filter, not_elem_of_cons. tauto.
Qed.

(** *** The header block *)

(** One clean buffer locked, for block [n], with contents [data]. *)
Record locked_is (i : nat) (k : kernel) (b : nat) (n : Z) (data : list Z) (lg : logstate) (d : Z -> Z -> list Z)
    (ws : list (Z * Z * list Z)) (v : Z -> list Z) (S : list Z) : Prop := {
  li_state : cache_state i [b] k;
  li_caches : caches k b n;
  li_valid : bvalid (buf_at k b) = true;
  li_clean : bdirty (buf_at k b) = false;
  li_data : bdata (buf_at k b) = data;
  li_log : klog k = lg;
  li_disk : disk k = d;
  li_writes : dwrites k = ws;
  li_view m : m <> n -> view k m = v m;
  li_dirty m : dirty k m <-> m ∈ S;
  li_core : same_core kb k;
}.

Lemma bread_locked i k lg d ws v S n :
  fs_is i k lg d ws v S -> n < FSSIZE -> (length S < NBUF)%nat -> n ∉ S ->
  returns (alone idle (bread fuel 1 n k)) (fun b k' => locked_is i k' b n (v n) lg d ws v S /\ d 1 n = v n).
Proof using DL Hfuel.
  intros Hfs Hn Hl HnS. eapply returns_mono; [by apply (bread_first i k lg d ws v S n Hfs)|].
  intros b k' (Hst & Hc & Hv & Hd & Hcl & Hlg & Hdk & Hw & Hvw & Hdi & Hco).
  assert (bdirty (buf_at k' b) = false) as Hnd.
  { apply not_true_iff_false. intros Hdb. apply HnS, Hdi. by exists b. }
  split; [by split|]. by rewrite <- Hcl, <- Hd.
Qed.

Lemma set_data_locked i k b n data lg d ws v S f :
  locked_is i k b n data lg d ws v S ->
  exists k', set_data b f k = Ret tt k' /\ locked_is i k' b n (f data) lg d ws v S.
Proof using DL.
  clear Hfuel fuel. intros [(Hs & Hdr & Hok) Hc Hv Hcl Hd Hlg Hdk Hw Hvw Hdi Hco].
  eexists. split; [reflexivity|]. pose proof (co_len _ _ Hok) as Hlen. pose proof Hc as (Hb & _).
  destruct (upd_locked_ok [b] k b (fun x => x <| bdata ::= f |>) n) as [Hok1 Hv1]; try done; [left|].
  assert (forall b', buf_at (upd_buf b (fun x => x <| bdata ::= f |>) k) b' =
    if decide (b' = b) then buf_at k b <| bdata ::= f |> else buf_at k b') as Hat by (intros b'; apply buf_at_upd; lia).
  assert (forall b' m, caches (upd_buf b (fun x => x <| bdata ::= f |>) k) b' m <-> caches k b' m) as Hca
    by (intros b' m; unfold caches; rewrite Hat; by case_decide; [subst|]).
  split; rewrite ?Hat, ?decide_True by done; try done; simpl.
  - split; [by apply (solo_same i k)|]. split; [by apply (drv_ok_frame k)|done].
  - by apply Hca.
  - by rewrite <- Hd.
  - intros m Hm. rewrite Hv1, bool_decide_false by done. by apply Hvw.
  - intros m. rewrite <- Hdi. unfold dirty. split; intros (b' & Hc' & Hd'); exists b'; rewrite Hat, Hca in *;
      by case_decide; [subst|].
Qed.

Lemma write_head_loop_spec i lg b n d ws v S : forall rest left tail k data,
  locked_is i k b n data lg d ws v S -> listed lg tail rest -> (length rest <= left)%nat ->
  exists k', write_head_loop left b tail k = Ret tt k' /\ locked_is i k' b n (enc_blocks data rest tail) lg d ws v S.
Proof using DL.
  clear Hfuel fuel. induction rest as [|m rest IH]; intros left tail k data Hli Hlist Hleft.
  - exists k. split; [|done]. destruct Hlist as (_ & Hl & _). simpl in Hl.
    destruct left; cbn [write_head_loop]; kunfold; cbn [obind];
      rewrite (li_log _ _ _ _ _ _ _ _ _ _ Hli), (proj2 (Z.ltb_ge _ _)) by lia; done.
  - apply listed_cons in Hlist as (Hm & Hlt & Hlist). destruct left as [|left]; [simpl in Hleft; lia|].
    pose proof (li_log _ _ _ _ _ _ _ _ _ _ Hli) as Hlg.
    destruct (set_data_locked i k b n data lg d ws v S (fun d => set_word d (blk_off tail) m) Hli) as (k1 & E1 & Hli1).
    destruct (IH left (tail + 1) k1 _ Hli1 Hlist) as (k2 & E2 & Hli2); [simpl in Hleft; lia|].
    exists k2. split; [|done]. cbn [write_head_loop]. unfold mbind, K_bind, gets. cbn [obind].
    rewrite Hlg, (proj2 (Z.ltb_lt _ _)) by done. rewrite (lh_block_spec m) by (by rewrite Hlg).
    cbn [obind]. rewrite E1. cbn [obind]. exact E2.
Qed.

(** Writing and releasing the locked buffer. *)
Lemma locked_written i k b n data lg d ws v S :
  locked_is i k b n data lg d ws v S -> n < FSSIZE ->
  returns (alone idle ((bwrite fuel b ;; brelse b) k)) (fun _ k' =>
    fs_is i k' lg (apply_writes [(1, n, data)] d) (ws ++ [(1, n, data)]) (<[n := data]> v) S).
Proof using DL Hfuel.
  intros [Hst Hc Hv Hcl Hd Hlg Hdk Hw Hvw Hdi Hco] Hn. pose proof Hst as (_ & _ & Hok).
  eapply alone_bindK; [apply (bwrite_spec fuel Hfuel i [b] k b n); try done; left|].
  intros [] k1 (Hst1 & Hb1 & Ho1 & Hv1 & Hdk1 & Hw1 & Hl1 & Hco1).
  assert (forall b', bdev (buf_at k1 b') = bdev (buf_at k b') /\ bblockno (buf_at k1 b') = bblockno (buf_at k b') /\
    bdirty (buf_at k1 b') = bdirty (buf_at k b')) as Hf1.
  { intros b'. destruct (decide (b' = b)) as [->|Hne]; [rewrite Hb1; simpl; by rewrite Hcl|by rewrite Ho1]. }
  eapply returns_mono; [apply alone_returns, (brelse_spec i [] k1 b n); try done|].
  { unfold caches. rewrite Hb1. apply Hc. }
  { intros _ _. rewrite Hb1, Hdk1. simpl. by rewrite fn_lookup_insert, fn_lookup_insert. }
  intros [] k2 (Hst2 & Hb2 & Ho2 & Hv2 & Hdk2 & Hw2 & Hl2 & Hco2).
  split; try done; [..|by transitivity k; [|transitivity k1]].
  - by rewrite Hl2, Hl1.
  - by rewrite Hdk2, Hdk1, Hd, Hdk.
  - by rewrite Hw2, Hw1, Hd, Hw.
  - intros m. rewrite Hv2, Hv1. destruct (decide (m = n)) as [->|Hne].
    + rewrite fn_lookup_insert, <- Hd. by eapply view_cached.
    + rewrite fn_lookup_insert_ne by done. by apply Hvw.
  - intros m. rewrite <- Hdi.
    assert (forall b', caches k2 b' m <-> caches k b' m) as Hca.
    { intros b'. unfold caches. destruct (Hf1 b') as (E1 & E2 & _).
      destruct (decide (b' = b)) as [->|Hne]; [rewrite Hb2; simpl|rewrite Ho2 by done]; by rewrite E1, E2. }
    unfold dirty. split; intros (b' & Hc' & Hd'); exists b'; rewrite Hca in *; (split; [done|]);
      destruct (Hf1 b') as (_ & _ & E3); (destruct (decide (b' = b)) as [->|Hne]; [rewrite Hb2 in *|rewrite Ho2 in * by done]);
      simpl in *; congruence.
Qed.

Lemma write_head_spec i k lg d ws v S bs :
  fs_is i k lg d ws v S -> listed lg 0 bs -> log_placed lg S -> (length S < NBUF)%nat ->
  returns (alone idle (write_head fuel k)) (fun _ k' =>
    let h := encode_head (v (lstart lg)) bs in
    fs_is i k' lg (apply_writes [(1, lstart lg, h)] d) (ws ++ [(1, lstart lg, h)]) (<[lstart lg := h]> v) S).
Proof using DL Hfuel.
  intros Hfs Hlist (Hdev & Hst & Hfit & Hroom & Hhome) Hl. pose proof Hlist as (_ & Hlen & _).
  assert (lstart lg ∉ S) as HnS by (intros Hin; destruct (Hhome _ Hin) as [_ Hn]; apply Hn; unfold in_log; lia).
  unfold write_head. eapply alone_next; [done|]. rewrite (fi_log _ _ _ _ _ _ _ Hfs), Hdev.
  eapply alone_bindK; [apply (bread_locked i k lg d ws v S (lstart lg) Hfs); try done; lia|].
  intros b k1 [Hli _].
  destruct (set_data_locked _ _ _ _ _ _ _ _ _ _ (fun d => set_word d 0 (lhn lg)) Hli) as (k2 & E2 & Hli2).
  eapply alone_next; [exact E2|].
  destruct (write_head_loop_spec i lg b (lstart lg) d ws v S bs (Z.to_nat (lhn lg)) 0 k2 _ Hli2 Hlist)
    as (k3 & E3 & Hli3); [lia|].
  eapply alone_next; [exact E3|]. cbv zeta. unfold encode_head. replace (Z.of_nat (length bs)) with (lhn lg) by lia.
  apply locked_written; [done|lia].
Qed.

(** *** commit and recovery *)
Lemma upd_log_spec i k lg d ws v S f : fs_is i k lg d ws v S ->
  exists k', upd_log f k = Ret tt k' /\ fs_is i k' (f lg) d ws v S.
Proof using DL.
  clear Hfuel fuel. intros [(Hs & Hdr & Hok) Hlg Hd Hw Hv Hdi]. eexists. split; [reflexivity|].
  split; try done; [|by rewrite <- Hlg].
  split; [by apply (solo_same i k)|]. split; [by apply (drv_ok_frame k)|]. by destruct Hok.
Qed.

Lemma commit_spec i k lg d ws v bs :
  fs_is i k lg d ws v bs -> listed lg 0 bs -> log_placed lg bs -> NoDup bs -> bs <> [] -> lsize lg <= LOGSIZE ->
  returns (alone idle (commit fuel k)) (fun _ k' =>
    let W := commit_writes (lstart lg) (v (lstart lg)) v bs in
    fs_is i k' (lg <| lhn := 0 |>) (apply_writes (on1 <$> W) d) (ws ++ (on1 <$> W)) (apply1 W v) []).
Proof using DL Hfuel.
  intros Hfs Hlist Hpl Hnd Hne Hsz. pose proof Hlist as (_ & Hlen & _). pose proof Hpl as (Hdev & Hst & Hfit & Hroom & Hhome).
  assert (0 < length bs < NBUF)%nat as Hlb.
  { unfold LOGSIZE, MAXOPBLOCKS, NBUF in *. destruct bs; [done|]. simpl in *. lia. }
  unfold commit. eapply alone_next; [done|]. rewrite (fi_log _ _ _ _ _ _ _ Hfs).
  rewrite (proj2 (Z.ltb_lt _ _)) by lia. cbn [whenK].
  eapply alone_bindK.
  { unfold write_log. eapply alone_next; [done|]. rewrite (fi_log _ _ _ _ _ _ _ Hfs).
    apply (write_log_loop_spec i lg bs _ 0 k d ws v bs); try done; lia. }
  cbv zeta. intros [] k1 Hfs1. eapply alone_bindK; [by apply (write_head_spec i k1 lg _ _ _ bs bs Hfs1); try done; lia|].
  cbv zeta. intros [] k2 Hfs2. set (start := lstart lg) in *. set (v1 := apply1 (to_log start v bs 0) v) in *.
  assert (v1 start = v start) as Hv1.
  { apply apply1_notin. intros Hin. apply to_log_dom in Hin. lia. }
  rewrite Hv1 in Hfs2. set (h := encode_head (v start) bs) in *.
  assert (log_holds start v bs 0 (<[start := h]> v1)) as Hholds.
  { intros j n Hj. rewrite fn_lookup_insert_ne by lia. by apply to_log_holds. }
  eapply alone_bindK.
  { unfold install_trans. eapply alone_next; [done|]. rewrite (fi_log _ _ _ _ _ _ _ Hfs2).
    apply (install_loop_spec i lg bs _ 0 k2 _ _ _ bs Hfs2); try done; [lia|by left|lia]. }
  cbv zeta. intros [] k3 Hfs3. fold start in Hfs3. rewrite (to_home_map start v) in Hfs3 by done.
  destruct (upd_log_spec _ _ _ _ _ _ _ (fun l => l <| lhn := 0 |>) Hfs3) as (k4 & E4 & Hfs4).
  eapply alone_next; [exact E4|].
  assert (forall n, n ∈ bs -> n <> start) as Hns.
  { intros n Hn ->. destruct (Hhome _ Hn) as [_ Hl]. apply Hl. unfold in_log. lia. }
  eapply fs_is_ext with (S' := []) in Hfs4; [|done|].
  2: { intros m. rewrite list_elem_of_filter, elem_of_nil. tauto. }
  eapply returns_mono; [apply (write_head_spec i k4 _ _ _ _ [] [] Hfs4)|].
  - by split_and!.
  - split_and!; try done; simpl; [lia|]. intros n Hn. by apply elem_of_nil in Hn.
  - simpl. lia.
  - cbv zeta. intros [] k5. simpl lstart. fold start.
    assert (apply1 ((fun n => (n, v n)) <$> bs) (<[start := h]> v1) start = h) as ->.
    { rewrite apply1_map, bool_decide_false by (intros Hin; by apply (Hns start)). by rewrite fn_lookup_insert. }
    intros Hfs5. unfold commit_writes. fold h. rewrite !fmap_app.
    eapply fs_is_ext with (v' := apply1 (to_log start v bs 0 ++ [(start, h)] ++ ((fun n => (n, v n)) <$> bs) ++ [(start, encode_head h [])]) v) in Hfs5; [| |done].
    + rewrite !apply_writes_app. rewrite <- !app_assoc in Hfs5. exact Hfs5.
    + intros m. by rewrite !apply1_app.
Qed.

Lemma upd_log_locked i k b n data lg d ws v S f : locked_is i k b n data lg d ws v S ->
  exists k', upd_log f k = Ret tt k' /\ locked_is i k' b n data (f lg) d ws v S.
Proof using DL.
  clear Hfuel fuel. intros [(Hs & Hdr & Hok) Hc Hv Hcl Hd Hlg Hdk Hw Hvw Hdi Hco]. eexists. split; [reflexivity|].
  split; try done; [|by rewrite <- Hlg].
  split; [by apply (solo_same i k)|]. split; [by apply (drv_ok_frame k)|]. by destruct Hok.
Qed.

(** Releasing the locked buffer unchanged. *)
Lemma locked_released i k b n lg d ws v S :
  locked_is i k b n (v n) lg d ws v S -> d 1 n = v n ->
  returns (brelse b k) (fun _ k' => fs_is i k' lg d ws v S).
Proof using DL.
  clear Hfuel fuel. intros [Hst Hc Hv Hcl Hd Hlg Hdk Hw Hvw Hdi Hco] Hdn. pose proof Hst as (_ & _ & Hok).
  eapply returns_mono; [apply (brelse_spec i [] k b n); try done; by rewrite Hd, Hdk|].
  intros [] k2 (Hst2 & Hb2 & Ho2 & Hv2 & Hdk2 & Hw2 & Hl2 & Hco2). split; try congruence.
  - intros m. rewrite Hv2. destruct (decide (m = n)) as [->|Hne]; [|by apply Hvw].
    rewrite <- Hd. by eapply view_cached.
  - intros m. rewrite <- Hdi.
    assert (forall b', caches k2 b' m <-> caches k b' m) as Hca.
    { intros b'. unfold caches. destruct (decide (b' = b)) as [->|Hne]; [by rewrite Hb2|by rewrite Ho2]. }
    unfold dirty. split; intros (b' & Hc' & Hd'); exists b'; rewrite Hca in *; (split; [done|]);
      (destruct (decide (b' = b)) as [->|Hne]; [rewrite Hb2 in *|rewrite Ho2 in * by done]); simpl in *; congruence.
Qed.

Lemma read_head_loop_spec i b n data d ws v S h : forall left j k lg,
  locked_is i k b n data lg d ws v S -> 0 <= j -> j + Z.of_nat left = lhn lg -> lhn lg <= LOGSIZE ->
  length (lhblock lg) = Z.to_nat LOGSIZE ->
  exists k' l', read_head_loop left h j k = Ret tt k' /\ locked_is i k' b n data (lg <| lhblock := l' |>) d ws v S /\
    length l' = Z.to_nat LOGSIZE /\
    (forall x, 0 <= x < j -> l' !! Z.to_nat x = lhblock lg !! Z.to_nat x) /\
    (forall x, j <= x < lhn lg -> l' !! Z.to_nat x = Some (s32 (word_at h (blk_off x)))).
Proof using DL.
  clear Hfuel fuel. induction left as [|left IH]; intros j k lg Hli Hj Hsum Hmax Hlen;
    pose proof (li_log _ _ _ _ _ _ _ _ _ _ Hli) as Hlg; cbn [read_head_loop]; unfold mbind, K_bind, gets; cbn [obind];
    rewrite Hlg.
  - rewrite (proj2 (Z.ltb_ge _ _)) by lia. exists k, (lhblock lg).
    split_and!; try done; [|intros x Hx; lia]. by destruct lg.
  - rewrite (proj2 (Z.ltb_lt _ _)), (proj2 (Z.leb_gt _ _)) by lia.
    destruct (upd_log_locked _ _ _ _ _ _ _ _ _ _
      (fun l => l <| lhblock ::= <[Z.to_nat j := s32 (word_at h (blk_off j))]> |>) Hli) as (k1 & -> & Hli1).
    cbn [obind]. destruct (IH (j + 1) k1 _ Hli1) as (k2 & l' & E & Hli2 & Hl' & Hb & Ha); simpl; try lia.
    { by rewrite length_insert. }
    exists k2, l'. split_and!; try done.
    + intros x Hx. rewrite Hb by lia. simpl. apply list_lookup_insert_ne. lia.
    + intros x Hx. destruct (decide (x = j)) as [->|Hne]; [|apply Ha; simpl; lia].
      rewrite Hb by lia. simpl. apply list_lookup_insert_eq. rewrite Hlen. unfold LOGSIZE, MAXOPBLOCKS in *. lia.
Qed.

Lemma read_head_spec i k lg d ws v S :
  fs_is i k lg d ws v S -> log_placed (lg <| lhn := 0 |>) S -> (length S < NBUF)%nat ->
  length (lhblock lg) = Z.to_nat LOGSIZE -> 0 <= s32 (word_at (v (lstart lg)) 0) <= LOGSIZE ->
  returns (alone idle (read_head fuel k)) (fun _ k' => exists l',
    let lg' := lg <| lhn := s32 (word_at (v (lstart lg)) 0) |> <| lhblock := l' |> in
    fs_is i k' lg' d ws v S /\ listed lg' 0 (logged (v (lstart lg)))).
Proof using DL Hfuel.
  intros Hfs (Hdev & Hst & Hfit & Hroom & Hhome) Hl Hlen Hn. simpl in *.
  assert (lstart lg ∉ S) as HnS by (intros Hin; destruct (Hhome _ Hin) as [_ Hx]; apply Hx; unfold in_log; simpl; lia).
  unfold read_head. eapply alone_next; [done|]. rewrite (fi_log _ _ _ _ _ _ _ Hfs), Hdev.
  eapply alone_bindK; [apply (bread_locked i k lg d ws v S (lstart lg) Hfs); try done; lia|].
  intros b k1 [Hli Hdv]. eapply alone_next; [done|]. rewrite (li_data _ _ _ _ _ _ _ _ _ _ Hli).
  set (h := v (lstart lg)) in *. set (n := s32 (word_at h 0)) in *.
  destruct (upd_log_locked _ _ _ _ _ _ _ _ _ _ (fun l => l <| lhn := n |>) Hli) as (k2 & E2 & Hli2).
  eapply alone_next; [exact E2|]. eapply alone_next; [done|].
  rewrite (li_log _ _ _ _ _ _ _ _ _ _ Hli2). simpl lhn.
  destruct (read_head_loop_spec i b _ _ _ _ _ _ h (Z.to_nat n) 0 k2 _ Hli2) as (k3 & l' & E3 & Hli3 & Hl' & _ & Ha);
    simpl; try lia.
  eapply alone_next; [exact E3|]. eapply returns_mono; [apply alone_returns, (locked_released _ _ _ _ _ _ _ _ _ Hli3 Hdv)|].
  intros u k4 Hfs4. exists l'. split; [done|]. unfold logged. fold n. split_and!; try done; simpl.
  - rewrite length_fmap, length_seqZ. lia.
  - intros j m Hj. apply list_lookup_fmap_Some in Hj as (x & -> & Hx). apply lookup_seqZ in Hx as [-> Hx].
    apply Ha. simpl. lia.
Qed.

Lemma recover_spec i k lg d ws v :
  fs_is i k lg d ws v [] -> length (lhblock lg) = Z.to_nat LOGSIZE -> ldev lg = 1 ->
  0 <= s32 (word_at (v (lstart lg)) 0) <= LOGSIZE ->
  0 <= lstart lg -> lstart lg + lsize lg <= FSSIZE ->
  log_fits (lstart lg) (lsize lg) (logged (v (lstart lg))) ->
  returns (alone idle (recover_from_log fuel k)) (fun _ k' => exists lg', lhn lg' = 0 /\
    let W := recover_writes (lstart lg) v in
    fs_is i k' lg' (apply_writes (on1 <$> W) d) (ws ++ (on1 <$> W)) (apply1 W v) []).
Proof using DL Hfuel.
  intros Hfs Hlen Hdev Hn Hst Hfit (Hmax & Hsz & Hbs). set (bs := logged (v (lstart lg))) in *.
  assert (length bs = Z.to_nat (s32 (word_at (v (lstart lg)) 0))) as Hlb
    by (unfold bs, logged; by rewrite length_fmap, length_seqZ).
  unfold recover_from_log. eapply alone_bindK; [apply (read_head_spec i k lg d ws v [] Hfs); try done|].
  { split_and!; try done; simpl; [lia|]. intros n Hin. by apply elem_of_nil in Hin. }
  { simpl. unfold NBUF. lia. }
  cbv zeta. intros [] k1 (l' & Hfs1 & Hlist). set (lg1 := lg <| lhn := _ |> <| lhblock := l' |>) in *. fold bs in Hlist.
  eapply alone_bindK.
  { unfold install_trans. eapply alone_next; [done|]. rewrite (fi_log _ _ _ _ _ _ _ Hfs1).
    apply (install_loop_spec i lg1 bs _ 0 k1 d ws v [] Hfs1); try done.
    - split_and!; try done; simpl; [lia|]. intros n Hin. rewrite Forall_forall in Hbs. by apply Hbs.
    - change (lhn lg1) with (s32 (word_at (v (lstart lg)) 0)). lia.
    - right. simpl. unfold NBUF. lia.
    - simpl. unfold NBUF. lia. }
  cbv zeta. intros [] k2 Hfs2. simpl lstart in Hfs2.
  destruct (upd_log_spec _ _ _ _ _ _ _ (fun l => l <| lhn := 0 |>) Hfs2) as (k3 & E3 & Hfs3).
  eapply alone_next; [exact E3|].
  eapply returns_mono; [apply (write_head_spec i k3 _ _ _ _ _ [] Hfs3)|].
  - by split_and!.
  - split_and!; try done; simpl; [lia|]. intros n Hin. by apply elem_of_nil in Hin.
  - simpl. unfold NBUF. lia.
  - cbv zeta. intros [] k4 Hfs4. exists (lg1 <| lhn := 0 |>). split; [done|]. simpl lstart in Hfs4.
    rewrite apply1_notin in Hfs4.
    2: { intros Hin. apply to_home_dom in Hin. rewrite Forall_forall in Hbs. destruct (Hbs _ Hin) as [_ Hx].
         apply Hx. unfold in_log. lia. }
    unfold recover_writes. fold bs. rewrite fmap_app, apply_writes_app, app_assoc.
    eapply fs_is_ext, Hfs4; [|done]. intros m. by rewrite apply1_app.
Qed.
End kernel.
End base.

(** ** Crash safety *)

(** A recovery that the power fails in. *)
Definition recovery_crash (start : Z) (d d' : Z -> list Z) : Prop :=
  exists P, P `prefix_of` recover_writes start d /\ d' = apply1 P d.

(** The state in which [end_op] calls [commit]: the last operation is over, the dirty blocks
    are those the header lists, and the log on disk is empty. *)
Record commit_ready `{BlockDriver} (i : nat) (k : kernel) (bs : list Z) : Prop := {
  cr_state : cache_state i [] k;
  cr_listed : listed (klog k) 0 bs;
  cr_placed : log_placed (klog k) bs;
  cr_nodup : NoDup bs;
  cr_some : bs <> [];
  cr_size : lsize (klog k) <= LOGSIZE;
  cr_dirty m : dirty k m <-> m ∈ bs;
  cr_head : length (disk k 1 (lstart (klog k))) = BSIZE;
  cr_empty : logged (disk k 1 (lstart (klog k))) = [];
}.

Lemma view_not_dirty k m : cache_ok [] k -> ~ dirty k m -> view k m = disk k 1 m.
Proof.
  intros Hok Hnd. apply (view_clean [] k); [done|]. intros b Hc. split; [apply not_elem_of_nil|].
  apply not_true_iff_false. intros Hd. apply Hnd. by exists b.
Qed.

Lemma apply_writes_on1 ws : forall d, apply_writes (on1 <$> ws) d 1 = apply1 ws (d 1).
Proof.
  induction ws as [|w ws IH]; intros d; [done|]. rewrite fmap_cons, apply1_cons.
  change (apply_writes (on1 <$> ws) (<[1 := <[w.1 := w.2]> (d 1)]> d) 1 = apply1 ws (<[w.1 := w.2]> (d 1))).
  rewrite IH. by rewrite fn_lookup_insert.
Qed.

Lemma rtc_recoverable start size bs v target d d' : log_fits start size bs ->
  rtc (recovery_crash start) d d' -> recoverable start size bs v target d -> recoverable start size bs v target d'.
Proof.
  intros Hfit. induction 1 as [|d1 d2 d3 (P & HP & ->) _ IH]; [done|].
  intros Hr. apply IH. by eapply recover_prefix.
Qed.

Lemma commit_ready_fits `{BlockDriver} i k bs : commit_ready i k bs ->
  log_fits (lstart (klog k)) (lsize (klog k)) bs.
Proof.
  intros [_ (_ & Hl & _) (_ & _ & _ & Hroom & Hhome) _ _ Hsz _ _ _]. split_and!; [lia..|].
  apply Forall_forall. intros n Hn. by apply Hhome.
Qed.

Lemma commit_ready_clean `{BlockDriver} i k bs m : commit_ready i k bs -> m ∉ bs -> view k m = disk k 1 m.
Proof. intros Hr Hm. destruct (cr_state _ _ _ Hr) as (_ & _ & Hok). apply view_not_dirty; [done|]. by rewrite (cr_dirty _ _ _ Hr). Qed.

Lemma commit_ready_updated `{BlockDriver} i k bs m : commit_ready i k bs -> updated bs (view k) (disk k 1) m = view k m.
Proof. intros Hr. unfold updated. case_bool_decide; [done|]. symmetry. by eapply commit_ready_clean. Qed.

(** [commit] in the state [end_op] calls it in. *)
Lemma commit_ready_spec {D : BlockDriver} {DL : BlockDriverLaws D} fuel i k bs :
  (0 < fuel)%nat -> commit_ready i k bs ->
  returns (alone idle (commit fuel k)) (fun _ k' =>
    let start := lstart (klog k) in
    let W := commit_writes start (disk k 1 start) (view k) bs in
    fs_is k i k' (klog k <| lhn := 0 |>) (apply_writes (on1 <$> W) (disk k)) (dwrites k ++ (on1 <$> W)) (apply1 W (view k)) [] /\
    forall m, ~ in_log start (lsize (klog k)) m -> disk k' 1 m = view k m).
Proof.
  intros Hfuel Hr. pose proof (commit_ready_fits i k bs Hr) as Hfits. pose proof Hr as [].
  assert (lstart (klog k) ∉ bs) as Hsb by (intros Hin; eapply bs_home; [done..|]; by eapply start_in_log).
  eapply returns_mono; [by apply (commit_spec k fuel Hfuel i k (klog k) (disk k) (dwrites k) (view k) bs)|].
  cbv zeta. rewrite (commit_ready_clean i k bs) by done. intros u k' Hfs. split; [done|]. intros m Hm.
  rewrite (fi_disk _ _ _ _ _ _ _ _ Hfs), apply_writes_on1, (commit_result _ (lsize (klog k))) by done.
  by apply (commit_ready_updated i).
Qed.

(** The power fails during [commit] and then during recoveries. *)
Lemma commit_ready_crash `{BlockDriver} i k bs P d : commit_ready i k bs ->
  let start := lstart (klog k) in
  P `prefix_of` commit_writes start (disk k 1 start) (view k) bs -> rtc (recovery_crash start) (apply1 P (disk k 1)) d ->
  let d' := apply1 (recover_writes start d) d in
  (forall m, ~ in_log start (lsize (klog k)) m -> d' m = disk k 1 m) \/
  (forall m, ~ in_log start (lsize (klog k)) m -> d' m = view k m).
Proof.
  intros Hr start HP Hd. pose proof (commit_ready_fits i k bs Hr) as Hfits. fold start in Hfits.
  pose proof (commit_prefix start (lsize (klog k)) bs (view k) Hfits (disk k 1) P (cr_head _ _ _ Hr) (cr_empty _ _ _ Hr) HP) as Hpre.
  eapply rtc_recoverable in Hpre; [|done..]. apply (recover_all start (lsize (klog k)) bs (view k) Hfits) in Hpre as (_ & _ & Hall).
  destruct (length P <=? length bs)%nat; [by left|right]. intros m Hm. by rewrite Hall, (commit_ready_updated i).
Qed.

(** A commit leaves the log empty. *)
Lemma commit_clears start h v bs d : length h = BSIZE ->
  let d' := apply1 (commit_writes start h v bs) d in length (d' start) = BSIZE /\ logged (d' start) = [].
Proof.
  intros Hh. cbv zeta. unfold commit_writes. rewrite !app_assoc, apply1_snoc, fn_lookup_insert.
  assert (forall h l, length h = BSIZE -> length (encode_head h l) = BSIZE) as Hl
    by (intros h' l; unfold encode_head; by rewrite enc_blocks_length, set_word_length).
  split; [by apply Hl, Hl|]. by apply encode_nil_logged, Hl.
Qed.

(** C1. Commit is atomic across crashes, with either disk driver. [commit], run on the dirty
    blocks of a transaction, returns with the in-memory log empty and the contents of
    every block outside the log on disk. If the power fails after any number of its
    block writes, and then during any number of recoveries, the next completed
    recovery leaves outside the log either exactly the old disk or exactly the disk with
    the whole transaction in it. *)
Theorem commit_crash_atomic {D : BlockDriver} {DL : BlockDriverLaws D} fuel i k bs :
  (0 < fuel)%nat -> commit_ready i k bs ->
  returns (alone idle (commit fuel k)) (fun _ k' =>
    let start := lstart (klog k) in
    let home m := ~ in_log start (lsize (klog k)) m in
    lhn (klog k') = 0 /\ (forall m, home m -> disk k' 1 m = view k m) /\
    exists W, dwrites k' = dwrites k ++ (on1 <$> W) /\ disk k' = apply_writes (on1 <$> W) (disk k) /\
      forall P d, P `prefix_of` W -> rtc (recovery_crash start) (apply1 P (disk k 1)) d ->
        let d' := apply1 (recover_writes start d) d in
        (forall m, home m -> d' m = disk k 1 m) \/ (forall m, home m -> d' m = view k m)).
Proof.
  intros Hfuel Hr. eapply returns_mono; [by apply commit_ready_spec|]. cbv zeta. intros u k' [Hfs Hhome].
  split_and!; [by rewrite (fi_log _ _ _ _ _ _ _ _ Hfs)|done|]. eexists. split; [by rewrite (fi_writes _ _ _ _ _ _ _ _ Hfs)|].
  split; [by rewrite (fi_disk _ _ _ _ _ _ _ _ Hfs)|]. intros P d HP Hd. by apply (commit_ready_crash i k bs P d).
Qed.

(** Process 3 alone on a machine with the IDE driver, block 100 dirty in buffer 0, and a
    log of 30 blocks from block 2 that lists it. *)
Definition tx_buf : buf := mkBuf true true 1 100 0 (replicate BSIZE 7).
Definition tx_log : logstate := mkLog 2 30 0 true 1 1 (100 :: replicate 29 0).
Definition tx_state : kernel :=
  one_running <| lru := seq 0 NBUF |> <| havedisk1 := true |>
    <| bufs := tx_buf :: replicate 29 zero_buf |> <| klog := tx_log |>.

Lemma tx_buf_at b : buf_at tx_state b = if decide (b = 0%nat) then tx_buf else zero_buf.
Proof.
  case_decide as E; [by subst|]. destruct b as [|b]; [done|].
  change (buf_at tx_state (S b)) with (replicate 29 zero_buf !!! b).
  destruct (decide (b < 29)%nat); [by apply lookup_total_replicate_2|].
  by rewrite list_lookup_total_alt, lookup_ge_None_2 by (rewrite length_replicate; lia).
Qed.

Lemma tx_caches b n : caches tx_state b n <-> b = 0%nat /\ n = 100.
Proof. unfold caches. rewrite tx_buf_at. case_decide; simpl; unfold NBUF; naive_solver lia. Qed.

Lemma tx_solo : solo 3 tx_state.
Proof. apply (solo_same 3 one_running); [reflexivity..|apply one_solo]. Qed.

Lemma tx_cache_ok : cache_ok [] tx_state.
Proof.
  split; try done.
  - constructor.
  - intros b Hb. by apply elem_of_nil in Hb.
  - intros b Hb. rewrite tx_buf_at. by case_decide.
  - intros b Hb. split; [done|]. intros Hin. by apply elem_of_nil in Hin.
  - intros b b' n Hb Hb'. apply tx_caches in Hb as [-> _], Hb' as [-> _]. done.
  - intros b n Hb _ _. apply tx_caches in Hb as [-> _]. by rewrite tx_buf_at.
  - intros b Hb. rewrite tx_buf_at. by case_decide.
Qed.

Lemma tx_ready : commit_ready 3 tx_state [100].
Proof.
  split; try done.
  - split; [apply tx_solo|]. split; [done|apply tx_cache_ok].
  - split_and!; try done. intros [|j] n Hj; simpl in *; by simplify_eq.
  - split_and!; try done. intros n Hn. apply list_elem_of_singleton in Hn as ->. by unfold block_ok, in_log, FSSIZE; simpl; lia.
  - apply NoDup_singleton.
  - intros m. rewrite list_elem_of_singleton. unfold dirty. setoid_rewrite tx_caches. split.
    + by intros (b & (_ & ->) & _).
    + intros ->. by exists 0%nat.
Qed.

Lemma tx_view lg : view (tx_state <| klog := lg |>) 100 = replicate BSIZE 7.
Proof.
  change (view tx_state 100 = replicate BSIZE 7).
  rewrite (view_cached [] tx_state 0 100); [by rewrite tx_buf_at|apply tx_cache_ok|by apply tx_caches|].
  by rewrite tx_buf_at.
Qed.

Lemma commit_crash_atomic_witness :
  returns (alone ide_idle (commit (D := ide) 1 tx_state)) (fun _ k' =>
    lhn (klog k') = 0 /\ disk k' 1 100 = replicate BSIZE 7).
Proof.
  eapply returns_mono; [apply (commit_crash_atomic (D := ide) 1 3 tx_state [100]); [lia|apply tx_ready]|].
  cbv zeta. intros _ k' (Hn & Hd & _). split; [done|]. rewrite Hd; [|unfold in_log; simpl; lia].
  apply (tx_view tx_log).
Defined.

(** C30. Recovery replays the log. At boot, on a cache with nothing dirty and a header
    block that lists at most LOGSIZE blocks, [recover_from_log] writes exactly the
    listed blocks' log copies to their homes and then an empty header, in this order;
    afterwards the log is empty in memory and on disk. These are the writes the
    crash-safety of commit counts on. *)
Theorem recovery_replays_log {D : BlockDriver} {DL : BlockDriverLaws D} fuel i k :
  (0 < fuel)%nat -> cache_state i [] k -> (forall m, ~ dirty k m) ->
  ldev (klog k) = 1 -> length (lhblock (klog k)) = Z.to_nat LOGSIZE ->
  0 <= lstart (klog k) -> lstart (klog k) + lsize (klog k) <= FSSIZE ->
  let start := lstart (klog k) in
  let d := disk k 1 in
  length (d start) = BSIZE -> 0 <= s32 (word_at (d start) 0) <= LOGSIZE ->
  log_fits start (lsize (klog k)) (logged (d start)) ->
  returns (alone idle (recover_from_log fuel k)) (fun _ k' =>
    let W := recover_writes start d in
    dwrites k' = dwrites k ++ (on1 <$> W) /\ disk k' 1 = apply1 W d /\
    lhn (klog k') = 0 /\ logged (disk k' 1 start) = []).
Proof.
  intros Hfuel Hst Hnd Hdev Hlen Hs0 Hs1 start d Hbs Hn Hfits. pose proof Hst as (_ & _ & Hok).
  assert (forall m, view k m = d m) as Hvd by (intros m; by apply view_not_dirty).
  eapply returns_mono; [apply (recover_spec k fuel Hfuel i k (klog k) (disk k) (dwrites k) d); try done|].
  - split; try done. intros m. rewrite elem_of_nil. specialize (Hnd m). tauto.
  - cbv zeta. fold start. intros u k' (lg' & Hl' & Hfs). split_and!.
    + by rewrite (fi_writes _ _ _ _ _ _ _ _ Hfs).
    + by rewrite (fi_disk _ _ _ _ _ _ _ _ Hfs), apply_writes_on1.
    + by rewrite (fi_log _ _ _ _ _ _ _ _ Hfs).
    + rewrite (fi_disk _ _ _ _ _ _ _ _ Hfs), apply_writes_on1. unfold recover_writes. rewrite apply1_snoc.
      rewrite fn_lookup_insert. by apply encode_nil_logged.
Qed.

(** The same machine after a crash: an empty cache, and block 100 in the log. *)
Definition crashed_disk (n : Z) : list Z :=
  if n =? 2 then encode_head (replicate BSIZE 0) [100] else if n =? 3 then replicate BSIZE 9 else replicate BSIZE 0.
Definition crashed_state : kernel :=
  cold_cache crashed_disk <| klog := mkLog 2 30 0 false 1 0 (replicate 30 0) |>.

Lemma solo_klog i k lg : solo i k -> solo i (k <| klog := lg |>).
Proof. by apply solo_same. Qed.

Lemma crashed_ok : cache_state 3 [] crashed_state /\ forall b n, ~ caches crashed_state b n.
Proof.
  destruct (zero_cache_ok crashed_state) as (Hok & Hc & _); [done..|]. split; [|done].
  destruct (cold_ok crashed_disk) as ((Hs & _) & _).
  split; [by apply solo_klog|by split].
Qed.

Lemma recovery_replays_log_witness :
  returns (alone ide_idle (recover_from_log (D := ide) 1 crashed_state)) (fun _ k' =>
    disk k' 1 100 = replicate BSIZE 9 /\ logged (disk k' 1 2) = []).
Proof.
  eapply returns_mono; [apply (recovery_replays_log (D := ide) 1 3 crashed_state); try done|].
  - lia.
  - apply crashed_ok.
  - intros m (b & Hb & _). by apply crashed_ok in Hb.
  - change (logged _) with (logged (encode_head (replicate BSIZE 0) [100])).
    rewrite logged_encode by (done || (repeat constructor; by unfold block_ok, FSSIZE; lia)).
    split_and!; try done. constructor; [|constructor]. unfold block_ok, FSSIZE, in_log. simpl. lia.
  - cbv zeta. intros _ k' (_ & Hd & _ & Hl). split; [|done]. rewrite Hd. by vm_compute.
Defined.

(** ** Operations and their reservations *)
Definition log_same (k k' : kernel) : Prop := klog k' = klog k.

Lemma begin_op_loop_rg left i : forall k0 k,
  held k = [LogLock] -> curproc k = Some i -> (i < length (ptable k))%nat -> log_same k0 k ->
  rg (resumed i) log_same k0 (begin_op_loop left k) (fun _ k1 k2 =>
    held k2 = [] /\ committing (klog k1) = false /\
    klog k2 = klog k1 <| outstanding ::= (fun o => o + 1) |> /\
    lhn (klog k1) + (outstanding (klog k1) + 1) * MAXOPBLOCKS <= LOGSIZE).
Proof.
  induction left as [|left IH]; intros k0 k Hh Hc Hi Hs; unfold log_same in Hs; cbn [begin_op_loop];
    unfold upd_log; kunfold; cbn [obind]; rewrite Hs;
    destruct (committing (klog k0)) eqn:Ec; try done;
    try case_zb; try done.
  - cbn [obind]. rewrite (release_ok _ []) by (done || notheld). simpl. by rewrite Hs.
  - apply rg_bind, (sleep_rg _ _ _ _ i); try done. intros k' (Hh' & Hc' & Hl').
    split; [done|]. apply IH; try done. simpl in *. rewrite length_alter in *. by rewrite Hl'.
  - apply rg_bind, (sleep_rg _ _ _ _ i); try done. intros k' (Hh' & Hc' & Hl').
    split; [done|]. apply IH; try done. simpl in *. rewrite length_alter in *. by rewrite Hl'.
  - cbn [obind]. rewrite (release_ok _ []) by (done || notheld). simpl. by rewrite Hs.
Qed.

(** [begin_op] admits an operation only between commits and within the log's space: it
    waits, without touching the log, while a commit runs or the reservations would
    exceed LOGSIZE; in the segment in which it returns no commit is running, it has
    added exactly one operation, and the logged blocks together with MAXOPBLOCKS for
    each operation in progress fit in LOGSIZE. *)
Theorem begin_op_reserves left i k :
  held k = [] -> curproc k = Some i -> (i < length (ptable k))%nat ->
  rg (resumed i) log_same k (begin_op left k) (fun _ k1 k2 =>
    held k2 = [] /\ committing (klog k1) = false /\
    klog k2 = klog k1 <| outstanding ::= (fun o => o + 1) |> /\
    lhn (klog k2) + outstanding (klog k2) * MAXOPBLOCKS <= LOGSIZE).
Proof.
  intros Hh Hc Hi. unfold begin_op, mbind, K_bind. rewrite acquire_ok by (rewrite Hh; notheld). cbn [obind].
  eapply rg_mono; [apply (begin_op_loop_rg left i k); try done; simpl; by rewrite Hh|].
  intros _ k1 k2 (Hh2 & Hc2 & Hl2 & Hr). split_and!; try done. by rewrite Hl2.
Qed.

Lemma begin_op_reserves_witness :
  let k := one_running in
  exists k', begin_op 0 k = Ret tt k' /\ outstanding (klog k') = 1.
Proof.
  intros k. pose proof (begin_op_reserves 0 3 k eq_refl eq_refl) as H.
  assert (exists k', begin_op 0 k = Ret tt k') as [k' E]
    by (eexists; with_strategy transparent [acquire release] reflexivity).
  exists k'. split; [done|]. rewrite E in H. destruct H as (_ & _ & Hl & _); [by vm_compute; lia|].
  by rewrite Hl.
Defined.

(** The blocks the in-memory header lists. *)
Definition pending (l : logstate) : list Z := take (Z.to_nat (lhn l)) (lhblock l).

(** The log but for its header. *)
Definition log_fixed (l : logstate) := (lstart l, lsize l, outstanding l, committing l, ldev l).

Lemma log_write_cases b k :
  LogLock ∉ held k -> 0 <= lhn (klog k) -> length (lhblock (klog k)) = Z.to_nat LOGSIZE ->
  let l := klog k in
  let n := bblockno (buf_at k b) in
  match log_write b k with
  | Ret _ k' =>
      lhn l < LOGSIZE /\ lhn l < lsize l - 1 /\ 1 <= outstanding l /\
      pending (klog k') = (if bool_decide (n ∈ pending l) then pending l else pending l ++ [n]) /\
      (NoDup (pending l) -> NoDup (pending (klog k'))) /\
      k' = upd_buf b (fun x => x <| bdirty := true |>) k <| klog := klog k' |> /\
      0 <= lhn (klog k') <= LOGSIZE /\ length (lhblock (klog k')) = Z.to_nat LOGSIZE /\
      log_fixed (klog k') = log_fixed l
  | Panic m => (LOGSIZE <= lhn l \/ lsize l - 1 <= lhn l) /\ m = "too big a transaction" \/
      outstanding l < 1 /\ m = "log_write outside of trans"
  | _ => False
  end.
Proof.
  intros Hh H0 Hlen. cbv zeta. unfold log_write, upd_log. kunfold. cbn [obind].
  destruct (Z.leb_spec LOGSIZE (lhn (klog k))) as [|Hmax]; simpl; [left; auto|].
  destruct (Z.leb_spec (lsize (klog k) - 1) (lhn (klog k))) as [|Hsz]; simpl; [left; auto|].
  destruct (Z.ltb_spec (outstanding (klog k)) 1); simpl; [by right|].
  rewrite acquire_ok by done. cbn [obind].
  change (buf_at (k <| held ::= cons LogLock |>) b) with (buf_at k b).
  change (klog (k <| held ::= cons LogLock |>)) with (klog k).
  set (n := bblockno (buf_at k b)). fold (pending (klog k)).
  assert (Z.to_nat (lhn (klog k)) < length (lhblock (klog k)))%nat as Hlt by (rewrite Hlen; lia).
  destruct (list_find (fun m => m = n) (pending (klog k))) as [[j m]|] eqn:Ef; simpl.
  - apply list_find_Some in Ef as (Hj & -> & _).
    assert (j < Z.to_nat (lhn (klog k)))%nat as Hjn.
    { apply lookup_lt_Some in Hj. unfold pending in Hj. rewrite length_take in Hj. lia. }
    rewrite (proj2 (Z.eqb_neq _ _)) by lia. cbn [obind]. rewrite (release_ok _ (held k)) by done.
    assert (<[j := n]> (lhblock (klog k)) = lhblock (klog k)) as Hid.
    { apply list_insert_id. unfold pending in Hj. by rewrite lookup_take_lt in Hj by lia. }
    set (k' := _ <| held := _ |>).
    assert (pending (klog k') = pending (klog k)) as -> by (unfold pending; simpl; by rewrite Hid).
    rewrite bool_decide_true by (by eapply list_elem_of_lookup_2). split_and!; try (simpl; lia); try done.
    simpl. by rewrite length_insert.
  - apply list_find_None in Ef. rewrite Forall_forall in Ef.
    assert (n ∉ pending (klog k)) as Hnin by (intros Hin; by apply (Ef n)).
    rewrite (proj2 (Z.eqb_eq _ _)) by lia. cbn [obind]. rewrite (release_ok _ (held k)) by done.
    set (k' := _ <| held := _ |>). rewrite bool_decide_false by done.
    assert (pending (klog k') = pending (klog k) ++ [n]) as ->.
    { unfold pending. simpl. replace (Z.to_nat (lhn (klog k) + 1)) with (S (Z.to_nat (lhn (klog k)))) by lia.
      rewrite (take_S_r _ _ n) by (by apply list_lookup_insert_eq). by rewrite take_insert_ge by lia. }
    split_and!; try (simpl; lia); try done; [|simpl; by rewrite length_insert].
    intros Hnd. apply NoDup_app. split_and!; [done| |apply NoDup_singleton].
    intros x Hx Hx'. apply list_elem_of_singleton in Hx' as ->. done.
Qed.

(** C39. [log_write] adds a block to the transaction once: if the header does not list the
    block yet it is appended, if it does the header stays, and in both cases the buffer
    is pinned dirty and nothing else changes. It panics exactly if no operation is in
    progress or the header is full, which is at LOGSIZE blocks or at [lsize - 1]. *)
Theorem log_write_absorbs b k :
  LogLock ∉ held k -> 0 <= lhn (klog k) -> length (lhblock (klog k)) = Z.to_nat LOGSIZE ->
  let l := klog k in
  let n := bblockno (buf_at k b) in
  match log_write b k with
  | Ret _ k' =>
      lhn l < LOGSIZE /\ lhn l < lsize l - 1 /\ 1 <= outstanding l /\
      pending (klog k') = (if bool_decide (n ∈ pending l) then pending l else pending l ++ [n]) /\
      (NoDup (pending l) -> NoDup (pending (klog k'))) /\
      k' = upd_buf b (fun x => x <| bdirty := true |>) k <| klog := klog k' |>
  | Panic m => (LOGSIZE <= lhn l \/ lsize l - 1 <= lhn l) /\ m = "too big a transaction" \/
      outstanding l < 1 /\ m = "log_write outside of trans"
  | _ => False
  end.
Proof.
  intros Hh H0 Hlen l n. pose proof (log_write_cases b k Hh H0 Hlen) as H. cbv zeta in H.
  destruct (log_write b k); try done. destruct H as (?&?&?&?&?&?&_). done.
Qed.

Lemma log_write_absorbs_witness :
  let k := tx_state <| klog ::= (fun l => l <| outstanding := 1 |> <| lsize := 30 |>) |> in
  exists k', log_write 0 k = Ret tt k' /\ pending (klog k') = [100].
Proof.
  intros k. pose proof (log_write_absorbs 0 k (not_elem_of_nil _) ltac:(done) ltac:(done)) as H.
  destruct (log_write 0 k) as [[] k'|s| | |]; [exists k'|destruct H as [[[H|H] _]|[H _]]; by vm_compute in H|done..].
  split; [done|]. destruct H as (_ & _ & _ & Hp & _). by rewrite Hp.
Defined.

(** The last operation of a transaction ends: [end_op] hands [commit] this state. *)
Definition closing (k : kernel) : kernel :=
  k <| klog ::= (fun l => l <| outstanding := 0 |> <| committing := true |>) |>.

Lemma end_op_spec {D : BlockDriver} {DL : BlockDriverLaws D} fuel i k bs :
  (0 < fuel)%nat -> outstanding (klog k) = 1 -> committing (klog k) = false ->
  commit_ready i (closing k) bs ->
  returns (alone idle (end_op fuel k)) (fun _ k' =>
    let start := lstart (klog k) in
    let W := commit_writes start (disk k 1 start) (view k) bs in
    fs_is k i k' (klog k <| lhn := 0 |> <| outstanding := 0 |> <| committing := false |>)
      (apply_writes (on1 <$> W) (disk k)) (dwrites k ++ (on1 <$> W)) (apply1 W (view k)) [] /\
    forall m, ~ in_log start (lsize (klog k)) m -> disk k' 1 m = view k m).
Proof.
  intros Hfuel Ho Hc Hr. destruct (cr_state _ _ _ Hr) as ((Hh & _) & _). change (held k = []) in Hh.
  unfold end_op, upd_log. kunfold. rewrite acquire_ok by (rewrite Hh; notheld). cbn [obind].
  set (k1 := k <| held ::= _ |> <| klog ::= _ |>). assert (committing (klog k1) = false) as -> by done.
  assert ((outstanding (klog k1) =? 0) = true) as -> by (simpl; by rewrite Ho). cbn [obind].
  rewrite (release_ok _ []) by ((simpl; by rewrite Hh) || notheld). cbn [obind].
  set (k2 := _ <| held := _ |>). assert (k2 = closing k) as ->
    by (kernel_ext; [done|]; simpl; destruct (klog k); simpl in *; by subst).
  eapply alone_bind; [by apply commit_ready_spec|]. cbv zeta. intros _ k' [Hfs Hhome].
  destruct (fi_state _ _ _ _ _ _ _ _ Hfs) as (Hs' & Hdr' & Hok'). pose proof Hs' as (Hh' & _).
  rewrite acquire_ok by (rewrite Hh'; notheld). cbn [obind].
  rewrite wakeup_quiet by ((simpl; rewrite Hh'; notheld) || exact (solo_no_sleeper i k' Hs')). cbn [obind].
  rewrite (release_ok _ []) by ((simpl; by rewrite Hh') || notheld). cbn [alone returns].
  split; [|done]. split; try apply Hfs.
  - split; [by apply (solo_same i k')|]. split; [by apply (drv_ok_frame k')|]. destruct Hok'. by split.
  - simpl. rewrite (fi_log _ _ _ _ _ _ _ _ Hfs). unfold closing. simpl. by destruct (klog k).
Qed.

(** [end_op] of the last operation commits: it returns with no operation outstanding,
    the log open again and empty, and the contents of every block outside the log on
    disk, with either driver. *)
Theorem end_op_commits {D : BlockDriver} {DL : BlockDriverLaws D} fuel i k bs :
  (0 < fuel)%nat -> outstanding (klog k) = 1 -> committing (klog k) = false ->
  commit_ready i (closing k) bs ->
  returns (alone idle (end_op fuel k)) (fun _ k' =>
    solo i k' /\ outstanding (klog k') = 0 /\ committing (klog k') = false /\ lhn (klog k') = 0 /\
    (forall m, ~ in_log (lstart (klog k)) (lsize (klog k)) m -> disk k' 1 m = view k m)).
Proof.
  intros Hfuel Ho Hc Hr. eapply returns_mono; [by apply (end_op_spec fuel i k bs)|]. cbv zeta. intros _ k' [Hfs Hhome].
  destruct (fi_state _ _ _ _ _ _ _ _ Hfs) as (Hs & _). rewrite (fi_log _ _ _ _ _ _ _ _ Hfs). done.
Qed.

(** The state before the last operation ends. *)
Definition reopened (k : kernel) : kernel :=
  k <| klog ::= (fun l => l <| outstanding := 1 |> <| committing := false |>) |>.

Lemma closing_reopened k : outstanding (klog k) = 0 -> committing (klog k) = true -> closing (reopened k) = k.
Proof. intros Ho Hc. kernel_ext. simpl. destruct (klog k). simpl in *. by subst. Qed.

Lemma end_op_commits_witness :
  let k := reopened tx_state in
  returns (alone ide_idle (end_op (D := ide) 1 k)) (fun _ k' =>
    outstanding (klog k') = 0 /\ disk k' 1 100 = replicate BSIZE 7).
Proof.
  intros k. assert (closing k = tx_state) as Hk by by apply closing_reopened.
  eapply returns_mono.
  - apply (end_op_commits (D := ide) 1 3 k [100]); [lia|done|done|rewrite Hk; apply tx_ready].
  - intros _ k' (_ & Ho & _ & _ & Hd). split; [done|]. rewrite Hd by (unfold in_log; simpl; lia). apply tx_view.
Defined.
