(* ===== verification/Tx.v ===== *)
(** * Tx: blocks inside a transaction

    The discipline with which fs.c uses bio.c and log.c: read a block, change it, hand it to
    [log_write], release it.  Inside a transaction the file system is the function [V] from
    block numbers to contents that the buffer cache shows; the disk does not change before the
    commit.  [txn] relates a kernel state to [V], to the file system's tables [F], to the
    blocks [P] logged so far and to the buffers [L] held, and every operation of fs.c is
    specified by what it does to these. *)
From stdpp Require Import base list list_numbers gmap strings functions sorting.
From Stdlib Require Import ZArith Lia.
From S2P Require Import Prelude Mem Layout Machine Sched Sleeplock Disk Bio Log.
Local Open Scope Z_scope.

(** All of the kernel that file system operations do not touch. *)
Definition rest (k : kernel) :=
  (nextpid k, initproc k, sema k, ready_process k, schedSelected k, ticks k, kend k, mem k, kmem k, pipes k,
   vm_fixed (vmst k), kcons k, body <$> ptable k, fun n => slocks k (InodeLock n)).

Lemma same_core_rest k k' : same_core k k' -> rest k' = rest k /\ fsys k' = fsys k.
Proof.
  intros H. split.
  - exact (f_equal (fun '(a, b, c, d, e, f, g, h, l, m, n, _, o, p, q) => (a, b, c, d, e, f, g, h, l, m, n, o, p, q)) H).
  - exact (f_equal (fun '(_, _, _, _, _, _, _, _, _, _, _, f, _, _, _) => f) H).
Qed.

Definition tx_frame (k k' : kernel) : Prop :=
  rest k' = rest k /\ disk k' = disk k /\ dwrites k' = dwrites k /\ log_fixed (klog k') = log_fixed (klog k).

#[export] Instance tx_frame_preorder : PreOrder tx_frame.
Proof.
  split; [done|]. unfold tx_frame. intros k1 k2 k3 (?&?&?&?) (?&?&?&?). split_and!; congruence.
Qed.

(** A buffer held: locked by the process, with the contents of block [n]. *)
Definition holds (k : kernel) (x : nat * Z) : Prop :=
  caches k x.1 x.2 /\ bvalid (buf_at k x.1) = true /\
  (bdirty (buf_at k x.1) = false -> bdata (buf_at k x.1) = disk k 1 x.2).

(** What the cache depends on. *)
Lemma cache_ok_frame L k k' :
  bufs k' = bufs k -> lru k' = lru k -> slocks k' = slocks k -> disk k' = disk k -> cache_ok L k -> cache_ok L k'.
Proof.
  intros Hb Hl Hs Hd []. split; try (by rewrite ?Hb, ?Hl); unfold caches, buf_at in *; rewrite ?Hb, ?Hs, ?Hd; done.
Qed.

Lemma view_frame k k' n : bufs k' = bufs k -> disk k' = disk k -> view k' n = view k n.
Proof. intros Hb Hd. unfold view, buf_at. by rewrite Hb, Hd. Qed.

Lemma holds_frame k k' x : bufs k' = bufs k -> disk k' = disk k -> holds k x -> holds k' x.
Proof. intros Hb Hd. unfold holds, caches, buf_at. by rewrite Hb, Hd. Qed.

Section txn.
Context {D : BlockDriver} {DL : BlockDriverLaws D} (fuel : nat) (k0 : kernel) (i : nat).

Record txn (L : list (nat * Z)) (P : gset Z) (V : Z -> list Z) (F : fsstate) (k : kernel) : Prop := {
  tx_cache : cache_state i L.*1 k;
  tx_held : Forall (holds k) L;
  tx_frame_ : tx_frame k0 k;
  tx_fsys : fsys k = F;
  tx_reads n : view k n = V n;
  tx_lhn : 0 <= lhn (klog k) <= LOGSIZE;
  tx_lhblock : length (lhblock (klog k)) = Z.to_nat LOGSIZE;
  tx_pending : list_to_set (pending (klog k)) = P;
  tx_nodup : NoDup (pending (klog k));
  tx_dirty b : (b < NBUF)%nat -> bdirty (buf_at k b) = true -> bblockno (buf_at k b) ∈ P;
  tx_pinned n : n ∈ P -> dirty k n;
}.

(** How many blocks can be logged: none outside a transaction. *)
Definition log_cap : Z :=
  if outstanding (klog k0) <? 1 then 0 else Z.min (LOGSIZE - 1) (lsize (klog k0) - 1).

(** One more block can be logged, and one more buffer taken while one is held. *)
Definition fits (P : gset Z) : Prop := Z.of_nat (size P) < log_cap.

Lemma fits_log L P V F k : txn L P V F k -> fits P ->
  Z.of_nat (size P) < LOGSIZE - 1 /\ Z.of_nat (size P) < lsize (klog k) - 1 /\ 1 <= outstanding (klog k).
Proof.
  intros H. destruct (tx_frame_ _ _ _ _ _ H) as (_ & _ & _ & Hl). unfold log_fixed in Hl. simplify_eq.
  unfold fits, log_cap. destruct (Z.ltb_spec (outstanding (klog k0)) 1); intros; split_and!; lia.
Qed.

Lemma tx_size L P V F k : txn L P V F k -> lhn (klog k) = Z.of_nat (size P).
Proof.
  intros H. rewrite <- (tx_pending _ _ _ _ _ H), size_list_to_set by apply (tx_nodup _ _ _ _ _ H).
  unfold pending. rewrite length_take, (tx_lhblock _ _ _ _ _ H). pose proof (tx_lhn _ _ _ _ _ H). lia.
Qed.

(** The dirty buffers hold different blocks of the transaction. *)
Lemma tx_dirty_size L P V F k : txn L P V F k -> (length (dirty_bufs k) <= size P)%nat.
Proof.
  intros H. pose proof (tx_cache _ _ _ _ _ H) as (_ & _ & Hok).
  assert (forall b, b ∈ dirty_bufs k -> (b < NBUF)%nat /\ bdirty (buf_at k b) = true) as Hd.
  { intros b Hb. apply list_elem_of_filter in Hb as [Hb Hs]. apply elem_of_seq in Hs. split; [lia|done]. }
  assert (NoDup ((fun b => bblockno (buf_at k b)) <$> dirty_bufs k)) as Hnd.
  { apply NoDup_fmap_2_strong; [|apply NoDup_filter, NoDup_seq]. intros b b' Hb Hb' E.
    destruct (Hd b Hb) as [Hlt Hdb], (Hd b' Hb') as [Hlt' Hdb'].
    apply (co_unique _ _ Hok b b' (bblockno (buf_at k b))); split_and!; try done.
    - by apply (co_dirty _ _ Hok).
    - by apply (co_dirty _ _ Hok). }
  rewrite <- (length_fmap (fun b => bblockno (buf_at k b))), <- (size_list_to_set (C := gset Z)) by done.
  apply subseteq_size. intros n Hn. apply elem_of_list_to_set, list_elem_of_fmap in Hn as (b & -> & Hb).
  destruct (Hd b Hb). by apply (tx_dirty _ _ _ _ _ H).
Qed.

Lemma tx_room L P V F k n : txn L P V F k -> (length L + size P < NBUF)%nat -> room L.*1 k n.
Proof.
  intros H Hs. right. rewrite length_fmap. pose proof (tx_dirty_size _ _ _ _ _ H). lia.
Qed.

(** A held buffer has the contents of its block. *)
Lemma tx_data L P V F k b n : txn L P V F k -> (b, n) ∈ L -> bdata (buf_at k b) = V n.
Proof.
  intros H Hb. pose proof (tx_held _ _ _ _ _ H) as Hh. rewrite Forall_forall in Hh.
  destruct (Hh _ Hb) as (Hc & Hv & _). rewrite <- (tx_reads _ _ _ _ _ H). symmetry.
  by eapply view_cached; [apply (tx_cache _ _ _ _ _ H)|..].
Qed.

Lemma tx_bread L P V F k n :
  (0 < fuel)%nat -> txn L P V F k -> n < FSSIZE -> n ∉ L.*2 -> (length L + size P < NBUF)%nat ->
  returns (alone idle (bread fuel 1 n k)) (fun b k' => txn ((b, n) :: L) P V F k').
Proof using DL.
  intros Hfuel H Hn HnL Hs. pose proof (tx_held _ _ _ _ _ H) as Hh. rewrite Forall_forall in Hh.
  assert (forall b, b ∈ L.*1 -> ~ caches k b n) as HL.
  { intros b Hb (_ & _ & Hbn). apply list_elem_of_fmap in Hb as ([b' n'] & -> & Hb). simpl in Hbn.
    destruct (Hh _ Hb) as ((_ & _ & Hn') & _). simpl in Hn'. apply HnL, list_elem_of_fmap.
    exists (b', n'). split; [simpl; congruence|done]. }
  eapply returns_mono; [by apply (bread_spec fuel Hfuel i L.*1 k n (tx_cache _ _ _ _ _ H) Hn HL), (tx_room _ _ _ _ _ _ H)|].
  intros b k' (Hc' & Hcb & Hv & Hbd & Hdi & Hdc & Hcl & Ho & Hvw & Hd & Hw & Hlg & Hco).
  apply same_core_rest in Hco as [Hr Hfs].
  assert (b ∉ L.*1) as HbL. { destruct Hc' as (_ & _ & Hok). by apply co_nodup, NoDup_cons in Hok as [? _]. }
  split; rewrite ?Hlg; try apply H.
  - done.
  - constructor; [split_and!; simpl; [done|done|intros Hb; rewrite Hd; by apply Hcl]|].
    apply Forall_forall. intros [b' n'] Hb'. destruct (Hh _ Hb') as (Hc & Hv' & Hcl').
    assert (b' <> b) as Hne. { intros ->. apply HbL, list_elem_of_fmap. by exists (b, n'). }
    unfold holds, caches. simpl in *. rewrite !(Ho b'), Hd by done. done.
  - transitivity k; [apply H|]. split_and!; congruence.
  - rewrite Hfs. apply H.
  - intros m. rewrite Hvw. apply H.
  - intros b' Hlt Hb'. destruct (decide (b' = b)) as [->|Hne].
    + rewrite Hdi in Hb'. destruct (Hdc Hb') as (_ & _ & Hbn). destruct Hcb as (_ & _ & Hbn').
      rewrite Hbn', <- Hbn. apply (tx_dirty _ _ _ _ _ H); done.
    + rewrite Ho in Hb' |- * by done. by apply (tx_dirty _ _ _ _ _ H).
  - intros m Hm. apply (bread_dirty k k' b n); try done. by apply (tx_pinned _ _ _ _ _ H).
Qed.

Lemma tx_brelse L P V F k b n : txn ((b, n) :: L) P V F k ->
  returns (brelse b k) (fun _ k' => txn L P V F k').
Proof using DL.
  intros H. pose proof (tx_held _ _ _ _ _ H) as Hh.
  apply Forall_cons in Hh as [(Hc & Hv & Hcl) Hh]. rewrite Forall_forall in Hh. simpl in *.
  pose proof (tx_cache _ _ _ _ _ H) as Hst. simpl in Hst.
  assert (b ∉ L.*1) as HbL. { destruct Hst as (_ & _ & Hok). by apply co_nodup, NoDup_cons in Hok as [? _]. }
  eapply returns_mono; [by apply (brelse_spec i L.*1 k b n Hst Hc)|].
  intros _ k' (Hst' & Hb & Ho & Hvw & Hd & Hw & Hlg & Hco).
  apply same_core_rest in Hco as [Hr Hfs].
  split; rewrite ?Hlg; try apply H.
  - done.
  - apply Forall_forall. intros [b' n'] Hb'. destruct (Hh _ Hb') as (Hc' & Hv' & Hcl').
    assert (b' <> b) as Hne. { intros ->. apply HbL, list_elem_of_fmap. by exists (b, n'). }
    unfold holds, caches. simpl in *. rewrite !(Ho b'), Hd by done. done.
  - transitivity k; [apply H|]. split_and!; congruence.
  - rewrite Hfs. apply H.
  - intros m. rewrite Hvw. apply H.
  - intros b' Hlt. destruct (decide (b' = b)) as [->|Hne].
    + rewrite Hb. simpl. by apply (tx_dirty _ _ _ _ _ H).
    + rewrite Ho by done. by apply (tx_dirty _ _ _ _ _ H).
  - intros m Hm. destruct (tx_pinned _ _ _ _ _ H m Hm) as (b' & Hc1 & Hd1). exists b'. unfold caches in *.
    destruct (decide (b' = b)) as [->|Hne]; [by rewrite Hb|by rewrite Ho].
Qed.

(** Changing a held buffer and logging it changes the block. *)
Lemma tx_log_write L P V F k b n f :
  txn L P V F k -> (b, n) ∈ L -> fits P ->
  returns ((set_data b f ;; log_write b) k) (fun _ k' => txn L ({[n]} ∪ P) (<[n := f (V n)]> V) F k').
Proof using DL.
  intros H Hb Hfit. pose proof (tx_held _ _ _ _ _ H) as Hh. rewrite Forall_forall in Hh.
  destruct (Hh _ Hb) as (Hc & Hv & _). simpl in Hc, Hv. pose proof Hc as (Hlt & Hdev & Hbn).
  destruct (tx_cache _ _ _ _ _ H) as (Hs & Hdr & Hok). pose proof (co_len _ _ Hok) as Hlen.
  assert (b ∈ L.*1) as HbL by (apply list_elem_of_fmap; by exists (b, n)).
  pose proof (tx_size _ _ _ _ _ H) as Hsz. destruct (fits_log _ _ _ _ _ H Hfit) as (Hf1 & Hf2 & Hf3).
  unfold set_data. kunfold. cbn [obind]. set (k1 := upd_buf b _ k).
  assert (klog k1 = klog k) as Hl1 by done.
  assert (forall b', buf_at k1 b' = if decide (b' = b) then buf_at k b <| bdata ::= f |> else buf_at k b') as Hat1
    by (intros b'; apply buf_at_upd; lia).
  assert (LogLock ∉ held k1) as Hh1 by (change (held k1) with (held k); destruct Hs as [-> _]; apply not_elem_of_nil).
  pose proof (log_write_cases b k1 Hh1) as Hlw. rewrite Hl1 in Hlw.
  specialize (Hlw ltac:(apply H) (tx_lhblock _ _ _ _ _ H)). cbv zeta in Hlw. unfold returns.
  destruct (log_write b k1) as [[] k'|m| | |]; try done;
    [|destruct Hlw as [[Hx _]|[Hx _]]; lia].
  destruct Hlw as (_ & _ & _ & Hp & Hnd & Hk & Hln & Hlb & Hlf).
  rewrite Hat1, decide_True in Hp by done. simpl in Hp. rewrite Hbn in Hp.
  set (g := fun x => x <| bdata ::= f |> <| bdirty := true |>).
  assert (k' = upd_buf b g k <| klog := klog k' |>) as Hk'.
  { rewrite Hk at 1. unfold k1, upd_buf, g. apply kernel_eq; try reflexivity.
    simpl. by rewrite alter_alter. }
  destruct (upd_locked_ok L.*1 k b g n Hok HbL Hc Hv) as [Hok2 Hv2]; [done|].
  set (k2 := upd_buf b g k) in *.
  assert (forall b', buf_at k' b' = if decide (b' = b) then g (buf_at k b) else buf_at k b') as Hat
    by (intros b'; rewrite Hk'; apply (buf_at_upd b g k b'); lia).
  assert (bufs k' = bufs k2 /\ disk k' = disk k) as [Hb' Hd'] by (by rewrite Hk').
  assert (list_to_set (pending (klog k')) = {[n]} ∪ P) as HP.
  { rewrite Hp, <- (tx_pending _ _ _ _ _ H). case_bool_decide; set_solver. }
  clear Hp. split; try done.
  - rewrite Hk'. split; [by apply (solo_same i k)|]. split; [by apply (drv_ok_frame k)|].
    by apply (cache_ok_frame _ k2).
  - apply Forall_forall. intros [b' n'] Hx. destruct (Hh _ Hx) as (Hc' & Hv' & Hcl').
    cbn [fst snd] in Hc', Hv', Hcl'. unfold holds, caches. cbn [fst snd]. rewrite Hat, Hd'.
    destruct (decide (b' = b)) as [->|]; [|done]. split_and!; try done; apply Hc'.
  - transitivity k; [apply H|]. split_and!; try done; by rewrite Hk'.
  - rewrite Hk'. apply H.
  - intros m. rewrite (view_frame k2 k' m Hb' Hd'), Hv2.
    case_bool_decide as E; [subst m; rewrite fn_lookup_insert; simpl|rewrite fn_lookup_insert_ne by done; apply H].
    f_equal. by eapply tx_data.
  - apply Hnd, H.
  - intros b' Hb1 Hb2. rewrite Hat in Hb2 |- *. case_decide as E; [simpl; rewrite Hbn; set_solver|].
    apply elem_of_union_r. by apply (tx_dirty _ _ _ _ _ H).
  - intros m Hm. assert (m = n \/ m ∈ P) as [->|Hm'] by set_solver.
    + exists b. unfold caches. by rewrite !Hat, !decide_True.
    + destruct (tx_pinned _ _ _ _ _ H m Hm') as (b' & Hc1 & Hd1). exists b'. unfold caches in *. rewrite !Hat.
      destruct (decide (b' = b)) as [->|Hne]; done.
Qed.

(** Changing the file system's tables in memory. *)
Lemma tx_tables L P V F k f : txn L P V F k -> txn L P V (f F) (k <| fsys ::= f |>).
Proof using DL.
  intros H. destruct (tx_cache _ _ _ _ _ H) as (Hs & Hdr & Hok). split; try apply H.
  - split; [by apply (solo_same i k)|]. split; [by apply (drv_ok_frame k)|]. by apply (cache_ok_frame _ k).
  - simpl. by rewrite (tx_fsys _ _ _ _ _ H).
Qed.

Lemma tx_read_block L P V F k n :
  (0 < fuel)%nat -> txn L P V F k -> n < FSSIZE -> n ∉ L.*2 -> (length L + size P < NBUF)%nat ->
  forall {A} (m : nat -> K A) Q,
  (forall b k', txn ((b, n) :: L) P V F k' -> bdata (buf_at k' b) = V n -> returns (alone idle (m b k')) Q) ->
  returns (alone idle ((bread fuel 1 n ≫= m) k)) Q.
Proof using DL.
  intros Hfuel H Hn HnL Hs A m Q Hm. eapply alone_bind; [by apply tx_bread|].
  intros b k' H'. apply Hm; [done|]. by apply (tx_data _ _ _ _ _ _ _ H'), list_elem_of_here.
Qed.

Lemma tx_update L P V F k b n f :
  txn L P V F k -> (b, n) ∈ L -> fits P ->
  forall {A} (m : K A) Q,
  (forall k', txn L ({[n]} ∪ P) (<[n := f (V n)]> V) F k' -> returns (alone idle (m k')) Q) ->
  returns (alone idle ((set_data b f ;; log_write b ;; m) k)) Q.
Proof using DL.
  intros H Hb Hf A m Q Hm. destruct (returns_Ret _ _ (tx_log_write L P V F k b n f H Hb Hf)) as ([] & k' & E & H').
  unfold mbind, K_bind in E |- *. unfold set_data, modify in *. cbn [obind] in *. rewrite E. cbn [obind]. by apply Hm.
Qed.

Lemma tx_release L P V F k b n : txn ((b, n) :: L) P V F k ->
  forall {A} (m : K A) Q,
  (forall k', txn L P V F k' -> returns (alone idle (m k')) Q) ->
  returns (alone idle ((brelse b ;; m) k)) Q.
Proof using DL.
  intros H A m Q Hm. eapply alone_bind; [by apply alone_returns, (tx_brelse _ _ _ _ _ _ _ H)|].
  intros [] k' H'. by apply Hm.
Qed.
End txn.
