(* ===== verification/Vm.v ===== *)
(** * Vm: page tables and user address spaces (vm.c)

    Page directories and page tables are words of the kernel's memory, as in the code;
    the model's [mmu] is the hardware's walk of them.  Every operation is shown to keep
    each page in exactly one place: the free list, a page table, or an address space. *)
From stdpp Require Import base list list_numbers gmap strings sorting fin_maps.
From Stdlib Require Import ZArith Lia.
From S2P Require Import Prelude Mem Layout Machine Kalloc Sched.
Local Open Scope Z_scope.

(** ** Operations *)
Definition peek (a : Z) : K Z := gets (fun k => load32 (mem k) a).
Definition poke (a v : Z) : K unit := modify (fun k => k <| mem ::= fun m => store32 m a v |>).
Definition present (e : Z) : bool := negb (Z.land e PTE_P =? 0).

(** The address of the page table entry for [va], 0 being the null pointer. *)
Definition walkpgdir (dir va : Z) (alloc : bool) : K Z :=
  let pde := dir + 4 * PDX va in
  e ← peek pde ;
  if present e then mret (P2V (PTE_ADDR e) + 4 * PTX va)
  else if negb alloc then mret 0
  else
    pgtab ← kalloc ;
    if pgtab =? 0 then mret 0
    else
      modify (fun k => k <| mem ::= fun m => memset m pgtab 0 PGSIZE |>) ;;
      poke pde (Z.lor (Z.lor (Z.lor (V2P pgtab) PTE_P) PTE_W) PTE_U) ;;
      mret (pgtab + 4 * PTX va).

(** The loop of [mappages]; [left] bounds its iterations. *)
Fixpoint mappages_loop (left : nat) (dir a last pa perm : Z) : K Z :=
  pte ← walkpgdir dir a true ;
  if pte =? 0 then mret (-1)
  else
    v ← peek pte ;
    if present v then panic "remap"
    else
      poke pte (Z.lor (Z.lor pa perm) PTE_P) ;;
      if a =? last then mret 0
      else
        match left with
        | O => out_of_fuel
        | S left' => mappages_loop left' dir (u32 (a + PGSIZE)) last (u32 (pa + PGSIZE)) perm
        end.

Definition mappages (dir va size pa perm : Z) : K Z :=
  let a := PGROUNDDOWN va in
  let last := PGROUNDDOWN (u32 (va + size - 1)) in
  mappages_loop (Z.to_nat (u32 (last - a) / PGSIZE)) dir a last pa perm.

(** Free the page of the entry at [pte], if there is one. *)
Definition unmap (pte : Z) : K unit :=
  v ← peek pte ;
  whenK (present v)
    (if PTE_ADDR v =? 0 then panic "kfree"
     else kfree (P2V (PTE_ADDR v)) ;; poke pte 0).

Fixpoint deallocuvm_loop (left : nat) (dir a oldsz : Z) : K unit :=
  if a <? oldsz then
    match left with
    | O => out_of_fuel
    | S left' =>
        pte ← walkpgdir dir a false ;
        if pte =? 0 then
          deallocuvm_loop left' dir (u32 (u32 (PGADDR (PDX a + 1) 0 0 - PGSIZE) + PGSIZE)) oldsz
        else
          unmap pte ;;
          deallocuvm_loop left' dir (u32 (a + PGSIZE)) oldsz
    end
  else mret tt.

Definition deallocuvm (dir oldsz newsz : Z) : K Z :=
  if oldsz <=? newsz then mret oldsz
  else
    let a := PGROUNDUP newsz in
    deallocuvm_loop (Z.to_nat ((oldsz - a + PGSIZE - 1) / PGSIZE)) dir a oldsz ;;
    mret newsz.

(** [for(i = 0; i < NPDENTRIES; i++)] of [freevm]. *)
Fixpoint freevm_loop (left : nat) (dir i : Z) : K unit :=
  match left with
  | O => mret tt
  | S left' =>
      e ← peek (dir + 4 * i) ;
      whenK (present e) (kfree (P2V (PTE_ADDR e))) ;;
      freevm_loop left' dir (i + 1)
  end.

Definition freevm (dir : Z) : K unit :=
  if dir =? 0 then panic "freevm: no pgdir"
  else
    deallocuvm dir KERNBASE 0 ;;
    freevm_loop (Z.to_nat NPDENTRIES) dir 0 ;;
    kfree dir.

(** The kernel's mappings: virtual address, physical range, permissions. *)
Definition kmap (data : Z) : list (Z * Z * Z * Z) :=
  [(KERNBASE, 0, EXTMEM, PTE_W);
   (KERNLINK, V2P KERNLINK, V2P data, 0);
   (data, V2P data, PHYSTOP, PTE_W);
   (DEVSPACE, DEVSPACE, 0, PTE_W)].

Fixpoint setupkvm_loop (dir : Z) (ks : list (Z * Z * Z * Z)) : K Z :=
  match ks with
  | [] => mret dir
  | (virt, phys_start, phys_end, perm) :: ks' =>
      r ← mappages dir virt (u32 (phys_end - phys_start)) phys_start perm ;
      if r <? 0 then freevm dir ;; mret 0 else setupkvm_loop dir ks'
  end.

Definition setupkvm : K Z :=
  dir ← kalloc ;
  if dir =? 0 then mret 0
  else
    modify (fun k => k <| mem ::= fun m => memset m dir 0 PGSIZE |>) ;;
    if P2V PHYSTOP >? DEVSPACE then panic "PHYSTOP too high"
    else
      data ← gets (fun k => kdata (vmst k)) ;
      setupkvm_loop dir (kmap data).

Definition kvmalloc : K unit :=
  dir ← setupkvm ;
  modify (fun k => k <| vmst ::= upd kpgdir (fun _ => dir) |>) ;;
  switchkvm.

(** [init] are the bytes of the program. *)
Definition inituvm (dir : Z) (init : list Z) : K unit :=
  if PGSIZE <=? Z.of_nat (length init) then panic "inituvm: more than a page"
  else
    p ← kalloc ;
    modify (fun k => k <| mem ::= fun m => memset m p 0 PGSIZE |>) ;;
    mappages dir 0 PGSIZE (V2P p) (Z.lor PTE_W PTE_U) ;;
    modify (fun k => k <| mem ::= fun m => store_bytes m p init |>).

Fixpoint allocuvm_loop (left : nat) (dir a oldsz newsz : Z) : K Z :=
  if a <? newsz then
    match left with
    | O => out_of_fuel
    | S left' =>
        p ← kalloc ;
        if p =? 0 then
          cprintf "allocuvm out of memory\n" [] ;;
          deallocuvm dir newsz oldsz ;;
          mret 0
        else
          modify (fun k => k <| mem ::= fun m => memset m p 0 PGSIZE |>) ;;
          r ← mappages dir a PGSIZE (V2P p) (Z.lor PTE_W PTE_U) ;
          if r <? 0 then
            cprintf "allocuvm out of memory (2)\n" [] ;;
            deallocuvm dir newsz oldsz ;;
            kfree p ;;
            mret 0
          else allocuvm_loop left' dir (u32 (a + PGSIZE)) oldsz newsz
    end
  else mret newsz.

Definition allocuvm (dir oldsz newsz : Z) : K Z :=
  if KERNBASE <=? newsz then mret 0
  else if newsz <? oldsz then mret oldsz
  else
    let a := PGROUNDUP oldsz in
    allocuvm_loop (Z.to_nat ((newsz - a + PGSIZE - 1) / PGSIZE)) dir a oldsz newsz.

(** [~PTE_U] as a 32-bit mask. *)
Definition clearpteu (dir uva : Z) : K unit :=
  pte ← walkpgdir dir uva false ;
  if pte =? 0 then panic "clearpteu"
  else v ← peek pte ; poke pte (Z.land v (2 ^ 32 - 1 - PTE_U)).

Fixpoint copyuvm_loop (left : nat) (d dir i sz : Z) : K Z :=
  if i <? sz then
    match left with
    | O => out_of_fuel
    | S left' =>
        pte ← walkpgdir dir i false ;
        if pte =? 0 then panic "copyuvm: pte should exist"
        else
          v ← peek pte ;
          if negb (present v) then panic "copyuvm: page not present"
          else
            p ← kalloc ;
            if p =? 0 then freevm d ;; mret 0
            else
              modify (fun k => k <| mem ::= fun m => memmove m p (P2V (PTE_ADDR v)) PGSIZE |>) ;;
              r ← mappages d i PGSIZE (V2P p) (PTE_FLAGS v) ;
              if r <? 0 then freevm d ;; mret 0
              else copyuvm_loop left' d dir (u32 (i + PGSIZE)) sz
    end
  else mret d.

Definition copyuvm (dir sz : Z) : K Z :=
  d ← setupkvm ;
  if d =? 0 then mret 0
  else copyuvm_loop (Z.to_nat ((sz + PGSIZE - 1) / PGSIZE)) d dir 0 sz.

Definition uva2ka (dir uva : Z) : K Z :=
  pte ← walkpgdir dir uva false ;
  if pte =? 0 then undef "uva2ka: null page table entry"
  else
    v ← peek pte ;
    if Z.land v PTE_P =? 0 then mret 0
    else if Z.land v PTE_U =? 0 then mret 0
    else mret (P2V (PTE_ADDR v)).

(** [p] are the bytes to copy. *)
Fixpoint copyout_loop (left : nat) (dir va : Z) (p : list Z) : K Z :=
  match p with
  | [] => mret 0
  | _ =>
      match left with
      | O => out_of_fuel
      | S left' =>
          let va0 := PGROUNDDOWN va in
          pa0 ← uva2ka dir va0 ;
          if pa0 =? 0 then mret (-1)
          else
            let n := Z.to_nat (Z.min (PGSIZE - (va - va0)) (Z.of_nat (length p))) in
            modify (fun k => k <| mem ::= fun m => store_bytes m (pa0 + (va - va0)) (take n p) |>) ;;
            copyout_loop left' dir (u32 (va0 + PGSIZE)) (drop n p)
      end
  end.

Definition copyout (dir va : Z) (p : list Z) : K Z := copyout_loop (length p) dir va p.

(** ** The hardware *)

(** The page walk for [va] with %cr3: the physical address and the access bits that both
    levels grant. *)
Definition mmu (m : memory) (cr3 va : Z) : option (Z * Z) :=
  let e := load32 m (P2V (PTE_ADDR cr3) + 4 * PDX va) in
  if present e then
    let e' := load32 m (P2V (PTE_ADDR e) + 4 * PTX va) in
    if present e' then Some (PTE_ADDR e' + va mod PGSIZE, Z.land (PTE_FLAGS e) (PTE_FLAGS e')) else None
  else None.

(** Data accesses of the kernel through the current page table. A page fault in kernel mode is
    a trap that panics; CR0.WP is set, so that a write needs PTE_W there as well. *)
Definition vload8 (va : Z) : K Z := fun k =>
  match mmu (mem k) (cr3 (vmst k)) va with
  | Some (pa, _) => Ret (mem k (P2V pa)) k
  | None => Panic "trap"
  end.

Definition vstore8 (va b : Z) : K unit := fun k =>
  match mmu (mem k) (cr3 (vmst k)) va with
  | Some (pa, f) => if Z.land f PTE_W =? 0 then Panic "trap" else Ret tt (k <| mem ::= fun m => store8 m (P2V pa) b |>)
  | None => Panic "trap"
  end.

Fixpoint vload (n : nat) (va : Z) : K (list Z) :=
  match n with
  | O => mret []
  | S n' => b ← vload8 va ; l ← vload n' (u32 (va + 1)) ; mret (b :: l)
  end.

Fixpoint vstore (va : Z) (l : list Z) : K unit :=
  match l with
  | [] => mret tt
  | b :: l' => vstore8 va b ;; vstore (u32 (va + 1)) l'
  end.

Definition bytes32 (v : Z) : list Z := [u8 v; u8 (Z.shiftr v 8); u8 (Z.shiftr v 16); u8 (Z.shiftr v 24)].
Definition vload32 (va : Z) : K Z :=
  l ← vload 4 va ;
  mret (foldr (fun b w => b + 2 ^ 8 * w) 0 l).
Definition vstore32 (va v : Z) : K unit := vstore va (bytes32 v).

(** ** Pages and footprints *)

(** Membership in an explicit list of pages. *)
Ltac inlist :=
  repeat first [rewrite elem_of_cons | rewrite elem_of_app | rewrite elem_of_nil]; tauto.

Definition in_page (p x : Z) : Prop := p <= x < p + PGSIZE.
Definition outside (P : list Z) (x : Z) : Prop := forall p, p ∈ P -> ~ in_page p x.

(** Memory is unchanged outside the pages [P]. *)
Definition same_but (P : list Z) (m m' : memory) : Prop := forall x, outside P x -> m' x = m x.

Lemma same_but_refl P m : same_but P m m.
Proof. by intros x. Qed.

Lemma same_but_trans P m1 m2 m3 : same_but P m1 m2 -> same_but P m2 m3 -> same_but P m1 m3.
Proof. intros H1 H2 x Hx. by rewrite H2, H1. Qed.

Lemma same_but_mono P P' m m' : P ⊆ P' -> same_but P m m' -> same_but P' m m'.
Proof. intros HP H x Hx. apply H. intros p Hp. by apply Hx, HP. Qed.

Lemma pages_outside p P x :
  p mod PGSIZE = 0 -> Forall (fun q => q mod PGSIZE = 0) P -> p ∉ P -> in_page p x -> outside P x.
Proof.
  intros Hp HP Hn Hx q Hq Hx'. rewrite Forall_forall in HP. unfold in_page in *.
  destruct (pages_disjoint p q x); [done|by apply HP|by intros ->|done|lia..].
Qed.

(** A word of a page outside the footprint. *)
Lemma load_same P m m' p i :
  same_but P m m' -> p mod PGSIZE = 0 -> Forall (fun q => q mod PGSIZE = 0) P -> p ∉ P -> 0 <= i < 1024 ->
  load32 m' (p + 4 * i) = load32 m (p + 4 * i).
Proof.
  intros Hs Hp HP Hn Hi. apply load32_ext. intros x Hx. apply Hs. apply (pages_outside p); try done.
  unfold in_page, PGSIZE. lia.
Qed.

Lemma same_but_store32 P m p i v : p ∈ P -> 0 <= i < 1024 -> same_but P m (store32 m (p + 4 * i) v).
Proof.
  intros Hp Hi x Hx. apply store32_other. specialize (Hx p Hp). unfold in_page, PGSIZE in Hx. lia.
Qed.

Lemma same_but_memset P m p c : p ∈ P -> same_but P m (memset m p c PGSIZE).
Proof.
  intros Hp x Hx. rewrite memset_spec by (unfold PGSIZE; lia). specialize (Hx p Hp). unfold in_page in Hx. zcases; done.
Qed.

(** Page-table code changes memory, the free list and the console only. *)
Definition vm_frame (k k' : kernel) : Prop :=
  k' = k <| mem := mem k' |> <| kmem := kmem k' |> <| console := console k' |>.

#[export] Instance vm_frame_preorder : PreOrder vm_frame.
Proof.
  split.
  - intros k. unfold vm_frame. kernel_ext.
  - intros k1 k2 k3 H1 H2. unfold vm_frame in *. rewrite H2, H1. kernel_ext.
Qed.

(** ** Page tables *)

(** The pages of a map. *)
Definition vals (T : gmap Z Z) : list Z := (map_to_list T).*2.

Lemma elem_of_vals T t : t ∈ vals T <-> exists i, T !! i = Some t.
Proof.
  unfold vals. rewrite list_elem_of_fmap. split.
  - intros ([i t'] & -> & Hi). exists i. by apply elem_of_map_to_list in Hi.
  - intros [i Hi]. exists (i, t). split; [done|]. by apply elem_of_map_to_list.
Qed.

Lemma vals_insert T i t : T !! i = None -> vals (<[i := t]> T) ≡ₚ t :: vals T.
Proof. intros Hi. unfold vals. by rewrite map_to_list_insert. Qed.

(** [T] gives the page table of each directory entry that is present. *)
Record pgtab (m : memory) (dir : Z) (T : gmap Z Z) : Prop := {
  pt_dir i : 0 <= i < 1024 -> load32 m (dir + 4 * i) = from_option (fun t => V2P t + 7) 0 (T !! i);
  pt_idx i t : T !! i = Some t -> 0 <= i < 1024;
}.

(** The page table entry for [va]. *)
Definition pte (m : memory) (T : gmap Z Z) (va : Z) : Z :=
  from_option (fun t => load32 m (t + 4 * PTX va)) 0 (T !! PDX va).

(** The kernel owns a directory [dir] with tables [T], the pages [R], and the free list
    [l], each page once. *)
Record vspace (k : kernel) (dir : Z) (T : gmap Z Z) (R l : list Z) : Prop := {
  vs_free : free_rep k l;
  vs_tab : pgtab (mem k) dir T;
  vs_own : NoDup (dir :: vals T ++ R ++ l);
  vs_ok : Forall (page_ok (kend k)) (dir :: vals T ++ R);
}.

Lemma page_ok_aligned e p : page_ok e p -> p mod PGSIZE = 0.
Proof. by intros (H & _). Qed.

Lemma vs_all_ok k dir T R l : vspace k dir T R l -> Forall (page_ok (kend k)) (dir :: vals T ++ R ++ l).
Proof.
  intros [(_ & _ & Hl & _) _ _ H]. apply Forall_cons in H as [Hd H]. apply Forall_app in H as [HT HR].
  constructor; [done|]. rewrite !Forall_app. done.
Qed.

Lemma all_aligned e P : Forall (page_ok e) P -> Forall (fun q => q mod PGSIZE = 0) P.
Proof. intros H. eapply Forall_impl; [done|]. apply page_ok_aligned. Qed.

Lemma page_ok_phys e p : page_ok e p -> V2P p = p - KERNBASE /\ V2P p mod PGSIZE = 0 /\ 0 <= V2P p < PHYSTOP.
Proof.
  intros (Hm & He & Ht). rewrite V2P_kern by (unfold KERNBASE, PHYSTOP in *; lia).
  unfold KERNBASE, PHYSTOP, PGSIZE in *. split; [done|]. dlia.
Qed.

(** The entry for page [p] with flags [f] points at [p]. *)
Lemma entry_page e p f : page_ok e p -> 0 <= f < PGSIZE ->
  P2V (PTE_ADDR (V2P p + f)) = p /\ PTE_FLAGS (V2P p + f) = f.
Proof.
  intros Hp Hf. destruct (page_ok_phys e p Hp) as (E & Hm & Hr). unfold PHYSTOP in Hr.
  destruct (pte_parts (V2P p) f) as [-> ->]; [done|lia|done|]. split; [|done].
  rewrite P2V_phys by (unfold KERNBASE; lia). lia.
Qed.

Lemma present_flag a f : a mod PGSIZE = 0 -> present (a + f) = Z.odd f.
Proof.
  intros Ha. unfold present, PTE_P. change 1 with (Z.ones 1). rewrite Z.land_ones by lia. change (2 ^ 1) with 2.
  unfold PGSIZE in Ha. rewrite Zmod_odd, Z.odd_add.
  assert (Z.odd a = false) as -> by (replace a with (2 * (a / 2)) by dlia; by rewrite Z.odd_mul).
  by destruct (Z.odd f).
Qed.

Lemma vs_tab_page k dir T R l i t : vspace k dir T R l -> T !! i = Some t ->
  page_ok (kend k) t /\ t <> dir /\ (t ∉ R) /\ (t ∉ l).
Proof.
  intros H Hi. pose proof (vs_all_ok _ _ _ _ _ H) as Hok. pose proof (vs_own _ _ _ _ _ H) as Hnd.
  assert (t ∈ vals T) as Ht by (apply elem_of_vals; eauto).
  rewrite Forall_forall in Hok. apply NoDup_cons in Hnd as [Hd Hnd]. apply NoDup_app in Hnd as (_ & Hx & _).
  split_and!; [apply Hok; inlist|by intros ->; apply Hd; inlist|..]; intros Ht'; apply (Hx t Ht); inlist.
Qed.

(** Distinct directory entries have distinct tables. *)
Lemma vs_tab_inj k dir T R l i j t : vspace k dir T R l -> T !! i = Some t -> T !! j = Some t -> i = j.
Proof.
  intros H Hi Hj. destruct (decide (i = j)) as [|Hne]; [done|]. exfalso.
  pose proof (vs_own _ _ _ _ _ H) as Hnd. apply NoDup_cons in Hnd as [_ Hnd]. apply NoDup_app in Hnd as (Hnd & _ & _).
  rewrite <- (insert_delete_id T i t Hi), vals_insert in Hnd by apply lookup_delete_eq.
  apply NoDup_cons in Hnd as [Hn _]. apply Hn, elem_of_vals. exists j. by rewrite lookup_delete_ne.
Qed.

Lemma walk_hit k dir T R l va alloc t :
  vspace k dir T R l -> 0 <= va < 2 ^ 32 -> T !! PDX va = Some t ->
  walkpgdir dir va alloc k = Ret (t + 4 * PTX va) k.
Proof.
  intros H Hva Ht. destruct (vs_tab_page _ _ _ _ _ _ _ H Ht) as (Hok & _).
  unfold walkpgdir, peek. kunfold. cbn [obind].
  rewrite (pt_dir _ _ _ (vs_tab _ _ _ _ _ H)), Ht by (by apply PDX_range). simpl.
  destruct (page_ok_phys _ _ Hok) as (_ & Hm & _). rewrite present_flag by done. simpl.
  by destruct (entry_page _ t 7 Hok) as [-> _].
Qed.

Lemma walk_miss k dir T R l va :
  vspace k dir T R l -> 0 <= va < 2 ^ 32 -> T !! PDX va = None -> walkpgdir dir va false k = Ret 0 k.
Proof.
  intros H Hva Ht. unfold walkpgdir, peek. kunfold. cbn [obind].
  by rewrite (pt_dir _ _ _ (vs_tab _ _ _ _ _ H)), Ht by (by apply PDX_range).
Qed.

(** Memory changes within owned pages keep the free list. *)
Lemma free_rep_mem k l m' P :
  free_rep k l -> bytes_ok m' -> same_but P (mem k) m' -> Forall (fun q => q mod PGSIZE = 0) P ->
  (forall p, p ∈ P -> p ∉ l) -> free_rep (k <| mem := m' |>) l.
Proof.
  intros (Hc & Hnd & Hok & Hm & Hke & Hl) Hb Hs HP Hd. unfold free_rep. simpl. split_and!; try done.
  eapply chain_ext; [|done]. intros p Hp. symmetry. rewrite Forall_forall in Hok. destruct (Hok p Hp) as (Hpm & _).
  pose proof (load_same P (mem k) m' p 0 Hs Hpm HP) as H0. rewrite Z.add_0_r in H0. apply H0; [|lia].
  intros HpP. by apply (Hd p).
Qed.

Lemma kalloc_take k t l : free_rep k (t :: l) ->
  exists k', kalloc k = Ret t k' /\ vm_frame k k' /\ mem k' = mem k /\ free_rep k' l /\ t <> 0.
Proof.
  intros H. pose proof (kalloc_rep k (t :: l) H) as Hr. pose proof H as (_ & _ & Hok & _ & _ & Hlk).
  apply Forall_cons in Hok as [Ht _]. apply page_ok_pos in Ht.
  rewrite kalloc_eq in Hr |- * by done. simpl in *. destruct Hr as (Hf & Hrep & _ & _). rewrite Hf in *.
  rewrite (proj2 (Z.eqb_neq t 0)) in * by lia. eexists. split; [done|].
  split_and!; [unfold vm_frame; kernel_ext|done|done|lia].
Qed.

Lemma kalloc_none k : free_rep k [] -> kalloc k = Ret 0 k.
Proof.
  intros H. pose proof H as (Hc & _ & _ & _ & _ & Hlk). simpl in Hc. rewrite kalloc_eq by done. by rewrite Hc.
Qed.

Lemma memset_zero_word m p i : 0 <= i < 1024 -> load32 (memset m p 0 PGSIZE) (p + 4 * i) = 0.
Proof.
  intros Hi. unfold load32. rewrite !memset_spec by (unfold PGSIZE; lia). unfold PGSIZE.
  repeat (case_match; [|lia]). done.
Qed.

#[local] Opaque memset memmove store32 load32.

Lemma table_entry a : a mod PGSIZE = 0 -> Z.lor (Z.lor (Z.lor a PTE_P) PTE_W) PTE_U = a + 7.
Proof. intros Ha. rewrite <- !Z.lor_assoc. by apply lor_flags. Qed.

(** The free list's first page moves into the tables. *)
Lemma own_insert dir T R i t l : T !! i = None ->
  dir :: vals (<[i := t]> T) ++ R ++ l ≡ₚ dir :: vals T ++ R ++ t :: l.
Proof. intros Hi. rewrite (vals_insert T i t Hi). simpl. f_equiv. rewrite !app_assoc, Permutation_middle. done. Qed.

Lemma walk_alloc k dir T R t l va :
  vspace k dir T R (t :: l) -> 0 <= va < 2 ^ 32 -> T !! PDX va = None ->
  exists k', walkpgdir dir va true k = Ret (t + 4 * PTX va) k' /\ vm_frame k k' /\
    vspace k' dir (<[PDX va := t]> T) R l /\ same_but [dir; t] (mem k) (mem k') /\
    forall va', 0 <= va' < 2 ^ 32 -> pte (mem k') (<[PDX va := t]> T) va' = pte (mem k) T va'.
Proof.
  intros H Hva Hn. pose proof H as [Hfr Htab Hnd _]. pose proof (vs_all_ok _ _ _ _ _ H) as Hok.
  pose proof (PDX_range va Hva) as Hi.
  assert (page_ok (kend k) t) as Ht by (rewrite Forall_forall in Hok; apply Hok; inlist).
  assert (page_ok (kend k) dir) as Hd by (by apply Forall_cons in Hok as [Hok _]).
  assert (dir <> t) as Hdt by (intros ->; apply NoDup_cons in Hnd as [Hnd _]; apply Hnd; inlist).
  destruct (page_ok_phys _ _ Ht) as (_ & Htm & Htr).
  destruct (kalloc_take k t l Hfr) as (k1 & Ek & Hf1 & Hm1 & Hfr1 & Ht0).
  assert (kend k1 = kend k) as Hke by (by rewrite Hf1).
  unfold walkpgdir, peek, poke. kunfold. cbn [obind].
  rewrite (pt_dir _ _ _ Htab), Hn by done. cbn [from_option]. change (present 0) with false. cbn [negb].
  rewrite Ek. cbn [obind negb]. rewrite (proj2 (Z.eqb_neq t 0)) by done. cbn [obind]. rewrite table_entry by done.
  set (m' := store32 (memset (mem k) t 0 PGSIZE) (dir + 4 * PDX va) (V2P t + 7)).
  exists (k1 <| mem := m' |>). assert (same_but [dir; t] (mem k) m') as Hsame.
  { eapply same_but_trans; [apply (same_but_memset _ _ t); inlist|]. apply (same_but_store32 _ _ dir); [inlist|done]. }
  assert (bytes_ok m') as Hb
    by (apply bytes_ok_store32, bytes_ok_memset; [apply Hfr|unfold PGSIZE; lia]).
  assert (forall i, 0 <= i < 1024 -> load32 m' (t + 4 * i) = 0) as Hzero.
  { intros i Hi'. unfold m'. rewrite (load_same [dir] (memset (mem k) t 0 PGSIZE)); [by apply memset_zero_word|..].
    - apply (same_but_store32 _ _ dir); [inlist|done].
    - apply Ht.
    - constructor; [apply Hd|constructor].
    - rewrite list_elem_of_singleton. congruence.
    - done. }
  assert (Forall (fun q => q mod PGSIZE = 0) [dir; t]) as Hal by (repeat constructor; [apply Hd|apply Ht]).
  split_and!.
  - unfold m'. rewrite <- Hm1. apply (f_equal (Ret _)). kernel_ext.
  - rewrite Hf1. unfold vm_frame. kernel_ext.
  - assert (NoDup (dir :: vals (<[PDX va:=t]> T) ++ R ++ l)) as Hnd' by (by rewrite own_insert).
    split; [| | done |].
    + apply (free_rep_mem k1 l m' [dir; t]); try done; [by rewrite Hm1|].
      intros p Hp Hl. apply NoDup_cons in Hnd as [Hd' Hnd]. rewrite !elem_of_cons, elem_of_nil in Hp.
      destruct Hp as [-> | [-> | []]]; [apply Hd'; inlist|].
      apply NoDup_app in Hnd as (_ & _ & Hnd). apply NoDup_app in Hnd as (_ & _ & Hnd). by apply NoDup_cons in Hnd as [Hnd _].
    + split.
      * intros i Hi'. change (mem (k1 <| mem := m' |>)) with m'. unfold m'. destruct (decide (i = PDX va)) as [->|Hne].
        -- rewrite load32_store32, lookup_insert_eq. cbn [from_option]. apply u32_small. unfold PHYSTOP in Htr. lia.
        -- rewrite load32_store32_other, lookup_insert_ne by (done || lia).
           rewrite (load_same [t] (mem k)); [by apply Htab|apply (same_but_memset _ _ t); inlist|apply Hd|..].
           ++ constructor; [apply Ht|constructor].
           ++ by rewrite list_elem_of_singleton.
           ++ done.
      * intros i t' Hi'. destruct (decide (i = PDX va)) as [->|Hne]; [done|]. rewrite lookup_insert_ne in Hi' by done.
        by apply (pt_idx _ _ _ Htab i t').
    + change (kend (k1 <| mem := m' |>)) with (kend k1). rewrite Hke. rewrite (Permutation_app_comm (vals _) R), (vals_insert T _ t Hn) in *.
      rewrite !Forall_forall in *. intros p Hp. apply Hok. revert Hp. inlist.
  - done.
  - intros va' Hva'. unfold pte. change (mem (k1 <| mem := m' |>)) with m'. destruct (decide (PDX va' = PDX va)) as [E|Hne].
    + rewrite E, lookup_insert_eq, Hn. cbn [from_option]. by apply Hzero, PTX_range.
    + rewrite lookup_insert_ne by done. destruct (T !! PDX va') as [t'|] eqn:E; [|done]. cbn [from_option].
      destruct (vs_tab_page _ _ _ _ _ _ _ H E) as (Ht' & Hne' & _ & Hnl).
      apply (load_same [dir; t]); [done|apply Ht'|done| |by apply PTX_range].
      intros Hin. rewrite !elem_of_cons, elem_of_nil in Hin. destruct Hin as [-> | [-> | []]]; [done|]. apply Hnl. inlist.
Qed.

(** Writing the entry of [va] changes the translation of its page only. *)
Lemma set_pte k dir T R l va t v :
  vspace k dir T R l -> 0 <= va < 2 ^ 32 -> T !! PDX va = Some t -> 0 <= v < 2 ^ 32 ->
  let k' := k <| mem ::= fun m => store32 m (t + 4 * PTX va) v |> in
  vspace k' dir T R l /\ same_but [t] (mem k) (mem k') /\
  forall va', 0 <= va' < 2 ^ 32 ->
    pte (mem k') T va' = if va' / PGSIZE =? va / PGSIZE then v else pte (mem k) T va'.
Proof.
  intros H Hva Ht Hv k'. destruct (vs_tab_page _ _ _ _ _ _ _ H Ht) as (Hok & Hdir & HR & Hl).
  pose proof (PTX_range va Hva) as Hx. change (mem k') with (store32 (mem k) (t + 4 * PTX va) v).
  assert (same_but [t] (mem k) (store32 (mem k) (t + 4 * PTX va) v)) as Hsame
    by (apply same_but_store32; [inlist|done]).
  assert (Forall (fun q => q mod PGSIZE = 0) [t]) as Hal by (constructor; [apply Hok|constructor]).
  assert (page_ok (kend k) dir) as Hd by (pose proof (vs_ok _ _ _ _ _ H) as Ho; by apply Forall_cons in Ho as [Ho _]).
  split; [|split; [done|]].
  - split; [| |apply H|apply H].
    + apply (free_rep_mem k l _ [t]); try done; [apply H|apply bytes_ok_store32, H|].
      intros p Hp. apply list_elem_of_singleton in Hp as ->. done.
    + split; [|apply (vs_tab _ _ _ _ _ H)]. intros i Hi.
      change (mem k') with (store32 (mem k) (t + 4 * PTX va) v).
      rewrite (load_same [t] (mem k)); [by apply (vs_tab _ _ _ _ _ H)|done|apply Hd|done| |done].
      rewrite list_elem_of_singleton. congruence.
  - intros va' Hva'. unfold pte. destruct (Z.eqb_spec (va' / PGSIZE) (va / PGSIZE)) as [E|E].
    + destruct (page_index va' va Hva' Hva E) as [-> ->]. rewrite Ht. cbn [from_option].
      rewrite load32_store32. by apply u32_small.
    + destruct (T !! PDX va') as [t'|] eqn:E'; [|done]. cbn [from_option].
      destruct (decide (t' = t)) as [->|Hne].
      * assert (PDX va' = PDX va) as Ed by (by eapply vs_tab_inj).
        assert (PTX va' <> PTX va) as Hpx by (intros Ep; apply E; by apply index_page).
        rewrite load32_store32_other; [done|]. lia.
      * destruct (vs_tab_page _ _ _ _ _ _ _ H E') as (Hok' & _).
        apply (load_same [t]); [done|apply Hok'|done|by rewrite list_elem_of_singleton|by apply PTX_range].
Qed.

(** The pages of the tables and of the free list, which page-table code may write. *)
Definition pool (dir : Z) (T : gmap Z Z) (l : list Z) : list Z := dir :: vals T ++ l.

(** What mapping does to a space: pages move from the free list to the tables, and
    nothing else in memory changes. *)
Record grown (k k' : kernel) (dir : Z) (T T' : gmap Z Z) (R l l' : list Z) : Prop := {
  gr_frame : vm_frame k k';
  gr_space : vspace k' dir T' R l';
  gr_pool : pool dir T' l' ≡ₚ pool dir T l;
  gr_mem : same_but (pool dir T l) (mem k) (mem k');
}.

Lemma grown_refl k dir T R l : vspace k dir T R l -> grown k k dir T T R l l.
Proof. intros H. split; try done. Qed.

Lemma grown_trans k1 k2 k3 dir T1 T2 T3 R l1 l2 l3 :
  grown k1 k2 dir T1 T2 R l1 l2 -> grown k2 k3 dir T2 T3 R l2 l3 -> grown k1 k3 dir T1 T3 R l1 l3.
Proof.
  intros [F1 S1 P1 M1] [F2 S2 P2 M2]. split; [by etrans|done|by etrans|].
  eapply same_but_trans; [done|]. eapply same_but_mono; [|done]. intros p. by rewrite P1.
Qed.

Lemma pool_tab dir T l i t : T !! i = Some t -> t ∈ pool dir T l.
Proof. intros Hi. unfold pool. assert (t ∈ vals T) by (apply elem_of_vals; eauto). inlist. Qed.

Lemma grown_write k dir T R l i t m' :
  T !! i = Some t -> same_but [t] (mem k) m' -> vspace (k <| mem := m' |>) dir T R l ->
  grown k (k <| mem := m' |>) dir T T R l l.
Proof.
  intros Ht Hm Hs. split; [unfold vm_frame; kernel_ext|done|done|].
  eapply same_but_mono; [|exact Hm]. intros p Hp. apply list_elem_of_singleton in Hp as ->. by eapply pool_tab.
Qed.

(** [walkpgdir] with [alloc]: it fails only if memory is exhausted. *)
Lemma walk_spec k dir T R l va :
  vspace k dir T R l -> 0 <= va < 2 ^ 32 ->
  (T !! PDX va = None /\ l = [] /\ walkpgdir dir va true k = Ret 0 k) \/
  exists k' T' l' t, walkpgdir dir va true k = Ret (t + 4 * PTX va) k' /\ t + 4 * PTX va <> 0 /\
    grown k k' dir T T' R l l' /\ T' !! PDX va = Some t /\
    forall va', 0 <= va' < 2 ^ 32 -> pte (mem k') T' va' = pte (mem k) T va'.
Proof.
  intros H Hva. pose proof (PTX_range va Hva) as Hx. destruct (T !! PDX va) as [t|] eqn:Et.
  - right. exists k, T, l, t. destruct (vs_tab_page _ _ _ _ _ _ _ H Et) as (Hok & _). apply page_ok_pos in Hok.
    split_and!; [by eapply walk_hit|lia|by apply grown_refl|done|done].
  - destruct l as [|t l]; [left|right].
    + split_and!; try done. unfold walkpgdir, peek. kunfold. cbn [obind].
      rewrite (pt_dir _ _ _ (vs_tab _ _ _ _ _ H)), Et by (by apply PDX_range). cbn [from_option].
      change (present 0) with false. cbn [negb]. rewrite kalloc_none by apply H. done.
    + destruct (walk_alloc k dir T R t l va H Hva Et) as (k' & E & Hf & Hs & Hm & Hp).
      assert (page_ok (kend k) t) as Hok.
      { pose proof (vs_all_ok _ _ _ _ _ H) as Ho. rewrite Forall_forall in Ho. apply Ho. inlist. }
      apply page_ok_pos in Hok. exists k', (<[PDX va := t]> T), l, t. split_and!; try done; [lia| |apply lookup_insert_eq].
      split; try done.
      * unfold pool. rewrite (vals_insert _ _ _ Et). simpl. f_equiv. by rewrite Permutation_middle.
      * eapply same_but_mono; [|done]. intros p. unfold pool. inlist.
Qed.

(** ** Mapping *)

(** The entry [mappages] writes. *)
Definition entry (pa perm : Z) : Z := Z.lor (Z.lor pa perm) PTE_P.

Lemma entry_val pa perm : pa mod PGSIZE = 0 -> 0 <= perm < PGSIZE ->
  entry pa perm = pa + Z.lor perm 1 /\ 0 <= Z.lor perm 1 < PGSIZE.
Proof.
  intros Ha Hp. assert (0 <= Z.lor perm 1 < PGSIZE) as Hb.
  { split; [apply Z.lor_nonneg; lia|]. change PGSIZE with (2 ^ 12) in *. apply Z.log2_lt_cancel.
    rewrite Z.log2_lor by lia. change (Z.log2 1) with 0. change (Z.log2 (2 ^ 12)) with 12.
    apply Z.max_lub_lt; [|lia]. destruct (Z.eq_dec perm 0) as [->|]; [done|]. apply Z.log2_lt_pow2; lia. }
  split; [|done]. unfold entry, PTE_P. rewrite <- Z.lor_assoc. by apply lor_flags.
Qed.

(** [n] pages from [a] on mapped to the physical pages from [pa] on, over [f]. *)
Definition mapping (f : Z -> Z) (a n pa perm va : Z) : Z :=
  if (a <=? va) && (va <? a + PGSIZE * n) then entry (pa + PGSIZE * ((va - a) / PGSIZE)) perm else f va.

Lemma page_range a va : a mod PGSIZE = 0 -> a <= va < a + PGSIZE <-> va / PGSIZE = a / PGSIZE.
Proof. unfold PGSIZE. intros. split; intros; dlia. Qed.

Lemma mapping_step f g a n pa perm va :
  a mod PGSIZE = 0 -> 0 <= n ->
  (forall va, 0 <= va < 2 ^ 32 -> g va = if va / PGSIZE =? a / PGSIZE then entry pa perm else f va) ->
  0 <= va < 2 ^ 32 ->
  mapping g (a + PGSIZE) n (pa + PGSIZE) perm va = mapping f a (n + 1) pa perm va.
Proof.
  intros Ha Hn Hg Hva. unfold mapping. rewrite Hg by done. destruct (Z.eqb_spec (va / PGSIZE) (a / PGSIZE)) as [E|E].
  - apply page_range in E; [|done]. unfold PGSIZE in *. zcases. f_equal. dlia.
  - assert (~ (a <= va < a + PGSIZE)) as Hr by (by rewrite page_range).
    unfold PGSIZE in *. zcases; try done. f_equal. dlia.
Qed.

Lemma mappages_loop_spec left : forall k dir T R l a pa perm,
  vspace k dir T R l -> 0 <= a -> a mod PGSIZE = 0 -> a + PGSIZE * (Z.of_nat left + 1) <= 2 ^ 32 ->
  0 <= pa -> pa mod PGSIZE = 0 -> pa + PGSIZE * (Z.of_nat left + 1) <= 2 ^ 32 -> 0 <= perm < PGSIZE ->
  (forall va, a <= va < a + PGSIZE * (Z.of_nat left + 1) -> present (pte (mem k) T va) = false) ->
  exists r k' T' l' n,
    mappages_loop left dir a (a + PGSIZE * Z.of_nat left) pa perm k = Ret r k' /\ grown k k' dir T T' R l l' /\
    (forall va, 0 <= va < 2 ^ 32 -> pte (mem k') T' va = mapping (pte (mem k) T) a n pa perm va) /\
    ((r = 0 /\ n = Z.of_nat left + 1) \/ (r = -1 /\ 0 <= n <= Z.of_nat left /\ l' = [])).
Proof.
  induction left as [|left IH]; intros k dir T R l a pa perm H Ha0 Ham Har Hp0 Hpm Hpr Hperm Hfree;
    assert (0 <= a < 2 ^ 32) as Hva by (unfold PGSIZE in Har; lia);
    destruct (entry_val pa perm Hpm Hperm) as [Ee He];
    assert (0 <= entry pa perm < 2 ^ 32) as Her by (rewrite Ee; unfold PGSIZE in *; lia);
    cbn [mappages_loop]; unfold mbind, K_bind, mret, K_ret;
    (destruct (walk_spec k dir T R l a H Hva) as [(_ & -> & ->)|(k1 & T1 & l1 & t & -> & Hnz & Hg & Ht & Hp1)];
      [cbn [obind]; change (0 =? 0) with true; exists (-1), k, T, [], 0; split_and!; try done;
       [intros va _; unfold mapping; unfold PGSIZE; zcases; done|right; split_and!; (done || lia)]|]);
    cbn [obind]; rewrite (proj2 (Z.eqb_neq _ _)) by done; unfold peek, gets; cbn [obind].
  all: assert (present (load32 (mem k1) (t + 4 * PTX a)) = false) as ->
    by (specialize (Hp1 a Hva); unfold pte in Hp1 at 1; rewrite Ht in Hp1; cbn [from_option] in Hp1; rewrite Hp1;
        apply Hfree; unfold PGSIZE; lia).
  all: unfold poke, modify; cbn [obind];
    destruct (set_pte k1 dir T1 R l1 a t (entry pa perm) (gr_space _ _ _ _ _ _ _ _ Hg) Hva Ht Her) as (Hs2 & Hm2 & Hp2);
    fold (entry pa perm); set (k2 := k1 <| mem ::= _ |>) in *.
  all: assert (grown k k2 dir T T1 R l l1) as Hg2 by (eapply grown_trans; [done|]; by eapply grown_write).
  all: assert (forall va, 0 <= va < 2 ^ 32 ->
      pte (mem k2) T1 va = if va / PGSIZE =? a / PGSIZE then entry pa perm else pte (mem k) T va) as Hp2'
    by (intros va Hv; rewrite Hp2 by done; case_match; [done|by apply Hp1]).
  - rewrite Z.add_0_r, Z.eqb_refl. exists 0, k2, T1, l1, 1. split_and!; try done; [|by left].
    intros va Hv. change 1 with (0 + 1).
    rewrite <- (mapping_step (pte (mem k) T) (pte (mem k2) T1) a 0 pa perm va) by (done || lia).
    unfold mapping. unfold PGSIZE. zcases; done.
  - rewrite (proj2 (Z.eqb_neq _ _)) by (unfold PGSIZE; lia).
    rewrite !u32_small by (unfold PGSIZE in *; lia).
    replace (a + PGSIZE * Z.of_nat (S left)) with (a + PGSIZE + PGSIZE * Z.of_nat left) by lia.
    destruct (IH k2 dir T1 R l1 (a + PGSIZE) (pa + PGSIZE) perm) as (r & k' & T' & l' & n & -> & Hg' & Hp' & Hr);
      try (unfold PGSIZE in *; (lia || dlia)); [apply Hg2|..].
    + intros va Hv. rewrite Hp2' by (unfold PGSIZE in *; lia). rewrite (proj2 (Z.eqb_neq _ _)) by (unfold PGSIZE in *; dlia).
      apply Hfree. unfold PGSIZE in *. lia.
    + exists r, k', T', l', (n + 1). split_and!; try done.
      * by eapply grown_trans.
      * intros va Hv. rewrite Hp' by done. apply mapping_step; try done. lia.
      * destruct Hr as [[-> ->] | (-> & Hn & ->)]; [left; lia|right; split_and!; lia || done].
Qed.

(** [mappages] of [n] whole pages. *)
Lemma mappages_spec k dir T R l va n pa perm :
  vspace k dir T R l -> 0 < n -> 0 <= va -> va mod PGSIZE = 0 -> va + PGSIZE * n <= 2 ^ 32 ->
  0 <= pa -> pa mod PGSIZE = 0 -> pa + PGSIZE * n <= 2 ^ 32 -> 0 <= perm < PGSIZE ->
  (forall va', va <= va' < va + PGSIZE * n -> present (pte (mem k) T va') = false) ->
  exists r k' T' l' m,
    mappages dir va (u32 (PGSIZE * n)) pa perm k = Ret r k' /\ grown k k' dir T T' R l l' /\
    (forall va', 0 <= va' < 2 ^ 32 -> pte (mem k') T' va' = mapping (pte (mem k) T) va m pa perm va') /\
    ((r = 0 /\ m = n) \/ (r = -1 /\ 0 <= m < n /\ l' = [])).
Proof.
  intros H Hn Hv0 Hvm Hvr Hp0 Hpm Hpr Hperm Hfree. unfold mappages.
  rewrite (pgrounddown_aligned va) by (done || (unfold PGSIZE in *; lia)).
  assert (PGROUNDDOWN (u32 (va + u32 (PGSIZE * n) - 1)) = va + PGSIZE * (n - 1)) as ->.
  { unfold u32. rewrite <- Zminus_mod_idemp_l, Zplus_mod_idemp_r, Zminus_mod_idemp_l.
    rewrite Z.mod_small by (unfold PGSIZE in *; lia).
    rewrite pgrounddown_spec by (unfold PGSIZE in *; lia). unfold PGSIZE in *. dlia. }
  replace (Z.to_nat (u32 (va + PGSIZE * (n - 1) - va) / PGSIZE)) with (Z.to_nat (n - 1)).
  2: { rewrite u32_small by (unfold PGSIZE in *; lia). f_equal. unfold PGSIZE. dlia. }
  destruct (mappages_loop_spec (Z.to_nat (n - 1)) k dir T R l va pa perm) as (r & k' & T' & l' & m & E & Hg & Hp & Hr);
    rewrite ?Z2Nat.id, ?Z.sub_add by lia; try done.
  rewrite Z2Nat.id in E, Hr by lia. exists r, k', T', l', m. split_and!; try done.
  destruct Hr as [[-> ->] | (-> & Hm & ->)]; [left; lia|right; split_and!; done || lia].
Qed.

(** The hardware finds what the entries say. *)
Lemma mmu_pte k dir T R l va :
  vspace k dir T R l -> 0 <= va < 2 ^ 32 ->
  mmu (mem k) (V2P dir) va =
    let e := pte (mem k) T va in
    if present e then Some (PTE_ADDR e + va mod PGSIZE, Z.land 7 (PTE_FLAGS e)) else None.
Proof.
  intros H Hva. assert (page_ok (kend k) dir) as Hd
    by (pose proof (vs_ok _ _ _ _ _ H) as Ho; by apply Forall_cons in Ho as [Ho _]).
  unfold mmu, pte. destruct (entry_page _ dir 0 Hd) as [E0 _]; [unfold PGSIZE; lia|]. rewrite Z.add_0_r in E0.
  rewrite E0, (pt_dir _ _ _ (vs_tab _ _ _ _ _ H)) by (by apply PDX_range).
  destruct (T !! PDX va) as [t|] eqn:E; [|done]. cbn [from_option].
  destruct (vs_tab_page _ _ _ _ _ _ _ H E) as (Ht & _). destruct (page_ok_phys _ _ Ht) as (_ & Hm & _).
  rewrite present_flag by done. change (Z.odd 7) with true. cbv iota.
  by destruct (entry_page _ t 7 Ht) as [-> ->].
Qed.

(** ** Moving pages between the free list and their users *)
Lemma tables_same k dir T R l m' P :
  vspace k dir T R l -> same_but P (mem k) m' -> Forall (fun q => q mod PGSIZE = 0) P ->
  dir ∉ P -> (forall t, t ∈ vals T -> t ∉ P) ->
  pgtab m' dir T /\ forall va, 0 <= va < 2 ^ 32 -> pte m' T va = pte (mem k) T va.
Proof.
  intros H Hs HP Hd Ht. assert (page_ok (kend k) dir) as Hdo
    by (pose proof (vs_ok _ _ _ _ _ H) as Ho; by apply Forall_cons in Ho as [Ho _]).
  split; [split; [|apply (vs_tab _ _ _ _ _ H)]|].
  - intros i Hi. rewrite (load_same P (mem k)); [by apply (vs_tab _ _ _ _ _ H)|done|apply Hdo|done..].
  - intros va Hva. unfold pte. destruct (T !! PDX va) as [t|] eqn:E; [|done]. cbn [from_option].
    destruct (vs_tab_page _ _ _ _ _ _ _ H E) as (Hok & _).
    apply (load_same P); [done|apply Hok|done| |by apply PTX_range]. apply Ht, elem_of_vals. eauto.
Qed.

Lemma vspace_perm k dir T R R' l : R ≡ₚ R' -> vspace k dir T R l -> vspace k dir T R' l.
Proof. intros HR [H1 H2 H3 H4]. split; try done; by rewrite <- HR. Qed.

(** [kalloc] takes a page off the free list. *)
Lemma vspace_take k dir T R p l : vspace k dir T R (p :: l) ->
  exists k', kalloc k = Ret p k' /\ p <> 0 /\ vm_frame k k' /\ mem k' = mem k /\ vspace k' dir T (p :: R) l.
Proof.
  intros H. destruct (kalloc_take k p l (vs_free _ _ _ _ _ H)) as (k' & E & Hf & Hm & Hr & Hp).
  exists k'. split_and!; try done. pose proof (vs_all_ok _ _ _ _ _ H) as Hok.
  assert (vals T ++ R ++ p :: l ≡ₚ vals T ++ (p :: R) ++ l) as Hp'.
  { f_equiv. symmetry. apply Permutation_middle. }
  assert (kend k' = kend k) as Hke by (by rewrite Hf). split; [done|by rewrite Hm; apply H| |].
  - rewrite <- Hp'. apply H.
  - rewrite Hke, Forall_forall in *. intros q Hq. apply Hok. revert Hq. inlist.
Qed.

(** [kfree] puts one back; only that page changes. *)
Lemma kfree_give k l p : free_rep k l -> page_ok (kend k) p -> p ∉ l ->
  exists k', kfree p k = Ret tt k' /\ vm_frame k k' /\ same_but [p] (mem k) (mem k') /\ free_rep k' (p :: l).
Proof.
  intros H Hp Hn. pose proof (kfree_rep k l p H Hp Hn) as Hr. rewrite kfree_eq in Hr |- * by (done || apply H).
  cbn [returns] in Hr. destruct Hr as [Hr _]. eexists. split; [done|].
  split_and!; [unfold vm_frame; kernel_ext| |done].
  intros x Hx. apply kfree_mem_other. specialize (Hx p). unfold in_page in Hx. rewrite list_elem_of_singleton in Hx.
  specialize (Hx eq_refl). lia.
Qed.

Lemma vspace_give k dir T R p l : vspace k dir T (p :: R) l ->
  exists k', kfree p k = Ret tt k' /\ vm_frame k k' /\ same_but [p] (mem k) (mem k') /\ vspace k' dir T R (p :: l) /\
    forall va, 0 <= va < 2 ^ 32 -> pte (mem k') T va = pte (mem k) T va.
Proof.
  intros H. pose proof (vs_all_ok _ _ _ _ _ H) as Hok. pose proof (vs_own _ _ _ _ _ H) as Hnd.
  assert (page_ok (kend k) p) as Hp by (rewrite Forall_forall in Hok; apply Hok; inlist).
  apply NoDup_cons in Hnd as [Hd Hnd]. pose proof Hnd as Hnd'. apply NoDup_app in Hnd as (_ & HT & Hnd).
  simpl in Hnd. apply NoDup_cons in Hnd as [Hpn _].
  destruct (kfree_give k l p (vs_free _ _ _ _ _ H) Hp) as (k' & E & F & Hs & Hr); [intros Hin; apply Hpn; inlist|].
  exists k'. split; [done|].
  destruct (tables_same k dir T (p :: R) l _ [p] H Hs) as [Htab Hpte].
  { constructor; [apply Hp|constructor]. }
  { rewrite list_elem_of_singleton. intros ->. apply Hd. inlist. }
  { intros t Ht. rewrite list_elem_of_singleton. intros ->. apply (HT p Ht). inlist. }
  split_and!; [done..| |done]. split; [done|done| |].
  - assert (vals T ++ R ++ p :: l ≡ₚ vals T ++ (p :: R) ++ l) as -> by perm. by constructor.
  - rewrite F. change (kend _) with (kend k) at 1. rewrite Forall_forall in *. intros q Hq. apply Hok. revert Hq. inlist.
Qed.

(** ** User address spaces *)

(** [U] gives, for each user page that is mapped, its physical page (as a kernel address)
    and the flags of its entry. *)
Definition upages (U : gmap Z (Z * Z)) : list Z := (fun x => x.2.1) <$> map_to_list U.

Record uspace (m : memory) (T : gmap Z Z) (U : gmap Z (Z * Z)) : Prop := {
  us_pte va : 0 <= va < KERNBASE -> va mod PGSIZE = 0 ->
    pte m T va = from_option (fun e => V2P e.1 + e.2) 0 (U !! va);
  us_key va e : U !! va = Some e -> (0 <= va < KERNBASE /\ va mod PGSIZE = 0) /\ 0 <= e.2 < PGSIZE /\ Z.odd e.2 = true;
}.

(** A user address space: directory, page tables, user pages; [R] are the other pages in
    use and [l] the free list. *)
Record aspace (k : kernel) (dir : Z) (T : gmap Z Z) (U : gmap Z (Z * Z)) (R l : list Z) : Prop := {
  as_space : vspace k dir T (upages U ++ R) l;
  as_user : uspace (mem k) T U;
  as_kend : KERNBASE < kend k;
}.

Lemma elem_of_upages U p : p ∈ upages U <-> exists va f, U !! va = Some (p, f).
Proof.
  unfold upages. rewrite list_elem_of_fmap. split.
  - intros ([va [p' f]] & -> & Hi). exists va, f. by apply elem_of_map_to_list in Hi.
  - intros (va & f & Hi). exists (va, (p, f)). split; [done|]. by apply elem_of_map_to_list.
Qed.

Lemma upages_insert U va p f : U !! va = None -> upages (<[va := (p, f)]> U) ≡ₚ p :: upages U.
Proof. intros H. unfold upages. by rewrite map_to_list_insert. Qed.

Lemma upages_delete U va p f : U !! va = Some (p, f) -> upages U ≡ₚ p :: upages (delete va U).
Proof. intros H. rewrite <- (insert_delete_id U va (p, f) H) at 1. apply upages_insert, lookup_delete_eq. Qed.

Lemma as_page k dir T U R l va p f : aspace k dir T U R l -> U !! va = Some (p, f) ->
  page_ok (kend k) p /\ V2P p <> 0.
Proof.
  intros H Hu. pose proof (vs_all_ok _ _ _ _ _ (as_space _ _ _ _ _ _ H)) as Hok.
  assert (p ∈ upages U) as Hp by (apply elem_of_upages; eauto).
  assert (page_ok (kend k) p) as Ho by (rewrite Forall_forall in Hok; apply Hok; inlist). split; [done|].
  destruct (page_ok_phys _ _ Ho) as (-> & _). destruct Ho as (_ & Ho & _). pose proof (as_kend _ _ _ _ _ _ H). lia.
Qed.

Lemma pte_page m T va va' : 0 <= va < 2 ^ 32 -> 0 <= va' < 2 ^ 32 -> va / PGSIZE = va' / PGSIZE ->
  pte m T va = pte m T va'.
Proof. intros Hv Hv' E. destruct (page_index va va' Hv Hv' E) as [E1 E2]. unfold pte. by rewrite E1, E2. Qed.

(** An unmapped page has an empty entry. *)
Lemma us_unmapped m T U va : uspace m T U -> 0 <= va < KERNBASE -> va mod PGSIZE = 0 ->
  pte m T va = 0 <-> U !! va = None.
Proof.
  intros [Hp Hk] Hv Hm. rewrite Hp by done. destruct (U !! va) as [[p f]|] eqn:E; simpl; [|done].
  destruct (Hk _ _ E) as (_ & Hf & Ho). split; [|done]. intros H0. simpl in *.
  assert (f = 0) as -> by (pose proof (Z.mod_pos_bound (p - KERNBASE) (2 ^ 32)); unfold V2P, u32 in H0; lia). done.
Qed.

(** What unmapping does: pages move from the space to the free list, and no other page
    but the tables changes. *)
Record shrunk (k k' : kernel) (dir : Z) (T : gmap Z Z) (U U' : gmap Z (Z * Z)) (R l l' : list Z) : Prop := {
  sh_frame : vm_frame k k';
  sh_space : aspace k' dir T U' R l';
  sh_pages : upages U' ++ l' ≡ₚ upages U ++ l;
  sh_mem : same_but (vals T ++ l') (mem k) (mem k');
  sh_free : l ⊆ l';
  sh_kern va : KERNBASE <= va < 2 ^ 32 -> pte (mem k') T va = pte (mem k) T va;
}.

Lemma shrunk_refl k dir T U R l : aspace k dir T U R l -> shrunk k k dir T U U R l l.
Proof. intros H. by split. Qed.

Lemma shrunk_trans k1 k2 k3 dir T U1 U2 U3 R l1 l2 l3 :
  shrunk k1 k2 dir T U1 U2 R l1 l2 -> shrunk k2 k3 dir T U2 U3 R l2 l3 -> shrunk k1 k3 dir T U1 U3 R l1 l3.
Proof.
  intros [F1 S1 P1 M1 L1 K1] [F2 S2 P2 M2 L2 K2]. split; [by etrans|done|by etrans| |by etrans|].
  - eapply same_but_trans; [|done]. eapply same_but_mono; [|done]. intros p. rewrite !elem_of_app.
    intros [?|?]; [by left|right]. by apply L2.
  - intros va Hva. by rewrite K2, K1.
Qed.

Lemma kern_page va va' : va mod PGSIZE = 0 -> 0 <= va < KERNBASE -> KERNBASE <= va' -> va' / PGSIZE <> va / PGSIZE.
Proof. unfold PGSIZE, KERNBASE. intros. dlia. Qed.

Lemma unmap_spec k dir T U R l va t :
  aspace k dir T U R l -> 0 <= va < KERNBASE -> va mod PGSIZE = 0 -> T !! PDX va = Some t ->
  exists k' l', unmap (t + 4 * PTX va) k = Ret tt k' /\ shrunk k k' dir T U (delete va U) R l l'.
Proof.
  intros H Hva Hm Ht. assert (0 <= va < 2 ^ 32) as Hv by (unfold KERNBASE in Hva; lia).
  pose proof H as [Hs Hu Hke]. pose proof (us_pte _ _ _ Hu va Hva Hm) as Ep.
  unfold unmap, peek. kunfold. cbn [obind].
  unfold pte in Ep. rewrite Ht in Ep. cbn [from_option] in Ep. rewrite Ep.
  destruct (U !! va) as [[p f]|] eqn:E; cbn [from_option].
  2: { change (present 0) with false. exists k, l. split; [done|]. rewrite delete_id by done. by apply shrunk_refl. }
  destruct (us_key _ _ _ Hu _ _ E) as (_ & Hf & Hodd). cbn [fst snd] in *.
  destruct (as_page _ _ _ _ _ _ _ _ _ H E) as [Hok Hnz]. destruct (page_ok_phys _ _ Hok) as (_ & Hpm & Hpr).
  rewrite present_flag, Hodd by done. unfold PHYSTOP in Hpr.
  destruct (pte_parts (V2P p) f) as [E1 _]; [done|lia|done|]. destruct (entry_page _ p f Hok Hf) as [E2 _].
  rewrite E2, E1, (proj2 (Z.eqb_neq _ _)) by done.
  assert (upages U ++ R ≡ₚ p :: upages (delete va U) ++ R) as Hpu by (by rewrite (upages_delete U va p f E)).
  destruct (vspace_give k dir T (upages (delete va U) ++ R) p l) as (k1 & -> & F1 & M1 & S1 & Pt1);
    [by eapply vspace_perm|].
  cbn [obind]. unfold poke, modify.
  destruct (set_pte k1 dir T _ (p :: l) va t 0 S1 Hv Ht) as (S2 & M2 & Pt2); [lia|].
  exists (k1 <| mem ::= fun m => store32 m (t + 4 * PTX va) 0 |>), (p :: l). split; [done|].
  assert (t ∈ vals T) as Htv by (apply elem_of_vals; eauto).
  split.
  - rewrite F1. unfold vm_frame. kernel_ext.
  - split; [done| |by rewrite F1]. split.
    + intros va' Hva' Hm'. assert (0 <= va' < 2 ^ 32) as Hv' by (unfold KERNBASE in Hva'; lia).
      rewrite Pt2, Pt1 by done. destruct (decide (va' = va)) as [->|Hne].
      * by rewrite Z.eqb_refl, lookup_delete_eq.
      * rewrite lookup_delete_ne by done. rewrite (proj2 (Z.eqb_neq _ _)) by (unfold PGSIZE in *; dlia). by apply Hu.
    + intros va' e He. apply lookup_delete_Some in He as [_ He]. by apply Hu.
  - rewrite (upages_delete U va p f E). simpl. by rewrite Permutation_middle.
  - eapply same_but_trans; eapply same_but_mono; [|exact M1| |exact M2]; intros q Hq; apply list_elem_of_singleton in Hq as ->;
      apply elem_of_app; [right; left|by left].
  - intros q Hq. by right.
  - intros va' Hva'. assert (0 <= va' < 2 ^ 32) as Hv' by (unfold KERNBASE in Hva'; lia). rewrite Pt2 by done.
    rewrite (proj2 (Z.eqb_neq _ _)) by (apply kern_page; done || lia). by apply Pt1.
Qed.

(** ** Unmapping *)
Lemma next_dir a : 0 <= a < KERNBASE ->
  u32 (u32 (PGADDR (PDX a + 1) 0 0 - PGSIZE) + PGSIZE) = 2 ^ 22 * (PDX a + 1).
Proof.
  intros Ha. assert (0 <= a < 2 ^ 32) as Hv by (unfold KERNBASE in Ha; lia).
  assert (PDX a <= 511) as Hd by (rewrite PDX_spec by done; unfold KERNBASE in Ha; dlia).
  pose proof (PDX_range a Hv) as Hr. unfold PGADDR. rewrite Z.shiftl_0_l, !Z.lor_0_r, Z.shiftl_mul_pow2 by (unfold PDXSHIFT; lia).
  change (2 ^ PDXSHIFT) with (2 ^ 22). unfold u32, PGSIZE.
  rewrite (Z.mod_small ((PDX a + 1) * 2 ^ 22)), Zplus_mod_idemp_l, Z.mod_small by lia. lia.
Qed.

Lemma deallocuvm_loop_spec left dir T R oldsz : oldsz <= KERNBASE -> forall k U l a,
  aspace k dir T U R l -> 0 <= a -> a mod PGSIZE = 0 -> oldsz - a <= PGSIZE * Z.of_nat left ->
  exists k' U' l', deallocuvm_loop left dir a oldsz k = Ret tt k' /\ shrunk k k' dir T U U' R l l' /\
    forall va, U' !! va = if decide (a <= va < oldsz) then None else U !! va.
Proof.
  intros Hsz. induction left as [|left IH]; intros k U l a H Ha Hm Hf; cbn [deallocuvm_loop];
    (destruct (Z.ltb_spec a oldsz) as [Hlt|Hge];
      [|exists k, U, l; split_and!; [done|by apply shrunk_refl|intros va; by rewrite decide_False by lia]]).
  { unfold PGSIZE in Hf. lia. }
  assert (0 <= a < KERNBASE) as Hak by lia. assert (0 <= a < 2 ^ 32) as Hv by (unfold KERNBASE in *; lia).
  pose proof H as [Hs Hu Hke]. unfold mbind, K_bind. destruct (T !! PDX a) as [t|] eqn:Et.
  - destruct (vs_tab_page _ _ _ _ _ _ _ Hs Et) as (Htp & _). apply page_ok_pos in Htp. pose proof (PTX_range a Hv).
    rewrite (walk_hit _ _ _ _ _ _ _ t Hs Hv Et). cbn [obind]. rewrite (proj2 (Z.eqb_neq _ _)) by lia.
    destruct (unmap_spec k dir T U R l a t H Hak Hm Et) as (k1 & l1 & -> & Hsh1). cbn [obind].
    rewrite u32_small by (unfold KERNBASE, PGSIZE in *; lia).
    destruct (IH k1 (delete a U) l1 (a + PGSIZE)) as (k' & U' & l' & -> & Hsh & HU);
      try (unfold PGSIZE in *; (lia || dlia)); [apply Hsh1|].
    exists k', U', l'. split_and!; [done|by eapply shrunk_trans|]. intros va. rewrite HU.
    destruct (decide (va = a)) as [->|Hne].
    + rewrite lookup_delete_eq, (decide_True (P := a <= a < oldsz)) by lia. by case_decide.
    + rewrite lookup_delete_ne by done. repeat case_decide; try done; try (exfalso; unfold PGSIZE in *; lia).
      destruct (U !! va) eqn:E; [|done]. exfalso. apply (us_key _ _ _ Hu) in E as ((_ & Hvm) & _). unfold PGSIZE in *. dlia.
  - rewrite (walk_miss _ _ _ _ _ _ Hs Hv Et). cbn [obind]. change (0 =? 0) with true. cbv iota. rewrite next_dir by done.
    set (a' := 2 ^ 22 * (PDX a + 1)).
    assert (a + PGSIZE <= a' /\ a' mod PGSIZE = 0) as [Ha' Hm'].
    { unfold a'. rewrite PDX_spec by done. unfold PGSIZE in *. dlia. }
    assert (forall va, a <= va < a' -> U !! va = None) as Hgap.
    { intros va Hva. destruct (U !! va) as [e|] eqn:E; [|done]. pose proof (us_key _ _ _ Hu _ _ E) as ((Hvr & Hvm) & _).
      rewrite <- E. apply (us_unmapped _ _ _ va Hu); try done. unfold pte.
      assert (PDX va = PDX a) as ->; [|by rewrite Et]. unfold a' in Hva. assert (0 <= va < 2 ^ 32) by (unfold KERNBASE in *; lia).
      rewrite !PDX_spec in * by done. dlia. }
    destruct (IH k U l a') as (k' & U' & l' & -> & Hsh & HU); try done; try (unfold PGSIZE in *; lia).
    exists k', U', l'. split_and!; [done|done|]. intros va. rewrite HU.
    repeat case_decide; try done; try (exfalso; unfold PGSIZE in *; lia). apply Hgap. lia.
Qed.

(** [deallocuvm] frees exactly the pages at or above the new size. *)
Lemma deallocuvm_spec k dir T U R l oldsz newsz :
  aspace k dir T U R l -> 0 <= newsz < oldsz -> oldsz <= KERNBASE ->
  exists k' U' l', deallocuvm dir oldsz newsz k = Ret newsz k' /\ shrunk k k' dir T U U' R l l' /\
    forall va, U' !! va = if decide (PGROUNDUP newsz <= va < oldsz) then None else U !! va.
Proof.
  intros H Hn Ho. unfold deallocuvm. rewrite (proj2 (Z.leb_gt _ _)) by lia.
  destruct (pgroundup_least newsz) as [Hr Hm]; [unfold KERNBASE, PGSIZE in *; lia|]. kunfold.
  destruct (deallocuvm_loop_spec (Z.to_nat ((oldsz - PGROUNDUP newsz + PGSIZE - 1) / PGSIZE)) dir T R oldsz Ho k U l
    (PGROUNDUP newsz)) as (k' & U' & l' & -> & Hsh & HU); try done; [lia|unfold PGSIZE in *; dlia|].
  exists k', U', l'. done.
Qed.

(** ** Mapping user pages *)

(** [mappages] of one page [p] that the caller has taken. *)
Lemma map_page k dir T U R p l va f :
  vspace k dir T (p :: upages U ++ R) l -> uspace (mem k) T U ->
  0 <= va < KERNBASE -> va mod PGSIZE = 0 -> U !! va = None -> 0 <= f < PGSIZE ->
  exists r k' T' l', mappages dir va PGSIZE (V2P p) f k = Ret r k' /\
    grown k k' dir T T' (p :: upages U ++ R) l l' /\
    (forall va', KERNBASE <= va' < 2 ^ 32 -> pte (mem k') T' va' = pte (mem k) T va') /\
    ((r = 0 /\ uspace (mem k') T' (<[va := (p, Z.lor f 1)]> U)) \/ (r = -1 /\ l' = [] /\ uspace (mem k') T' U)).
Proof.
  intros H Hu Hva Hm Hn Hf. assert (page_ok (kend k) p) as Hp.
  { pose proof (vs_all_ok _ _ _ _ _ H) as Ho. rewrite Forall_forall in Ho. apply Ho. inlist. }
  destruct (page_ok_phys _ _ Hp) as (_ & Hpm & Hpr). unfold PHYSTOP in Hpr.
  destruct (entry_val (V2P p) f Hpm Hf) as [Ee He].
  change (mappages dir va PGSIZE) with (mappages dir va (u32 (PGSIZE * 1))).
  assert (forall va', 0 <= va' < 2 ^ 32 -> va' / PGSIZE = va / PGSIZE -> pte (mem k) T va' = 0) as Hz.
  { intros va' Hv' E. rewrite (pte_page _ _ _ va) by (done || (unfold KERNBASE in *; lia)). by apply (us_unmapped _ _ U). }
  destruct (mappages_spec k dir T (p :: upages U ++ R) l va 1 (V2P p) f) as (r & k' & T' & l' & m & E & Hg & Hp' & Hr);
    try done; try (unfold KERNBASE, PGSIZE in *; lia).
  { intros va' Hv'. rewrite Hz; [done|unfold KERNBASE, PGSIZE in *; lia|]. apply page_range; [done|]. unfold PGSIZE in *. lia. }
  exists r, k', T', l'. split; [done|]. split; [done|].
  assert (forall va', 0 <= va' < 2 ^ 32 -> va' / PGSIZE <> va / PGSIZE -> pte (mem k') T' va' = pte (mem k) T va') as Hother.
  { intros va' Hv' Hne. rewrite Hp' by done. unfold mapping. rewrite <- page_range in Hne by done.
    destruct Hr as [[_ ->] | (_ & ? & _)]; unfold PGSIZE in *; zcases; done. }
  split; [intros va' Hv'; apply Hother; [unfold KERNBASE in *; lia|]; apply kern_page; done || lia|].
  destruct Hr as [[-> ->] | (-> & Hm' & ->)]; [left|right]; split_and!; try done; split.
  - intros va' Hv' Hm'. destruct (decide (va' = va)) as [->|Hne].
    + rewrite lookup_insert_eq, Hp' by (unfold KERNBASE in *; lia). unfold mapping. unfold PGSIZE. zcases; [|done..].
      rewrite Z.sub_diag, Z.add_0_r. simpl. by rewrite Ee.
    + rewrite lookup_insert_ne, Hother; [by apply Hu|unfold KERNBASE in *; lia|unfold PGSIZE in *; dlia|done].
  - intros va' e He'. apply lookup_insert_Some in He' as [[<- <-] | [_ He']]; [|by apply Hu].
    split_and!; try done; try lia; simpl; [lia|lia|]. rewrite <- Z.bit0_odd, Z.lor_spec. by rewrite orb_true_r.
  - intros va' Hv' Hm''. rewrite Hp' by (unfold KERNBASE in *; lia). unfold mapping. assert (m = 0) as -> by lia.
    rewrite Z.mul_0_r, Z.add_0_r. destruct (Z.leb_spec va va'), (Z.ltb_spec va' va); try lia; by apply Hu.
  - by apply Hu.
Qed.

(** Writing to a page the caller has taken leaves the tables and the user pages alone. *)
Lemma fill_page k dir T U R p l m' :
  vspace k dir T (p :: upages U ++ R) l -> uspace (mem k) T U -> same_but [p] (mem k) m' -> bytes_ok m' ->
  vspace (k <| mem := m' |>) dir T (p :: upages U ++ R) l /\ uspace m' T U /\
  forall va, 0 <= va < 2 ^ 32 -> pte m' T va = pte (mem k) T va.
Proof.
  intros H Hu Hm Hb. pose proof (vs_all_ok _ _ _ _ _ H) as Ho. pose proof (vs_own _ _ _ _ _ H) as Hnd.
  apply NoDup_cons in Hnd as [Hd Hnd]. apply NoDup_app in Hnd as (_ & HT & Hnd).
  apply NoDup_cons in Hnd as [Hpn _].
  assert (Forall (fun q => q mod PGSIZE = 0) [p]) as Hal.
  { constructor; [|constructor]. rewrite Forall_forall in Ho. eapply page_ok_aligned, Ho. inlist. }
  destruct (tables_same k dir T _ l m' [p] H Hm Hal) as [Htab Hpte].
  { rewrite list_elem_of_singleton. intros ->. apply Hd. inlist. }
  { intros t Ht. rewrite list_elem_of_singleton. intros ->. apply (HT p Ht). inlist. }
  split_and!; try done.
  - split; [|done|apply H|apply H]. apply (free_rep_mem k l m' [p]); try done; [apply H|].
    intros q Hq. apply list_elem_of_singleton in Hq as ->. intros Hin. apply Hpn. inlist.
  - split; [|apply Hu]. intros va Hva Hvm. rewrite Hpte by (unfold KERNBASE in Hva; lia). by apply Hu.
Qed.

Lemma aspace_insert k dir T U R p l va f :
  vspace k dir T (p :: upages U ++ R) l -> uspace (mem k) T (<[va := (p, f)]> U) -> KERNBASE < kend k -> U !! va = None ->
  aspace k dir T (<[va := (p, f)]> U) R l.
Proof.
  intros H Hu Hk Hn. split; [|done|done]. eapply vspace_perm; [|exact H]. by rewrite (upages_insert U va p f Hn).
Qed.

(** Unmapping a range changes only the pages it frees. *)
Lemma shrunk_mem k k' dir T U U' R l l' lo hi :
  shrunk k k' dir T U U' R l l' ->
  (forall va, U' !! va = if decide (lo <= va < hi) then None else U !! va) ->
  forall x, outside (vals T ++ l) x ->
    (forall va p f, U !! va = Some (p, f) -> lo <= va < hi -> ~ in_page p x) -> mem k' x = mem k x.
Proof.
  intros H HU x Ho Hf. apply (sh_mem _ _ _ _ _ _ _ _ _ H). intros q Hq Hx.
  apply elem_of_app in Hq as [Hq|Hq]; [apply (Ho q); [inlist|done]|].
  assert (q ∈ upages U ++ l) as Hq' by (rewrite <- (sh_pages _ _ _ _ _ _ _ _ _ H); inlist).
  apply elem_of_app in Hq' as [Hq'|Hq']; [|apply (Ho q); [inlist|done]].
  apply elem_of_upages in Hq' as (va & f & Hva). destruct (decide (lo <= va < hi)) as [Hr|Hr]; [by apply (Hf va q f)|].
  pose proof (vs_own _ _ _ _ _ (as_space _ _ _ _ _ _ (sh_space _ _ _ _ _ _ _ _ _ H))) as Hnd.
  apply NoDup_cons in Hnd as [_ Hnd]. apply NoDup_app in Hnd as (_ & _ & Hnd). apply NoDup_app in Hnd as (_ & Hnd & _).
  apply (Hnd q); [|done]. apply elem_of_app. left. apply elem_of_upages. exists va, f. by rewrite HU, decide_False.
Qed.

(** What growing a space by a call to [allocuvm] leads to. *)
Record extended (k k' : kernel) (dir : Z) (T T' : gmap Z Z) (U U' : gmap Z (Z * Z)) (R l l' : list Z) : Prop := {
  ex_frame : vm_frame k k';
  ex_space : aspace k' dir T' U' R l';
  ex_pages : vals T' ++ upages U' ++ l' ≡ₚ vals T ++ upages U ++ l;
  ex_kern va : KERNBASE <= va < 2 ^ 32 -> pte (mem k') T' va = pte (mem k) T va;
}.

Lemma extended_trans k1 k2 k3 dir T1 T2 T3 U1 U2 U3 R l1 l2 l3 :
  extended k1 k2 dir T1 T2 U1 U2 R l1 l2 -> extended k2 k3 dir T2 T3 U2 U3 R l2 l3 ->
  extended k1 k3 dir T1 T3 U1 U3 R l1 l3.
Proof.
  intros [F1 S1 P1 K1] [F2 S2 P2 K2]. split; [by etrans|done|by etrans|]. intros va Hva. by rewrite K2, K1.
Qed.

Lemma shrunk_extended k k' dir T U U' R l l' : shrunk k k' dir T U U' R l l' -> extended k k' dir T T U U' R l l'.
Proof. intros [F S P _ _ Kn]. split; try done. by rewrite P. Qed.

(** The console is no part of an address space. *)
Lemma cprintf_aspace fmt args k dir T U R l : aspace k dir T U R l ->
  exists k', cprintf fmt args k = Ret tt k' /\ extended k k' dir T T U U R l l /\ mem k' = mem k.
Proof.
  intros [[H1 H2 H3 H4] Hu Hk]. unfold cprintf. kunfold. eexists. split; [done|]. split; [|done].
  split; [unfold vm_frame; kernel_ext| |done|done]. split; [by split|done|done].
Qed.

Section alloc_fail.
Context (dir : Z) (R : list Z) (oldsz newsz : Z).
Context (Hsz : 0 <= oldsz < newsz) (Hmax : newsz < KERNBASE).

(** The first error exit of [allocuvm]: no page. *)
Lemma alloc_fail k T U : aspace k dir T U R [] ->
  exists k' U' l', (cprintf "allocuvm out of memory\n" [] ;; deallocuvm dir newsz oldsz ;; mret 0) k = Ret 0 k' /\
    extended k k' dir T T U U' R [] l' /\
    (forall va, U' !! va = if decide (PGROUNDUP oldsz <= va < newsz) then None else U !! va) /\
    forall x, outside (vals T) x ->
      (forall va p f, U !! va = Some (p, f) -> PGROUNDUP oldsz <= va < newsz -> ~ in_page p x) -> mem k' x = mem k x.
Proof using Hsz Hmax.
  intros H. unfold mbind, K_bind.
  destruct (cprintf_aspace "allocuvm out of memory\n" [] _ _ _ _ _ _ H) as (k1 & -> & Hx1 & Hm1). cbn [obind].
  destruct (deallocuvm_spec k1 dir T U R [] newsz oldsz) as (k2 & U' & l' & -> & Hsh & HU);
    [apply Hx1|lia|lia|]. cbn [obind]. exists k2, U', l'. split_and!; [done| |done|].
  - by eapply extended_trans, shrunk_extended.
  - intros x Hx Hf. rewrite <- Hm1. eapply shrunk_mem; [done..| |done]. by rewrite app_nil_r.
Qed.

(** The second: a page [p], but no page table for it. *)
Lemma alloc_fail2 k T U p :
  vspace k dir T (p :: upages U ++ R) [] -> uspace (mem k) T U -> KERNBASE < kend k ->
  exists k' U' l', (cprintf "allocuvm out of memory (2)\n" [] ;; deallocuvm dir newsz oldsz ;; kfree p ;; mret 0) k = Ret 0 k' /\
    vm_frame k k' /\ aspace k' dir T U' R (p :: l') /\ upages U' ++ l' ≡ₚ upages U /\
    (forall va, KERNBASE <= va < 2 ^ 32 -> pte (mem k') T va = pte (mem k) T va) /\
    (forall va, U' !! va = if decide (PGROUNDUP oldsz <= va < newsz) then None else U !! va) /\
    forall x, outside (p :: vals T) x ->
      (forall va q f, U !! va = Some (q, f) -> PGROUNDUP oldsz <= va < newsz -> ~ in_page q x) -> mem k' x = mem k x.
Proof using Hsz Hmax.
  intros H Hu Hke. assert (aspace k dir T U (p :: R) []) as Ha.
  { split; [|done|done]. eapply vspace_perm; [|exact H]. apply Permutation_middle. }
  unfold mbind, K_bind.
  destruct (cprintf_aspace "allocuvm out of memory (2)\n" [] _ _ _ _ _ _ Ha) as (k1 & -> & Hx1 & Hm1). cbn [obind].
  destruct (deallocuvm_spec k1 dir T U (p :: R) [] newsz oldsz) as (k2 & U' & l' & -> & Hsh & HU);
    [apply Hx1|lia|lia|]. cbn [obind]. pose proof (sh_space _ _ _ _ _ _ _ _ _ Hsh) as [Hs2 Hu2 Hk2].
  destruct (vspace_give k2 dir T (upages U' ++ R) p l') as (k3 & -> & F3 & M3 & S3 & P3).
  { eapply vspace_perm; [|exact Hs2]. symmetry. apply Permutation_middle. }
  cbn [obind]. exists k3, U', l'.
  assert (vm_frame k k2) as F2 by (etrans; [apply Hx1|apply Hsh]).
  split_and!; try done.
  - by etrans.
  - split; [done| |by rewrite F3]. split; [|apply Hu2]. intros va Hva Hm.
    rewrite P3 by (unfold KERNBASE in Hva; lia). by apply Hu2.
  - rewrite (sh_pages _ _ _ _ _ _ _ _ _ Hsh). by rewrite app_nil_r.
  - intros va Hva. rewrite P3 by (unfold KERNBASE in Hva; lia). rewrite (sh_kern _ _ _ _ _ _ _ _ _ Hsh) by done. by rewrite Hm1.
  - intros x Hx Hf. rewrite M3 by (intros q Hq; apply list_elem_of_singleton in Hq as ->; apply Hx; inlist).
    rewrite <- Hm1. eapply shrunk_mem; [done..| |done]. intros q Hq. rewrite app_nil_r in Hq. apply Hx. inlist.
Qed.
End alloc_fail.

Lemma upd_mem (f : memory -> memory) k : k <| mem ::= f |> = k <| mem := f (mem k) |>.
Proof. done. Qed.

(** The result of [allocuvm]: the range is mapped to zeroed pages for the user, or
    nothing of it is mapped. *)
Definition allocated (k k' : kernel) (dir : Z) (T : gmap Z Z) (U U' : gmap Z (Z * Z)) (l : list Z) (a newsz : Z) : Prop :=
  same_but (pool dir T l) (mem k) (mem k') /\
  (forall va, ~ a <= va < newsz -> U' !! va = U !! va) /\
  (forall va, a <= va < newsz -> va mod PGSIZE = 0 ->
     exists p, U' !! va = Some (p, 7) /\ forall x, in_page p x -> mem k' x = 0).

Definition unallocated (k k' : kernel) (dir : Z) (T : gmap Z Z) (U U' : gmap Z (Z * Z)) (l : list Z) (lo newsz : Z) : Prop :=
  (forall va, U' !! va = if decide (lo <= va < newsz) then None else U !! va) /\
  (forall x, outside (pool dir T l) x ->
     (forall va p f, U !! va = Some (p, f) -> lo <= va < newsz -> ~ in_page p x) -> mem k' x = mem k x).

(** Taking a page, filling it and mapping it: a round of [allocuvm] and of [copyuvm]. *)
Lemma alloc_page (g : memory -> memory) k dir T U R p l a f :
  (forall m, bytes_ok m -> same_but [p] m (g m) /\ bytes_ok (g m)) ->
  aspace k dir T U R (p :: l) -> 0 <= a < KERNBASE -> a mod PGSIZE = 0 -> U !! a = None -> 0 <= f < PGSIZE ->
  exists k1 r k2 T' l', kalloc k = Ret p k1 /\ p <> 0 /\
    mappages dir a PGSIZE (V2P p) f (k1 <| mem ::= g |>) = Ret r k2 /\
    vm_frame k k2 /\ vspace k2 dir T' (p :: upages U ++ R) l' /\ vals T' ++ l' ≡ₚ vals T ++ l /\
    same_but (pool dir T (p :: l)) (mem k) (mem k2) /\ (forall x, in_page p x -> mem k2 x = g (mem k) x) /\
    (forall va, KERNBASE <= va < 2 ^ 32 -> pte (mem k2) T' va = pte (mem k) T va) /\
    ((r = 0 /\ uspace (mem k2) T' (<[a := (p, Z.lor f 1)]> U)) \/ (r = -1 /\ l' = [] /\ uspace (mem k2) T' U)).
Proof.
  intros Hg [Hs Hu Hk] Ha Ham Hn Hfl. destruct (vspace_take _ _ _ _ _ _ Hs) as (k1 & E1 & Hp0 & F1 & M1 & S1).
  destruct (Hg (mem k1)) as [Hm2 Hb2]; [apply (vs_free _ _ _ _ _ S1)|]. set (m2 := g (mem k1)) in *.
  rewrite <- M1 in Hu. destruct (fill_page k1 dir T U R p l m2 S1 Hu Hm2 Hb2) as (S2 & U2 & P2).
  destruct (map_page (k1 <| mem := m2 |>) dir T U R p l a f) as (r & k3 & T' & l' & E3 & G3 & P3 & Hr); try done.
  exists k1, r, k3, T', l'. split; [done|]. split; [done|]. rewrite upd_mem. split; [exact E3|].
  destruct G3 as [F3 S3 Pl3 M3]. split; [etrans; [exact F1|]; etrans; [|exact F3]; unfold vm_frame; kernel_ext|].
  split; [done|]. split; [by apply (Permutation_cons_inv (a := dir))|].
  assert (same_but [p] (mem k) m2) as Hkm by (by rewrite <- M1).
  pose proof (vs_own _ _ _ _ _ S2) as Hnd. apply NoDup_cons in Hnd as [Hd Hnd]. apply NoDup_app in Hnd as (_ & HT & Hnd).
  apply NoDup_cons in Hnd as [Hpn _]. pose proof (vs_all_ok _ _ _ _ _ S2) as Ho. rewrite Forall_forall in Ho.
  split_and!; try done.
  - eapply same_but_trans; [eapply same_but_mono, Hkm|eapply same_but_mono, M3]; unfold pool; intros q; inlist.
  - intros x Hx. rewrite M3.
    + change (m2 x = g (mem k) x). unfold m2. by rewrite M1.
    + apply (pages_outside p); [eapply page_ok_aligned, Ho; inlist| | |done].
      * apply Forall_forall. intros q Hq. eapply page_ok_aligned, Ho. revert Hq. unfold pool. inlist.
      * unfold pool. rewrite elem_of_cons, elem_of_app. intros [->|[Hq|Hq]]; [apply Hd; inlist|by apply (HT p); inlist|apply Hpn; inlist].
  - intros va Hva. rewrite P3 by done. change (pte m2 T va = pte (mem k) T va). rewrite P2 by (unfold KERNBASE in Hva; lia). by rewrite M1.
Qed.

Lemma zero_fill p m : bytes_ok m -> same_but [p] m (memset m p 0 PGSIZE) /\ bytes_ok (memset m p 0 PGSIZE).
Proof. intros Hm. split; [apply same_but_memset; inlist|by apply bytes_ok_memset]. Qed.

Lemma zero_filled p m x : in_page p x -> memset m p 0 PGSIZE x = 0.
Proof. intros Hx. rewrite memset_spec by (unfold PGSIZE; lia). unfold in_page in Hx. zcases; done. Qed.

Lemma page_step a newsz : 0 <= a < newsz -> newsz < KERNBASE -> u32 (a + PGSIZE) = a + PGSIZE.
Proof. intros ? ?. apply u32_small. unfold KERNBASE, PGSIZE in *. lia. Qed.

Lemma aligned_next a va : a mod PGSIZE = 0 -> va mod PGSIZE = 0 -> a < va -> a + PGSIZE <= va.
Proof. unfold PGSIZE. intros. dlia. Qed.

(** No user page is a page table or free. *)
Lemma user_outside k dir T U R l va p f x :
  aspace k dir T U R l -> U !! va = Some (p, f) -> in_page p x -> outside (pool dir T l) x.
Proof.
  intros [Hs _ _] Hp Hx. assert (p ∈ upages U) as Hin by (apply elem_of_upages; eauto).
  pose proof (vs_all_ok _ _ _ _ _ Hs) as Ho. rewrite Forall_forall in Ho. pose proof (vs_own _ _ _ _ _ Hs) as Hnd.
  apply NoDup_cons in Hnd as [Hd Hnd]. apply NoDup_app in Hnd as (_ & HT & Hnd). apply NoDup_app in Hnd as (_ & Hl & _).
  apply (pages_outside p); [eapply page_ok_aligned, Ho; inlist| | |done].
  - apply Forall_forall. intros q Hq. eapply page_ok_aligned, Ho. revert Hq. unfold pool. inlist.
  - unfold pool. rewrite elem_of_cons, elem_of_app. intros [->|[Hq|Hq]]; [apply Hd; inlist|by apply (HT p); inlist|apply (Hl p); inlist].
Qed.

Section alloc_step.
Context (k k2 k3 : kernel) (dir : Z) (T T' : gmap Z Z) (U U' : gmap Z (Z * Z)) (R : list Z) (p : Z) (l l' : list Z) (a lo newsz : Z).
Context (Hs : aspace k2 dir T' (<[a := (p, 7)]> U) R l') (Hn : U !! a = None).
Context (Hp : vals T' ++ l' ≡ₚ vals T ++ l).
Context (Hm : same_but (pool dir T (p :: l)) (mem k) (mem k2)) (Hz : forall x, in_page p x -> mem k2 x = 0).
Context (Ha : a mod PGSIZE = 0) (Hlo : lo <= a < newsz).

Lemma pool_step x : outside (pool dir T (p :: l)) x -> outside (pool dir T' l') x.
Proof using All.
  intros Hx q Hq. apply Hx. revert Hq. unfold pool. rewrite !elem_of_cons. intros [?|Hq]; [tauto|].
  rewrite Hp, elem_of_app in Hq. inlist.
Qed.

Lemma allocated_step :
  allocated k2 k3 dir T' (<[a := (p, 7)]> U) U' l' (a + PGSIZE) newsz -> allocated k k3 dir T U U' (p :: l) a newsz.
Proof using All.
  intros (H1 & H2 & H3). split_and!.
  - intros x Hx. rewrite H1 by by apply pool_step. by apply Hm.
  - intros va Hva. unfold PGSIZE in *. rewrite H2 by lia. rewrite lookup_insert_ne; [done|].
    intros ->. apply Hva. split; [lia|]. clear -Hlo. lia.
  - intros va Hva Hvm. destruct (decide (a = va)) as [<-|Hne].
    + exists p. rewrite H2 by (unfold PGSIZE; lia). rewrite lookup_insert_eq. split; [done|]. intros x Hx.
      rewrite H1; [by apply Hz|]. eapply user_outside; [done|apply lookup_insert_eq|done].
    + apply H3; [|done]. split; [|lia]. apply aligned_next; try done. lia.
Qed.

Lemma unallocated_step :
  unallocated k2 k3 dir T' (<[a := (p, 7)]> U) U' l' lo newsz -> unallocated k k3 dir T U U' (p :: l) lo newsz.
Proof using All.
  intros (H1 & H2). split.
  - intros va. rewrite H1. case_decide as Hd; [done|]. rewrite lookup_insert_ne; [done|]. intros ->. lia.
  - intros x Hx Hf. rewrite H2; [by apply Hm|by apply pool_step|]. intros va q f Hq Hva.
    destruct (decide (a = va)) as [<-|Hne].
    + rewrite lookup_insert_eq in Hq. simplify_eq. apply Hx. unfold pool. inlist.
    + rewrite lookup_insert_ne in Hq by done. eauto.
Qed.
End alloc_step.

Section alloc_loop.
Context (dir : Z) (R : list Z) (oldsz newsz : Z).
Context (Hsz : 0 <= oldsz < newsz) (Hmax : newsz < KERNBASE).

Lemma allocuvm_loop_spec left : forall k T U l a,
  aspace k dir T U R l -> PGROUNDUP oldsz <= a -> a mod PGSIZE = 0 -> newsz - a <= PGSIZE * Z.of_nat left ->
  (forall va, a <= va < newsz -> U !! va = None) ->
  exists r k' T' U' l', allocuvm_loop left dir a oldsz newsz k = Ret r k' /\ extended k k' dir T T' U U' R l l' /\
    ((r = newsz /\ allocated k k' dir T U U' l a newsz) \/
     (r = 0 /\ unallocated k k' dir T U U' l (PGROUNDUP oldsz) newsz)).
Proof using Hsz Hmax.
  assert (0 <= PGROUNDUP oldsz) as H0.
  { rewrite pgroundup_spec by (unfold KERNBASE, PGSIZE in *; lia). unfold PGSIZE. dlia. }
  induction left as [|left IH]; intros k T U l a H Hlo Ham Hleft HU; cbn [allocuvm_loop];
    (destruct (Z.ltb_spec a newsz) as [Hlt|Hge]; [|exists newsz, k, T, U, l; split_and!; [done|by split|left; split; [done|];
       split_and!; [apply same_but_refl|done|intros va ? ?; lia]]]); [lia|].
  unfold mbind, K_bind. destruct l as [|p l].
  - rewrite (kalloc_none k (vs_free _ _ _ _ _ (as_space _ _ _ _ _ _ H))). cbn [obind]. rewrite Z.eqb_refl.
    destruct (alloc_fail dir R oldsz newsz Hsz Hmax k T U H) as (k' & U' & l' & E & Hx & HU' & Hm).
    exists 0, k', T, U', l'. split_and!; [exact E|done|]. right. split; [done|]. split; [done|].
    intros x Hx'. apply Hm. intros q Hq. apply Hx'. unfold pool. inlist.
  - destruct (alloc_page _ k dir T U R p l a (Z.lor PTE_W PTE_U) (zero_fill p) H)
      as (k1 & r & k2 & T' & l' & E1 & Hp0 & E2 & F & Hs & Hp & Hm & Hg & Hkern & Hr); [lia|done|apply HU; lia|done|].
    assert (forall x, in_page p x -> mem k2 x = 0) as Hz by (intros x Hx; rewrite Hg, zero_filled; done).
    rewrite E1. cbn [obind]. rewrite (proj2 (Z.eqb_neq _ _) Hp0). unfold modify. cbn [obind]. rewrite E2. cbn [obind].
    assert (KERNBASE < kend k2) as Hke by (rewrite F; apply (as_kend _ _ _ _ _ _ H)).
    destruct Hr as [[-> Hu2] | (-> & -> & Hu2)].
    + cbn [Z.ltb Z.compare]. assert (U !! a = None) as Hna by (apply HU; lia).
      pose proof (aspace_insert _ _ _ _ _ _ _ _ _ Hs Hu2 Hke Hna) as Ha2.
      assert (extended k k2 dir T T' U (<[a := (p, 7)]> U) R (p :: l) l') as Hx1.
      { split; try done. pose proof (upages_insert U a p 7 Hna). perm. }
      rewrite (page_step a newsz) by (lia || done).
      destruct (IH k2 T' (<[a := (p, 7)]> U) l' (a + PGSIZE)) as (r' & k3 & T3 & U3 & l3 & E3 & Hx3 & Hr3);
        [done|unfold PGSIZE; lia|unfold PGSIZE in *; dlia|unfold PGSIZE in *; lia|
         intros va Hva; rewrite lookup_insert_ne by (unfold PGSIZE in *; lia); apply HU; unfold PGSIZE in *; lia|].
      exists r', k3, T3, U3, l3. split; [done|]. split; [by eapply extended_trans|].
      destruct Hr3 as [[-> Hok]|[-> Hno]]; [left|right]; split; try done.
      * eapply allocated_step; [..|exact Hok]; try done.
      * eapply unallocated_step; [..|exact Hno]; try done.
    + cbn [Z.ltb Z.compare].
      destruct (alloc_fail2 dir R oldsz newsz Hsz Hmax k2 T' U p Hs Hu2 Hke) as (k3 & U3 & l3 & E3 & F3 & S3 & P3 & K3 & HU3 & M3).
      exists 0, k3, T', U3, (p :: l3). split; [exact E3|]. rewrite app_nil_r in Hp. split.
      * split; [by etrans|done| |intros va Hva; by rewrite K3, Hkern].
        clear -P3 Hp. perm.
      * right. split; [done|]. split; [done|]. intros x Hx Hf. rewrite M3; [by apply Hm| |done].
        intros q Hq. apply Hx. revert Hq. unfold pool. rewrite !elem_of_cons, Hp. inlist.
Qed.
End alloc_loop.

(** ** Freeing an address space *)

(** The page tables from directory entry [i] on. *)
Definition tabs_from (i : Z) (T : gmap Z Z) : gmap Z Z := filter (fun x => i <= x.1) T.

Lemma tabs_from_step i T : 
  vals (tabs_from i T) ≡ₚ from_option (fun t => [t]) [] (T !! i) ++ vals (tabs_from (i + 1) T).
Proof.
  assert (tabs_from (i + 1) T !! i = None) as Hn
    by (apply map_lookup_filter_None; right; intros t _; simpl; lia).
  destruct (T !! i) as [t|] eqn:E; cbn [from_option app].
  - rewrite <- (vals_insert _ _ _ Hn). apply Permutation_refl', (f_equal vals). apply map_eq. intros j. unfold tabs_from.
    rewrite map_lookup_filter. destruct (decide (i = j)) as [<-|Hne].
    + rewrite lookup_insert_eq, E. simpl. by rewrite option_guard_True by lia.
    + rewrite lookup_insert_ne, map_lookup_filter by done. destruct (T !! j) as [t'|]; simpl; [|done].
      destruct (decide (i <= j)); [rewrite !option_guard_True by lia|rewrite !option_guard_False by lia]; done.
  - apply Permutation_refl', (f_equal vals). apply map_eq. intros j. unfold tabs_from. rewrite !map_lookup_filter.
    destruct (T !! j) as [t'|] eqn:E'; simpl; [|done]. assert (i <> j) by congruence.
    destruct (decide (i <= j)); [rewrite !option_guard_True by lia|rewrite !option_guard_False by lia]; done.
Qed.

Section freevm.
Context (dir : Z) (T : gmap Z Z) (R : list Z).

Record dying (k : kernel) (i : Z) (l : list Z) : Prop := {
  dy_free : free_rep k l;
  dy_tab : pgtab (mem k) dir T;
  dy_own : NoDup (dir :: vals (tabs_from i T) ++ R ++ l);
  dy_ok : Forall (page_ok (kend k)) (dir :: vals (tabs_from i T) ++ R);
}.

Lemma dying_free k i t l : dying k i l -> T !! i = Some t -> 0 <= i < 1024 ->
  exists k', kfree t k = Ret tt k' /\ vm_frame k k' /\ same_but [t] (mem k) (mem k') /\ dying k' (i + 1) (t :: l).
Proof.
  intros [Hf Ht Ho Hok] E Hi. pose proof (tabs_from_step i T) as Hp. rewrite E in Hp. cbn [from_option app] in Hp.
  rewrite Hp in Ho, Hok. apply Forall_cons in Hok as [Hd Hok]. apply Forall_cons in Hok as [Htk Hok].
  apply NoDup_cons in Ho as [Hdn Ho]. pose proof Ho as Ho'. apply NoDup_cons in Ho as [Htn Ho].
  destruct (kfree_give k l t Hf Htk) as (k' & E' & F & M & Hf'); [intros Hin; apply Htn; inlist|].
  exists k'. split_and!; try done. split; [done| | |].
  - split; [|apply Ht]. intros j Hj. rewrite <- (pt_dir _ _ _ Ht j Hj).
    apply (load_same [t]); [done|apply Hd|constructor; [apply Htk|constructor]| |done].
    rewrite list_elem_of_singleton. intros ->. apply Hdn. inlist.
  - apply NoDup_cons. split; [intros Hin; apply Hdn; revert Hin; inlist|].
    assert (vals (tabs_from (i + 1) T) ++ R ++ t :: l ≡ₚ (t :: vals (tabs_from (i + 1) T)) ++ R ++ l) as -> by (clear; perm). done.
  - rewrite F. change (kend _) with (kend k). by constructor.
Qed.

Lemma freevm_loop_spec left : forall k i l, dying k i l -> 0 <= i -> i + Z.of_nat left = 1024 ->
  exists k' l', freevm_loop left dir i k = Ret tt k' /\ vm_frame k k' /\ dying k' 1024 l' /\
    l' ≡ₚ vals (tabs_from i T) ++ l /\ same_but (vals (tabs_from i T)) (mem k) (mem k').
Proof.
  induction left as [|left IH]; intros k i l H Hi Hleft; cbn [freevm_loop].
  - assert (i = 1024) as -> by lia. exists k, l. split_and!; try done.
    assert (tabs_from 1024 T = ∅) as ->; [|done]. apply map_empty. intros j. apply map_lookup_filter_None. right.
    intros t Ht. simpl. pose proof (pt_idx _ _ _ (dy_tab _ _ _ H) j t Ht). lia.
  - pose proof (tabs_from_step i T) as Hp. unfold peek. kunfold. cbn [obind].
    rewrite (pt_dir _ _ _ (dy_tab _ _ _ H)) by lia. destruct (T !! i) as [t|] eqn:E; cbn [from_option app] in *.
    + destruct (dying_free _ _ _ _ H E) as (k1 & E1 & F1 & M1 & D1); [lia|].
      assert (page_ok (kend k) t) as Ht.
      { pose proof (dy_ok _ _ _ H) as Ho. rewrite Hp in Ho. apply Forall_cons in Ho as [_ Ho]. by apply Forall_cons in Ho as [Ho _]. }
      destruct (page_ok_phys _ _ Ht) as (_ & Hm & _). rewrite present_flag by done. change (Z.odd 7) with true. unfold whenK.
      destruct (entry_page _ t 7 Ht) as [-> _]; [done|]. rewrite E1. cbn [obind].
      destruct (IH k1 (i + 1) (t :: l) D1) as (k2 & l2 & E2 & F2 & D2 & P2 & M2); [lia..|].
      exists k2, l2. split_and!; [done|by etrans|done|rewrite P2, Hp; clear; perm|].
      eapply same_but_trans; [eapply same_but_mono, M1|eapply same_but_mono, M2]; intros q; rewrite Hp; inlist.
    + change (present 0) with false. unfold whenK. cbn [obind mret K_ret].
      assert (dying k (i + 1) l) as D1 by (destruct H as [A B C D]; rewrite Hp in C, D; done).
      destruct (IH k (i + 1) l D1) as (k2 & l2 & E2 & F2 & D2 & P2 & M2); [lia..|].
      exists k2, l2. split_and!; [done|done|done|by rewrite P2, Hp|].
      eapply same_but_mono, M2. intros q. by rewrite Hp.
Qed.
End freevm.

(** [freevm] returns every page of the space, and the directory, to the free list. *)
Lemma freevm_spec k dir T U R l : aspace k dir T U R l ->
  exists k' l', freevm dir k = Ret tt k' /\ vm_frame k k' /\ free_rep k' l' /\
    l' ≡ₚ dir :: vals T ++ upages U ++ l /\ same_but l' (mem k) (mem k').
Proof.
  intros H. pose proof (vs_ok _ _ _ _ _ (as_space _ _ _ _ _ _ H)) as Hd. apply Forall_cons in Hd as [Hd _].
  pose proof (page_ok_pos _ _ Hd) as Hd0. unfold freevm. rewrite (proj2 (Z.eqb_neq dir 0)) by lia.
  unfold mbind, K_bind. destruct (deallocuvm_spec k dir T U R l KERNBASE 0 H) as (k1 & U1 & l1 & -> & Hsh & HU); [done..|].
  cbn [obind]. assert (U1 = ∅) as ->.
  { apply map_empty. intros va. rewrite HU. case_decide as Hr; [done|]. destruct (U !! va) as [e|] eqn:E; [|done].
    destruct (us_key _ _ _ (as_user _ _ _ _ _ _ H) va e E) as ([Hva _] & _). change (PGROUNDUP 0) with 0 in Hr. lia. }
  destruct Hsh as [F1 [S1 _ _] P1 M1 _ _]. change (upages ∅) with ([] : list Z) in S1, P1. simpl in S1, P1.
  assert (tabs_from 0 T = T) as ET.
  { apply map_filter_id. intros i t Ht. apply (pt_idx _ _ _ (vs_tab _ _ _ _ _ S1) i t Ht). }
  destruct (freevm_loop_spec dir T R (Z.to_nat NPDENTRIES) k1 0 l1) as (k2 & l2 & -> & F2 & [D1 D2 D3 D4] & P2 & M2);
    [split; rewrite ?ET; apply S1|done|done|]. cbn [obind]. rewrite ET in P2, M2.
  apply NoDup_cons in D3 as [D3 _]. apply Forall_cons in D4 as [D4 _].
  destruct (kfree_give k2 l2 dir D1 D4) as (k3 & E3 & F3 & M3 & R3); [intros Hin; apply D3; inlist|].
  exists k3, (dir :: l2). split_and!; [done|by etrans; [|etrans]|done|clear -P1 P2; perm|].
  intros x Hx. rewrite M3, M2, M1; [done| | |]; intros q Hq; apply Hx; rewrite elem_of_cons, P2; revert Hq; inlist.
Qed.

(** ** The kernel's part of an address space *)

(** The range a [kmap] entry maps, over the entries [f]. *)
Definition kmap_range (f : Z -> Z) (e : Z * Z * Z * Z) : Z -> Z :=
  let '(virt, phys_start, phys_end, perm) := e in
  mapping f virt (u32 (phys_end - phys_start) / PGSIZE) phys_start perm.

Fixpoint kmap_ok (f : Z -> Z) (ks : list (Z * Z * Z * Z)) : Prop :=
  match ks with
  | [] => True
  | (virt, phys_start, phys_end, perm) :: ks' =>
      let n := u32 (phys_end - phys_start) / PGSIZE in
      (0 < n /\ PGSIZE * n = u32 (phys_end - phys_start) /\ KERNBASE <= virt /\ virt mod PGSIZE = 0 /\
       virt + PGSIZE * n <= 2 ^ 32 /\ 0 <= phys_start /\ phys_start mod PGSIZE = 0 /\
       phys_start + PGSIZE * n <= 2 ^ 32 /\ 0 <= perm < PGSIZE) /\
      (forall va, virt <= va < virt + PGSIZE * n -> f va = 0) /\
      kmap_ok (kmap_range f (virt, phys_start, phys_end, perm)) ks'
  end.

(** A directory whose entries are [f], which maps no user page. *)
Record kdir (k : kernel) (dir : Z) (T : gmap Z Z) (R l : list Z) (f : Z -> Z) : Prop := {
  kd_space : vspace k dir T R l;
  kd_kend : KERNBASE < kend k;
  kd_pte va : 0 <= va < 2 ^ 32 -> pte (mem k) T va = f va;
  kd_user va : 0 <= va < KERNBASE -> f va = 0;
}.

Lemma kdir_aspace k dir T R l f : kdir k dir T R l f -> aspace k dir T ∅ R l.
Proof.
  intros [H1 H2 H3 H4]. split; [done| |done]. split; [|by intros va e Hva; rewrite lookup_empty in Hva].
  intros va Hva _. rewrite lookup_empty. simpl. rewrite H3 by (unfold KERNBASE in Hva; lia). by apply H4.
Qed.

Lemma kdir_grown k k' dir T T' R l l' f f' : kdir k dir T R l f -> grown k k' dir T T' R l l' ->
  (forall va, 0 <= va < 2 ^ 32 -> pte (mem k') T' va = f' va) -> (forall va, 0 <= va < KERNBASE -> f' va = 0) ->
  kdir k' dir T' R l' f'.
Proof. intros [H1 H2 H3 H4] [F S P M] Hp Hu. split; try done. by rewrite F. Qed.

Lemma setupkvm_loop_spec ks : forall k dir T R l f,
  kdir k dir T R l f -> kmap_ok f ks ->
  exists r k' l', setupkvm_loop dir ks k = Ret r k' /\ vm_frame k k' /\ same_but (pool dir T l) (mem k) (mem k') /\
    ((r = dir /\ exists T', kdir k' dir T' R l' (foldl kmap_range f ks) /\ pool dir T' l' ≡ₚ pool dir T l) \/
     (r = 0 /\ free_rep k' l' /\ l' ≡ₚ pool dir T l)).
Proof.
  induction ks as [|[[[virt ps] pe] perm] ks IH]; intros k dir T R l f H Hok; cbn [setupkvm_loop].
  - exists dir, k, l. split_and!; [done..|]. left. split; [done|]. by exists T.
  - destruct Hok as (Hwf & Hfree & Hok). cbn zeta in Hwf, Hfree. set (n := u32 (pe - ps) / PGSIZE) in *.
    destruct Hwf as (Hn & En & Hv & Hvm & Hve & Hp0 & Hpm & Hpe & Hperm).
    replace (u32 (pe - ps)) with (u32 (PGSIZE * n)) by (rewrite En; apply u32_small, u32_range). unfold mbind, K_bind.
    assert (0 <= virt) as Hv0 by (unfold KERNBASE in Hv; lia).
    destruct (mappages_spec k dir T R l virt n ps perm) as (r & k1 & T1 & l1 & m & -> & Hg & Hp1 & Hr);
      [apply H|done..|intros va Hva; rewrite (kd_pte _ _ _ _ _ _ H), Hfree by lia; done|]. cbn [obind].
    assert (forall va, 0 <= va < 2 ^ 32 -> pte (mem k1) T1 va = mapping f virt m ps perm va) as Hp1'.
    { intros va Hva. rewrite Hp1 by done. unfold mapping. by rewrite (kd_pte _ _ _ _ _ _ H). }
    assert (forall va, 0 <= va < KERNBASE -> mapping f virt m ps perm va = 0) as Hu1.
    { intros va Hva. unfold mapping. rewrite (proj2 (Z.leb_gt virt va)) by lia. simpl. by apply (kd_user _ _ _ _ _ _ H). }
    pose proof (kdir_grown _ _ _ _ _ _ _ _ _ _ H Hg Hp1' Hu1) as H1. pose proof Hg as [F1 S1 P1 M1].
    destruct Hr as [[-> ->] | (-> & _ & ->)]; cbn [Z.ltb Z.compare].
    + destruct (IH k1 dir T1 R l1 _ H1 Hok) as (r2 & k2 & l2 & E2 & F2 & M2 & Hr2). exists r2, k2, l2.
      split_and!; [done|by etrans|eapply same_but_trans; [done|]; eapply same_but_mono, M2; intros q; by rewrite P1|].
      destruct Hr2 as [[-> (T' & Hk & Hp)] | (-> & Hf & Hp)]; [left|right]; split; try done; [|split; [done|by rewrite Hp]].
      exists T'. split; [done|]. by rewrite Hp.
    + destruct (freevm_spec _ _ _ _ _ _ (kdir_aspace _ _ _ _ _ _ H1)) as (k2 & l2 & -> & F2 & R2 & P2 & M2).
      cbn [obind]. change (upages ∅) with ([] : list Z) in P2. simpl in P2. exists 0, k2, l2.
      assert (l2 ≡ₚ pool dir T l) as Hp by (by rewrite P2).
      split_and!; [done|by etrans|eapply same_but_trans; [done|]; eapply same_but_mono, M2; intros q; by rewrite Hp|].
      by right.
Qed.

(** The kernel holds the pages [R] and the free list [l]. *)
Record owns (k : kernel) (R l : list Z) : Prop := {
  ow_free : free_rep k l;
  ow_own : NoDup (R ++ l);
  ow_ok : Forall (page_ok (kend k)) R;
  ow_kend : KERNBASE < kend k;
}.

(** The kernel image: [data], the first address after the read-only part, is aligned by the
    linker script. *)
Definition image_ok (k : kernel) : Prop :=
  let data := kdata (vmst k) in KERNLINK < data < P2V PHYSTOP /\ data mod PGSIZE = 0.

(** The entries of every address space above [KERNBASE]. *)
Definition kernel_pte (data va : Z) : Z :=
  if (KERNBASE <=? va) && (va <? KERNBASE + PHYSTOP) then
    entry (PGSIZE * ((va - KERNBASE) / PGSIZE)) (if (KERNLINK <=? va) && (va <? data) then 0 else PTE_W)
  else if DEVSPACE <=? va then entry (PGSIZE * (va / PGSIZE)) PTE_W
  else 0.

Lemma kmap_ranges k : image_ok k -> let data := kdata (vmst k) in
  kmap_ok (fun _ => 0) (kmap data) /\ forall va, 0 <= va < 2 ^ 32 -> foldl kmap_range (fun _ => 0) (kmap data) va = kernel_pte data va.
Proof.
  intros [Hd Hm] data. fold data in Hd, Hm. 
  change (P2V PHYSTOP) with 2382364672 in Hd. unfold KERNLINK, KERNBASE, EXTMEM, PGSIZE in Hd, Hm.
  assert (V2P data = data - 2147483648) as Ed by (unfold V2P; rewrite u32_small; unfold KERNBASE; lia).
  assert (u32 (V2P data - V2P KERNLINK) = V2P data - 1048576) as E2.
  { change (V2P KERNLINK) with 1048576. apply u32_small. lia. }
  assert (u32 (PHYSTOP - V2P data) = PHYSTOP - V2P data) as E3 by (apply u32_small; unfold PHYSTOP; lia).
  unfold kmap. cbn [kmap_ok kmap_range foldl]. rewrite E2, E3, Ed.
  change (u32 (EXTMEM - 0) / PGSIZE) with 256. change (u32 (0 - DEVSPACE) / PGSIZE) with 8192.
  change (u32 (EXTMEM - 0)) with 1048576. change (u32 (0 - DEVSPACE)) with 33554432.
  unfold mapping, kernel_pte, KERNLINK, KERNBASE, EXTMEM, PGSIZE, PHYSTOP, DEVSPACE, PTE_W.
  change (V2P (2147483648 + 1048576)) with 1048576. split.
  - split_and!; try lia; try dlia; try done; intros va Hva; zcases; try done; dlia.
  - intros va Hva. zcases; f_equal; try done; dlia.
Qed.

Lemma new_dir k R p l : owns k R (p :: l) ->
  exists k1, kalloc k = Ret p k1 /\ p <> 0 /\ vm_frame k k1 /\ mem k1 = mem k /\
    kdir (k1 <| mem := memset (mem k1) p 0 PGSIZE |>) p ∅ R l (fun _ => 0).
Proof.
  intros [Hf Ho Hok Hk]. destruct (kalloc_take _ _ _ Hf) as (k1 & E & F & M & Hf1 & Hp0).
  exists k1. split_and!; try done. pose proof Hf as (_ & Hnd & Hlok & _). apply Forall_cons in Hlok as [Hp Hlok].
  apply NoDup_cons in Hnd as [Hpl Hnd]. assert (kend k1 = kend k) as Hke by (by rewrite F).
  split; [|by rewrite <- Hke in Hk|done|done]. split.
  - apply (free_rep_mem k1 l _ [p]); [done|apply bytes_ok_memset; [apply Hf1|done]|apply same_but_memset; inlist|..].
    + constructor; [apply Hp|constructor].
    + intros q Hq. by apply list_elem_of_singleton in Hq as ->.
  - split; [|by intros i t Hi; rewrite lookup_empty in Hi]. intros i Hi. rewrite lookup_empty. simpl. by apply memset_zero_word.
  - assert (p :: vals ∅ ++ R ++ l ≡ₚ R ++ p :: l) as -> by (change (vals ∅) with ([] : list Z); perm). done.
  - change (kend _) with (kend k1). rewrite Hke. by constructor.
Qed.

Lemma setupkvm_spec k R l : owns k R l -> image_ok k ->
  exists r k' l', setupkvm k = Ret r k' /\ vm_frame k k' /\ same_but l (mem k) (mem k') /\
    ((r <> 0 /\ exists T, kdir k' r T R l' (foldl kmap_range (fun _ => 0) (kmap (kdata (vmst k)))) /\ pool r T l' ≡ₚ l) \/
     (r = 0 /\ owns k' R l' /\ l' ≡ₚ l)).
Proof.
  intros H Him. unfold setupkvm, mbind, K_bind. destruct l as [|p l].
  - rewrite (kalloc_none k (ow_free _ _ _ H)). cbn [obind]. exists 0, k, []. split_and!; try done. by right.
  - destruct (new_dir _ _ _ _ H) as (k1 & -> & Hp0 & F1 & M1 & Hd). cbn [obind]. rewrite (proj2 (Z.eqb_neq p 0)) by done.
    unfold modify. cbn [obind]. rewrite upd_mem.
    change (P2V PHYSTOP >? DEVSPACE) with false. cbv iota. unfold gets. cbn [obind].
    set (k2 := k1 <| mem := _ |>) in *. assert (vmst k2 = vmst k) as -> by (change (vmst k2) with (vmst k1); by rewrite F1).
    destruct (setupkvm_loop_spec (kmap (kdata (vmst k))) k2 p ∅ R l _ Hd) as (r & k3 & l3 & E3 & F3 & M3 & Hr);
      [by apply kmap_ranges|]. exists r, k3, l3. split; [done|].
    assert (vm_frame k k3) as F by (etrans; [exact F1|]; etrans; [|exact F3]; unfold vm_frame; kernel_ext).
    split_and!; try done.
    + rewrite <- M1. eapply same_but_trans; [|eapply same_but_mono, M3; done].
      change (mem k2) with (memset (mem k1) p 0 PGSIZE). apply same_but_memset. inlist.
    + destruct Hr as [[-> (T & Hk & Hp)] | (-> & Hf & Hp)]; [left; split; [done|]; by exists T|right].
      split_and!; try done. destruct H as [Hf0 Ho Hok Hk]. split; [done|by rewrite Hp|by rewrite F|by rewrite F].
Qed.

(** Other address spaces are not affected by changes to pages that are not theirs. *)
Lemma aspace_other k k' dir T U R R' l l' P :
  aspace k dir T U R l -> vm_frame k k' -> free_rep k' l' -> same_but P (mem k) (mem k') -> P ⊆ R ++ l ->
  R' ++ l' ≡ₚ R ++ l ->
  aspace k' dir T U R' l' /\ (forall va p f x, U !! va = Some (p, f) -> in_page p x -> mem k' x = mem k x) /\
  forall va, 0 <= va < 2 ^ 32 -> pte (mem k') T va = pte (mem k) T va.
Proof.
  intros [Hs Hu Hk] F Hf M HP Hp. pose proof (vs_own _ _ _ _ _ Hs) as Hnd. pose proof (vs_all_ok _ _ _ _ _ Hs) as Ho.
  rewrite Forall_forall in Ho. apply NoDup_cons in Hnd as [Hd Hnd]. pose proof Hnd as Hnd'.
  apply NoDup_app in Hnd as (_ & HT & Hnd). rewrite <- app_assoc in Hnd. apply NoDup_app in Hnd as (_ & HU & _).
  assert (Forall (fun q => q mod PGSIZE = 0) P) as HPa.
  { apply Forall_forall. intros q Hq. eapply page_ok_aligned, Ho. apply HP in Hq. revert Hq. inlist. }
  destruct (tables_same k dir T _ l (mem k') P Hs M HPa) as [Htab Hpte].
  { intros Hin. apply Hd. apply HP in Hin. revert Hin. inlist. }
  { intros t Ht Hin. apply (HT t Ht). apply HP in Hin. revert Hin. inlist. }
  split_and!; [|intros va p f x Hva Hx; apply M|done].
  - split; [|split; [|apply Hu]|by rewrite F].
    + split; [done|done| |].
      * assert (vals T ++ (upages U ++ R') ++ l' ≡ₚ vals T ++ (upages U ++ R) ++ l) as -> by (clear -Hp; perm).
        by constructor.
      * rewrite F. change (kend _) with (kend k). apply Forall_forall. intros q Hq. apply Ho.
        assert (q ∈ R' ++ l' -> q ∈ R ++ l) as Hpi by (by rewrite Hp). revert Hpi Hq. inlist.
    + intros va Hva Hm. rewrite Hpte by (unfold KERNBASE in Hva; lia). by apply Hu.
  - assert (p ∈ upages U) as Hin by (apply elem_of_upages; eauto).
    apply (pages_outside p); [eapply page_ok_aligned, Ho; inlist|done| |done]. intros Hp'. apply (HU p Hin), HP, Hp'.
Qed.

(** ** Copying an address space *)

(** The entry of a mapped user page. *)
Lemma walk_user k dir T U R l va p f : aspace k dir T U R l -> U !! va = Some (p, f) ->
  exists t, walkpgdir dir va false k = Ret t k /\ t <> 0 /\ load32 (mem k) t = V2P p + f.
Proof.
  intros [Hs Hu _] Hva. destruct (us_key _ _ _ Hu _ _ Hva) as ([Hr Hm] & Hf & Ho). simpl in *.
  pose proof (us_pte _ _ _ Hu va Hr Hm) as Hp. rewrite Hva in Hp. cbn [from_option fst snd] in Hp. unfold pte in Hp.
  assert (0 <= va < 2 ^ 32) as Hv by (unfold KERNBASE in Hr; lia).
  destruct (T !! PDX va) as [t|] eqn:E; cbn [from_option] in Hp.
  - destruct (vs_tab_page _ _ _ _ _ _ _ Hs E) as (Ht & _). pose proof (page_ok_pos _ _ Ht). pose proof (PTX_range va Hv).
    exists (t + 4 * PTX va). split_and!; [by apply (walk_hit k dir T (upages U ++ R) l)|lia|done].
  - pose proof (Z.mod_pos_bound (p - KERNBASE) (2 ^ 32)). unfold V2P, u32 in Hp. destruct (decide (f = 0)) as [->|]; [done|lia].
Qed.

Lemma lor_odd f : Z.odd f = true -> Z.lor f 1 = f.
Proof.
  intros Ho. apply Z.bits_inj'. intros n Hn. rewrite Z.lor_spec. destruct (decide (n = 0)) as [->|Hne].
  - by rewrite Z.bit0_odd, Ho.
  - rewrite (Z.bits_above_log2 1 n), orb_false_r by (simpl; lia). done.
Qed.

Lemma copy_fill p q m : p mod PGSIZE = 0 -> bytes_ok m ->
  same_but [p] m (memmove m p q PGSIZE) /\ bytes_ok (memmove m p q PGSIZE).
Proof.
  intros Hp Hm. split; intros x; rewrite memmove_spec by (done || (unfold PGSIZE; lia)).
  - intros Hx. specialize (Hx p). unfold in_page in Hx. rewrite list_elem_of_singleton in Hx. specialize (Hx eq_refl). zcases; done.
  - zcases; apply Hm.
Qed.

Section copyuvm.
Context (d dir : Z) (Tp : gmap Z Z) (Up : gmap Z (Z * Z)) (R : list Z) (sz : Z).
Context (Hsz : sz <= KERNBASE) (Hmapped : forall va, 0 <= va < sz -> va mod PGSIZE = 0 -> is_Some (Up !! va)).

(** The directory [d] is being filled with copies of the pages of [dir]. *)
Record copying (k : kernel) (T : gmap Z Z) (U : gmap Z (Z * Z)) (l : list Z) : Prop := {
  cp_child : aspace k d T U (dir :: vals Tp ++ upages Up ++ R) l;
  cp_parent : aspace k dir Tp Up (d :: vals T ++ upages U ++ R) l;
}.

(** The pages of [Up'] have the same contents. *)
Definition kept (Up' : gmap Z (Z * Z)) (k k' : kernel) : Prop :=
  forall va p f x, Up' !! va = Some (p, f) -> in_page p x -> mem k' x = mem k x.

Definition copied (k k' : kernel) (U' : gmap Z (Z * Z)) (i : Z) : Prop :=
  forall va, i <= va < sz -> va mod PGSIZE = 0 ->
    exists p p' f, Up !! va = Some (p, f) /\ U' !! va = Some (p', f) /\
      forall j, 0 <= j < PGSIZE -> mem k' (p' + j) = mem k (p + j).

Lemma kept_trans Up' k1 k2 k3 : kept Up' k1 k2 -> kept Up' k2 k3 -> kept Up' k1 k3.
Proof. intros H1 H2 va p f x Hva Hx. rewrite (H2 va p f x Hva Hx). by apply (H1 va p f). Qed.

Lemma copying_step k k' T T' U U' l l' :
  copying k T U l -> vm_frame k k' -> same_but (pool d T l) (mem k) (mem k') ->
  aspace k' d T' U' (dir :: vals Tp ++ upages Up ++ R) l' ->
  vals T' ++ upages U' ++ l' ≡ₚ vals T ++ upages U ++ l ->
  copying k' T' U' l' /\ kept Up k k'.
Proof.
  intros [Hc Hp] F M Hc' Hpm.
  destruct (aspace_other k k' dir Tp Up (d :: vals T ++ upages U ++ R) (d :: vals T' ++ upages U' ++ R) l l' (pool d T l))
    as (Hp' & Hk & _); try done.
  - apply (as_space _ _ _ _ _ _ Hc').
  - unfold pool. intros q. inlist.
  - clear -Hpm. perm.
Qed.

(** An error exit: the new space goes back to the free list; a page [leak] that was taken
    for it but not mapped does not. *)
Lemma copy_fail k k2 T T2 U leak l :
  copying k T U (leak ++ l) -> vm_frame k k2 -> same_but (pool d T (leak ++ l)) (mem k) (mem k2) ->
  aspace k2 d T2 U (leak ++ dir :: vals Tp ++ upages Up ++ R) [] -> vals T2 ≡ₚ vals T ++ l ->
  exists k' l', freevm d k2 = Ret tt k' /\ vm_frame k k' /\ kept Up k k' /\ aspace k' dir Tp Up (leak ++ R) l' /\
    l' ≡ₚ d :: vals T ++ upages U ++ l.
Proof.
  intros [Hc Hp] F M H2 Hpm. destruct (freevm_spec _ _ _ _ _ _ H2) as (k' & l' & E & F' & Hf & Hl & M').
  assert (l' ≡ₚ d :: vals T ++ upages U ++ l) as Hl' by (clear -Hl Hpm; perm).
  destruct (aspace_other k k' dir Tp Up (d :: vals T ++ upages U ++ R) (leak ++ R) (leak ++ l) l' (pool d T (leak ++ l) ++ l'))
    as (Hp' & Hk & _); try done.
  - by etrans.
  - eapply same_but_trans; [eapply same_but_mono, M|eapply same_but_mono, M']; intros q; inlist.
  - intros q. unfold pool. rewrite !elem_of_app, Hl'. inlist.
  - clear -Hl'. perm.
  - exists k', l'. split_and!; try done. by etrans.
Qed.
(** What a run of the loop from page [i] leads to. *)
Definition copy_result (r : Z) (k k' : kernel) (T : gmap Z Z) (U : gmap Z (Z * Z)) (l : list Z) (i : Z) : Prop :=
  (r = d /\ exists T' U' l', copying k' T' U' l' /\ vals T' ++ upages U' ++ l' ≡ₚ vals T ++ upages U ++ l /\
     kept U k k' /\ copied k k' U' i /\ (forall va, ~ i <= va < sz -> U' !! va = U !! va) /\
     forall va, KERNBASE <= va < 2 ^ 32 -> pte (mem k') T' va = pte (mem k) T va) \/
  (r = 0 /\ exists leak l', aspace k' dir Tp Up (leak ++ R) l' /\ (length leak <= 1)%nat /\
     leak ++ l' ≡ₚ d :: vals T ++ upages U ++ l).

Lemma copy_result_step r k k1 k' T T1 U p p' f l l1 i :
  copying k T U l -> aspace k1 d T1 (<[i := (p', f)]> U) (dir :: vals Tp ++ upages Up ++ R) l1 ->
  kept Up k k1 -> kept U k k1 -> 0 <= i < sz -> i mod PGSIZE = 0 -> U !! i = None -> Up !! i = Some (p, f) ->
  (forall j, 0 <= j < PGSIZE -> mem k1 (p' + j) = mem k (p + j)) ->
  vals T1 ++ upages (<[i := (p', f)]> U) ++ l1 ≡ₚ vals T ++ upages U ++ l ->
  (forall va, KERNBASE <= va < 2 ^ 32 -> pte (mem k1) T1 va = pte (mem k) T va) ->
  kept Up k1 k' -> copy_result r k1 k' T1 (<[i := (p', f)]> U) l1 (i + PGSIZE) -> copy_result r k k' T U l i.
Proof.
  intros Hc Ha Hkp Hku Hi Him Hn Hup Hcp Hpm Hkern Hkp'
    [[-> (T' & U' & l' & Hc' & Hpm' & Hku' & Hcp' & HU' & Hkern')] | [-> (leak & l' & Ha' & Hl & Hpm')]].
  - left. split; [done|]. exists T', U', l'. split_and!; [done|by rewrite Hpm'| | | |intros va Hva; by rewrite Hkern', Hkern].
    + intros va q fq x Hq Hx. assert (i <> va) by congruence. rewrite (Hku' va q fq x); [by apply (Hku va q fq)| |done].
      by rewrite lookup_insert_ne.
    + intros va Hva Hvm. destruct (decide (i = va)) as [<-|Hne].
      * exists p, p', f. split_and!; [done|rewrite HU' by (unfold PGSIZE; lia); apply lookup_insert_eq|].
        intros j Hj. rewrite (Hku' i p' f); [by apply Hcp|apply lookup_insert_eq|unfold in_page; lia].
      * destruct (Hcp' va) as (q & q' & fq & E1 & E2 & E3); [split; [apply aligned_next; done || lia|lia]|done|].
        exists q, q', fq. split_and!; try done. intros j Hj. rewrite E3 by done. apply (Hkp va q fq); [done|unfold in_page; lia].
    + intros va Hva. unfold PGSIZE in *. rewrite HU' by lia. apply lookup_insert_ne. lia.
  - right. split; [done|]. exists leak, l'. split_and!; try done. rewrite Hpm'. clear -Hpm. perm.
Qed.

Lemma copyuvm_loop_spec left : forall k T U l i,
  copying k T U l -> 0 <= i -> i mod PGSIZE = 0 -> sz - i <= PGSIZE * Z.of_nat left ->
  (forall va, i <= va -> U !! va = None) ->
  exists r k', copyuvm_loop left d dir i sz k = Ret r k' /\ vm_frame k k' /\ kept Up k k' /\ copy_result r k k' T U l i.
Proof using Hsz Hmapped.
  induction left as [|left IH]; intros k T U l i H Hi Him Hleft HU; cbn [copyuvm_loop];
    (destruct (Z.ltb_spec i sz) as [Hlt|Hge]; [|exists d, k; split_and!; [done..|];
       left; split; [done|]; exists T, U, l; split_and!; try done; intros va ? ?; lia]); [lia|].
  destruct (Hmapped i) as [[p f] Hup]; [done..|]. pose proof (cp_parent _ _ _ _ H) as Hpar.
  destruct (us_key _ _ _ (as_user _ _ _ _ _ _ Hpar) _ _ Hup) as (_ & Hf & Hodd). simpl in Hf, Hodd.
  destruct (as_page _ _ _ _ _ _ _ _ _ Hpar Hup) as [Hpok _]. destruct (page_ok_phys _ _ Hpok) as (_ & Hpm & Hpr).
  destruct (walk_user _ _ _ _ _ _ _ _ _ Hpar Hup) as (t & Et & Ht0 & Elt). unfold PHYSTOP in Hpr.
  unfold peek, mbind, K_bind. rewrite Et. cbn [obind]. rewrite (proj2 (Z.eqb_neq t 0)) by done. unfold gets. cbn [obind].
  rewrite Elt, present_flag, Hodd by done. cbn [negb].
  destruct (entry_page _ p f Hpok Hf) as [-> ->]. destruct l as [|q l].
  { rewrite (kalloc_none k (vs_free _ _ _ _ _ (as_space _ _ _ _ _ _ Hpar))). cbn [obind]. rewrite Z.eqb_refl.
    destruct (copy_fail k k T T U [] []) as (k' & l' & -> & F' & Hk' & Ha' & Hl'); try done;
      [apply (cp_child _ _ _ _ H)|by rewrite app_nil_r|]. cbn [obind].
    exists 0, k'. split_and!; try done. right. split; [done|]. exists [], l'. split_and!; [done|simpl; lia|done]. }
  destruct (alloc_page (fun m => memmove m q p PGSIZE) k d T U (dir :: vals Tp ++ upages Up ++ R) q l i f)
    as (k1 & r & k2 & T' & l' & E1 & Hq0 & E2 & F & Hs & Hp & Hm & Hg & Hkern & Hr);
    [intros m; apply copy_fill|apply H|lia|done|by apply HU|done|].
  { pose proof (vs_free _ _ _ _ _ (as_space _ _ _ _ _ _ Hpar)) as (_ & _ & Hok & _). apply Forall_cons in Hok as [Hok _]. apply Hok. }
  rewrite E1. cbn [obind]. rewrite (proj2 (Z.eqb_neq q 0)) by done. unfold modify. cbn [obind]. rewrite E2. cbn [obind].
  assert (KERNBASE < kend k2) as Hke by (rewrite F; apply (as_kend _ _ _ _ _ _ Hpar)).
  destruct Hr as [[-> Hu2] | (-> & -> & Hu2)]; cbn [Z.ltb Z.compare].
  - rewrite lor_odd in Hu2 by done. assert (U !! i = None) as Hn by by apply HU.
    pose proof (aspace_insert _ _ _ _ _ _ _ _ _ Hs Hu2 Hke Hn) as Ha2.
    assert (vals T' ++ upages (<[i := (q, f)]> U) ++ l' ≡ₚ vals T ++ upages U ++ q :: l) as Hpm2.
    { pose proof (upages_insert U i q f Hn). clear -H0 Hp. perm. }
    destruct (copying_step _ _ _ _ _ _ _ _ H F Hm Ha2 Hpm2) as [Hc2 Hk2].
    destruct (IH k2 T' (<[i := (q, f)]> U) l' (i + PGSIZE)) as (r & k3 & E3 & F3 & Hk3 & Hr3);
      [done|unfold PGSIZE; lia|unfold PGSIZE in *; dlia|unfold PGSIZE in *; lia|
       intros va Hva; rewrite lookup_insert_ne by (unfold PGSIZE in *; lia); apply HU; unfold PGSIZE in *; lia|].
    rewrite u32_small by (unfold KERNBASE, PGSIZE in *; lia). exists r, k3.
    split_and!; [done|by etrans|by eapply kept_trans|]. eapply copy_result_step; try done.
    + intros va q' fq x Hq Hx. apply Hm. eapply user_outside; [apply H|done|done].
    + intros j Hj. rewrite Hg by (unfold in_page; lia). rewrite memmove_spec; [|apply (vs_free _ _ _ _ _ (as_space _ _ _ _ _ _ Hpar))|done].
      zcases; f_equal; lia.
  - destruct (copy_fail k k2 T T' U [q] l) as (k' & l2 & -> & F' & Hk' & Ha' & Hl'); try done.
    + split; [|done|done]. eapply vspace_perm; [|exact Hs]. clear. perm.
    + rewrite app_nil_r in Hp. done.
    + cbn [obind]. exists 0, k'. split_and!; try done. right. split; [done|]. exists [q], l2.
      split_and!; [done|simpl; lia|]. clear -Hl'. perm.
Qed.
End copyuvm.

(** ** Address spaces as the hardware sees them *)

Lemma page_base va : 0 <= va -> (va - va mod PGSIZE) mod PGSIZE = 0 /\ (va - va mod PGSIZE) / PGSIZE = va / PGSIZE /\
  0 <= va - va mod PGSIZE <= va.
Proof. unfold PGSIZE. intros. split_and!; dlia. Qed.

Lemma mmu_user k dir T U R l va : aspace k dir T U R l -> 0 <= va < KERNBASE ->
  mmu (mem k) (V2P dir) va =
    match U !! (va - va mod PGSIZE) with
    | Some (p, f) => Some (V2P p + va mod PGSIZE, Z.land 7 f)
    | None => None
    end.
Proof.
  intros H Hva. pose proof H as [Hs Hu Hk]. destruct (page_base va) as (Hm & Hd & Hb); [lia|].
  rewrite (mmu_pte _ _ _ _ _ _ Hs) by (unfold KERNBASE in Hva; lia).
  rewrite (pte_page _ _ _ (va - va mod PGSIZE)) by (done || (unfold KERNBASE in Hva; lia)). cbn zeta.
  rewrite (us_pte _ _ _ Hu) by (done || lia). destruct (U !! (va - va mod PGSIZE)) as [[p f]|] eqn:E; [|done].
  cbn [from_option fst snd]. destruct (us_key _ _ _ Hu _ _ E) as (_ & Hf & Ho). simpl in Hf, Ho.
  destruct (as_page _ _ _ _ _ _ _ _ _ H E) as [Hp _]. destruct (page_ok_phys _ _ Hp) as (_ & Hpm & Hpr). unfold PHYSTOP in Hpr.
  destruct (pte_parts (V2P p) f) as [-> ->]; [done|lia|done|]. by rewrite present_flag, Ho.
Qed.

Lemma mmu_same k k' dir T T' R R' l l' va :
  vspace k dir T R l -> vspace k' dir T' R' l' -> 0 <= va < 2 ^ 32 -> pte (mem k') T' va = pte (mem k) T va ->
  mmu (mem k') (V2P dir) va = mmu (mem k) (V2P dir) va.
Proof. intros H H' Hva E. by rewrite (mmu_pte _ _ _ _ _ _ H), (mmu_pte _ _ _ _ _ _ H'), E. Qed.

(** C12. [allocuvm] grows a process from [oldsz] to [newsz], or returns 0 and leaves it as it was;
    either way no page is lost, nothing already mapped moves or changes, and a new page reads as
    zero and is writable by the user. *)
Theorem allocuvm_all_or_nothing k dir T U R l oldsz newsz :
  aspace k dir T U R l -> 0 <= oldsz <= newsz -> newsz < KERNBASE ->
  (forall va, PGROUNDUP oldsz <= va -> U !! va = None) ->
  exists r k' T' U' l',
    allocuvm dir oldsz newsz k = Ret r k' /\ vm_frame k k' /\ aspace k' dir T' U' R l' /\
    vals T' ++ upages U' ++ l' ≡ₚ vals T ++ upages U ++ l /\ kept U k k' /\
    (forall va, 0 <= va < PGROUNDUP oldsz \/ KERNBASE <= va < 2 ^ 32 ->
       mmu (mem k') (V2P dir) va = mmu (mem k) (V2P dir) va) /\
    ((r = newsz /\ forall va, PGROUNDUP oldsz <= va < newsz ->
        exists p, mmu (mem k') (V2P dir) va = Some (V2P p + va mod PGSIZE, 7) /\ mem k' (p + va mod PGSIZE) = 0) \/
     (r = 0 /\ U' = U)).
Proof.
  intros H Ho Hn HU. unfold allocuvm. rewrite (proj2 (Z.leb_gt _ _)) by lia. rewrite (proj2 (Z.ltb_ge _ _)) by lia.
  destruct (pgroundup_least oldsz) as [Hr Hm]; [unfold KERNBASE, PGSIZE in *; lia|].
  destruct (decide (oldsz = newsz)) as [<-|Hne].
  { exists oldsz, k, T, U, l. cbn zeta. set (n := Z.to_nat _). split; [destruct n; cbn [allocuvm_loop]; zcases; done|].
    split_and!; try done. left. split; [done|]. intros va Hva. unfold PGSIZE in *. lia. }
  destruct (allocuvm_loop_spec dir R oldsz newsz) with (left := Z.to_nat ((newsz - PGROUNDUP oldsz + PGSIZE - 1) / PGSIZE))
    (k := k) (T := T) (U := U) (l := l) (a := PGROUNDUP oldsz) as (r & k' & T' & U' & l' & E & [F S P K] & Hc); try done;
    [lia|unfold PGSIZE in *; dlia|intros va Hva; apply HU; lia|].
  exists r, k', T', U', l'. split_and!; try done.
  - intros va p f x Hp Hx. destruct Hc as [[_ (M & _)] | [_ (_ & M)]].
    + apply M. by eapply user_outside.
    + apply M; [by eapply user_outside|]. intros va' q fq Hq Hva'. rewrite HU in Hq by lia. done.
  - intros va [Hva|Hva].
    + assert (0 <= va < KERNBASE) as Hv by (unfold KERNBASE, PGSIZE in *; dlia).
      rewrite (mmu_user _ _ _ _ _ _ _ H), (mmu_user _ _ _ _ _ _ _ S) by done. destruct (page_base va) as (Hb1 & _ & Hb); [lia|].
      assert (U' !! (va - va mod PGSIZE) = U !! (va - va mod PGSIZE)) as ->; [|done].
      destruct Hc as [[_ (_ & HU' & _)] | [_ (HU' & _)]]; rewrite HU'; [done|lia|]. by rewrite decide_False by lia.
    + apply (mmu_same _ _ _ _ _ _ _ _ _ _ (as_space _ _ _ _ _ _ H) (as_space _ _ _ _ _ _ S)); [unfold KERNBASE in Hva; lia|by apply K].
  - destruct Hc as [[-> (_ & _ & HU')] | [-> (HU' & _)]]; [left|right]; (split; [done|]).
    + intros va Hva. assert (0 <= va < KERNBASE) as Hv by lia. destruct (page_base va) as (Hb1 & Hb2 & Hb); [lia|].
      destruct (HU' (va - va mod PGSIZE)) as (p & Hp & Hz); [unfold PGSIZE in *; dlia|done|].
      exists p. rewrite (mmu_user _ _ _ _ _ _ _ S), Hp by done. split; [done|]. apply Hz. unfold in_page, PGSIZE. dlia.
    + apply map_eq. intros va. rewrite HU'. case_decide; [|done]. symmetry. apply HU. lia.
Qed.

(** C14. [freevm] gives back the directory, every page table and every user page, each once, and
    writes to nothing else. *)
Theorem freevm_frees_all k dir T U R l : aspace k dir T U R l ->
  exists k' l', freevm dir k = Ret tt k' /\ vm_frame k k' /\ free_rep k' l' /\
    l' ≡ₚ dir :: vals T ++ upages U ++ l /\ forall x, outside l' x -> mem k' x = mem k x.
Proof. apply freevm_spec. Qed.

(** The kernel mappings as the hardware sees them. *)
Definition kernel_mmu (data va : Z) : option (Z * Z) :=
  if (KERNBASE <=? va) && (va <? KERNBASE + PHYSTOP) then
    Some (va - KERNBASE, if (KERNLINK <=? va) && (va <? data) then PTE_P else Z.lor PTE_P PTE_W)
  else if DEVSPACE <=? va then Some (va, Z.lor PTE_P PTE_W)
  else None.

Lemma entry_mmu pa perm b : 0 <= pa -> pa mod PGSIZE = 0 -> pa + PGSIZE <= 2 ^ 32 -> 0 <= perm < PGSIZE ->
  (let e := entry pa perm in if present e then Some (PTE_ADDR e + b, Z.land 7 (PTE_FLAGS e)) else None) =
  Some (pa + b, Z.land 7 (Z.lor perm 1)).
Proof.
  intros H0 Hm Hr Hp. destruct (entry_val pa perm Hm Hp) as [-> Hf]. cbn zeta. rewrite present_flag by done.
  assert (Z.odd (Z.lor perm 1) = true) as ->.
  { rewrite <- Z.bit0_odd, Z.lor_spec. change (Z.testbit 1 0) with true. apply orb_true_r. }
  destruct (pte_parts pa (Z.lor perm 1)) as [-> ->]; [done|lia|done|done].
Qed.

Lemma kernel_pte_mmu data va : KERNLINK < data < P2V PHYSTOP -> 0 <= va < 2 ^ 32 ->
  (let e := kernel_pte data va in
   if present e then Some (PTE_ADDR e + va mod PGSIZE, Z.land 7 (PTE_FLAGS e)) else None) = kernel_mmu data va.
Proof.
  intros Hd Hva. unfold kernel_pte, kernel_mmu.
  destruct ((KERNBASE <=? va) && (va <? KERNBASE + PHYSTOP)) eqn:E1; [|destruct (DEVSPACE <=? va) eqn:E2; [|done]].
  - destruct ((KERNLINK <=? va) && (va <? data)); rewrite entry_mmu;
      unfold KERNBASE, PHYSTOP, PGSIZE in *; try done; try dlia; do 2 f_equal; dlia.
  - apply Z.leb_le in E2. rewrite entry_mmu; unfold KERNBASE, PHYSTOP, DEVSPACE, PGSIZE in *; try done; try dlia. do 2 f_equal; dlia.
Qed.

Lemma kdir_mmu k dir T R l data : kdir k dir T R l (foldl kmap_range (fun _ => 0) (kmap data)) ->
  forall k0, image_ok k0 -> kdata (vmst k0) = data ->
  forall va, 0 <= va < 2 ^ 32 -> mmu (mem k) (V2P dir) va = kernel_mmu data va.
Proof.
  intros [Hs _ Hp _] k0 Him <- va Hva. rewrite (mmu_pte _ _ _ _ _ _ Hs), Hp by done.
  destruct (kmap_ranges k0 Him) as [_ Hk]. cbn zeta in Hk. rewrite Hk by done. apply kernel_pte_mmu; [apply Him|done].
Qed.

(** C13. [setupkvm] builds a directory in which the whole of physical memory and the devices are
    mapped for the kernel, the kernel's text read-only, and nothing is mapped for the user; or
    it returns 0 and has no page. *)
Theorem setupkvm_maps_kernel k R l : owns k R l -> image_ok k ->
  exists r k' l', setupkvm k = Ret r k' /\ vm_frame k k' /\ (forall x, outside l x -> mem k' x = mem k x) /\
    ((r <> 0 /\ exists T, aspace k' r T ∅ R l' /\ r :: vals T ++ l' ≡ₚ l /\
        forall va, 0 <= va < 2 ^ 32 -> mmu (mem k') (V2P r) va = kernel_mmu (kdata (vmst k)) va) \/
     (r = 0 /\ owns k' R l' /\ l' ≡ₚ l)).
Proof.
  intros H Him. destruct (setupkvm_spec k R l H Him) as (r & k' & l' & E & F & M & Hr).
  exists r, k', l'. split_and!; try done. destruct Hr as [[Hr0 (T & Hk & Hp)] | Hr]; [left|by right].
  split; [done|]. exists T. split_and!; [by eapply kdir_aspace|done|]. by eapply kdir_mmu.
Qed.

(** The child's translations, once its pages are copies. *)
Lemma copied_mmu k k' dir d T U R l T' U' R' l' sz va :
  aspace k dir T U R l -> aspace k' d T' U' R' l' -> copied U sz k k' U' 0 -> sz <= KERNBASE -> 0 <= va < sz ->
  exists p p' f,
    mmu (mem k) (V2P dir) va = Some (V2P p + va mod PGSIZE, f) /\
    mmu (mem k') (V2P d) va = Some (V2P p' + va mod PGSIZE, f) /\
    mem k' (p' + va mod PGSIZE) = mem k (p + va mod PGSIZE).
Proof.
  intros H H' Hc Hsz Hva. destruct (page_base va) as (Hb & _ & Hb'); [lia|].
  destruct (Hc (va - va mod PGSIZE)) as (p & p' & f & E & E' & Hm); [lia|done|].
  exists p, p', (Z.land 7 f). rewrite (mmu_user _ _ _ _ _ _ _ H), (mmu_user _ _ _ _ _ _ _ H'), E, E' by lia.
  split_and!; try done. apply Hm, Z.mod_pos_bound. done.
Qed.

Lemma copyuvm_spec k dir T U R l sz :
  aspace k dir T U R l -> image_ok k -> 0 <= sz <= KERNBASE ->
  (forall va, 0 <= va < sz -> va mod PGSIZE = 0 -> is_Some (U !! va)) ->
  exists r k', copyuvm dir sz k = Ret r k' /\ vm_frame k k' /\ kept U k k' /\
    ((r <> 0 /\ exists T' U' l',
        aspace k' r T' U' (dir :: vals T ++ upages U ++ R) l' /\ aspace k' dir T U (r :: vals T' ++ upages U' ++ R) l' /\
        (forall va, 0 <= va < sz -> exists p p' f,
           mmu (mem k) (V2P dir) va = Some (V2P p + va mod PGSIZE, f) /\
           mmu (mem k') (V2P r) va = Some (V2P p' + va mod PGSIZE, f) /\
           mem k' (p' + va mod PGSIZE) = mem k (p + va mod PGSIZE)) /\
        (forall va, KERNBASE <= va < 2 ^ 32 -> mmu (mem k') (V2P r) va = kernel_mmu (kdata (vmst k)) va)) \/
     (r = 0 /\ exists leak l', aspace k' dir T U (leak ++ R) l' /\ (length leak <= 1)%nat /\ leak ++ l' ≡ₚ l)).
Proof.
  intros H Him Hsz Hmp. pose proof H as [Hs Hu Hk].
  assert (owns k (dir :: vals T ++ upages U ++ R) l) as Hown.
  { split; [apply Hs| |apply Hs|done]. pose proof (vs_own _ _ _ _ _ Hs) as Ho. simpl. by rewrite <- !app_assoc in *. }
  unfold copyuvm, mbind, K_bind. destruct (setupkvm_spec _ _ _ Hown Him) as (d & k1 & l1 & -> & F1 & M1 & Hr). cbn [obind].
  destruct Hr as [[Hd (T1 & Hkd & Hp1)] | (-> & Ho1 & Hp1)].
  - rewrite (proj2 (Z.eqb_neq d 0)) by done. pose proof (kdir_aspace _ _ _ _ _ _ Hkd) as Hch.
    destruct (aspace_other k k1 dir T U R (d :: vals T1 ++ upages ∅ ++ R) l l1 l) as (Hpar & Hkeep & _); try done;
      [apply Hkd|intros q; inlist|change (upages ∅) with ([] : list Z); unfold pool in Hp1; clear -Hp1; perm|].
    destruct (copyuvm_loop_spec d dir T U R sz) with (left := Z.to_nat ((sz + PGSIZE - 1) / PGSIZE)) (k := k1) (T := T1)
      (U := (∅ : gmap Z (Z * Z))) (l := l1) (i := 0) as (r & k2 & E2 & F2 & K2 & Hr2); try done;
      [lia|unfold PGSIZE; dlia|].
    exists r, k2. split_and!; [done|by etrans|by eapply kept_trans|].
    destruct Hr2 as [[-> (T' & U' & l' & [Hc1 Hc2] & _ & _ & Hcp & _ & Hkern)] | [-> (leak & l' & Ha & Hl & Hpm)]]; [left|right].
    + split; [done|]. exists T', U', l'. split_and!; try done.
      * intros va Hva. eapply (copied_mmu k k2 dir d T U R l T' U' _ l' sz); try done; [|lia]. intros v Hv Hvm.
        destruct (Hcp v Hv Hvm) as (p & p' & f & E & E' & Hm). exists p, p', f. split_and!; try done. intros j Hj.
        rewrite Hm by done. apply (Hkeep v p f); [done|unfold in_page; lia].
      * intros va Hva. rewrite <- (kdir_mmu _ _ _ _ _ _ Hkd k) by (done || (unfold KERNBASE in Hva; lia)).
        apply (mmu_same _ _ _ _ _ _ _ _ _ _ (as_space _ _ _ _ _ _ Hch) (as_space _ _ _ _ _ _ Hc1)); [unfold KERNBASE in Hva; lia|by apply Hkern].
    + split; [done|]. exists leak, l'. split_and!; try done. unfold pool in Hp1. rewrite Hpm, <- Hp1. done.
  - cbn [Z.eqb]. destruct (aspace_other k k1 dir T U R R l l1 l) as (Hpar & Hkeep & _); try done;
      [apply Ho1|intros q; inlist|by rewrite Hp1|].
    exists 0, k1. split_and!; try done. right. split; [done|]. exists [], l1. split_and!; [done|simpl; lia|done].
Qed.

(** C11. [copyuvm] gives the child a space of its own in which every byte below [sz] reads as in the
    parent, with the same permissions, and the kernel's mappings; the parent keeps its pages
    and their contents.  When memory runs out it returns 0 and everything goes back to the free
    list, except that the page it could not map is lost. *)
Theorem copyuvm_copies_space k dir T U R l sz :
  aspace k dir T U R l -> image_ok k -> 0 <= sz <= KERNBASE ->
  (forall va, 0 <= va < sz -> va mod PGSIZE = 0 -> is_Some (U !! va)) ->
  exists r k', copyuvm dir sz k = Ret r k' /\ vm_frame k k' /\ kept U k k' /\
    ((r <> 0 /\ exists T' U' l',
        aspace k' r T' U' (dir :: vals T ++ upages U ++ R) l' /\ aspace k' dir T U (r :: vals T' ++ upages U' ++ R) l' /\
        (forall va, 0 <= va < sz -> exists p p' f,
           mmu (mem k) (V2P dir) va = Some (V2P p + va mod PGSIZE, f) /\
           mmu (mem k') (V2P r) va = Some (V2P p' + va mod PGSIZE, f) /\
           mem k' (p' + va mod PGSIZE) = mem k (p + va mod PGSIZE)) /\
        (forall va, KERNBASE <= va < 2 ^ 32 -> mmu (mem k') (V2P r) va = kernel_mmu (kdata (vmst k)) va)) \/
     (r = 0 /\ exists leak l', aspace k' dir T U (leak ++ R) l' /\ (length leak <= 1)%nat /\ leak ++ l' ≡ₚ l)).
Proof. apply copyuvm_spec. Qed.

(** ** A small space

    A directory at 4 MB with one page table and one user page, and one free page. *)
Definition small_dir : Z := P2V 4194304.
Definition small_mem : memory :=
  store32 (store32 (fun _ => 0) small_dir (V2P (small_dir + 4096) + 7)) (small_dir + 4096) (V2P (small_dir + 8192) + 7).
Definition small : kernel :=
  kernel0 <| mem := small_mem |> <| kmem := mkKmem true (small_dir + 12288) |>.
Definition small_tables : gmap Z Z := {[0 := small_dir + 4096]}.
Definition small_pages : gmap Z (Z * Z) := {[0 := (small_dir + 8192, 7)]}.

Lemma small_load a : a mod 4 = 0 ->
  load32 small_mem a = if a =? small_dir then 4198407 else if a =? small_dir + 4096 then 4202503 else 0.
Proof.
  intros Ha. unfold small_mem, small_dir. change (P2V 4194304) with 2151677952. zcases; subst.
  - rewrite load32_store32_other by lia. by rewrite load32_store32.
  - by rewrite load32_store32.
  - change (2151677952 + 4096) with 2151682048 in *. rewrite !load32_store32_other by dlia. done.
Qed.

Lemma small_ok : aspace small small_dir small_tables small_pages [] [small_dir + 12288].
Proof.
  assert (bytes_ok small_mem) as Hb by (apply bytes_ok_store32, bytes_ok_store32; intros x; lia).
  assert (Forall (page_ok (kend small)) [small_dir; small_dir + 4096; small_dir + 8192; small_dir + 12288]) as Hok
    by (repeat (apply Forall_cons; split); by try apply Forall_nil).
  split; [split|split|done].
  - split_and!; [|apply NoDup_singleton|by apply (Forall_drop _ 3) in Hok|done|done|by intros _; apply not_elem_of_nil].
    simpl. change (mem small) with small_mem. rewrite small_load by done. done.
  - split.
    + intros i Hi. change (mem small) with small_mem. rewrite small_load by (unfold small_dir; change (P2V 4194304) with 2151677952; dlia).
      unfold small_tables. destruct (decide (i = 0)) as [->|Hne]; [done|].
      rewrite lookup_singleton_ne by done. zcases; done.
    + intros i t Hi. unfold small_tables in Hi. apply lookup_singleton_Some in Hi as [<- _]. lia.
  - vm_compute. repeat constructor; set_solver.
  - by apply (Forall_take _ 3) in Hok.
  - intros va Hva Hm. unfold pte. unfold small_tables, small_pages. change (mem small) with small_mem.
    assert (0 <= va < 2 ^ 32) as Hv by (unfold KERNBASE in Hva; lia). pose proof (PTX_range va Hv) as Hx.
    destruct (decide (va = 0)) as [->|Hne]; [change (PDX 0) with 0; rewrite !lookup_singleton_eq; cbn [from_option]; by rewrite small_load|]. rewrite (lookup_singleton_ne 0 va) by done.
    destruct (decide (PDX va = 0)) as [E|E]; [|by rewrite lookup_singleton_ne]. rewrite E, lookup_singleton_eq. cbn [from_option].
    assert (PTX va <> 0) as Hx0.
    { intros Ex. pose proof (index_page va 0 Hv) as Hi. unfold PGSIZE in *. apply Hne. dlia. }
    rewrite small_load by (unfold small_dir; change (P2V 4194304) with 2151677952; dlia). zcases; done.
  - intros va e Hi. unfold small_pages in Hi. apply lookup_singleton_Some in Hi as [<- <-]. done.
Qed.

Lemma small_above va : 4096 <= va -> small_pages !! va = None.
Proof. intros Hva. apply lookup_singleton_ne. lia. Qed.

Lemma allocuvm_all_or_nothing_witness :
  exists r k' T' U' l', allocuvm small_dir 4096 8192 small = Ret r k' /\ aspace k' small_dir T' U' [] l'.
Proof.
  destruct (allocuvm_all_or_nothing small small_dir small_tables small_pages [] [small_dir + 12288] 4096 8192)
    as (r & k' & T' & U' & l' & E & _ & Ha & _).
  - exact small_ok.
  - lia.
  - reflexivity.
  - exact small_above.
  - exists r, k', T', U', l'. exact (conj E Ha).
Defined.

Lemma freevm_frees_all_witness :
  exists k' l', freevm small_dir small = Ret tt k' /\ free_rep k' l' /\
    l' ≡ₚ small_dir :: vals small_tables ++ upages small_pages ++ [small_dir + 12288].
Proof.
  destruct (freevm_frees_all small small_dir small_tables small_pages [] [small_dir + 12288] small_ok)
    as (k' & l' & E & _ & Hf & Hp & _).
  exists k', l'. exact (conj E (conj Hf Hp)).
Defined.

Lemma small_owns : owns small (small_dir :: vals small_tables ++ upages small_pages ++ []) [small_dir + 12288].
Proof.
  pose proof small_ok as [Hs Hu Hk]. split; [apply Hs| |apply Hs|done].
  pose proof (vs_own _ _ _ _ _ Hs) as Ho. simpl. by rewrite <- !app_assoc in *.
Qed.

Lemma small_image : image_ok small.
Proof. by split. Qed.

Lemma setupkvm_maps_kernel_witness :
  exists r k' l', setupkvm small = Ret r k' /\
    (r = 0 -> owns k' (small_dir :: vals small_tables ++ upages small_pages ++ []) l').
Proof.
  destruct (setupkvm_maps_kernel small _ _ small_owns small_image) as (r & k' & l' & E & _ & _ & Hr).
  exists r, k', l'. split.
  - exact E.
  - intros E0. destruct Hr as [[Hne _]|(_ & Ho & _)]; [destruct (Hne E0)|exact Ho].
Defined.

Lemma small_mapped va : 0 <= va < 4096 -> va mod PGSIZE = 0 -> is_Some (small_pages !! va).
Proof. intros Hva Hm. unfold PGSIZE in Hm. assert (va = 0) as -> by dlia. by eexists. Qed.

Lemma copyuvm_copies_space_witness :
  exists r k', copyuvm small_dir 4096 small = Ret r k' /\ kept small_pages small k'.
Proof.
  destruct (copyuvm_copies_space small small_dir small_tables small_pages [] [small_dir + 12288] 4096)
    as (r & k' & E & _ & Hk & _).
  - exact small_ok.
  - exact small_image.
  - unfold KERNBASE. lia.
  - exact small_mapped.
  - exists r, k'. exact (conj E Hk).
Defined.
