(* ===== verification/Fs.v ===== *)
(** * Fs: the file system (fs.c, fs.h)

    Blocks and the free map, inodes and their cache, file contents, directories and
    paths: the whole of fs.c, over the buffer cache and the log.  An inode is the index of
    its slot in [icache]; the device switch table is an interface, which console.c
    implements. *)
From stdpp Require Import base list list_numbers gmap strings functions sorting.
From Stdlib Require Import ZArith Lia.
From S2P Require Import Prelude Mem Layout Machine Sched Sleeplock Disk Bio Log.
Local Open Scope Z_scope.

(** ** Layout on disk (fs.h) *)
Definition ROOTINO : Z := 1.
Definition NINDIRECT : Z := 128.
Definition MAXFILE : Z := Z.of_nat NDIRECT + NINDIRECT.
Definition IPB : Z := 8.
Definition BPB : Z := 4096.
Definition DIRSIZ : nat := 14.
Definition NDEV : Z := 10.
Definition T_DIR : Z := 1.
Definition T_FILE : Z := 2.
Definition T_DEV : Z := 3.

Definition IBLOCK (i : Z) (sb : superblock) : Z := u32 (i / IPB + sb_inodestart sb).
Definition BBLOCK (b : Z) (sb : superblock) : Z := u32 (b / BPB + sb_bmapstart sb).

Definition s16 (z : Z) : Z := (z + 2 ^ 15) mod 2 ^ 16 - 2 ^ 15.

(** Little-endian halfwords of a block, and copies into it. *)
Definition half_at (d : list Z) (o : nat) : Z := d !!! o + 2 ^ 8 * (d !!! (o + 1)%nat).
Definition set_half (d : list Z) (o : nat) (v : Z) : list Z :=
  <[o := u8 v]> (<[(o + 1)%nat := u8 (Z.shiftr v 8)]> d).
Definition splice (d : list Z) (o : nat) (l : list Z) : list Z := take o d ++ l ++ drop (o + length l) d.

(** [struct dinode]: the fields of the inode at byte [o] of a block. *)
Definition dinode_off (inum : Z) : nat := Z.to_nat (64 * (inum mod IPB)).

Fixpoint set_addrs (d : list Z) (o : nat) (l : list Z) : list Z :=
  match l with
  | [] => d
  | a :: l' => set_addrs (set_word d o a) (o + 4) l'
  end.

(** [dip->... = ip->...]. *)
Definition put_dinode (d : list Z) (o : nat) (ip : inode) : list Z :=
  let d := set_half d o (itype ip) in
  let d := set_half d (o + 2) (major ip) in
  let d := set_half d (o + 4) (minor ip) in
  let d := set_half d (o + 6) (nlink ip) in
  let d := set_word d (o + 8) (isize ip) in
  set_addrs d (o + 12) (addrs ip).

(** [ip->... = dip->...]. *)
Definition get_dinode (d : list Z) (o : nat) (ip : inode) : inode :=
  ip <| itype := s16 (half_at d o) |> <| major := s16 (half_at d (o + 2)) |>
     <| minor := s16 (half_at d (o + 4)) |> <| nlink := s16 (half_at d (o + 6)) |>
     <| isize := word_at d (o + 8) |>
     <| addrs := (fun i => word_at d (o + 12 + 4 * i)) <$> seq 0 (S NDIRECT) |>.

(** [struct dirent]. *)
Definition dirent_size : Z := 16.
Definition encode_dirent (inum : Z) (name : list Z) : list Z := [u8 inum; u8 (Z.shiftr inum 8)] ++ name.
Definition de_inum (de : list Z) : Z := half_at de 0.
Definition de_name (de : list Z) : list Z := drop 2 de.

(** [struct stat] (stat.h). *)
Record stat := mkStat { st_type : Z; st_dev : Z; st_ino : Z; st_nlink : Z; st_size : Z }.

(** A C library call that reads or writes out of bounds is undefined. *)
Definition lift {A} (o : option A) : K A :=
  match o with Some a => mret a | None => undef "out of bounds" end.

(** ** The device switch [devsw]

    [read ip n] returns the count and the bytes stored at the destination. *)
Class DevSw : Type := {
  dev_read : Z -> option (nat -> Z -> K (Z * list Z));
  dev_write : Z -> option (nat -> list Z -> K Z);
}.

(** ** Inode cache *)
Definition inode_at (k : kernel) (i : nat) : inode := icache (fsys k) !!! i.
Definition upd_inode (i : nat) (f : inode -> inode) : K unit :=
  modify (fun k => k <| fsys ::= fun s => s <| icache ::= alter f i |> |>).
Definition getsb : K superblock := gets (fun k => ksb (fsys k)).

Section fs.
Context {D : BlockDriver} {DS : DevSw} (fuel : nat).

(** ** Blocks *)
Definition bzero (dev bno : Z) : K unit :=
  bp ← bread fuel dev bno ;
  set_data bp (fun _ => replicate BSIZE 0) ;;
  log_write bp ;;
  brelse bp.

Definition bit_clear (d : list Z) (bi : Z) : bool :=
  Z.land (d !!! Z.to_nat (bi / 8)) (Z.shiftl 1 (bi mod 8)) =? 0.

(** The inner loop of [balloc]: the first clear bit from [bi] on. *)
Fixpoint scan_bits (left : nat) (d : list Z) (b bi size : Z) : option Z :=
  match left with
  | O => None
  | S left' =>
      if b + bi <? size then
        if bit_clear d bi then Some bi else scan_bits left' d b (bi + 1) size
      else None
  end.

Fixpoint balloc_loop (left : nat) (dev b : Z) : K Z :=
  sb ← getsb ;
  if b <? sb_size sb then
    match left with
    | O => out_of_fuel
    | S left' =>
        bp ← bread fuel dev (BBLOCK b sb) ;
        d ← gets (fun k => bdata (buf_at k bp)) ;
        match scan_bits (Z.to_nat BPB) d b 0 (sb_size sb) with
        | Some bi =>
            set_data bp (alter (fun x => Z.lor x (Z.shiftl 1 (bi mod 8))) (Z.to_nat (bi / 8))) ;;
            log_write bp ;;
            brelse bp ;;
            bzero dev (b + bi) ;;
            mret (b + bi)
        | None => brelse bp ;; b' ← sadd b BPB ; balloc_loop left' dev b'
        end
    end
  else panic "balloc: out of blocks".

Definition balloc (dev : Z) : K Z :=
  sb ← getsb ;
  balloc_loop (Z.to_nat ((sb_size sb + BPB - 1) / BPB)) dev 0.

Definition bfree (dev b : Z) : K unit :=
  sb ← readsb fuel dev ;
  modify (fun k => k <| fsys ::= upd ksb (fun _ => sb) |>) ;;
  bp ← bread fuel dev (BBLOCK b sb) ;
  let bi := b mod BPB in
  d ← gets (fun k => bdata (buf_at k bp)) ;
  if bit_clear d bi then panic "freeing free block"
  else
    set_data bp (alter (fun x => Z.land x (255 - Z.shiftl 1 (bi mod 8))) (Z.to_nat (bi / 8))) ;;
    log_write bp ;;
    brelse bp.

(** ** Inodes *)
Fixpoint iinit_loop (left : nat) (i : nat) : K unit :=
  match left with
  | O => mret tt
  | S left' => initsleeplock (InodeLock i) ;; iinit_loop left' (S i)
  end.

Definition iinit (dev : Z) : K unit :=
  initlock IcacheLock ;;
  iinit_loop NINODE 0 ;;
  sb ← readsb fuel dev ;
  modify (fun k => k <| fsys ::= upd ksb (fun _ => sb) |>) ;;
  cprintf "sb: size %d nblocks %d ninodes %d nlog %d logstart %d inodestart %d bmap start %d\n"
    [sb_size sb; sb_nblocks sb; sb_ninodes sb; sb_nlog sb; sb_logstart sb; sb_inodestart sb; sb_bmapstart sb].

(** The cached inode and, if there is none, the first empty slot. *)
Definition find_inode (dev n : Z) (l : list inode) : option nat :=
  fst <$> list_find (fun ip => 0 < iref ip /\ idev ip = dev /\ inum ip = n) l.
Definition find_empty (l : list inode) : option nat := fst <$> list_find (fun ip => iref ip = 0) l.

Definition iget (dev n : Z) : K nat :=
  acquire IcacheLock ;;
  l ← gets (fun k => icache (fsys k)) ;
  match find_inode dev n l with
  | Some i =>
      r ← sadd (iref (l !!! i)) 1 ;
      upd_inode i (fun ip => ip <| iref := r |>) ;;
      release IcacheLock ;;
      mret i
  | None =>
      match find_empty l with
      | None => panic "iget: no inodes"
      | Some i =>
          upd_inode i (fun ip => ip <| idev := dev |> <| inum := n |> <| iref := 1 |> <| ivalid := 0 |>) ;;
          release IcacheLock ;;
          mret i
      end
  end.

Fixpoint ialloc_loop (left : nat) (dev n type : Z) : K nat :=
  sb ← getsb ;
  if n <? sb_ninodes sb then
    match left with
    | O => out_of_fuel
    | S left' =>
        bp ← bread fuel dev (IBLOCK n sb) ;
        d ← gets (fun k => bdata (buf_at k bp)) ;
        let o := dinode_off n in
        if half_at d o =? 0 then
          set_data bp (fun d => set_half (splice d o (replicate 64 0)) o type) ;;
          log_write bp ;;
          brelse bp ;;
          iget dev n
        else brelse bp ;; ialloc_loop left' dev (n + 1) type
    end
  else panic "ialloc: no inodes".

Definition ialloc (dev type : Z) : K nat :=
  sb ← getsb ;
  ialloc_loop (Z.to_nat (sb_ninodes sb)) dev 1 type.

Definition iupdate (i : nat) : K unit :=
  ip ← gets (fun k => inode_at k i) ;
  sb ← getsb ;
  bp ← bread fuel (idev ip) (IBLOCK (inum ip) sb) ;
  ip ← gets (fun k => inode_at k i) ;
  set_data bp (fun d => put_dinode d (dinode_off (inum ip)) ip) ;;
  log_write bp ;;
  brelse bp.

Definition idup (i : nat) : K nat :=
  acquire IcacheLock ;;
  ip ← gets (fun k => inode_at k i) ;
  r ← sadd (iref ip) 1 ;
  upd_inode i (fun ip => ip <| iref := r |>) ;;
  release IcacheLock ;;
  mret i.

Definition ilock (i : nat) : K unit :=
  ip ← gets (fun k => inode_at k i) ;
  if iref ip <? 1 then panic "ilock"
  else
    acquiresleep fuel (InodeLock i) ;;
    ip ← gets (fun k => inode_at k i) ;
    if ivalid ip =? 0 then
      sb ← getsb ;
      bp ← bread fuel (idev ip) (IBLOCK (inum ip) sb) ;
      d ← gets (fun k => bdata (buf_at k bp)) ;
      upd_inode i (get_dinode d (dinode_off (inum ip))) ;;
      brelse bp ;;
      upd_inode i (fun ip => ip <| ivalid := 1 |>) ;;
      ip ← gets (fun k => inode_at k i) ;
      if itype ip =? 0 then panic "ilock: no type" else mret tt
    else mret tt.

Definition iunlock (i : nat) : K unit :=
  h ← holdingsleep (InodeLock i) ;
  ip ← gets (fun k => inode_at k i) ;
  if negb h || (iref ip <? 1) then panic "iunlock"
  else releasesleep (InodeLock i).

Fixpoint itrunc_direct (left : nat) (i j : nat) : K unit :=
  match left with
  | O => mret tt
  | S left' =>
      ip ← gets (fun k => inode_at k i) ;
      let a := addrs ip !!! j in
      whenK (negb (a =? 0)) (
        bfree (idev ip) a ;;
        upd_inode i (fun ip => ip <| addrs ::= <[j := 0]> |>)) ;;
      itrunc_direct left' i (S j)
  end.

Fixpoint itrunc_indirect (left : nat) (dev : Z) (bp j : nat) : K unit :=
  match left with
  | O => mret tt
  | S left' =>
      a ← gets (fun k => word_at (bdata (buf_at k bp)) (4 * j)) ;
      whenK (negb (a =? 0)) (bfree dev a) ;;
      itrunc_indirect left' dev bp (S j)
  end.

Definition itrunc (i : nat) : K unit :=
  itrunc_direct NDIRECT i 0 ;;
  ip ← gets (fun k => inode_at k i) ;
  let a := addrs ip !!! NDIRECT in
  whenK (negb (a =? 0)) (
    bp ← bread fuel (idev ip) a ;
    itrunc_indirect (Z.to_nat NINDIRECT) (idev ip) bp 0 ;;
    brelse bp ;;
    bfree (idev ip) a ;;
    upd_inode i (fun ip => ip <| addrs ::= <[NDIRECT := 0]> |>)) ;;
  upd_inode i (fun ip => ip <| isize := 0 |>) ;;
  iupdate i.

Definition iput (i : nat) : K unit :=
  acquiresleep fuel (InodeLock i) ;;
  ip ← gets (fun k => inode_at k i) ;
  whenK (negb (ivalid ip =? 0) && (nlink ip =? 0)) (
    acquire IcacheLock ;;
    r ← gets (fun k => iref (inode_at k i)) ;
    release IcacheLock ;;
    whenK (r =? 1) (
      itrunc i ;;
      upd_inode i (fun ip => ip <| itype := 0 |>) ;;
      iupdate i ;;
      upd_inode i (fun ip => ip <| ivalid := 0 |>))) ;;
  releasesleep (InodeLock i) ;;
  acquire IcacheLock ;;
  upd_inode i (fun ip => ip <| iref ::= (fun r => r - 1) |>) ;;
  release IcacheLock.

Definition iunlockput (i : nat) : K unit := iunlock i ;; iput i.

(** ** Contents *)
Definition bmap (i : nat) (bn : Z) : K Z :=
  ip ← gets (fun k => inode_at k i) ;
  if bn <? Z.of_nat NDIRECT then
    let addr := addrs ip !!! Z.to_nat bn in
    if addr =? 0 then
      addr ← balloc (idev ip) ;
      upd_inode i (fun ip => ip <| addrs ::= <[Z.to_nat bn := addr]> |>) ;;
      mret addr
    else mret addr
  else
    let bn := bn - Z.of_nat NDIRECT in
    if bn <? NINDIRECT then
      let addr := addrs ip !!! NDIRECT in
      addr ← (if addr =? 0 then
                addr ← balloc (idev ip) ;
                upd_inode i (fun ip => ip <| addrs ::= <[NDIRECT := addr]> |>) ;;
                mret addr
              else mret addr) ;
      bp ← bread fuel (idev ip) addr ;
      a ← gets (fun k => word_at (bdata (buf_at k bp)) (Z.to_nat (4 * bn))) ;
      addr ← (if a =? 0 then
                addr ← balloc (idev ip) ;
                set_data bp (fun d => set_word d (Z.to_nat (4 * bn)) addr) ;;
                log_write bp ;;
                mret addr
              else mret a) ;
      brelse bp ;;
      mret addr
    else panic "bmap: out of range".

Definition stati (i : nat) : K stat :=
  ip ← gets (fun k => inode_at k i) ;
  mret (mkStat (itype ip) (idev ip) (inum ip) (nlink ip) (isize ip)).

(** The loop of [readi] from offset [off] on, with [n] bytes to go; the bytes stored at
    [dst]. *)
Fixpoint readi_loop (left : nat) (i : nat) (off n : Z) : K (list Z) :=
  if 0 <? n then
    match left with
    | O => out_of_fuel
    | S left' =>
        ip ← gets (fun k => inode_at k i) ;
        addr ← bmap i (off / Z.of_nat BSIZE) ;
        bp ← bread fuel (idev ip) addr ;
        let m := Z.min n (Z.of_nat BSIZE - off mod Z.of_nat BSIZE) in
        d ← gets (fun k => bdata (buf_at k bp)) ;
        brelse bp ;;
        rest ← readi_loop left' i (off + m) (n - m) ;
        mret (take (Z.to_nat m) (drop (Z.to_nat (off mod Z.of_nat BSIZE)) d) ++ rest)
    end
  else mret [].

(** The blocks a transfer of [n] bytes touches at most. *)
Definition nblocks (n : Z) : nat := S (S (Z.to_nat (n / Z.of_nat BSIZE))).

(** Returns the count, -1 on error, and the bytes stored at [dst]. *)
Definition readi (i : nat) (off n : Z) : K (Z * list Z) :=
  ip ← gets (fun k => inode_at k i) ;
  if itype ip =? T_DEV then
    if (major ip <? 0) || (NDEV <=? major ip) then mret (-1, [])
    else match dev_read (major ip) with
         | None => mret (-1, [])
         | Some rd => rd i n
         end
  else if (isize ip <? off) || (u32 (off + n) <? off) then mret (-1, [])
  else
    let n := if isize ip <? u32 (off + n) then isize ip - off else n in
    l ← readi_loop (nblocks n) i off n ;
    mret (n, l).

(** The loop of [writei]: [src] are the bytes still to be written, from offset [off] on;
    returns the offset reached. *)
Fixpoint writei_loop (left : nat) (i : nat) (off : Z) (src : list Z) : K Z :=
  match src with
  | [] => mret off
  | _ =>
      match left with
      | O => out_of_fuel
      | S left' =>
          ip ← gets (fun k => inode_at k i) ;
          addr ← bmap i (off / Z.of_nat BSIZE) ;
          bp ← bread fuel (idev ip) addr ;
          let m := Z.min (Z.of_nat (length src)) (Z.of_nat BSIZE - off mod Z.of_nat BSIZE) in
          set_data bp (fun d => splice d (Z.to_nat (off mod Z.of_nat BSIZE)) (take (Z.to_nat m) src)) ;;
          log_write bp ;;
          brelse bp ;;
          writei_loop left' i (off + m) (drop (Z.to_nat m) src)
      end
  end.

(** [src] are the [n] bytes at the source. *)
Definition writei (i : nat) (src : list Z) (off : Z) : K Z :=
  let n := Z.of_nat (length src) in
  ip ← gets (fun k => inode_at k i) ;
  if itype ip =? T_DEV then
    if (major ip <? 0) || (NDEV <=? major ip) then mret (-1)
    else match dev_write (major ip) with
         | None => mret (-1)
         | Some wr => wr i src
         end
  else if (isize ip <? off) || (u32 (off + n) <? off) then mret (-1)
  else if MAXFILE * Z.of_nat BSIZE <? u32 (off + n) then mret (-1)
  else
    off ← writei_loop (nblocks n) i off src ;
    ip ← gets (fun k => inode_at k i) ;
    whenK ((0 <? n) && (isize ip <? off)) (
      upd_inode i (fun ip => ip <| isize := off |>) ;;
      iupdate i) ;;
    mret n.

(** ** Directories *)
Definition namecmp (s t : list Z) : K Z := lift (strncmp s t DIRSIZ).

Fixpoint dirlookup_loop (left : nat) (dp : nat) (name : list Z) (off : Z) : K (option (nat * Z)) :=
  ip ← gets (fun k => inode_at k dp) ;
  if off <? isize ip then
    match left with
    | O => out_of_fuel
    | S left' =>
        r ← readi dp off dirent_size ;
        let '(c, de) := r in
        if negb (c =? dirent_size) then panic "dirlookup read"
        else if de_inum de =? 0 then dirlookup_loop left' dp name (u32 (off + dirent_size))
        else
          c ← namecmp name (de_name de) ;
          if c =? 0 then
            ip ← gets (fun k => inode_at k dp) ;
            j ← iget (idev ip) (de_inum de) ;
            mret (Some (j, off))
          else dirlookup_loop left' dp name (u32 (off + dirent_size))
    end
  else mret None.

(** The entries of a directory of [size] bytes. *)
Definition nents (size : Z) : nat := Z.to_nat ((size + dirent_size - 1) / dirent_size).

(** The inode found and the offset of its entry ([*poff]). *)
Definition dirlookup (dp : nat) (name : list Z) : K (option (nat * Z)) :=
  ip ← gets (fun k => inode_at k dp) ;
  if negb (itype ip =? T_DIR) then panic "dirlookup not DIR"
  else dirlookup_loop (nents (isize ip)) dp name 0.

(** Where [dirlink] puts the new entry. *)
Fixpoint dirlink_slot (left : nat) (dp : nat) (off : Z) : K Z :=
  ip ← gets (fun k => inode_at k dp) ;
  if u32 off <? isize ip then
    match left with
    | O => out_of_fuel
    | S left' =>
        r ← readi dp (u32 off) dirent_size ;
        let '(c, de) := r in
        if negb (c =? dirent_size) then panic "dirlink read"
        else if de_inum de =? 0 then mret off
        else off' ← sadd off dirent_size ; dirlink_slot left' dp off'
    end
  else mret off.

Definition dirlink (dp : nat) (name : list Z) (n : Z) : K Z :=
  r ← dirlookup dp name ;
  match r with
  | Some (ip, _) => iput ip ;; mret (-1)
  | None =>
      ip ← gets (fun k => inode_at k dp) ;
      off ← dirlink_slot (nents (isize ip)) dp 0 ;
      nm ← lift (strncpy (replicate DIRSIZ 0) name DIRSIZ) ;
      c ← writei dp (encode_dirent (u16 n) nm) (u32 off) ;
      if negb (c =? dirent_size) then panic "dirlink" else mret 0
  end.

(** ** Paths

    A path is the bytes before its terminator, and [name] the buffer of [DIRSIZ] bytes. *)
Definition slash : Z := 47.

Fixpoint skip_slashes (path : list Z) : list Z :=
  match path with
  | c :: path' => if c =? slash then skip_slashes path' else path
  | [] => []
  end.

(** The element at the start of [path] and what follows it. *)
Fixpoint element (path : list Z) : list Z * list Z :=
  match path with
  | c :: path' => if c =? slash then ([], path) else let '(s, r) := element path' in (c :: s, r)
  | [] => ([], [])
  end.

Definition skipelem (path name : list Z) : option (list Z * list Z) :=
  match skip_slashes path with
  | [] => None
  | path =>
      let '(s, path) := element path in
      let name := if Nat.leb DIRSIZ (length s) then take DIRSIZ s else splice name 0 (s ++ [0]) in
      Some (skip_slashes path, name)
  end.

Fixpoint namex_loop (left : nat) (ip : nat) (path : list Z) (nameiparent : bool) (name : list Z) : K (option nat * list Z) :=
  match skipelem path name with
  | None => if nameiparent then iput ip ;; mret (None, name) else mret (Some ip, name)
  | Some (path, name) =>
      match left with
      | O => out_of_fuel
      | S left' =>
          ilock ip ;;
          x ← gets (fun k => inode_at k ip) ;
          if negb (itype x =? T_DIR) then iunlockput ip ;; mret (None, name)
          else if nameiparent && bool_decide (path = []) then iunlock ip ;; mret (Some ip, name)
          else
            next ← dirlookup ip name ;
            match next with
            | None => iunlockput ip ;; mret (None, name)
            | Some (next, _) => iunlockput ip ;; namex_loop left' next path nameiparent name
            end
      end
  end.

Definition namex (path : list Z) (nameiparent : bool) (name : list Z) : K (option nat * list Z) :=
  ip ← (if bool_decide (head path = Some slash) then iget ROOTDEV ROOTINO
        else
          i ← cur ;
          c ← gets (fun k => cwd (ptable k !!! i)) ;
          match c with Some c => idup c | None => undef "no current directory" end) ;
  namex_loop (length path) ip path nameiparent name.

Definition namei (path : list Z) : K (option nat) :=
  r ← namex path false (replicate DIRSIZ 0) ;
  mret (fst r).

Definition nameiparent (path name : list Z) : K (option nat * list Z) := namex path true name.
End fs.

(** ** Path elements

    The elements of a path are what is between its slashes, empty ones dropped. *)
Fixpoint split_path (path : list Z) : list (list Z) :=
  match path with
  | [] => [[]]
  | c :: path' =>
      if c =? slash then [] :: split_path path'
      else match split_path path' with
           | [] => [[c]]
           | e :: es => (c :: e) :: es
           end
  end.
Definition elements (path : list Z) : list (list Z) := filter (fun e => e <> []) (split_path path).

(** The string in a buffer. *)
Fixpoint cstr (l : list Z) : list Z :=
  match l with
  | [] => []
  | c :: l' => if c =? 0 then [] else c :: cstr l'
  end.

Lemma split_path_ne path : split_path path <> [].
Proof. destruct path as [|c path]; simpl; [done|]. destruct (c =? slash); [done|]. by destruct (split_path path). Qed.

Lemma elements_skip path : elements (skip_slashes path) = elements path.
Proof.
  induction path as [|c path IH]; simpl; [done|]. unfold elements in *. simpl.
  destruct (Z.eqb_spec c slash) as [->|Hc]; [|simpl; by rewrite (proj2 (Z.eqb_neq _ _) Hc)]. rewrite IH, filter_cons_False; [done|]. tauto.
Qed.

Lemma skip_slashes_spec path :
  (length (skip_slashes path) <= length path)%nat /\ head (skip_slashes path) <> Some slash /\
  (Forall (fun c => c <> 0) path -> Forall (fun c => c <> 0) (skip_slashes path)).
Proof.
  induction path as [|c path (IH1 & IH2 & IH3)]; simpl; [done|].
  destruct (Z.eqb_spec c slash) as [->|Hc]; [split_and!; [lia|done|]|].
  - intros H. by apply Forall_cons in H as [_ H]; apply IH3.
  - split_and!; [done|simpl; congruence|done].
Qed.

Lemma element_spec path : Forall (fun c => c <> 0) path ->
  let '(s, r) := element path in
  path = s ++ r /\ split_path path = (s :: tail (split_path r)) /\ (r = [] \/ head r = Some slash) /\
  Forall (fun c => c <> 0) s /\ (path <> [] -> head path <> Some slash -> s <> []).
Proof.
  induction path as [|c path IH]; intros Hp; simpl; [by split_and!; try left|]. apply Forall_cons in Hp as [Hc Hp].
  destruct (Z.eqb_spec c slash) as [->|Hs].
  - split_and!; [done|done|by right|by constructor|by intros _ H]. 
  - specialize (IH Hp). destruct (element path) as [s r]. destruct IH as (-> & -> & Hr & Hs0 & _). split_and!; try done.
    by constructor.
Qed.

Lemma cstr_app s l : Forall (fun c => c <> 0) s -> cstr (s ++ 0 :: l) = s.
Proof. induction 1 as [|c s Hc _ IH]; simpl; [done|]. by rewrite (proj2 (Z.eqb_neq _ _) Hc), IH. Qed.

Lemma cstr_full s : Forall (fun c => c <> 0) s -> cstr s = s.
Proof. induction 1 as [|c s Hc _ IH]; simpl; [done|]. by rewrite (proj2 (Z.eqb_neq _ _) Hc), IH. Qed.

(** C35. [skipelem] splits a path into its elements: it fails exactly if there is none left;
    otherwise [name] becomes the first element cut to [DIRSIZ] bytes, and the path it returns
    has the other elements, is shorter, and is empty exactly if the element was the last. *)
Theorem skipelem_next_element path name :
  Forall (fun c => c <> 0) path -> length name = DIRSIZ ->
  match skipelem path name with
  | None => elements path = []
  | Some (rest, name') => exists e,
      elements path = e :: elements rest /\ length name' = DIRSIZ /\ cstr name' = take DIRSIZ e /\
      (length rest < length path)%nat /\ (rest = [] <-> elements rest = [])
  end.
Proof.
  intros Hp Hn. unfold skipelem. rewrite <- (elements_skip path).
  destruct (skip_slashes_spec path) as (Hl & Hh & Hz). specialize (Hz Hp).
  destruct (skip_slashes path) as [|c p] eqn:E; [done|].
  pose proof (element_spec (c :: p) Hz) as He. destruct (element (c :: p)) as [s r].
  destruct He as (Ep & Es & Hr & Hs0 & Hsn). specialize (Hsn ltac:(done) Hh).
  assert (Forall (fun x => x <> 0) r) as Hrz by (rewrite Ep in Hz; by apply Forall_app in Hz as [_ Hz]).
  destruct (skip_slashes_spec r) as (Hl' & Hh' & Hz'). exists s. split_and!.
  - unfold elements at 1. rewrite Es, filter_cons_True by done. f_equal. rewrite elements_skip. unfold elements.
    destruct Hr as [->|Hr]; [done|]. destruct r as [|x r]; [done|]. simpl in Hr. simplify_eq. simpl.
    rewrite filter_cons_False; [done|tauto].
  - destruct (Nat.leb_spec DIRSIZ (length s)); [rewrite length_take; lia|]. unfold splice.
    repeat rewrite ?length_app, ?length_take, ?length_drop. simpl. rewrite Hn. unfold DIRSIZ in *. lia.
  - destruct (Nat.leb_spec DIRSIZ (length s)) as [|Hlt]; [apply cstr_full; by apply Forall_take|].
    unfold splice. simpl. rewrite <- app_assoc. simpl. rewrite cstr_app by done. symmetry. apply take_ge. lia.
  - rewrite Ep in Hl. rewrite length_app in Hl. destruct s; [done|]. simpl in Hl. lia.
  - split; [by intros ->|]. intros Hr0. specialize (Hz' Hrz). destruct (skip_slashes r) as [|x q] eqn:E'; [done|].
    pose proof (element_spec (x :: q) Hz') as He. destruct (element (x :: q)) as [s' r']. destruct He as (_ & Es' & _ & _ & Hs').
    unfold elements in Hr0. rewrite Es', filter_cons_True in Hr0 by (by apply Hs'). done.
Qed.

(** The examples of the comment: ["a/bb/c"] and ["///a//bb"]. *)
Lemma skipelem_next_element_witness :
  (exists e, elements [97; 47; 98; 98; 47; 99] = e :: elements [98; 98; 47; 99] /\ e = [97]) /\
  elements [47; 47; 47; 97; 47; 47; 98; 98] = [97] :: elements [98; 98].
Proof.
  split.
  - pose proof (skipelem_next_element [97; 47; 98; 98; 47; 99] (replicate DIRSIZ 0)) as H. vm_compute in H.
    destruct H as (e & He & _ & Hc & _); [repeat constructor; congruence|reflexivity|].
    exists e. split; [exact He|]. injection He as <-. reflexivity.
  - pose proof (skipelem_next_element [47; 47; 47; 97; 47; 47; 98; 98] (replicate DIRSIZ 0)) as H. vm_compute in H.
    destruct H as (e & He & _); [repeat constructor; congruence|reflexivity|]. injection He as <-. reflexivity.
Defined.

(** ** Inodes on disk *)

Lemma half_range d o : Forall (fun b => 0 <= b < 256) d -> 0 <= half_at d o < 2 ^ 16.
Proof.
  intros H. assert (forall j, 0 <= d !!! j < 256) as Hb.
  { intros j. destruct (decide (j < length d)%nat) as [Hj|Hj].
    - apply (Forall_lookup_total_1 _ _ _ H Hj).
    - rewrite list_lookup_total_alt, lookup_ge_None_2 by lia. simpl. unfold inhabitant. simpl. lia. }
  unfold half_at. pose proof (Hb o). pose proof (Hb (o + 1)%nat). lia.
Qed.

Lemma set_half_length d o v : length (set_half d o v) = length d.
Proof. unfold set_half. by rewrite !length_insert. Qed.

Lemma set_addrs_length l : forall d o, length (set_addrs d o l) = length d.
Proof. induction l as [|a l IH]; intros d o; simpl; [done|]. by rewrite IH, set_word_length. Qed.

Lemma put_dinode_length d o ip : length (put_dinode d o ip) = length d.
Proof. unfold put_dinode. by rewrite set_addrs_length, set_word_length, !set_half_length. Qed.

Lemma set_half_lookup d o v j : (o + 1 < length d)%nat ->
  set_half d o v !!! j = if decide (j = o) then u8 v else if decide (j = (o + 1)%nat) then u8 (Z.shiftr v 8) else d !!! j.
Proof.
  intros Hl. unfold set_half. rewrite !insert_total by (rewrite ?length_insert; lia). repeat case_decide; subst; try done; lia.
Qed.

Lemma set_addrs_other l : forall d o j, (o + 4 * length l <= length d)%nat -> (j < o \/ o + 4 * length l <= j)%nat ->
  set_addrs d o l !!! j = d !!! j.
Proof.
  induction l as [|a l IH]; intros d o j Hl Hj; simpl in *; [done|].
  rewrite IH by (rewrite ?set_word_length; lia). rewrite set_word_lookup by lia. repeat case_decide; lia || done.
Qed.

Lemma word_ext d d' o : (forall j, (o <= j < o + 4)%nat -> d !!! j = d' !!! j) -> word_at d o = word_at d' o.
Proof. intros H. unfold word_at. rewrite !H by lia. done. Qed.

Lemma half_ext d d' o : (forall j, (o <= j < o + 2)%nat -> d !!! j = d' !!! j) -> half_at d o = half_at d' o.
Proof. intros H. unfold half_at. rewrite !H by lia. done. Qed.

Lemma half_set d o v : (o + 1 < length d)%nat -> half_at (set_half d o v) o = u16 v.
Proof.
  intros Hl. unfold half_at. rewrite !set_half_lookup by done. rewrite decide_True, (decide_False (P := (o + 1 = o)%nat)), decide_True by lia.
  unfold u8, u16. rewrite Z.shiftr_div_pow2 by lia. dlia.
Qed.

Lemma half_set_other d o v o' : (o + 1 < length d)%nat -> (o' + 2 <= o \/ o + 2 <= o')%nat ->
  half_at (set_half d o v) o' = half_at d o'.
Proof. intros Hl Ho. apply half_ext. intros j Hj. rewrite set_half_lookup by done. repeat case_decide; lia || done. Qed.

Lemma half_set_word d o v o' : (o + 3 < length d)%nat -> (o' + 2 <= o)%nat -> half_at (set_word d o v) o' = half_at d o'.
Proof. intros Hl Ho. apply half_ext. intros j Hj. rewrite set_word_lookup by done. repeat case_decide; lia || done. Qed.

Lemma half_set_addrs d o l o' : (o + 4 * length l <= length d)%nat -> (o' + 2 <= o)%nat ->
  half_at (set_addrs d o l) o' = half_at d o'.
Proof. intros Hl Ho. apply half_ext. intros j Hj. apply set_addrs_other; lia. Qed.

Lemma addrs_at l : forall d o i, (o + 4 * length l <= length d)%nat -> (i < length l)%nat -> Forall (fun a => 0 <= a < 2 ^ 32) l ->
  word_at (set_addrs d o l) (o + 4 * i) = l !!! i.
Proof.
  induction l as [|a l IH]; intros d o i Hl Hi Hr; cbn [length set_addrs] in *; [lia|]. apply Forall_cons in Hr as [Ha Hr].
  destruct i as [|i].
  - replace (o + 4 * 0)%nat with o by lia.
    rewrite (word_ext _ (set_word d o a)) by (intros j Hj; apply set_addrs_other; rewrite ?set_word_length; lia).
    rewrite word_set_same by lia. by apply Z.mod_small.
  - replace (o + 4 * S i)%nat with (o + 4 + 4 * i)%nat by lia. rewrite IH by (rewrite ?set_word_length; lia || done). done.
Qed.

Lemma s16_u16 v : - 2 ^ 15 <= v < 2 ^ 15 -> s16 (u16 v) = v.
Proof. intros Hv. unfold s16, u16. rewrite Zplus_mod_idemp_l, Z.mod_small by lia. lia. Qed.

(** The widths of the fields. *)
Definition dinode_ok (ip : inode) : Prop :=
  (- 2 ^ 15 <= itype ip < 2 ^ 15 /\ - 2 ^ 15 <= major ip < 2 ^ 15 /\ - 2 ^ 15 <= minor ip < 2 ^ 15 /\
   - 2 ^ 15 <= nlink ip < 2 ^ 15) /\ 0 <= isize ip < 2 ^ 32 /\
  length (addrs ip) = S NDIRECT /\ Forall (fun a => 0 <= a < 2 ^ 32) (addrs ip).

Lemma dinode_range n : (dinode_off n + 64 <= BSIZE)%nat.
Proof. unfold dinode_off, IPB, BSIZE. pose proof (Z.mod_pos_bound n 8). lia. Qed.

Lemma put_dinode_other d n ip j : length d = BSIZE -> length (addrs ip) = S NDIRECT ->
  (j < dinode_off n \/ dinode_off n + 64 <= j)%nat -> put_dinode d (dinode_off n) ip !!! j = d !!! j.
Proof.
  intros Hd Ha Hj. pose proof (dinode_range n) as Ho. set (o := dinode_off n) in *. unfold put_dinode.
  unfold NDIRECT in Ha. rewrite set_addrs_other by (rewrite ?set_word_length, ?set_half_length; lia).
  rewrite set_word_lookup by (rewrite ?set_half_length; lia).
  rewrite !set_half_lookup by (rewrite ?set_half_length; lia). repeat (case_decide; [lia|]). done.
Qed.

(** The disk fields of [ip] in the place of those of [ip']. *)
Definition with_fields (ip ip' : inode) : inode :=
  ip' <| itype := itype ip |> <| major := major ip |> <| minor := minor ip |> <| nlink := nlink ip |>
      <| isize := isize ip |> <| addrs := addrs ip |>.

Lemma get_put_dinode d n ip ip' : length d = BSIZE -> dinode_ok ip ->
  get_dinode (put_dinode d (dinode_off n) ip) (dinode_off n) ip' = with_fields ip ip'.
Proof.
  intros Hd ((H1 & H2 & H3 & H4) & H5 & H6 & H7). pose proof (dinode_range n) as Ho. set (o := dinode_off n) in *.
  unfold put_dinode. set (d1 := set_half d o _). set (d2 := set_half d1 _ _). set (d3 := set_half d2 _ _).
  set (d4 := set_half d3 _ _). set (d5 := set_word d4 _ _).
  assert (length d1 = BSIZE /\ length d2 = BSIZE /\ length d3 = BSIZE /\ length d4 = BSIZE /\ length d5 = BSIZE)
    as (L1 & L2 & L3 & L4 & L5) by (unfold d5, d4, d3, d2, d1; rewrite ?set_word_length, ?set_half_length; done).
  unfold NDIRECT in H6. unfold get_dinode, with_fields.
  assert (forall o', (o' + 2 <= o + 8)%nat -> half_at (set_addrs d5 (o + 12) (addrs ip)) o' = half_at d4 o') as Eh.
  { intros o' Hh. rewrite half_set_addrs by lia. unfold d5. apply half_set_word; lia. }
  assert (word_at (set_addrs d5 (o + 12) (addrs ip)) (o + 8) = isize ip) as E5.
  { rewrite (word_ext _ d5) by (intros j Hj; apply set_addrs_other; lia). unfold d5. rewrite word_set_same by lia. by apply Z.mod_small. }
  rewrite E5, !Eh by lia.
  assert (forall o', (o' + 2 <= o + 6)%nat -> half_at d4 o' = half_at d3 o') as E4 by (intros; apply half_set_other; lia).
  assert (forall o', (o' + 2 <= o + 4)%nat -> half_at d3 o' = half_at d2 o') as E3 by (intros; apply half_set_other; lia).
  assert (half_at d2 o = half_at d1 o) as E2 by (apply half_set_other; lia).
  assert (half_at d4 (o + 6) = u16 (nlink ip)) as -> by (apply half_set; lia).
  rewrite (E4 (o + 4)%nat), (E4 (o + 2)%nat), (E4 o), (E3 (o + 2)%nat), (E3 o), E2 by lia.
  assert (half_at d3 (o + 4) = u16 (minor ip)) as -> by (apply half_set; lia).
  assert (half_at d2 (o + 2) = u16 (major ip)) as -> by (apply half_set; lia).
  assert (half_at d1 o = u16 (itype ip)) as -> by (apply half_set; lia).
  rewrite !s16_u16 by done. assert ((fun i => word_at (set_addrs d5 (o + 12) (addrs ip)) (o + 12 + 4 * i)) <$> seq 0 (S NDIRECT) = addrs ip) as ->; [|done].
  apply list_eq_same_length with (S NDIRECT); [by rewrite H6|by rewrite length_fmap, length_seq|].
  intros i x y Hi Hx Hy. apply list_lookup_fmap_Some in Hx as (j & Hx & Hj). apply lookup_seq in Hj as [-> Hj].
  unfold NDIRECT in Hj. rewrite addrs_at in Hx by (lia || done). apply list_lookup_total_correct in Hy. simpl in Hx. congruence.
Qed.

Lemma get_put_dinode_other d n n' ip ip' : length d = BSIZE -> length (addrs ip) = S NDIRECT -> n' mod IPB <> n mod IPB ->
  get_dinode (put_dinode d (dinode_off n) ip) (dinode_off n') ip' = get_dinode d (dinode_off n') ip'.
Proof.
  intros Hd Hip Hn. set (d' := put_dinode d (dinode_off n) ip).
  assert (forall j, (dinode_off n' <= j < dinode_off n' + 64)%nat -> d' !!! j = d !!! j) as He.
  { intros j Hj. apply put_dinode_other; [done..|]. unfold dinode_off, IPB in *.
    pose proof (Z.mod_pos_bound n 8). pose proof (Z.mod_pos_bound n' 8). lia. }
  unfold get_dinode. rewrite !(half_ext d' d), (word_ext d' d) by (intros j Hj; apply He; lia).
  assert ((fun i => word_at d' (dinode_off n' + 12 + 4 * i)) <$> seq 0 (S NDIRECT) =
          (fun i => word_at d (dinode_off n' + 12 + 4 * i)) <$> seq 0 (S NDIRECT)) as ->; [|done].
  apply list_fmap_ext. intros i x Hx. apply lookup_seq in Hx as [-> Hi]. apply word_ext. intros j Hj. apply He. unfold NDIRECT in Hi. lia.
Qed.

(** An inode survives the disk: what [iupdate] writes into the inode's place in its block,
    [ilock] reads back field by field, and the other inodes of the block are not touched. *)
Theorem dinode_roundtrip d n ip ip' : length d = BSIZE -> dinode_ok ip ->
  let d' := put_dinode d (dinode_off n) ip in
  length d' = BSIZE /\ get_dinode d' (dinode_off n) ip' = with_fields ip ip' /\
  forall n', n' mod IPB <> n mod IPB -> get_dinode d' (dinode_off n') ip' = get_dinode d (dinode_off n') ip'.
Proof.
  intros Hd Hip d'. split_and!; [by unfold d'; rewrite put_dinode_length|by apply get_put_dinode|].
  intros n' Hn. apply get_put_dinode_other; [done|apply Hip|done].
Qed.

Lemma dinode_roundtrip_witness :
  let ip := zero_inode <| itype := 2 |> <| nlink := 1 |> <| isize := 700 |> in
  isize (get_dinode (put_dinode (replicate BSIZE 0) (dinode_off 5) ip) (dinode_off 5) zero_inode) = 700.
Proof.
  intros ip. destruct (dinode_roundtrip (replicate BSIZE 0) 5 ip zero_inode) as (_ & E & _).
  - reflexivity.
  - repeat constructor; vm_compute; congruence.
  - rewrite E. reflexivity.
Defined.

(** ** The inode cache *)

(** Each inode is in at most one slot in use. *)
Definition icache_ok (l : list inode) : Prop :=
  length l = NINODE /\
  forall i j, (i < NINODE)%nat -> (j < NINODE)%nat -> 0 < iref (l !!! i) -> 0 < iref (l !!! j) ->
    idev (l !!! i) = idev (l !!! j) -> inum (l !!! i) = inum (l !!! j) -> i = j.

Lemma list_find_total {A} `{Inhabited A} (P : A -> Prop) `{forall x, Decision (P x)} (l : list A) i :
  fst <$> list_find P l = Some i -> (i < length l)%nat /\ P (l !!! i).
Proof.
  intros E. apply fmap_Some in E as ([i' x] & E & ->). apply list_find_Some in E as (E & HP & _). simpl.
  split; [by eapply lookup_lt_Some|]. by rewrite (list_lookup_total_correct _ _ _ E).
Qed.

Lemma list_find_total_None {A} `{Inhabited A} (P : A -> Prop) `{forall x, Decision (P x)} (l : list A) i :
  fst <$> list_find P l = None -> (i < length l)%nat -> ~ P (l !!! i).
Proof.
  intros E Hi. apply fmap_None, list_find_None in E. apply (Forall_lookup_total_1 _ _ _ E Hi).
Qed.

Lemma icache_slot l i f j : icache_ok l -> (i < NINODE)%nat ->
  alter f i l !!! j = if decide (j = i) then f (l !!! i) else l !!! j.
Proof. intros [Hl _] Hi. case_decide as E; [subst; apply alter_same; lia|by apply alter_other]. Qed.

(** Changing a slot to an inode that no other slot in use holds. *)
Lemma icache_ok_alter l i f : icache_ok l -> (i < NINODE)%nat ->
  (forall j, (j < NINODE)%nat -> j <> i -> 0 < iref (l !!! j) -> idev (l !!! j) = idev (f (l !!! i)) ->
     inum (l !!! j) <> inum (f (l !!! i))) ->
  icache_ok (alter f i l).
Proof.
  intros H Hi Hf. pose proof H as [Hl Hu]. split; [by rewrite length_alter|]. intros a b Ha Hb.
  rewrite !(icache_slot l i f) by done. destruct (decide (a = i)) as [->|Ea], (decide (b = i)) as [->|Eb]; intros H1 H2 H3 H4; try done.
  - destruct (Hf b); done.
  - destruct (Hf a); done.
  - by apply Hu.
Qed.

(** C31. [iget] finds an inode where it is cached, or puts it into a slot nobody uses, and
    counts the new reference; no other slot changes, and no inode is ever cached twice.
    It panics exactly if the inode is not cached and no slot is free. *)
Theorem iget_unique dev n k :
  IcacheLock ∉ held k -> icache_ok (icache (fsys k)) -> (forall i, 0 <= iref (inode_at k i) < 2 ^ 31 - 1) ->
  let in_cache i := 0 < iref (inode_at k i) /\ idev (inode_at k i) = dev /\ inum (inode_at k i) = n in
  match iget dev n k with
  | Ret i k' =>
      icache_ok (icache (fsys k')) /\ (i < NINODE)%nat /\
      idev (inode_at k' i) = dev /\ inum (inode_at k' i) = n /\ iref (inode_at k' i) = iref (inode_at k i) + 1 /\
      (forall j, j <> i -> inode_at k' j = inode_at k j) /\
      k' = k <| fsys ::= upd icache (fun _ => icache (fsys k')) |> /\
      ((in_cache i /\ ivalid (inode_at k' i) = ivalid (inode_at k i)) \/
       ((forall j, (j < NINODE)%nat -> ~ in_cache j) /\ iref (inode_at k i) = 0 /\ ivalid (inode_at k' i) = 0))
  | Panic m => m = "iget: no inodes" /\ forall j, (j < NINODE)%nat -> ~ in_cache j /\ 0 < iref (inode_at k j)
  | _ => False
  end.
Proof.
  intros Hh [Hlen Huq] Href in_cache. unfold iget, upd_inode. kunfold. rewrite acquire_ok by done. cbn [obind].
  change (icache (fsys (k <| held ::= cons IcacheLock |>))) with (icache (fsys k)).
  set (l := icache (fsys k)) in *. unfold inode_at in *. fold l in in_cache, Href |- *.
  unfold find_inode, find_empty. pose proof (conj Hlen Huq : icache_ok l) as Hok.
  destruct (fst <$> list_find (fun ip => 0 < iref ip /\ idev ip = dev /\ inum ip = n) l) as [i|] eqn:Ef.
  - destruct (list_find_total _ _ _ Ef) as [Hi (H1 & H2 & H3)]. rewrite Hlen in Hi.
    rewrite sadd_ok by (specialize (Href i); lia). cbn [obind]. rewrite (release_ok _ (held k)) by done. simpl. fold l.
    rewrite !(icache_slot l i) by done. rewrite decide_True by done. split_and!; try done.
    + apply icache_ok_alter; [done..|]. intros j Hj Hne Hr Hd Hn. apply Hne, Huq; done.
    + intros j Hj. rewrite icache_slot by done. by rewrite decide_False.
    + by left.
  - assert (forall j, (j < NINODE)%nat -> ~ in_cache j) as Hno
      by (intros j Hj; apply (list_find_total_None _ _ _ Ef); lia).
    destruct (fst <$> list_find (fun ip => iref ip = 0) l) as [i|] eqn:Ee; cbn [obind].
    + destruct (list_find_total _ _ _ Ee) as [Hi H0]. rewrite Hlen in Hi. rewrite (release_ok _ (held k)) by done. simpl. fold l.
      rewrite !(icache_slot l i) by done. rewrite decide_True by done. split_and!; try done; simpl; try lia.
      * apply icache_ok_alter; [done..|]. intros j Hj Hne Hr Hd Hn. by apply (Hno j).
      * intros j Hj. rewrite icache_slot by done. by rewrite decide_False.
      * by right.
    + split; [done|]. intros j Hj. split; [by apply Hno|]. pose proof (list_find_total_None _ _ j Ee). specialize (Href j). lia.
Qed.

Lemma kernel0_inode i : inode_at kernel0 i = zero_inode.
Proof.
  unfold inode_at. destruct (decide (i < NINODE)%nat) as [Hi|Hi].
  - by apply lookup_total_replicate_2.
  - rewrite list_lookup_total_alt, lookup_ge_None_2; [done|]. change (length (icache (fsys kernel0))) with NINODE. lia.
Qed.

Lemma kernel0_icache : icache_ok (icache (fsys kernel0)) /\ forall i, 0 <= iref (inode_at kernel0 i) < 2 ^ 31 - 1.
Proof.
  split; [split; [done|]|].
  - intros i j _ _ Hi. change (icache (fsys kernel0) !!! i) with (inode_at kernel0 i) in Hi. by rewrite kernel0_inode in Hi.
  - intros i. by rewrite kernel0_inode.
Qed.

Lemma iget_unique_witness : exists i k', iget 1 7 kernel0 = Ret i k' /\ inum (inode_at k' i) = 7.
Proof.
  destruct kernel0_icache as [H1 H2]. pose proof (iget_unique 1 7 kernel0 (not_elem_of_nil _) H1 H2) as H.
  destruct (iget 1 7 kernel0) as [i k'|m|m| |k r].
  - exists i, k'. split; [reflexivity|apply H].
  - exfalso. destruct H as [_ H]. specialize (H 0%nat). rewrite kernel0_inode in H.
    assert (0 < 0) as Hc by (apply H; unfold NINODE; lia). discriminate Hc.
  - destruct H.
  - destruct H.
  - destruct H.
Defined.
