(* ===== verification/Blocks.v ===== *)
(** * Blocks: the block allocator of fs.c

    [balloc] and [bfree] as changes to the file system seen inside a transaction (Tx.v): the
    free map is one block, a set bit means that the block is in use, and a block that is
    allocated was free and reads as zeros. *)
From stdpp Require Import base list list_numbers gmap strings functions sorting.
From Stdlib Require Import ZArith Lia.
From S2P Require Import Prelude Mem Layout Machine Sched Sleeplock Disk Bio Log Fs Tx.
Local Open Scope Z_scope.

Definition zeros : list Z := replicate BSIZE 0.
Definition is_block (d : list Z) : Prop := length d = BSIZE /\ Forall (fun x => 0 <= x < 256) d.

Lemma zeros_block : is_block zeros.
Proof. split; [done|]. by apply Forall_replicate. Qed.

(** ** Bits *)
Lemma land_bit x j : 0 <= j -> (Z.land x (Z.shiftl 1 j) =? 0) = negb (Z.testbit x j).
Proof.
  intros Hj. rewrite Z.shiftl_1_l. destruct (Z.testbit x j) eqn:E; simpl.
  - apply Z.eqb_neq. intros H. apply (f_equal (fun z => Z.testbit z j)) in H.
    rewrite Z.land_spec, E, Z.pow2_bits_true, Z.bits_0 in H by lia. done.
  - apply Z.eqb_eq. apply Z.bits_inj'. intros n Hn. rewrite Z.land_spec, Z.bits_0.
    destruct (decide (n = j)) as [->|Hne]; [by rewrite E|]. rewrite Z.pow2_bits_false by lia. apply andb_false_r.
Qed.

Lemma bit_clear_test d b : bit_clear d b = negb (Z.testbit (d !!! Z.to_nat (b / 8)) (b mod 8)).
Proof. unfold bit_clear. apply land_bit. apply Z.mod_pos_bound. lia. Qed.

(** The bytes of the free map with the bit of [b] set or cleared. *)
Definition set_bit (b : Z) (d : list Z) : list Z :=
  alter (fun x => Z.lor x (Z.shiftl 1 (b mod 8))) (Z.to_nat (b / 8)) d.
Definition clear_bit (b : Z) (d : list Z) : list Z :=
  alter (fun x => Z.land x (255 - Z.shiftl 1 (b mod 8))) (Z.to_nat (b / 8)) d.

Lemma byte_bits x : 0 <= x < 256 <-> 0 <= x /\ forall n, 8 <= n -> Z.testbit x n = false.
Proof.
  split.
  - intros Hx. split; [lia|]. intros n Hn. apply Z.bits_above_log2; [lia|].
    destruct (decide (x = 0)) as [->|]; [simpl; lia|]. apply Z.log2_lt_pow2; [lia|].
    pose proof (Z.pow_le_mono_r 2 8 n). lia.
  - intros [H0 Hb]. split; [done|]. destruct (decide (x = 0)) as [->|]; [lia|].
    change 256 with (2 ^ 8). apply Z.log2_lt_pow2; [lia|]. apply Z.nle_gt. intros Hl.
    pose proof (Z.bit_log2 x ltac:(lia)) as Ht. rewrite Hb in Ht; [done|lia].
Qed.

Lemma mask_bits j n : 0 <= j < 8 -> Z.testbit (255 - Z.shiftl 1 j) n = bool_decide (0 <= n < 8 /\ n <> j).
Proof.
  intros Hj. rewrite Z.shiftl_1_l.
  assert (j = 0 \/ j = 1 \/ j = 2 \/ j = 3 \/ j = 4 \/ j = 5 \/ j = 6 \/ j = 7) as Hc by lia.
  destruct (decide (0 <= n < 8)) as [Hn|Hn].
  - assert (n = 0 \/ n = 1 \/ n = 2 \/ n = 3 \/ n = 4 \/ n = 5 \/ n = 6 \/ n = 7) as Hd by lia.
    destruct Hc as [->|[->|[->|[->|[->|[->|[->| ->]]]]]]];
      destruct Hd as [->|[->|[->|[->|[->|[->|[->| ->]]]]]]]; reflexivity.
  - rewrite bool_decide_false by lia. destruct (decide (n < 0)); [by apply Z.testbit_neg_r|].
    assert (0 <= 255 - 2 ^ j < 256) as Hb by (destruct Hc as [->|[->|[->|[->|[->|[->|[->| ->]]]]]]]; lia).
    apply byte_bits in Hb as [_ Hb]. apply Hb. lia.
Qed.

Lemma set_bit_block b d : is_block d -> is_block (set_bit b d).
Proof.
  intros [Hl Hb]. split; [unfold set_bit; by rewrite length_alter|]. apply Forall_alter; [done|].
  intros x Hx Hr. pose proof (Z.mod_pos_bound b 8). apply byte_bits in Hr as [H0 Hr]. apply byte_bits. split.
  - apply Z.lor_nonneg. split; [done|]. apply Z.shiftl_nonneg. lia.
  - intros n Hn. rewrite Z.lor_spec, Hr, Z.shiftl_1_l, Z.pow2_bits_false by lia. done.
Qed.

Lemma clear_bit_block b d : is_block d -> is_block (clear_bit b d).
Proof.
  intros [Hl Hb]. split; [unfold clear_bit; by rewrite length_alter|]. apply Forall_alter; [done|].
  intros x Hx Hr. pose proof (Z.mod_pos_bound b 8). apply byte_bits in Hr as [H0 Hr]. apply byte_bits. split.
  - apply Z.land_nonneg. by left.
  - intros n Hn. by rewrite Z.land_spec, Hr.
Qed.

Section bit.
Context (d : list Z) (b : Z) (Hd : is_block d) (Hb : 0 <= b < BPB).

Lemma bit_byte : (Z.to_nat (b / 8) < length d)%nat.
Proof using Hd Hb. destruct Hd as [-> _]. unfold BPB, BSIZE in *. dlia. Qed.

Lemma bit_clear_set b' : 0 <= b' -> bit_clear (set_bit b d) b' = bit_clear d b' && negb (b' =? b).
Proof using Hd Hb.
  intros Hb'. rewrite !bit_clear_test. pose proof (Z.mod_pos_bound b 8). pose proof (Z.mod_pos_bound b' 8).
  unfold set_bit. destruct (decide (Z.to_nat (b' / 8) = Z.to_nat (b / 8))) as [E|E].
  - rewrite E, alter_same by apply bit_byte. rewrite Z.lor_spec, Z.shiftl_1_l.
    destruct (decide (b' mod 8 = b mod 8)) as [E'|E'].
    + rewrite E', Z.pow2_bits_true, orb_true_r by lia. replace (b' =? b) with true; [by rewrite andb_false_r|].
      symmetry. apply Z.eqb_eq. rewrite (Z.div_mod b' 8), (Z.div_mod b 8) by lia. dlia.
    + rewrite Z.pow2_bits_false, orb_false_r by lia. rewrite (proj2 (Z.eqb_neq b' b)), andb_true_r by congruence. done.
  - rewrite alter_other by done. rewrite (proj2 (Z.eqb_neq b' b)), andb_true_r by congruence. done.
Qed.

Lemma bit_clear_clear b' : 0 <= b' -> bit_clear (clear_bit b d) b' = bit_clear d b' || (b' =? b).
Proof using Hd Hb.
  intros Hb'. rewrite !bit_clear_test. pose proof (Z.mod_pos_bound b 8). pose proof (Z.mod_pos_bound b' 8).
  unfold clear_bit. destruct (decide (Z.to_nat (b' / 8) = Z.to_nat (b / 8))) as [E|E].
  - rewrite E, alter_same by apply bit_byte. rewrite Z.land_spec, mask_bits by lia.
    destruct (decide (b' mod 8 = b mod 8)) as [E'|E'].
    + rewrite bool_decide_false, andb_false_r by lia. replace (b' =? b) with true; [by rewrite orb_true_r|].
      symmetry. apply Z.eqb_eq. rewrite (Z.div_mod b' 8), (Z.div_mod b 8) by lia. dlia.
    + rewrite bool_decide_true, andb_true_r by lia. rewrite (proj2 (Z.eqb_neq b' b)), orb_false_r by congruence. done.
  - rewrite alter_other by done. rewrite (proj2 (Z.eqb_neq b' b)), orb_false_r by congruence. done.
Qed.
End bit.

(** ** The state of the free map *)
Record fs_ok (V : Z -> list Z) (sb : superblock) : Prop := {
  fo_super : decode_sb (V 1) = sb;
  fo_geometry : 1 < sb_inodestart sb /\ 0 <= sb_ninodes sb /\
    sb_inodestart sb + sb_ninodes sb / IPB < sb_bmapstart sb /\ sb_bmapstart sb < sb_size sb <= FSSIZE;
  fo_block n : sb_inodestart sb <= n < sb_size sb -> is_block (V n);
  fo_meta b : 0 <= b <= sb_bmapstart sb -> bit_clear (V (sb_bmapstart sb)) b = false;
}.

(** The blocks that are not in use. *)
Definition free_blocks (V : Z -> list Z) (sb : superblock) : gset Z :=
  list_to_set (filter (fun b => bit_clear (V (sb_bmapstart sb)) b = true) (seqZ 0 (sb_size sb))).

Lemma elem_of_free V sb b :
  b ∈ free_blocks V sb <-> 0 <= b < sb_size sb /\ bit_clear (V (sb_bmapstart sb)) b = true.
Proof. unfold free_blocks. rewrite elem_of_list_to_set, list_elem_of_filter, elem_of_seqZ. lia || naive_solver lia. Qed.

Lemma free_data V sb b : fs_ok V sb -> b ∈ free_blocks V sb -> sb_bmapstart sb < b < sb_size sb.
Proof.
  intros H Hb. apply elem_of_free in Hb as [Hr Hc]. split; [|lia]. apply Z.nle_gt. intros Hle.
  rewrite (fo_meta _ _ H) in Hc; [done|lia].
Qed.

Lemma bblock_eq V sb b : fs_ok V sb -> 0 <= b < FSSIZE -> BBLOCK b sb = sb_bmapstart sb.
Proof.
  intros H Hb. pose proof (fo_geometry _ _ H) as Hg. unfold BBLOCK, u32, BPB, FSSIZE, IPB in *. rewrite Z.div_small by lia.
  apply Z.mod_small. pose proof (Z.div_pos (sb_ninodes sb) 8). lia.
Qed.

Lemma scan_bits_spec d b size : forall left bi,
  match scan_bits left d b bi size with
  | Some bi' => bi <= bi' < bi + Z.of_nat left /\ b + bi' < size /\ bit_clear d bi' = true
  | None => forall bi', bi <= bi' < bi + Z.of_nat left -> b + bi' < size -> bit_clear d bi' = false
  end.
Proof.
  induction left as [|left IH]; intros bi; simpl; [intros; lia|].
  destruct (Z.ltb_spec (b + bi) size); [|intros; lia].
  destruct (bit_clear d bi) eqn:E; [split_and!; lia || done|].
  specialize (IH (bi + 1)). destruct (scan_bits left d b (bi + 1) size) as [bi'|].
  - split_and!; [lia|lia|apply IH|apply IH].
  - intros bi' Hr Hs. destruct (decide (bi' = bi)) as [->|]; [done|]. apply IH; lia.
Qed.

(** What an allocation and a release do to the file system. *)
Definition allocated (b : Z) (sb : superblock) (V : Z -> list Z) : Z -> list Z :=
  <[b := zeros]> (<[sb_bmapstart sb := set_bit b (V (sb_bmapstart sb))]> V).
Definition released (b : Z) (sb : superblock) (V : Z -> list Z) : Z -> list Z :=
  <[sb_bmapstart sb := clear_bit b (V (sb_bmapstart sb))]> V.

Lemma fs_ok_bpb V sb b : fs_ok V sb -> 0 <= b < sb_size sb -> 0 <= b < BPB.
Proof. intros H Hb. pose proof (fo_geometry _ _ H). unfold FSSIZE, BPB in *. lia. Qed.

Lemma fs_ok_bmap V sb : fs_ok V sb -> 1 < sb_inodestart sb < sb_bmapstart sb /\ sb_bmapstart sb < sb_size sb.
Proof.
  intros H. pose proof (fo_geometry _ _ H). unfold IPB in *. pose proof (Z.div_pos (sb_ninodes sb) 8). lia.
Qed.

Lemma fs_ok_bmap_block V sb : fs_ok V sb -> is_block (V (sb_bmapstart sb)).
Proof. intros H. apply (fo_block _ _ H). pose proof (fs_ok_bmap _ _ H). lia. Qed.

Ltac free_map := first [lia | by apply fs_ok_bmap_block | eapply fs_ok_bpb; [done|lia]].

(** Writing a block other than the superblock and the free map. *)
Lemma fs_ok_insert V sb n d : fs_ok V sb -> n <> 1 -> n <> sb_bmapstart sb -> is_block d -> fs_ok (<[n := d]> V) sb.
Proof.
  intros H H1 Hn Hd. split; [rewrite fn_lookup_insert_ne by done; apply H|apply H| |].
  - intros m Hm. destruct (decide (m = n)) as [->|Hne]; [by rewrite fn_lookup_insert|].
    rewrite fn_lookup_insert_ne by done. by apply (fo_block _ _ H).
  - intros b Hb. rewrite fn_lookup_insert_ne by done. by apply (fo_meta _ _ H).
Qed.

Lemma free_insert V sb n d : n <> sb_bmapstart sb -> free_blocks (<[n := d]> V) sb = free_blocks V sb.
Proof. intros Hn. apply set_eq. intros b. by rewrite !elem_of_free, fn_lookup_insert_ne. Qed.

Lemma fs_ok_allocated V sb b : fs_ok V sb -> b ∈ free_blocks V sb -> fs_ok (allocated b sb V) sb.
Proof.
  intros H Hb. pose proof (free_data _ _ _ H Hb) as Hr. pose proof (fs_ok_bmap _ _ H) as Hbm.
  apply fs_ok_insert; [|lia..|apply zeros_block]. split; [rewrite fn_lookup_insert_ne by lia; apply H|apply H| |].
  - intros m Hm. destruct (decide (m = sb_bmapstart sb)) as [->|Hne].
    + rewrite fn_lookup_insert. by apply set_bit_block, fs_ok_bmap_block.
    + rewrite fn_lookup_insert_ne by done. by apply (fo_block _ _ H).
  - intros b' Hb'. rewrite fn_lookup_insert, bit_clear_set, (fo_meta _ _ H) by free_map.
    done.
Qed.

Lemma free_allocated V sb b : fs_ok V sb -> b ∈ free_blocks V sb ->
  free_blocks (allocated b sb V) sb = free_blocks V sb ∖ {[b]}.
Proof.
  intros H Hb. pose proof (free_data _ _ _ H Hb) as Hr. pose proof (fs_ok_bmap _ _ H) as Hbm.
  unfold allocated. rewrite free_insert by lia. apply set_eq. intros b'.
  rewrite elem_of_difference, elem_of_singleton, !elem_of_free, fn_lookup_insert.
  assert (0 <= b' -> bit_clear (set_bit b (V (sb_bmapstart sb))) b' = bit_clear (V (sb_bmapstart sb)) b' && negb (b' =? b)) as E.
  { intros Hb'. apply bit_clear_set; free_map. }
  split.
  - intros [Hr' Hc]. rewrite E in Hc by lia. apply andb_true_iff in Hc as [Hc Hn]. split; [done|].
    intros ->. by rewrite Z.eqb_refl in Hn.
  - intros [[Hr' Hc] Hn]. split; [done|]. rewrite E, Hc by lia. by rewrite (proj2 (Z.eqb_neq _ _) Hn).
Qed.

Lemma fs_ok_released V sb b : fs_ok V sb -> sb_bmapstart sb < b < sb_size sb -> fs_ok (released b sb V) sb.
Proof.
  intros H Hr. pose proof (fs_ok_bmap _ _ H) as Hbm. unfold released.
  split; [rewrite fn_lookup_insert_ne by lia; apply H|apply H| |].
  - intros m Hm. destruct (decide (m = sb_bmapstart sb)) as [->|Hne].
    + rewrite fn_lookup_insert. by apply clear_bit_block, fs_ok_bmap_block.
    + rewrite fn_lookup_insert_ne by done. by apply (fo_block _ _ H).
  - intros b' Hb'. rewrite fn_lookup_insert, bit_clear_clear, (fo_meta _ _ H) by free_map.
    apply Z.eqb_neq. lia.
Qed.

Lemma free_released V sb b : fs_ok V sb -> sb_bmapstart sb < b < sb_size sb ->
  free_blocks (released b sb V) sb = {[b]} ∪ free_blocks V sb.
Proof.
  intros H Hr. pose proof (fs_ok_bmap _ _ H) as Hbm. apply set_eq. intros b'. unfold released.
  rewrite elem_of_union, elem_of_singleton, !elem_of_free, fn_lookup_insert.
  assert (0 <= b' -> bit_clear (clear_bit b (V (sb_bmapstart sb))) b' = bit_clear (V (sb_bmapstart sb)) b' || (b' =? b)) as E.
  { intros Hb'. apply bit_clear_clear; free_map. }
  split.
  - intros [Hr' Hc]. rewrite E in Hc by lia. apply orb_true_iff in Hc as [Hc|Hc]; [by right|left; by apply Z.eqb_eq].
  - intros [->|[Hr' Hc]]; [split; [lia|]; by rewrite E, Z.eqb_refl, orb_true_r by lia|]. split; [done|]. by rewrite E, Hc by lia.
Qed.

(** ** The operations *)
Section blocks.
Context {D : BlockDriver} {DL : BlockDriverLaws D} (fuel : nat) (k0 : kernel) (i : nat).
Abbreviation txn := (txn k0 i).
Abbreviation fits := (fits k0).

Lemma fits_mono P P' : P ⊆ P' -> fits P' -> fits P.
Proof. unfold Tx.fits. intros Hs Hf. apply subseteq_size in Hs. lia. Qed.

Lemma fits_room (L : list (nat * Z)) P : fits P -> (length L <= 1)%nat -> (length L + size P < NBUF)%nat.
Proof. unfold Tx.fits, log_cap, NBUF. change LOGSIZE with 30. case_match; lia. Qed.

Lemma bzero_spec L P V F k n :
  (0 < fuel)%nat -> txn L P V F k -> n < FSSIZE -> n ∉ L.*2 -> (length L <= 1)%nat -> fits P ->
  returns (alone idle (bzero fuel 1 n k)) (fun _ k' => txn L ({[n]} ∪ P) (<[n := zeros]> V) F k').
Proof using DL.
  intros Hfu H Hn HnL HL Hf. unfold bzero.
  apply (tx_read_block fuel k0 i L P V F k n Hfu H Hn HnL); [by apply fits_room|].
  intros b k1 H1 _. apply (tx_update k0 i _ _ _ _ k1 b n _ H1); [apply list_elem_of_here|done|].
  intros k2 H2. by apply alone_returns, (tx_brelse k0 i _ _ _ _ _ _ _ H2).
Qed.

Lemma balloc_spec L P V F k :
  (0 < fuel)%nat -> txn L P V F k -> fs_ok V (ksb F) -> (length L <= 1)%nat ->
  (forall n, n ∈ L.*2 -> n <> sb_bmapstart (ksb F) /\ n ∉ free_blocks V (ksb F)) ->
  free_blocks V (ksb F) <> ∅ -> fits ({[sb_bmapstart (ksb F)]} ∪ P) ->
  returns (alone idle (balloc fuel 1 k)) (fun b k' =>
    b ∈ free_blocks V (ksb F) /\
    txn L ({[b; sb_bmapstart (ksb F)]} ∪ P) (allocated b (ksb F) V) F k').
Proof using DL.
  intros Hfu H Hok HL Hheld Hfree Hf. set (sb := ksb F) in *. set (bm := sb_bmapstart sb) in *.
  pose proof (fs_ok_bmap _ _ Hok) as Hbm. pose proof (fo_geometry _ _ Hok) as (_ & _ & _ & Hsz). fold bm in Hbm, Hsz.
  unfold balloc, getsb. kunfold. cbn [obind]. rewrite (tx_fsys _ _ _ _ _ _ _ H). fold sb.
  assert (Z.to_nat ((sb_size sb + BPB - 1) / BPB) = 1%nat) as ->
    by (unfold FSSIZE, BPB in *; replace ((sb_size sb + 4096 - 1) / 4096) with 1 by dlia; done).
  cbn [balloc_loop]. unfold getsb. kunfold. cbn [obind]. rewrite (tx_fsys _ _ _ _ _ _ _ H). fold sb.
  rewrite (proj2 (Z.ltb_lt 0 _)) by lia. rewrite (bblock_eq V) by (done || unfold FSSIZE; lia).
  assert (bm ∉ L.*2) as HbmL by (intros Hin; by destruct (Hheld _ Hin)).
  apply (tx_read_block fuel k0 i L P V F k bm Hfu H ltac:(lia) HbmL);
    [apply fits_room; [by eapply fits_mono; [|done]; set_solver|done]|].
  intros b k1 H1 Hd. cbn [obind]. rewrite Hd.
  pose proof (scan_bits_spec (V bm) 0 (sb_size sb) (Z.to_nat BPB) 0) as Hsc.
  destruct (scan_bits _ _ _ _ _) as [bi|].
  - destruct Hsc as (Hr & Hlt & Hc). rewrite !Z.add_0_l in *.
    assert (bi ∈ free_blocks V sb) as Hbi by (apply elem_of_free; fold bm; split; [lia|done]).
    pose proof (free_data _ _ _ Hok Hbi) as Hdata.
    change (alter _ (Z.to_nat (bi / 8))) with (set_bit bi).
    apply (tx_update k0 i _ _ _ _ k1 b bm _ H1); [apply list_elem_of_here|by eapply fits_mono; [|done]; set_solver|].
    intros k2 H2. apply (tx_release k0 i _ _ _ _ _ _ _ H2). intros k3 H3.
    eapply alone_bind.
    + apply (bzero_spec L _ _ _ _ bi Hfu H3); [lia|intros Hin; by destruct (Hheld _ Hin)|done..].
    + intros [] k4 H4. apply alone_returns. cbn [returns]. split; [done|].
      unfold allocated. fold bm. replace ({[bi; bm]} ∪ P) with ({[bi]} ∪ ({[bm]} ∪ P)) by set_solver. done.
  - exfalso. destruct Hfree. apply set_eq. intros b'. split; [|by rewrite elem_of_empty].
    rewrite elem_of_free. intros [Hr Hc]. fold bm in Hc. rewrite Hsc in Hc; [done|..]; unfold FSSIZE, BPB in *; lia.
Qed.

Lemma readsb_spec L P V F k :
  (0 < fuel)%nat -> txn L P V F k -> fs_ok V (ksb F) -> (length L <= 1)%nat -> 1 ∉ L.*2 -> fits P ->
  returns (alone idle (readsb fuel 1 k)) (fun sb k' => sb = ksb F /\ txn L P V F k').
Proof using DL.
  intros Hfu H Hok HL H1 Hf. unfold readsb.
  apply (tx_read_block fuel k0 i L P V F k 1 Hfu H); [done..|by apply fits_room|].
  intros b k1 Hk1 Hd. kunfold. cbn [obind]. rewrite Hd, (fo_super _ _ Hok).
  apply (tx_release k0 i _ _ _ _ _ _ _ Hk1). intros k2 H2. by apply alone_returns.
Qed.

Lemma bfree_spec L P V F k b :
  (0 < fuel)%nat -> txn L P V F k -> fs_ok V (ksb F) -> (length L <= 1)%nat ->
  1 ∉ L.*2 -> sb_bmapstart (ksb F) ∉ L.*2 ->
  sb_bmapstart (ksb F) < b < sb_size (ksb F) -> b ∉ free_blocks V (ksb F) -> fits P ->
  returns (alone idle (bfree fuel 1 b k)) (fun _ k' =>
    txn L ({[sb_bmapstart (ksb F)]} ∪ P) (released b (ksb F) V) F k').
Proof using DL.
  intros Hfu H Hok HL H1 HbmL Hb Hnf Hf. pose proof (fs_ok_bmap _ _ Hok) as Hbm.
  pose proof (fo_geometry _ _ Hok) as (_ & _ & _ & Hsz). unfold bfree.
  eapply alone_bind; [by apply (readsb_spec L P V F k Hfu H Hok)|]. intros sb k1 [-> Hk1].
  unfold modify at 1. unfold mbind at 1, K_bind at 1. cbn [obind].
  assert (txn L P V F (k1 <| fsys ::= upd ksb (fun _ => ksb F) |>)) as Hk2.
  { apply (tx_tables k0 i _ _ _ _ _ (upd ksb (fun _ => ksb F))) in Hk1. by destruct F. }
  rewrite (bblock_eq V) by (done || lia).
  apply (tx_read_block fuel k0 i L P V F _ _ Hfu Hk2); [lia|done|by apply fits_room|].
  intros bp k3 H3 Hd. kunfold. cbn [obind]. rewrite Hd. rewrite (Z.mod_small b) by (unfold FSSIZE, BPB in *; lia).
  destruct (bit_clear (V (sb_bmapstart (ksb F))) b) eqn:E.
  - destruct Hnf. apply elem_of_free. split; [lia|done].
  - change (alter _ (Z.to_nat (b / 8))) with (clear_bit b).
    apply (tx_update k0 i _ _ _ _ k3 bp (sb_bmapstart (ksb F)) (clear_bit b) H3); [apply list_elem_of_here|done|].
    intros k4 H4. by apply alone_returns, (tx_brelse k0 i _ _ _ _ _ _ _ H4).
Qed.

End blocks.
