(* ===== verification/Inode.v ===== *)
(** * Inode: the blocks of files (fs.c)

    The pointers of an inode, direct and through the indirect block, and what it means that a
    file gets more blocks.  [bmap] is shown to find the block of a file or to add a block that was
    free, to lose none, and to leave the blocks of all other files alone. *)
From stdpp Require Import base list list_numbers gmap strings functions sorting.
From Stdlib Require Import ZArith Lia.
From S2P Require Import Prelude Mem Layout Machine Sched Sleeplock Disk Bio Log Fs Tx Blocks.
Local Open Scope Z_scope.

(** ** The blocks of a file *)

(** The pointer to block [j] of the file, 0 if it has none; [MAXFILE] stands for the indirect
    block itself. *)
Definition ptr (V : Z -> list Z) (ip : inode) (j : Z) : Z :=
  if j <? Z.of_nat NDIRECT then addrs ip !!! Z.to_nat j
  else if j =? MAXFILE then addrs ip !!! NDIRECT
  else if addrs ip !!! NDIRECT =? 0 then 0
  else word_at (V (addrs ip !!! NDIRECT)) (Z.to_nat (4 * (j - Z.of_nat NDIRECT))).

Abbreviation indirect ip := (addrs ip !!! NDIRECT).

(** Pointers lead to blocks in use, each by one pointer. *)
Record file_ok (V : Z -> list Z) (sb : superblock) (ip : inode) : Prop := {
  fi_addrs : length (addrs ip) = S NDIRECT;
  fi_ptr j : 0 <= j <= MAXFILE -> ptr V ip j <> 0 ->
    sb_bmapstart sb < ptr V ip j < sb_size sb /\ ptr V ip j ∉ free_blocks V sb;
  fi_inj j j' : 0 <= j <= MAXFILE -> 0 <= j' <= MAXFILE -> ptr V ip j <> 0 -> ptr V ip j = ptr V ip j' -> j = j';
}.

Definition in_file (V : Z -> list Z) (ip : inode) (m : Z) : Prop :=
  m <> 0 /\ exists j, 0 <= j <= MAXFILE /\ ptr V ip j = m.

(** The file and the file system after blocks were added to the file and its data changed:
    pointers stay, new ones lead to blocks that were free, no block is lost, and
    no other block in use has changed, the free map apart. *)
Record extends (sb : superblock) (V : Z -> list Z) (ip : inode) (V' : Z -> list Z) (ip' : inode) : Prop := {
  ex_fs : fs_ok V' sb;
  ex_file : file_ok V' sb ip';
  ex_ip : ip' = ip <| addrs := addrs ip' |>;
  ex_ptr j : 0 <= j <= MAXFILE -> ptr V ip j <> 0 -> ptr V' ip' j = ptr V ip j;
  ex_new j : 0 <= j <= MAXFILE -> ptr V ip j = 0 -> ptr V' ip' j <> 0 -> ptr V' ip' j ∈ free_blocks V sb;
  ex_free : free_blocks V' sb ⊆ free_blocks V sb;
  ex_kept m : m ∈ free_blocks V sb -> m ∉ free_blocks V' sb -> in_file V' ip' m;
  ex_other m : m ∉ free_blocks V sb -> m <> sb_bmapstart sb -> ~ in_file V' ip' m -> V' m = V m;
}.

Lemma extends_refl sb V ip : fs_ok V sb -> file_ok V sb ip -> extends sb V ip V ip.
Proof. intros H1 H2. split; try done. by destruct ip. Qed.

Lemma extends_in_file sb V ip V' ip' m : extends sb V ip V' ip' -> in_file V ip m -> in_file V' ip' m.
Proof. intros H [Hm (j & Hj & E)]. split; [done|]. exists j. split; [done|]. rewrite (ex_ptr _ _ _ _ _ H); [done..|]. by rewrite E. Qed.

Lemma extends_trans sb V1 ip1 V2 ip2 V3 ip3 :
  extends sb V1 ip1 V2 ip2 -> extends sb V2 ip2 V3 ip3 -> extends sb V1 ip1 V3 ip3.
Proof.
  intros H1 H2. pose proof (ex_free _ _ _ _ _ H1) as Hf1. pose proof (ex_free _ _ _ _ _ H2) as Hf2.
  assert (forall j, 0 <= j <= MAXFILE -> ptr V1 ip1 j <> 0 -> ptr V3 ip3 j = ptr V1 ip1 j) as Hp.
  { intros j Hj Hn. pose proof (ex_ptr _ _ _ _ _ H1 j Hj Hn) as E. rewrite <- E in Hn |- *.
    by apply (ex_ptr _ _ _ _ _ H2). }
  split; try apply H2; try done.
  - rewrite (ex_ip _ _ _ _ _ H2), (ex_ip _ _ _ _ _ H1). done.
  - intros j Hj Hz Hn. destruct (decide (ptr V2 ip2 j = 0)) as [E|E].
    + by apply Hf1, (ex_new _ _ _ _ _ H2).
    + rewrite (ex_ptr _ _ _ _ _ H2) by done. by apply (ex_new _ _ _ _ _ H1).
  - set_solver.
  - intros m Hm Hm'. destruct (decide (m ∈ free_blocks V2 sb)) as [E|E].
    + by apply (ex_kept _ _ _ _ _ H2).
    + by eapply extends_in_file, (ex_kept _ _ _ _ _ H1).
  - intros m Hm Hb Hi. rewrite (ex_other _ _ _ _ _ H2); [|set_solver|done|done].
    apply (ex_other _ _ _ _ _ H1); [done..|]. intros Hi'. by eapply Hi, extends_in_file.
Qed.

(** Adding one block. *)
Section grow.
Context (sb : superblock) (V V' : Z -> list Z) (ip ip' : inode) (j0 a : Z).
Context (Hfs : fs_ok V sb) (Hfile : file_ok V sb ip).
Context (Hj0 : 0 <= j0 <= MAXFILE) (Hnull : ptr V ip j0 = 0) (Ha : a ∈ free_blocks V sb).
Context (Hptr : forall j, 0 <= j <= MAXFILE -> ptr V' ip' j = if decide (j = j0) then a else ptr V ip j).
Context (Hfree : free_blocks V' sb = free_blocks V sb ∖ {[a]}).
Context (Hfs' : fs_ok V' sb) (Hip : ip' = ip <| addrs := addrs ip' |>) (Hlen : length (addrs ip') = S NDIRECT).
Context (Hother : forall m, m <> sb_bmapstart sb -> ~ in_file V' ip' m -> V' m = V m).

Lemma grow_extends : extends sb V ip V' ip'.
Proof using All.
  pose proof (free_data _ _ _ Hfs Ha) as Hr. pose proof (fs_ok_bmap _ _ Hfs) as Hbm.
  assert (forall j, 0 <= j <= MAXFILE -> ptr V ip j <> a) as Hna.
  { intros j Hj E. assert (ptr V ip j <> 0) as Hn by lia. rewrite <- E in Ha. by destruct (fi_ptr _ _ _ Hfile j Hj Hn). }
  split; try done.
  - split; [done|intros j Hj|intros j j' Hj Hj']; rewrite !Hptr by done.
    + case_decide; [split; [done|set_solver]|]. intros Hn. destruct (fi_ptr _ _ _ Hfile j Hj Hn). split; [done|set_solver].
    + repeat case_decide; subst; intros Hn E; try done.
      * symmetry in E. by apply Hna in E.
      * by apply Hna in E.
      * by apply (fi_inj _ _ _ Hfile).
  - intros j Hj Hn. rewrite Hptr by done. case_decide; [by subst|done].
  - intros j Hj Hz. rewrite Hptr by done. case_decide; done.
  - set_solver.
  - intros m Hm Hm'. destruct (decide (m = a)) as [->|Hne];
      [|destruct Hm'; rewrite Hfree; apply elem_of_difference; by rewrite elem_of_singleton].
    split; [lia|]. exists j0. split; [done|].
    rewrite Hptr by done. by rewrite decide_True.
  - auto.
Qed.
End grow.

(** ** Pointers after a change *)
Lemma ptr_ext V V' ip j : (indirect ip <> 0 -> V' (indirect ip) = V (indirect ip)) -> ptr V' ip j = ptr V ip j.
Proof.
  intros H. unfold ptr. destruct (j <? _); [done|]. destruct (j =? MAXFILE); [done|].
  destruct (Z.eqb_spec (indirect ip) 0); [done|]. by rewrite H.
Qed.

Lemma ptr_indirect V ip : ptr V ip MAXFILE = indirect ip.
Proof. done. Qed.

Lemma zero_word o : word_at zeros o = 0 \/ (BSIZE < o + 4)%nat.
Proof.
  destruct (decide (o + 4 <= BSIZE)%nat) as [H|H]; [left|right; lia].
  unfold word_at, zeros. rewrite !lookup_total_replicate_2 by lia. done.
Qed.

Lemma zero_entry j : Z.of_nat NDIRECT <= j < MAXFILE -> word_at zeros (Z.to_nat (4 * (j - Z.of_nat NDIRECT))) = 0.
Proof.
  intros Hj. destruct (zero_word (Z.to_nat (4 * (j - Z.of_nat NDIRECT)))) as [H|H]; [done|].
  unfold MAXFILE, NINDIRECT, NDIRECT, BSIZE in *. lia.
Qed.

Section pointers.
Context (sb : superblock) (V : Z -> list Z) (ip : inode) (a : Z).
Context (Hfs : fs_ok V sb) (Hfile : file_ok V sb ip) (Ha : a ∈ free_blocks V sb).

(** The indirect block is not the one allocated. *)
Lemma indirect_apart : indirect ip <> 0 -> indirect ip <> a /\ indirect ip <> sb_bmapstart sb.
Proof using All.
  intros Hi. destruct (fi_ptr _ _ _ Hfile MAXFILE ltac:(done) Hi) as [Hr Hf]. split; [|rewrite ptr_indirect in Hr; lia].
  intros E. rewrite <- E in Ha. done.
Qed.

Lemma allocated_other m : m <> a -> m <> sb_bmapstart sb -> allocated a sb V m = V m.
Proof using Type. clear. intros. unfold allocated. by rewrite !fn_lookup_insert_ne. Qed.

Lemma ptr_direct bn j : 0 <= bn < Z.of_nat NDIRECT -> 0 <= j ->
  ptr (allocated a sb V) (ip <| addrs ::= <[Z.to_nat bn := a]> |>) j = if decide (j = bn) then a else ptr V ip j.
Proof using All.
  intros Hbn Hj. set (ip' := ip <| addrs ::= _ |>). pose proof (fi_addrs _ _ _ Hfile) as Hl.
  assert (indirect ip' = indirect ip) as Ei.
  { unfold ip'. simpl. rewrite list_lookup_total_insert_ne; [done|]. unfold NDIRECT in *. lia. }
  unfold ptr. rewrite Ei. destruct (Z.ltb_spec j (Z.of_nat NDIRECT)).
  - unfold ip'. simpl. case_decide as E; [subst; apply list_lookup_total_insert_eq; unfold NDIRECT in *; lia|].
    apply list_lookup_total_insert_ne. lia.
  - rewrite decide_False by lia. destruct (j =? MAXFILE); [done|]. destruct (Z.eqb_spec (indirect ip) 0) as [|Hn]; [done|].
    by rewrite allocated_other by (by apply indirect_apart).
Qed.

Lemma ptr_new_indirect j : indirect ip = 0 -> 0 <= j <= MAXFILE ->
  ptr (allocated a sb V) (ip <| addrs ::= <[NDIRECT := a]> |>) j = if decide (j = MAXFILE) then a else ptr V ip j.
Proof using All.
  intros Hi Hj. set (ip' := ip <| addrs ::= _ |>). pose proof (fi_addrs _ _ _ Hfile) as Hl.
  pose proof (free_data _ _ _ Hfs Ha). pose proof (fs_ok_bmap _ _ Hfs).
  assert (indirect ip' = a) as Ei by (apply list_lookup_total_insert_eq; lia).
  unfold ptr. rewrite Ei, Hi. destruct (Z.ltb_spec j (Z.of_nat NDIRECT)).
  - rewrite decide_False by (unfold MAXFILE, NINDIRECT; lia). unfold ip'. simpl.
    apply list_lookup_total_insert_ne. unfold NDIRECT in *. lia.
  - destruct (Z.eqb_spec j MAXFILE); [by rewrite decide_True|]. rewrite decide_False by done.
    rewrite (proj2 (Z.eqb_neq a 0)) by lia. simpl. unfold allocated. rewrite fn_lookup_insert. apply zero_entry. lia.
Qed.

(** A new entry of the indirect block. *)
Definition with_entry (bn : Z) : Z -> list Z :=
  let V' := allocated a sb V in
  <[indirect ip := set_word (V' (indirect ip)) (Z.to_nat (4 * (bn - Z.of_nat NDIRECT))) a]> V'.

Lemma ptr_entry bn j : indirect ip <> 0 -> Z.of_nat NDIRECT <= bn < MAXFILE -> 0 <= j <= MAXFILE ->
  ptr (with_entry bn) ip j = if decide (j = bn) then a else ptr V ip j.
Proof using All.
  intros Hi Hbn Hj. destruct (indirect_apart Hi) as [Hia Hib]. pose proof (free_data _ _ _ Hfs Ha) as Hr.
  destruct (fi_ptr _ _ _ Hfile MAXFILE ltac:(done) Hi) as [Hri _]. rewrite ptr_indirect in Hri.
  pose proof (fs_ok_bmap _ _ Hfs). pose proof (fo_geometry _ _ Hfs).
  assert (length (V (indirect ip)) = BSIZE) as Hlen by (apply (fo_block _ _ Hfs); lia).
  unfold ptr. destruct (Z.ltb_spec j (Z.of_nat NDIRECT)); [by rewrite decide_False by lia|].
  destruct (Z.eqb_spec j MAXFILE); [by rewrite decide_False by lia|].
  rewrite (proj2 (Z.eqb_neq _ 0) Hi). unfold with_entry. rewrite fn_lookup_insert, allocated_other by done.
  unfold MAXFILE, NINDIRECT, NDIRECT, BSIZE in *. case_decide as E.
  - subst j. rewrite word_set_same by lia. apply Z.mod_small. unfold FSSIZE in *. lia.
  - apply word_set_other; lia.
Qed.
End pointers.

(** ** Adding a block to a file *)
Definition keeps_data (V : Z -> list Z) (ip : inode) (V' : Z -> list Z) : Prop :=
  forall j, 0 <= j < MAXFILE -> ptr V ip j <> 0 -> V' (ptr V ip j) = V (ptr V ip j).

Section add.
Context (sb : superblock) (V : Z -> list Z) (ip : inode) (a : Z).
Context (Hfs : fs_ok V sb) (Hfile : file_ok V sb ip) (Ha : a ∈ free_blocks V sb).

Lemma ptr_not_new j : 0 <= j <= MAXFILE -> ptr V ip j <> 0 -> ptr V ip j <> a /\ ptr V ip j <> sb_bmapstart sb.
Proof using All.
  intros Hj Hn. destruct (fi_ptr _ _ _ Hfile j Hj Hn) as [Hr Hf]. split; [|lia]. intros E. by rewrite E in Hf.
Qed.

Lemma keeps_allocated : keeps_data V ip (allocated a sb V).
Proof using All. intros j Hj Hn. apply allocated_other; apply ptr_not_new; done || lia. Qed.

Lemma allocated_new : allocated a sb V a = zeros.
Proof using Type. clear. unfold allocated. apply fn_lookup_insert. Qed.

Lemma in_file_at V' ip' j : 0 <= j <= MAXFILE -> ptr V' ip' j = a -> in_file V' ip' a.
Proof using Hfs Ha.
  clear Hfile. intros Hj E. pose proof (free_data _ _ _ Hfs Ha). pose proof (fs_ok_bmap _ _ Hfs). split; [lia|]. by exists j.
Qed.

Lemma extend_direct bn : 0 <= bn < Z.of_nat NDIRECT -> ptr V ip bn = 0 ->
  extends sb V ip (allocated a sb V) (ip <| addrs ::= <[Z.to_nat bn := a]> |>).
Proof using All.
  intros Hbn Hz. assert (0 <= bn <= MAXFILE) as Hbn' by (unfold MAXFILE, NINDIRECT; lia).
  apply (grow_extends sb V _ ip _ bn a); try done.
  - intros j Hj. apply ptr_direct; done || lia.
  - by apply free_allocated.
  - by apply fs_ok_allocated.
  - simpl. rewrite length_insert. apply Hfile.
  - intros m Hm Hi. apply allocated_other; [|done]. intros ->. apply Hi, (in_file_at _ _ bn Hbn').
    rewrite ptr_direct by (done || lia). by rewrite decide_True.
Qed.

Lemma extend_indirect : indirect ip = 0 ->
  extends sb V ip (allocated a sb V) (ip <| addrs ::= <[NDIRECT := a]> |>).
Proof using All.
  intros Hz. apply (grow_extends sb V _ ip _ MAXFILE a); try done.
  - intros j Hj. by apply ptr_new_indirect.
  - by apply free_allocated.
  - by apply fs_ok_allocated.
  - simpl. rewrite length_insert. apply Hfile.
  - intros m Hm Hi. apply allocated_other; [|done]. intros ->. apply Hi, (in_file_at _ _ MAXFILE ltac:(done)).
    by rewrite ptr_new_indirect by done.
Qed.

Lemma set_word_block d o v : is_block d -> is_block (set_word d o v).
Proof using Type.
  clear. intros [Hl Hb]. split; [by rewrite set_word_length|]. unfold set_word, u8.
  repeat apply Forall_insert; try done; apply Z.mod_pos_bound; lia.
Qed.

Lemma with_entry_data bn m : m <> indirect ip -> with_entry sb V ip a bn m = allocated a sb V m.
Proof using Type. clear. intros. unfold with_entry. by rewrite fn_lookup_insert_ne. Qed.

Section entry.
Context (bn : Z) (Hi : indirect ip <> 0) (Hbn : Z.of_nat NDIRECT <= bn < MAXFILE).

Lemma extend_entry : ptr V ip bn = 0 -> extends sb V ip (with_entry sb V ip a bn) ip.
Proof using All.
  intros Hz. destruct (indirect_apart sb V ip a Hfs Hfile Ha Hi) as [Hia Hib].
  destruct (fi_ptr _ _ _ Hfile MAXFILE ltac:(done) Hi) as [Hri _]. rewrite ptr_indirect in Hri.
  pose proof (fs_ok_bmap _ _ Hfs). pose proof (fs_ok_allocated _ _ _ Hfs Ha) as Hfs1.
  apply (grow_extends sb V _ ip _ bn a); try done.
  - lia.
  - intros j Hj. by apply ptr_entry.
  - unfold with_entry. rewrite free_insert by done. by apply free_allocated.
  - apply fs_ok_insert; [done|lia|done|]. apply set_word_block, (fo_block _ _ Hfs1). lia.
  - by destruct ip.
  - apply Hfile.
  - intros m Hm Hin. destruct (decide (m = indirect ip)) as [->|Hne].
    { destruct Hin. split; [done|]. exists MAXFILE. done. }
    rewrite with_entry_data by done. apply allocated_other; [|done]. intros ->. apply Hin, (in_file_at _ _ bn ltac:(lia)).
    rewrite ptr_entry by (done || lia). by rewrite decide_True.
Qed.

Lemma keeps_entry : keeps_data V ip (with_entry sb V ip a bn).
Proof using All.
  intros j Hj Hn. rewrite with_entry_data; [by apply keeps_allocated|]. rewrite <- (ptr_indirect V). intros E.
  apply (fi_inj _ _ _ Hfile) in E; lia || done.
Qed.

Lemma with_entry_new : with_entry sb V ip a bn a = zeros.
Proof using All. rewrite with_entry_data; [apply allocated_new|]. by apply not_eq_sym, (indirect_apart sb V ip a Hfs Hfile Ha). Qed.
End entry.
End add.

(** ** What an operation may use up

    One block of the free map and one indirect block serve a whole call; [slack] and [load]
    count them once, so that each data block costs one. *)
Definition slack (V : Z -> list Z) (sb : superblock) (ip : inode) : Z :=
  Z.of_nat (size (free_blocks V sb)) + (if indirect ip =? 0 then 0 else 1).
Definition load (P : gset Z) (sb : superblock) (ip : inode) : Z :=
  Z.of_nat (size ({[sb_bmapstart sb]} ∪ P)) + (if bool_decide (indirect ip <> 0 /\ indirect ip ∈ P) then 0 else 1).
Definition indirect_set (ip : inode) : gset Z := if indirect ip =? 0 then ∅ else {[indirect ip]}.

Lemma size_add (P : gset Z) a : (size ({[a]} ∪ P) <= S (size P))%nat.
Proof.
  rewrite size_union_alt, size_singleton. assert (size (P ∖ {[a]}) <= size P)%nat by (apply subseteq_size; set_solver). lia.
Qed.

Lemma load_step P P' sb ip ip' a :
  (indirect ip <> 0 -> indirect ip' = indirect ip) -> P ⊆ P' -> P' ⊆ {[a; sb_bmapstart sb]} ∪ P ∪ indirect_set ip' ->
  load ({[a]} ∪ P') sb ip' <= load P sb ip + 1.
Proof.
  intros Hi HP HP'. unfold load, indirect_set in *. set (bm := sb_bmapstart sb) in *.
  pose proof (size_add ({[bm]} ∪ P) a) as Hs.
  destruct (bool_decide_reflect (indirect ip <> 0 /\ indirect ip ∈ P)) as [[Hn Hin]|Hno].
  - rewrite (Hi Hn) in *. rewrite (proj2 (Z.eqb_neq _ 0) Hn) in HP'. rewrite bool_decide_true by (split; [done|set_solver]).
    assert (size ({[bm]} ∪ ({[a]} ∪ P')) <= size ({[a]} ∪ ({[bm]} ∪ P)))%nat by (apply subseteq_size; set_solver). lia.
  - destruct (bool_decide_reflect (indirect ip' <> 0 /\ indirect ip' ∈ {[a]} ∪ P')) as [[Hn Hin]|Hno'].
    + rewrite (proj2 (Z.eqb_neq _ 0) Hn) in HP'. pose proof (size_add ({[a]} ∪ ({[bm]} ∪ P)) (indirect ip')).
      assert (size ({[bm]} ∪ ({[a]} ∪ P')) <= size ({[indirect ip']} ∪ ({[a]} ∪ ({[bm]} ∪ P))))%nat
        by (apply subseteq_size; set_solver). lia.
    + assert (size ({[bm]} ∪ ({[a]} ∪ P')) <= size ({[a]} ∪ ({[bm]} ∪ P)))%nat; [|lia].
      apply subseteq_size. destruct (Z.eqb_spec (indirect ip') 0) as [|Hn]; [set_solver|].
      assert (indirect ip' ∉ P') by set_solver. set_solver.
Qed.

Lemma free_size V V' sb a : a ∈ free_blocks V sb -> free_blocks V' sb = free_blocks V sb ∖ {[a]} ->
  Z.of_nat (size (free_blocks V' sb)) = Z.of_nat (size (free_blocks V sb)) - 1.
Proof.
  intros Ha ->. assert ({[a]} ⊆ free_blocks V sb) as Hs by set_solver.
  rewrite size_difference by done. rewrite size_singleton.
  apply subseteq_size in Hs. rewrite size_singleton in Hs. lia.
Qed.

Lemma free_nonempty V sb : 0 < Z.of_nat (size (free_blocks V sb)) -> free_blocks V sb <> ∅.
Proof. intros H E. rewrite E, size_empty in H. done. Qed.

(** ** [bmap] *)
Definition put_inode (s : nat) (ip : inode) (F : fsstate) : fsstate := F <| icache ::= alter (fun _ => ip) s |>.

Lemma put_inode_upd s f F : (s < length (icache F))%nat ->
  F <| icache ::= alter f s |> = put_inode s (f (icache F !!! s)) F.
Proof.
  intros Hs. destruct F as [ft ic sb fi]. simpl in Hs.
  change (mkFs ft (alter f s ic) sb fi = mkFs ft (alter (fun _ => f (ic !!! s)) s ic) sb fi). f_equal.
  apply list_eq. intros j. destruct (decide (j = s)) as [->|Hne]; [|by rewrite !list_lookup_alter_ne].
  rewrite !list_lookup_alter_eq. by rewrite (list_lookup_lookup_total_lt ic s Hs).
Qed.

Lemma put_inode_same s F : (s < length (icache F))%nat -> put_inode s (icache F !!! s) F = F.
Proof.
  intros Hs. destruct F as [ft ic sb fi]. simpl in Hs.
  change (mkFs ft (alter (fun _ => ic !!! s) s ic) sb fi = mkFs ft ic sb fi). f_equal.
  apply list_eq. intros j. destruct (decide (j = s)) as [->|Hne]; [|by rewrite list_lookup_alter_ne].
  by rewrite list_lookup_alter_eq, (list_lookup_lookup_total_lt ic s Hs).
Qed.

Lemma put_inode_at s ip F : (s < length (icache F))%nat -> icache (put_inode s ip F) !!! s = ip.
Proof. intros Hs. unfold put_inode. simpl. by apply alter_same. Qed.

Lemma put_put_inode s ip ip' F : put_inode s ip' (put_inode s ip F) = put_inode s ip' F.
Proof.
  destruct F as [ft ic sb fi]. change (mkFs ft (alter (fun _ => ip') s (alter (fun _ => ip) s ic)) sb fi = mkFs ft (alter (fun _ => ip') s ic) sb fi).
  by rewrite alter_alter.
Qed.

(** Block [bn] of the file is at [a], where it was or newly added. *)
Record mapped (sb : superblock) (bn : Z) (V : Z -> list Z) (ip : inode) (a : Z) (V' : Z -> list Z) (ip' : inode) : Prop := {
  mp_ext : extends sb V ip V' ip';
  mp_ptr : ptr V' ip' bn = a;
  mp_some : a <> 0;
  mp_keep : keeps_data V ip V';
  mp_zero : ptr V ip bn = 0 -> V' a = zeros;
  mp_there : ptr V ip bn <> 0 -> ip' = ip;
  mp_only j : 0 <= j < MAXFILE -> j <> bn -> ptr V' ip' j = ptr V ip j;
}.

(** What finding it may use up. *)
Record spent (sb : superblock) (V : Z -> list Z) (ip : inode) (P : gset Z) (a : Z)
    (V' : Z -> list Z) (ip' : inode) (P' : gset Z) : Prop := {
  sp_slack : slack V sb ip - 1 <= slack V' sb ip';
  sp_load : load ({[a]} ∪ P') sb ip' <= load P sb ip + 1;
  sp_logged n : n ∈ P' -> n ∈ P \/ sb_bmapstart sb <= n < sb_size sb;
}.

Lemma mapped_same sb bn V ip : fs_ok V sb -> file_ok V sb ip -> ptr V ip bn <> 0 -> mapped sb bn V ip (ptr V ip bn) V ip.
Proof. intros Hfs Hfi Hn. split; try done. by apply extends_refl. Qed.

Lemma mapped_direct sb bn V ip a : fs_ok V sb -> file_ok V sb ip -> 0 <= bn < Z.of_nat NDIRECT -> ptr V ip bn = 0 ->
  a ∈ free_blocks V sb -> mapped sb bn V ip a (allocated a sb V) (ip <| addrs ::= <[Z.to_nat bn := a]> |>).
Proof.
  intros Hfs Hfi Hbn Hz Ha. split.
  - by apply extend_direct.
  - rewrite (ptr_direct sb V ip a Hfs Hfi Ha) by lia. by rewrite decide_True.
  - pose proof (free_data _ _ _ Hfs Ha). pose proof (fs_ok_bmap _ _ Hfs). lia.
  - by apply keeps_allocated.
  - intros _. apply allocated_new.
  - done.
  - intros j Hj Hne. rewrite (ptr_direct sb V ip a Hfs Hfi Ha) by lia. by rewrite decide_False.
Qed.

Lemma keeps_trans sb V ip V1 ip1 V2 :
  extends sb V ip V1 ip1 -> keeps_data V ip V1 -> keeps_data V1 ip1 V2 -> keeps_data V ip V2.
Proof.
  intros Hex H1 H2 j Hj Hn. rewrite <- (H1 j Hj Hn). assert (ptr V1 ip1 j = ptr V ip j) as E by (apply (ex_ptr _ _ _ _ _ Hex); lia || done).
  rewrite <- E. apply H2; [done|]. by rewrite E.
Qed.

(** A new indirect block. *)
Section new_indirect.
Context (sb : superblock) (V : Z -> list Z) (ip : inode) (a : Z).
Context (Hfs : fs_ok V sb) (Hfi : file_ok V sb ip) (Hz : indirect ip = 0) (Ha : a ∈ free_blocks V sb).

Lemma new_indirect_at : indirect (ip <| addrs ::= <[NDIRECT := a]> |>) = a.
Proof using Hfi. clear -Hfi. apply list_lookup_total_insert_eq. rewrite (fi_addrs _ _ _ Hfi). lia. Qed.

Lemma new_indirect_ptr j : 0 <= j < MAXFILE -> ptr (allocated a sb V) (ip <| addrs ::= <[NDIRECT := a]> |>) j = ptr V ip j.
Proof using All. intros Hj. rewrite (ptr_new_indirect sb V ip a Hfs Hfi Ha j Hz) by lia. by rewrite decide_False by lia. Qed.

Lemma no_indirect_ptr bn : Z.of_nat NDIRECT <= bn < MAXFILE -> ptr V ip bn = 0.
Proof using Hz. clear -Hz. intros Hbn. unfold ptr. rewrite (proj2 (Z.ltb_ge _ _)), (proj2 (Z.eqb_neq bn _)), Hz by lia. done. Qed.
End new_indirect.

(** A new entry in an indirect block that was there, or that [V1] has just added. *)
Lemma mapped_entry sb bn V ip V1 ip1 a :
  extends sb V ip V1 ip1 -> keeps_data V ip V1 -> (forall j, 0 <= j < MAXFILE -> ptr V1 ip1 j = ptr V ip j) ->
  indirect ip1 <> 0 -> Z.of_nat NDIRECT <= bn < MAXFILE -> ptr V ip bn = 0 -> a ∈ free_blocks V1 sb ->
  mapped sb bn V ip a (with_entry sb V1 ip1 a bn) ip1.
Proof.
  intros Hex Hk Hp Hi Hbn Hz Ha. pose proof (ex_fs _ _ _ _ _ Hex) as Hfs. pose proof (ex_file _ _ _ _ _ Hex) as Hfi.
  assert (0 <= bn < MAXFILE) as Hbn' by lia. assert (ptr V1 ip1 bn = 0) as Hz1 by (by rewrite Hp).
  split.
  - eapply extends_trans; [done|]. by apply extend_entry.
  - rewrite ptr_entry by (done || lia). by rewrite decide_True.
  - pose proof (free_data _ _ _ Hfs Ha). pose proof (fs_ok_bmap _ _ Hfs). lia.
  - eapply keeps_trans; [done..|]. by apply keeps_entry.
  - intros _. by apply with_entry_new.
  - done.
  - intros j Hj Hne. rewrite ptr_entry, decide_False by (done || lia). by apply Hp.
Qed.

Lemma spent_entry sb bn V ip P V1 ip1 P1 a :
  extends sb V ip V1 ip1 -> indirect ip1 <> 0 -> a ∈ free_blocks V1 sb ->
  slack V sb ip <= slack V1 sb ip1 -> P ⊆ P1 -> P1 ⊆ {[sb_bmapstart sb]} ∪ P ∪ indirect_set ip1 ->
  spent sb V ip P a (with_entry sb V1 ip1 a bn) ip1 ({[indirect ip1; a; sb_bmapstart sb]} ∪ P1).
Proof.
  intros Hex Hi Ha Hsl HP HP1. pose proof (ex_fs _ _ _ _ _ Hex) as Hfs. pose proof (ex_file _ _ _ _ _ Hex) as Hfi.
  assert (indirect_set ip1 = {[indirect ip1]}) as Eis by (unfold indirect_set; by rewrite (proj2 (Z.eqb_neq _ 0))).
  assert (free_blocks (with_entry sb V1 ip1 a bn) sb = free_blocks V1 sb ∖ {[a]}) as Ef.
  { unfold with_entry. rewrite free_insert by (by apply (indirect_apart sb V1 ip1 a)). by apply free_allocated. }
  split.
  - unfold slack in *. rewrite (free_size V1 _ sb a Ha Ef). lia.
  - apply load_step; [|set_solver..]. intros Hn. apply (ex_ptr _ _ _ _ _ Hex MAXFILE); done.
  - intros n Hin. pose proof (free_data _ _ _ Hfs Ha). pose proof (fs_ok_bmap _ _ Hfs).
    destruct (fi_ptr _ _ _ Hfi MAXFILE ltac:(done) Hi) as [Hri _]. rewrite ptr_indirect in Hri.
    assert (n = indirect ip1 \/ n = a \/ n = sb_bmapstart sb \/ n ∈ P) as [->|[->|[->|]]] by set_solver; [right; lia..|by left].
Qed.

Lemma spent_same sb V ip P a : spent sb V ip P a V ip P.
Proof. split; [lia|apply load_step; [done..|set_solver]|by left]. Qed.

Section bmap.
Context {D : BlockDriver} {DL : BlockDriverLaws D} (fuel : nat) (Hfuel : (0 < fuel)%nat) (k0 : kernel) (i s : nat).
Abbreviation txn := (txn k0 i).
Abbreviation cap := (log_cap k0).

(** The blocks logged on the way of one [bmap] fit. *)
Lemma fits_step P P' sb ip ip' a :
  (indirect ip <> 0 -> indirect ip' = indirect ip) -> P ⊆ P' -> P' ⊆ {[a; sb_bmapstart sb]} ∪ P ∪ indirect_set ip' ->
  load P sb ip + 1 < cap -> fits k0 P'.
Proof.
  intros Hi HP HP' Hc. pose proof (load_step P P' sb ip ip' a Hi HP HP') as Hl. unfold load in Hl at 1. unfold fits.
  assert (size P' <= size ({[sb_bmapstart sb]} ∪ ({[a]} ∪ P')))%nat by (apply subseteq_size; set_solver).
  case_bool_decide; lia.
Qed.

Lemma bmap_direct bn P V F k :
  let ip := icache F !!! s in let sb := ksb F in
  txn [] P V F k -> fs_ok V sb -> file_ok V sb ip -> idev ip = 1 -> (s < length (icache F))%nat ->
  0 <= bn < Z.of_nat NDIRECT -> 2 <= slack V sb ip -> load P sb ip + 1 < cap ->
  returns (alone idle (bmap fuel s bn k)) (fun a k' => exists V' ip' P',
    txn [] P' V' (put_inode s ip' F) k' /\
    mapped sb bn V ip a V' ip' /\ spent sb V ip P a V' ip' P').
Proof using DL Hfuel.
  intros ip sb H Hfs Hfi Hdev Hs Hbn Hsl Hld. unfold bmap. kunfold. cbn [obind]. unfold inode_at.
  rewrite (tx_fsys _ _ _ _ _ _ _ H). fold ip. rewrite (proj2 (Z.ltb_lt _ _)) by lia.
  assert (ptr V ip bn = addrs ip !!! Z.to_nat bn) as Ep by (unfold ptr; by rewrite (proj2 (Z.ltb_lt bn _)) by lia).
  rewrite <- Ep. destruct (Z.eqb_spec (ptr V ip bn) 0) as [Hz|Hz].
  - rewrite Hdev. eapply alone_bind.
    { apply (balloc_spec fuel k0 i [] P V F k Hfuel H Hfs); [simpl; lia|set_solver| |].
      - apply free_nonempty. unfold slack in Hsl. fold sb. case_match; lia.
      - apply (fits_step P _ sb ip ip 0); fold sb; done || set_solver. }
    intros a k1 [Ha H1]. fold sb in Ha, H1. unfold upd_inode. kunfold. cbn [obind]. apply alone_returns. cbn [returns].
    apply (tx_tables k0 i _ _ _ _ _ (upd icache (alter (fun ip => ip <| addrs ::= <[Z.to_nat bn := a]> |>) s))) in H1.
    change (upd icache ?f F) with (F <| icache ::= f |>) in H1. rewrite put_inode_upd in H1 by done. fold ip in H1.
    eexists _, _, _. split; [exact H1|].
    split; [by apply mapped_direct|].
    assert (indirect (ip <| addrs ::= <[Z.to_nat bn := a]> |>) = indirect ip) as Ei
      by (simpl; rewrite list_lookup_total_insert_ne; [done|unfold NDIRECT in *; lia]).
    split.
    + unfold slack. rewrite Ei, (free_size V _ sb a Ha (free_allocated V sb a Hfs Ha)). lia.
    + apply load_step; [by intros _|set_solver..].
    + intros n Hin. pose proof (free_data _ _ _ Hfs Ha). pose proof (fs_ok_bmap _ _ Hfs).
      assert (n = a \/ n = sb_bmapstart sb \/ n ∈ P) as [->|[->|]] by set_solver; [right; lia|right; lia|by left].
  - apply alone_returns. cbn [returns]. exists V, ip, P. split; [by unfold ip; rewrite put_inode_same|].
    split; [by apply mapped_same|apply spent_same].
Qed.

(** The part of [bmap] after the indirect block is there. *)
Definition bmap_entry (bn addr : Z) : K Z :=
  bp ← bread fuel 1 addr ;
  a ← gets (fun k => word_at (bdata (buf_at k bp)) (Z.to_nat (4 * bn))) ;
  addr ← (if a =? 0 then
            addr ← balloc fuel 1 ;
            set_data bp (fun d => set_word d (Z.to_nat (4 * bn)) addr) ;;
            log_write bp ;;
            mret addr
          else mret a) ;
  brelse bp ;;
  mret addr.

Lemma bmap_entry_spec bn P0 P ip0 V F k :
  let ip := icache F !!! s in let sb := ksb F in
  txn [] P V F k -> fs_ok V sb -> file_ok V sb ip ->
  Z.of_nat NDIRECT <= bn < MAXFILE -> indirect ip <> 0 ->
  (ptr V ip bn = 0 -> free_blocks V sb <> ∅) ->
  (indirect ip0 <> 0 -> indirect ip = indirect ip0) -> P0 ⊆ P -> P ⊆ {[sb_bmapstart sb]} ∪ P0 ∪ indirect_set ip ->
  load P0 sb ip0 + 1 < cap ->
  returns (alone idle (bmap_entry (bn - Z.of_nat NDIRECT) (indirect ip) k)) (fun a k' =>
    (ptr V ip bn = a /\ a <> 0 /\ txn [] P V F k') \/
    (ptr V ip bn = 0 /\ a ∈ free_blocks V sb /\
     txn [] ({[indirect ip; a; sb_bmapstart sb]} ∪ P) (with_entry sb V ip a bn) F k')).
Proof using DL Hfuel.
  intros ip sb H Hfs Hfi Hbn Hi Hfr Hi0 HP0 HP Hld. unfold bmap_entry.
  assert (indirect_set ip = {[indirect ip]}) as Eis by (unfold indirect_set; by rewrite (proj2 (Z.eqb_neq _ 0))).
  destruct (fi_ptr _ _ _ Hfi MAXFILE ltac:(done) Hi) as [Hri Hif]. rewrite ptr_indirect in Hri, Hif.
  pose proof (fs_ok_bmap _ _ Hfs) as Hbm. pose proof (fo_geometry _ _ Hfs) as (_ & _ & _ & Hsz).
  assert (forall a, fits k0 ({[a; sb_bmapstart sb]} ∪ P)) as Hfit
    by (intros a; apply (fits_step P0 _ sb ip0 ip a); [done|set_solver..|done]).
  apply (tx_read_block fuel k0 i [] P V F k (indirect ip) Hfuel H); [lia|set_solver| |].
  { apply (fits_room k0); [by eapply (fits_mono k0 P), (Hfit 0); set_solver|simpl; lia]. }
  intros bp k1 H1 Hd. unfold gets at 1. unfold mbind at 1, K_bind at 1. cbn [obind]. rewrite Hd.
  assert (word_at (V (indirect ip)) (Z.to_nat (4 * (bn - Z.of_nat NDIRECT))) = ptr V ip bn) as ->.
  { unfold ptr. rewrite (proj2 (Z.ltb_ge _ _)), (proj2 (Z.eqb_neq bn MAXFILE)), (proj2 (Z.eqb_neq _ 0)) by (done || lia). done. }
  destruct (Z.eqb_spec (ptr V ip bn) 0) as [Hz|Hz].
  - apply (alone_bind _ _ _ _ (fun a k' => a ∈ free_blocks V sb /\
      txn [(bp, indirect ip)] ({[indirect ip; a; sb_bmapstart sb]} ∪ P) (with_entry sb V ip a bn) F k')).
    + eapply alone_bind.
      { apply (balloc_spec fuel k0 i _ P V F k1 Hfuel H1 Hfs); [simpl; lia| |by apply Hfr|].
        - intros n Hn. assert (n = indirect ip) as -> by set_solver. fold sb. split; [lia|done].
        - fold sb. by eapply (fits_mono k0), (Hfit 0); set_solver. }
      intros a k2 [Ha H2]. fold sb in Ha, H2.
      apply (tx_update k0 i _ _ _ _ k2 bp (indirect ip)
        (fun d => set_word d (Z.to_nat (4 * (bn - Z.of_nat NDIRECT))) a) H2); [apply list_elem_of_here|apply Hfit|].
      intros k3 H3. apply alone_returns. cbn [returns]. split; [done|].
      replace ({[indirect ip; a; sb_bmapstart sb]} ∪ P) with ({[indirect ip]} ∪ ({[a; sb_bmapstart sb]} ∪ P)) by set_solver. done.
    + intros a k2 [Ha H2]. apply (tx_release k0 i _ _ _ _ _ _ _ H2). intros k3 H3. apply alone_returns. right. done.
  - cbn [obind]. apply (tx_release k0 i _ _ _ _ _ _ _ H1). intros k2 H2. apply alone_returns. by left.
Qed.

Lemma bmap_indirect bn P V F k :
  let ip := icache F !!! s in let sb := ksb F in
  txn [] P V F k -> fs_ok V sb -> file_ok V sb ip -> idev ip = 1 -> (s < length (icache F))%nat ->
  Z.of_nat NDIRECT <= bn < MAXFILE -> 2 <= slack V sb ip -> load P sb ip + 1 < cap ->
  returns (alone idle (bmap fuel s bn k)) (fun a k' => exists V' ip' P',
    txn [] P' V' (put_inode s ip' F) k' /\
    mapped sb bn V ip a V' ip' /\ spent sb V ip P a V' ip' P').
Proof using DL Hfuel.
  intros ip sb H Hfs Hfi Hdev Hs Hbn Hsl Hld. unfold bmap. kunfold. cbn [obind]. unfold inode_at.
  rewrite (tx_fsys _ _ _ _ _ _ _ H). fold ip. rewrite (proj2 (Z.ltb_ge _ _)) by lia.
  rewrite (proj2 (Z.ltb_lt _ _)) by (unfold MAXFILE in *; lia). rewrite Hdev. unfold slack in Hsl.
  destruct (Z.eqb_spec (indirect ip) 0) as [Hz|Hz].
  - apply (alone_bind _ _ _ _ (fun a k' => a ∈ free_blocks V sb /\
      txn [] ({[a; sb_bmapstart sb]} ∪ P) (allocated a sb V) (put_inode s (ip <| addrs ::= <[NDIRECT := a]> |>) F) k')).
    { eapply alone_bind.
      - apply (balloc_spec fuel k0 i [] P V F k Hfuel H Hfs); [simpl; lia|set_solver|apply free_nonempty; fold sb; lia|].
        apply (fits_step P _ sb ip ip 0); fold sb; done || set_solver.
      - intros a k1 [Ha H1]. fold sb in Ha, H1. unfold upd_inode. kunfold. cbn [obind]. apply alone_returns. cbn [returns].
        apply (tx_tables k0 i _ _ _ _ _ (upd icache (alter (fun ip => ip <| addrs ::= <[NDIRECT := a]> |>) s))) in H1.
        change (upd icache ?f F) with (F <| icache ::= f |>) in H1. rewrite put_inode_upd in H1 by done. done. }
    intros a k1 [Ha H1]. set (ip1 := ip <| addrs ::= <[NDIRECT := a]> |>) in *.
    pose proof (extend_indirect sb V ip a Hfs Hfi Ha Hz) as Hex. fold ip1 in Hex.
    assert (indirect ip1 = a) as Ei by (by apply (new_indirect_at sb V)).
    pose proof (free_data _ _ _ Hfs Ha) as Har. pose proof (fs_ok_bmap _ _ Hfs) as Hbm.
    pose proof (free_size V _ sb a Ha (free_allocated V sb a Hfs Ha)) as Hsz.
    assert (indirect_set ip1 = {[a]}) as Eis by (unfold indirect_set; rewrite Ei; by rewrite (proj2 (Z.eqb_neq _ 0)) by lia).
    assert (forall j, 0 <= j < MAXFILE -> ptr (allocated a sb V) ip1 j = ptr V ip j) as Hp.
    { intros j Hj. by apply new_indirect_ptr. }
    assert (ptr V ip bn = 0) as Hzb.
    { by apply no_indirect_ptr. }
    pose proof (bmap_entry_spec bn P _ ip _ _ k1 H1) as He. rewrite put_inode_at in He by done. cbv zeta in He.
    change (ksb (put_inode s ip1 F)) with sb in He. rewrite Ei in He.
    eapply returns_mono; [apply He; try done|].
    + apply Hex.
    + apply Hex.
    + lia.
    + intros _. apply free_nonempty. lia.
    + set_solver.
    + rewrite Eis. set_solver.
    + intros a2 k2 [(E & Hn & _)|(_ & Ha2 & H2)]; [by rewrite Hp, Hzb in E by lia|].
      eexists _, ip1, _. split; [exact H2|].
      split; [apply mapped_entry; try done; [by apply keeps_allocated|rewrite Ei; lia]|].
      pose proof (spent_entry sb bn V ip P (allocated a sb V) ip1 ({[a; sb_bmapstart sb]} ∪ P) a2) as Hm. rewrite Ei in Hm.
      apply Hm; try done; [lia| |set_solver|rewrite Eis; set_solver].
      unfold slack. rewrite Ei, Hz, (proj2 (Z.eqb_neq a 0)) by lia. simpl. lia.
  - cbn [obind]. pose proof (bmap_entry_spec bn P P ip V F k H Hfs Hfi Hbn Hz) as He. cbv zeta in He. fold ip sb in He.
    eapply returns_mono; [apply He; try done|].
    + intros _. apply free_nonempty. lia.
    + set_solver.
    + intros a k2 [(E & Hn & H2)|(Hzb & Ha & H2)].
      * exists V, ip, P. split; [by unfold ip; rewrite put_inode_same|]. rewrite <- E in Hn |- *.
        split; [by apply mapped_same|apply spent_same].
      * eexists _, ip, _. split; [unfold ip at 3; rewrite put_inode_same by done; exact H2|].
        split; [by apply mapped_entry; [apply extends_refl|..]|]. apply spent_entry; try done; [by apply extends_refl|set_solver].
Qed.

Lemma bmap_spec bn P V F k :
  let ip := icache F !!! s in let sb := ksb F in
  txn [] P V F k -> fs_ok V sb -> file_ok V sb ip -> idev ip = 1 -> (s < length (icache F))%nat ->
  0 <= bn < MAXFILE -> 2 <= slack V sb ip -> load P sb ip + 1 < cap ->
  returns (alone idle (bmap fuel s bn k)) (fun a k' => exists V' ip' P',
    txn [] P' V' (put_inode s ip' F) k' /\
    mapped sb bn V ip a V' ip' /\ spent sb V ip P a V' ip' P').
Proof using DL Hfuel.
  intros ip sb H Hfs Hfi Hdev Hs Hbn Hsl Hld.
  destruct (decide (bn < Z.of_nat NDIRECT)); [apply bmap_direct|apply bmap_indirect]; try done; lia.
Qed.
End bmap.
