(* ===== verification/Contents.v ===== *)
(** * Contents: reading and writing files (fs.c)

    [readi] and [writei] against the contents of a file as a list of bytes. *)
From stdpp Require Import base list list_numbers gmap strings functions sorting.
From Stdlib Require Import ZArith Lia.
From S2P Require Import Prelude Mem Layout Machine Sched Sleeplock Disk Bio Log Fs Tx Blocks Inode.
Local Open Scope Z_scope.

Abbreviation BLK := (Z.of_nat BSIZE).

Definition byte (V : Z -> list Z) (ip : inode) (o : Z) : Z :=
  V (ptr V ip (o / BLK)) !!! Z.to_nat (o mod BLK).

(** The bytes of a file. *)
Definition contents (V : Z -> list Z) (ip : inode) : list Z := byte V ip <$> seqZ 0 (isize ip).

(** Every block below the size is there. *)
Definition whole (V : Z -> list Z) (ip : inode) : Prop :=
  0 <= isize ip <= MAXFILE * BLK /\ forall j, 0 <= j -> j * BLK < isize ip -> ptr V ip j <> 0.

(** ** Pieces of blocks *)
Lemma blk_div o : 0 <= o < MAXFILE * BLK -> 0 <= o / BLK < MAXFILE.
Proof. unfold MAXFILE, NINDIRECT, NDIRECT, BSIZE. intros. dlia. Qed.

Lemma same_block off m o : 0 <= off -> off <= o < off + m -> m <= BLK - off mod BLK -> o / BLK = off / BLK.
Proof. unfold BSIZE. intros. dlia. Qed.

Lemma piece_bytes V ip off m : 0 <= off -> 0 <= m <= BLK - off mod BLK -> length (V (ptr V ip (off / BLK))) = BSIZE ->
  take (Z.to_nat m) (drop (Z.to_nat (off mod BLK)) (V (ptr V ip (off / BLK)))) = byte V ip <$> seqZ off m.
Proof.
  intros Ho Hm Hl. pose proof (Z.mod_pos_bound off BLK ltac:(unfold BSIZE; lia)) as Hb.
  apply list_eq. intros t. rewrite list_lookup_fmap. destruct (decide (t < Z.to_nat m)%nat) as [Ht|Ht].
  - rewrite lookup_take_lt by done. rewrite lookup_drop. rewrite lookup_seqZ_lt by lia. simpl. unfold byte.
    rewrite (same_block off m (off + Z.of_nat t)) by lia.
    rewrite list_lookup_lookup_total_lt by lia. f_equal. f_equal. unfold BSIZE in *. dlia.
  - rewrite lookup_take_ge by lia. rewrite lookup_seqZ_ge by lia. done.
Qed.

Lemma seqZ_split off m n : 0 <= m <= n -> seqZ off n = seqZ off m ++ seqZ (off + m) (n - m).
Proof. intros H. rewrite <- seqZ_app by lia. f_equal. lia. Qed.

(** After a piece that is not the last, the offset is at a block boundary. *)
Lemma next_piece off n left : let m := Z.min n (BLK - off mod BLK) in
  0 <= off -> 0 < n - m -> (0 < n -> off mod BLK + n <= Z.of_nat (S left) * BLK) ->
  (off + m) mod BLK + (n - m) <= Z.of_nat left * BLK.
Proof.
  intros m Ho Hnm Hl. pose proof (Z.mod_pos_bound off BLK ltac:(unfold BSIZE; lia)) as Hb.
  assert (m = BLK - off mod BLK) as Hm by lia. clearbody m. subst m. specialize (Hl ltac:(lia)).
  assert ((off + (BLK - off mod BLK)) mod BLK = 0) as -> by (unfold BSIZE in *; dlia). lia.
Qed.

(** ** Writing into a block of the file *)
Lemma splice_length d r l : (r + length l <= length d)%nat -> length (splice d r l) = length d.
Proof. intros H. unfold splice. rewrite !length_app, length_take, length_drop. lia. Qed.

Lemma splice_lookup (d : list Z) r l t : (r + length l <= length d)%nat ->
  splice d r l !!! t = if decide (r <= t < r + length l)%nat then l !!! (t - r)%nat else d !!! t.
Proof.
  intros H. unfold splice. assert (length (take r d) = r) as Hr by (rewrite length_take; lia). case_decide as E.
  - rewrite lookup_total_app_r by lia. rewrite lookup_total_app_l by lia. by rewrite Hr.
  - destruct (decide (t < r)%nat).
    + rewrite lookup_total_app_l by lia. apply lookup_total_take_lt. lia.
    + rewrite lookup_total_app_r by lia. rewrite lookup_total_app_r by lia. rewrite lookup_total_drop. f_equal. lia.
Qed.

Lemma splice_block d r l : is_block d -> (r + length l <= BSIZE)%nat -> Forall (fun x => 0 <= x < 256) l -> is_block (splice d r l).
Proof.
  intros [Hl Hb] Hr Hx. split; [rewrite splice_length; lia|]. unfold splice. rewrite !Forall_app.
  split_and!; [by apply Forall_take|done|by apply Forall_drop].
Qed.

Section data.
Context (sb : superblock) (V : Z -> list Z) (ip : inode) (bn : Z) (d : list Z).
Context (Hfs : fs_ok V sb) (Hfi : file_ok V sb ip) (Hbn : 0 <= bn < MAXFILE) (Hn : ptr V ip bn <> 0) (Hd : is_block d).

Lemma data_ptr j : ptr (<[ptr V ip bn := d]> V) ip j = ptr V ip j.
Proof using All.
  apply ptr_ext. intros Hi. apply fn_lookup_insert_ne. rewrite <- (ptr_indirect V ip). intros E.
  apply (fi_inj _ _ _ Hfi) in E; lia || done.
Qed.

Lemma extends_data : extends sb V ip (<[ptr V ip bn := d]> V) ip.
Proof using All.
  destruct (fi_ptr _ _ _ Hfi bn ltac:(lia) Hn) as [Hr Hf]. pose proof (fs_ok_bmap _ _ Hfs).
  assert (free_blocks (<[ptr V ip bn := d]> V) sb = free_blocks V sb) as Ef by (apply free_insert; lia).
  split; rewrite ?Ef; try done.
  - apply fs_ok_insert; done || lia.
  - split; [apply Hfi|intros j|intros j j']; rewrite !data_ptr, ?Ef; apply Hfi.
  - by destruct ip.
  - intros j _ _. apply data_ptr.
  - intros j _ E. by rewrite data_ptr, E.
  - intros m _ Hm Hi. apply fn_lookup_insert_ne. intros <-. apply Hi. split; [done|]. exists bn. rewrite data_ptr. split; [lia|done].
Qed.

Lemma data_byte o : 0 <= o < MAXFILE * BLK ->
  byte (<[ptr V ip bn := d]> V) ip o = if decide (o / BLK = bn) then d !!! Z.to_nat (o mod BLK) else byte V ip o.
Proof using All.
  intros Ho. unfold byte. rewrite data_ptr. case_decide as E; [by rewrite E, fn_lookup_insert|].
  rewrite fn_lookup_insert_ne; [done|]. intros E'. apply blk_div in Ho. apply (fi_inj _ _ _ Hfi) in E'; lia || done.
Qed.
End data.

Lemma mapped_byte sb bn V ip a V' ip' o :
  mapped sb bn V ip a V' ip' -> 0 <= o < MAXFILE * BLK -> ptr V ip (o / BLK) <> 0 -> byte V' ip' o = byte V ip o.
Proof.
  intros H Ho Hn. apply blk_div in Ho. unfold byte. rewrite (ex_ptr _ _ _ _ _ (mp_ext _ _ _ _ _ _ _ H)) by (lia || done).
  by rewrite (mp_keep _ _ _ _ _ _ _ H).
Qed.

(** What writing [src] at [off] does: the file grows by blocks, and its bytes change there. *)
Record written (sb : superblock) (off : Z) (src : list Z) (V : Z -> list Z) (ip : inode)
    (V' : Z -> list Z) (ip' : inode) : Prop := {
  wr_ext : extends sb V ip V' ip';
  wr_new o : off <= o < off + Z.of_nat (length src) ->
    byte V' ip' o = src !!! Z.to_nat (o - off) /\ ptr V' ip' (o / BLK) <> 0;
  wr_old o : 0 <= o < MAXFILE * BLK -> ~ off <= o < off + Z.of_nat (length src) -> ptr V ip (o / BLK) <> 0 ->
    byte V' ip' o = byte V ip o;
  wr_zero o : 0 <= o < MAXFILE * BLK -> ~ off <= o < off + Z.of_nat (length src) -> ptr V ip (o / BLK) = 0 ->
    ptr V' ip' (o / BLK) <> 0 -> byte V' ip' o = 0;
  wr_there : (forall o, off <= o < off + Z.of_nat (length src) -> ptr V ip (o / BLK) <> 0) -> ip' = ip;
}.

Lemma written_nil sb off V ip : fs_ok V sb -> file_ok V sb ip -> written sb off [] V ip V ip.
Proof. intros. split; [by apply extends_refl|simpl; lia|done|congruence|done]. Qed.

(** One round of the loop. *)
Lemma written_cons sb off src m V ip a V1 ip1 V' ip' :
  let V2 := <[a := splice (V1 a) (Z.to_nat (off mod BLK)) (take (Z.to_nat m) src)]> V1 in
  0 <= off -> off + Z.of_nat (length src) <= MAXFILE * BLK ->
  m = Z.min (Z.of_nat (length src)) (BLK - off mod BLK) -> 0 < m -> Forall (fun x => 0 <= x < 256) src ->
  mapped sb (off / BLK) V ip a V1 ip1 ->
  written sb (off + m) (drop (Z.to_nat m) src) V2 ip1 V' ip' ->
  written sb off src V ip V' ip'.
Proof.
  intros V2 Ho Hmax Hm Hpos Hsrc Hmp Hwr. pose proof (mp_ext _ _ _ _ _ _ _ Hmp) as Hex.
  pose proof (mp_ptr _ _ _ _ _ _ _ Hmp) as Hp. pose proof (mp_some _ _ _ _ _ _ _ Hmp) as Ha.
  pose proof (ex_fs _ _ _ _ _ Hex) as Hfs. pose proof (ex_file _ _ _ _ _ Hex) as Hfi.
  assert (0 <= off / BLK < MAXFILE) as Hbn by (apply blk_div; lia).
  rewrite <- Hp in Ha. destruct (fi_ptr _ _ _ Hfi (off / BLK) ltac:(lia) Ha) as [Hr _].
  pose proof (fs_ok_bmap _ _ Hfs) as Hbm. pose proof (Z.mod_pos_bound off BLK ltac:(unfold BSIZE; lia)) as Hb.
  assert (is_block (V1 a)) as Hblk by (apply (fo_block _ _ Hfs); lia).
  assert (Z.to_nat (off mod BLK) + length (take (Z.to_nat m) src) <= BSIZE)%nat as Hlen by (rewrite length_take; lia).
  set (d := splice (V1 a) (Z.to_nat (off mod BLK)) (take (Z.to_nat m) src)) in *.
  assert (is_block d) as Hd by (apply splice_block; [done..|by apply Forall_take]).
  assert (V2 = <[ptr V1 ip1 (off / BLK) := d]> V1) as EV2 by (by rewrite Hp).
  assert (forall o, 0 <= o < MAXFILE * BLK -> byte V2 ip1 o =
    if decide (off <= o < off + m) then src !!! Z.to_nat (o - off) else byte V1 ip1 o) as Hbyte.
  { intros o Hoo. rewrite EV2, (data_byte sb V1 ip1 (off / BLK) d) by done. destruct (decide (o / BLK = off / BLK)) as [E|E].
    - unfold d. destruct Hblk as [Hl1 _]. rewrite splice_lookup by lia.
      assert (o - off = o mod BLK - off mod BLK) as Ed by (unfold BSIZE in *; dlia).
      pose proof (Z.mod_pos_bound o BLK ltac:(unfold BSIZE; lia)) as Hob.
      destruct (decide (off <= o < off + m)).
      + rewrite decide_True, lookup_total_take_lt by (rewrite ?length_take; lia). f_equal. lia.
      + rewrite decide_False by (rewrite length_take; lia). unfold byte. by rewrite E, Hp.
    - rewrite decide_False; [done|]. intros Hin. apply E. by apply (same_block off m); lia. }
  pose proof (wr_ext _ _ _ _ _ _ _ Hwr) as Hex'.
  assert (forall j, ptr V2 ip1 j = ptr V1 ip1 j) as Hp2 by (intros j; rewrite EV2; by apply (data_ptr sb)).
  split.
  - eapply extends_trans; [done|]. eapply extends_trans; [|done]. rewrite EV2. by apply extends_data.
  - intros o Hoo. destruct (decide (o < off + m)) as [Hlt|Hge].
    + assert (o / BLK = off / BLK) as E by (apply (same_block off m); lia).
      rewrite (wr_old _ _ _ _ _ _ _ Hwr), Hbyte, decide_True by (rewrite ?length_drop, ?Hp2, ?E; lia || done). split; [done|].
      rewrite (ex_ptr _ _ _ _ _ Hex') by (rewrite ?Hp2, ?E; lia || done). by rewrite Hp2, E.
    + destruct (wr_new _ _ _ _ _ _ _ Hwr o) as [E1 E2]; [rewrite length_drop; lia|]. split; [|done].
      rewrite E1, lookup_total_drop. f_equal. lia.
  - intros o Hoo Hno Hn. rewrite <- (mapped_byte _ _ _ _ _ _ _ o Hmp Hoo Hn).
    assert (ptr V1 ip1 (o / BLK) <> 0) as Hn1.
    { rewrite (ex_ptr _ _ _ _ _ Hex); [done| |done]. apply blk_div in Hoo. lia. }
    rewrite (wr_old _ _ _ _ _ _ _ Hwr), Hbyte, decide_False by (rewrite ?length_drop, ?Hp2; lia || done). done.
  - intros o Hoo Hno Hz Hn'. destruct (decide (o / BLK = off / BLK)) as [E|E].
    + rewrite (wr_old _ _ _ _ _ _ _ Hwr), Hbyte, decide_False by (rewrite ?length_drop, ?Hp2, ?E; lia || done).
      unfold byte. rewrite E, Hp, (mp_zero _ _ _ _ _ _ _ Hmp) by (by rewrite <- E).
      apply lookup_total_replicate_2. pose proof (Z.mod_pos_bound o BLK ltac:(unfold BSIZE; lia)). lia.
    + apply (wr_zero _ _ _ _ _ _ _ Hwr); [done|rewrite length_drop; lia| |done].
      rewrite Hp2, (mp_only _ _ _ _ _ _ _ Hmp) by (done || by apply blk_div). done.
  - intros Hall. assert (ip1 = ip) as E1 by (apply (mp_there _ _ _ _ _ _ _ Hmp), Hall; lia).
    rewrite (wr_there _ _ _ _ _ _ _ Hwr); [done|]. intros o Hoo. rewrite length_drop in Hoo. rewrite Hp2.
    rewrite (ex_ptr _ _ _ _ _ Hex); [apply Hall; lia| |apply Hall; lia].
    assert (0 <= o / BLK < MAXFILE) by (apply blk_div; lia). lia.
Qed.

(** ** Files and their inodes *)

(** A cached inode and its file: the pointers are right, every block below the size is there,
    and the inode's place on the disk has the same fields. *)
Record file_state (V : Z -> list Z) (sb : superblock) (ip : inode) : Prop := {
  fs_file : file_ok V sb ip;
  fs_whole : whole V ip;
  fs_dev : idev ip = 1;
  fs_inum : 0 <= inum ip < sb_ninodes sb;
  fs_fields : dinode_ok ip;
  fs_disk : get_dinode (V (IBLOCK (inum ip) sb)) (dinode_off (inum ip)) ip = ip;
}.

Lemma file_state_change V V' sb ip :
  file_state V sb ip -> file_ok V' sb ip -> whole V' ip ->
  get_dinode (V' (IBLOCK (inum ip) sb)) (dinode_off (inum ip)) ip = ip -> file_state V' sb ip.
Proof. intros []. by split. Qed.

Definition disjoint_files (V : Z -> list Z) (ip ip2 : inode) : Prop := forall m, in_file V ip m -> ~ in_file V ip2 m.

(** The places of inodes on the disk are before the free map. *)
Lemma iblock_range V sb n : fs_ok V sb -> 0 <= n < sb_ninodes sb ->
  1 < sb_inodestart sb <= IBLOCK n sb /\ IBLOCK n sb < sb_bmapstart sb.
Proof.
  intros H Hn. pose proof (fo_geometry _ _ H) as (H1 & H2 & H3 & H4). unfold IBLOCK, u32, IPB, FSSIZE in *.
  assert (n / 8 <= sb_ninodes sb / 8) by (apply Z.div_le_mono; lia). pose proof (Z.div_pos n 8).
  rewrite Z.mod_small by lia. lia.
Qed.

Lemma in_file_range V sb ip m : file_ok V sb ip -> in_file V ip m -> sb_bmapstart sb < m < sb_size sb /\ m ∉ free_blocks V sb.
Proof. intros H [Hm (j & Hj & E)]. subst m. by apply (fi_ptr _ _ _ H). Qed.

Lemma ptr_in_file V ip j : 0 <= j <= MAXFILE -> ptr V ip j <> 0 -> in_file V ip (ptr V ip j).
Proof. intros Hj Hn. split; [done|]. by exists j. Qed.

(** A block where the file system is written that is no part of the file. *)
Section apart.
Context (sb : superblock) (V V' : Z -> list Z) (ip : inode).
Context (Hfi : file_ok V sb ip) (Hsame : forall m, in_file V ip m -> V' m = V m).

Lemma apart_ptr j : ptr V' ip j = ptr V ip j.
Proof using Hsame. clear Hfi. apply ptr_ext. intros Hi. apply Hsame. split; [done|]. exists MAXFILE. done. Qed.

Lemma apart_in_file m : in_file V' ip m <-> in_file V ip m.
Proof using Hsame. unfold in_file. setoid_rewrite apart_ptr. done. Qed.

Lemma apart_file_ok : (forall m, in_file V ip m -> m ∉ free_blocks V' sb) -> file_ok V' sb ip.
Proof using Hfi Hsame.
  intros Hf. split; [apply Hfi|intros j Hj Hn|intros j j'; rewrite !apart_ptr; apply Hfi]. rewrite apart_ptr in Hn |- *.
  split; [by apply Hfi|]. by apply Hf, ptr_in_file.
Qed.

Lemma apart_byte o : 0 <= o < MAXFILE * BLK -> ptr V ip (o / BLK) <> 0 -> byte V' ip o = byte V ip o.
Proof using Hsame.
  clear Hfi. intros Ho Hn. apply blk_div in Ho. unfold byte. rewrite apart_ptr, Hsame; [done|]. apply ptr_in_file; [lia|done].
Qed.

Lemma apart_contents : whole V ip -> contents V' ip = contents V ip.
Proof using Hsame.
  clear Hfi. intros [Hsz Hw]. unfold contents. apply list_fmap_ext. intros t o Ht. apply lookup_seqZ in Ht as [-> Ht].
  apply apart_byte; [lia|]. apply Hw; [apply Z.div_pos; unfold BSIZE; lia|unfold BSIZE in *; dlia].
Qed.

Lemma apart_whole : whole V ip -> whole V' ip.
Proof using Hsame. clear Hfi. intros [Hsz Hw]. split; [done|]. intros j. rewrite apart_ptr. apply Hw. Qed.
End apart.

(** Other files are not affected. *)
Lemma extends_others sb V ip V' ip' ip2 :
  fs_ok V sb -> extends sb V ip V' ip' -> file_ok V sb ip2 -> disjoint_files V ip ip2 ->
  (forall m, in_file V ip2 m -> V' m = V m) /\ (forall m, in_file V ip2 m -> m ∉ free_blocks V' sb) /\
  disjoint_files V' ip' ip2.
Proof.
  intros Hfs Hex Hfi2 Hdis.
  assert (forall m, in_file V ip2 m -> ~ in_file V' ip' m) as Hno.
  { intros m Hm [Hn (j & Hj & E)]. subst m. destruct (in_file_range _ _ _ _ Hfi2 Hm) as [_ Hnf].
    destruct (decide (ptr V ip j = 0)) as [Hz|Hz].
    - by apply Hnf, (ex_new _ _ _ _ _ Hex).
    - rewrite (ex_ptr _ _ _ _ _ Hex j Hj Hz) in Hm. by eapply Hdis; [apply (ptr_in_file _ _ j Hj Hz)|]. }
  assert (forall m, in_file V ip2 m -> V' m = V m) as Hsame.
  { intros m Hm. destruct (in_file_range _ _ _ _ Hfi2 Hm) as [Hr Hnf]. apply (ex_other _ _ _ _ _ Hex); [done|lia|by apply Hno]. }
  split_and!; [done| |].
  - intros m Hm. destruct (in_file_range _ _ _ _ Hfi2 Hm) as [Hr Hnf]. intros Hf. by apply Hnf, (ex_free _ _ _ _ _ Hex).
  - intros m Hm Hm2. apply (apart_in_file V V' ip2 Hsame) in Hm2. by apply (Hno m).
Qed.

(** The block of an inode is not touched when its file changes. *)
Lemma extends_iblock sb V ip V' ip' n :
  fs_ok V sb -> extends sb V ip V' ip' -> 0 <= n < sb_ninodes sb -> V' (IBLOCK n sb) = V (IBLOCK n sb).
Proof.
  intros Hfs Hex Hn. pose proof (iblock_range _ _ _ Hfs Hn). apply (ex_other _ _ _ _ _ Hex); [|lia|].
  - intros Hf. apply (free_data _ _ _ Hfs) in Hf. lia.
  - intros Hi. apply (in_file_range _ _ _ _ (ex_file _ _ _ _ _ Hex)) in Hi. lia.
Qed.

(** ** Writing an inode back *)
Lemma set_half_bytes d o v : Forall (fun x => 0 <= x < 256) d -> Forall (fun x => 0 <= x < 256) (set_half d o v).
Proof. intros H. unfold set_half, u8. repeat apply Forall_insert; try done; apply Z.mod_pos_bound; lia. Qed.

Lemma set_addrs_bytes l : forall d o, is_block d -> is_block (set_addrs d o l).
Proof. induction l as [|a l IH]; intros d o H; simpl; [done|]. by apply IH, set_word_block. Qed.

Lemma put_dinode_block d o ip : is_block d -> is_block (put_dinode d o ip).
Proof.
  intros [Hl Hb]. unfold put_dinode. apply set_addrs_bytes, set_word_block.
  split; [by rewrite !set_half_length|]. by do 4 apply set_half_bytes.
Qed.

(** The pointers of a well-formed file fit their fields. *)
Lemma addrs_range V sb ip : fs_ok V sb -> file_ok V sb ip ->
  length (addrs ip) = S NDIRECT /\ Forall (fun a => 0 <= a < 2 ^ 32) (addrs ip).
Proof.
  intros Hfs Hfi. pose proof (fi_addrs _ _ _ Hfi) as Hl. split; [done|]. pose proof (fo_geometry _ _ Hfs) as (_ & _ & _ & Hsz).
  pose proof (fs_ok_bmap _ _ Hfs). apply Forall_lookup. intros j a Ha.
  pose proof (lookup_lt_Some _ _ _ Ha) as Hj. rewrite Hl in Hj. apply list_lookup_total_correct in Ha as <-.
  assert (exists j', 0 <= j' <= MAXFILE /\ ptr V ip j' = addrs ip !!! j) as (j' & Hj' & <-).
  { destruct (decide (j = NDIRECT)) as [->|]; [by exists MAXFILE|]. exists (Z.of_nat j). unfold ptr.
    rewrite (proj2 (Z.ltb_lt _ _)), Nat2Z.id by lia. split; [unfold MAXFILE, NINDIRECT; lia|done]. }
  destruct (decide (ptr V ip j' = 0)) as [->|Hn]; [lia|]. destruct (fi_ptr _ _ _ Hfi j' Hj' Hn). unfold FSSIZE in *. lia.
Qed.

Definition iupdated (sb : superblock) (ip : inode) (V : Z -> list Z) : Z -> list Z :=
  let b := IBLOCK (inum ip) sb in <[b := put_dinode (V b) (dinode_off (inum ip)) ip]> V.

Section iupdated.
Context (sb : superblock) (V : Z -> list Z) (ip : inode).
Context (Hfs : fs_ok V sb) (Hn : 0 <= inum ip < sb_ninodes sb).

Lemma iupdated_file ip2 m : file_ok V sb ip2 -> in_file V ip2 m -> iupdated sb ip V m = V m.
Proof using Hfs Hn.
  intros Hfi Hm. pose proof (iblock_range _ _ _ Hfs Hn). destruct (in_file_range _ _ _ _ Hfi Hm).
  apply fn_lookup_insert_ne. lia.
Qed.

Lemma iupdated_free : free_blocks (iupdated sb ip V) sb = free_blocks V sb.
Proof using Hfs Hn. pose proof (iblock_range _ _ _ Hfs Hn). apply free_insert. lia. Qed.

Lemma iupdated_fs_ok : fs_ok (iupdated sb ip V) sb.
Proof using Hfs Hn.
  pose proof (iblock_range _ _ _ Hfs Hn). pose proof (fs_ok_bmap _ _ Hfs).
  apply fs_ok_insert; [done|lia..|]. apply put_dinode_block, (fo_block _ _ Hfs). lia.
Qed.

Lemma iupdated_same : dinode_ok ip -> get_dinode (iupdated sb ip V (IBLOCK (inum ip) sb)) (dinode_off (inum ip)) ip = ip.
Proof using Hfs Hn.
  intros Hok. pose proof (iblock_range _ _ _ Hfs Hn). pose proof (fs_ok_bmap _ _ Hfs). unfold iupdated. rewrite fn_lookup_insert, get_put_dinode.
  - unfold with_fields. by destruct ip.
  - apply (fo_block _ _ Hfs). lia.
  - done.
Qed.

Lemma iupdated_other ip2 : length (addrs ip) = S NDIRECT -> 0 <= inum ip2 < sb_ninodes sb -> inum ip2 <> inum ip ->
  get_dinode (iupdated sb ip V (IBLOCK (inum ip2) sb)) (dinode_off (inum ip2)) ip2 =
  get_dinode (V (IBLOCK (inum ip2) sb)) (dinode_off (inum ip2)) ip2.
Proof using Hfs Hn.
  intros Hl Hn2 Hne. pose proof (iblock_range _ _ _ Hfs Hn) as Hr. pose proof (fs_ok_bmap _ _ Hfs). unfold iupdated.
  destruct (decide (IBLOCK (inum ip2) sb = IBLOCK (inum ip) sb)) as [E|E]; [|by rewrite fn_lookup_insert_ne].
  rewrite E, fn_lookup_insert. apply get_put_dinode_other; [apply (fo_block _ _ Hfs); lia|done|].
  intros Em. apply Hne. unfold IBLOCK, u32 in E. pose proof (fo_geometry _ _ Hfs) as (H1 & H2 & H3 & H4). unfold IPB, FSSIZE in *.
  assert (inum ip2 / 8 <= sb_ninodes sb / 8) by (apply Z.div_le_mono; lia).
  assert (inum ip / 8 <= sb_ninodes sb / 8) by (apply Z.div_le_mono; lia).
  pose proof (Z.div_pos (inum ip) 8). pose proof (Z.div_pos (inum ip2) 8).
  rewrite !Z.mod_small in E by lia. rewrite (Z.div_mod (inum ip2) 8), (Z.div_mod (inum ip) 8) by lia. lia.
Qed.
End iupdated.

(** ** The effect of a write *)
Record rewritten (sb : superblock) (off : Z) (src : list Z) (V : Z -> list Z) (ip : inode)
    (V' : Z -> list Z) (ip' : inode) : Prop := {
  rw_fs : fs_ok V' sb;
  rw_file : file_state V' sb ip';
  rw_contents : contents V' ip' = splice (contents V ip) (Z.to_nat off) src;
  rw_inode : ip' = ip <| addrs := addrs ip' |> <| isize := Z.max (isize ip) (off + Z.of_nat (length src)) |>;
  rw_free : free_blocks V' sb ⊆ free_blocks V sb;
  rw_ptr m : in_file V ip m -> in_file V' ip' m;
  rw_kept m : m ∈ free_blocks V sb -> m ∉ free_blocks V' sb -> in_file V' ip' m;
  rw_others ip2 : file_state V sb ip2 -> inum ip2 <> inum ip -> disjoint_files V ip ip2 ->
    file_state V' sb ip2 /\ contents V' ip2 = contents V ip2 /\ disjoint_files V' ip' ip2;
}.

Lemma contents_length V ip : length (contents V ip) = Z.to_nat (isize ip).
Proof. unfold contents. by rewrite length_fmap, length_seqZ. Qed.

Lemma contents_lookup V ip t : (t < Z.to_nat (isize ip))%nat -> contents V ip !! t = Some (byte V ip (Z.of_nat t)).
Proof. intros Ht. unfold contents. rewrite list_lookup_fmap, lookup_seqZ_lt by lia. done. Qed.

(** A list given by its length and elements is the splice. *)
Lemma splice_eq (l c src : list Z) (o : nat) :
  (o <= length c)%nat -> length l = Nat.max (length c) (o + length src) ->
  (forall t, (o <= t < o + length src)%nat -> l !! t = src !! (t - o)%nat) ->
  (forall t, (t < o \/ o + length src <= t)%nat -> (t < length c)%nat -> l !! t = c !! t) ->
  l = splice c o src.
Proof.
  intros Ho Hl Hin Hout. apply list_eq. intros t. unfold splice.
  assert (length (take o c) = o) as Ht by (rewrite length_take; lia).
  destruct (decide (t < o)%nat); [rewrite lookup_app_l, lookup_take_lt by lia; apply Hout; lia|].
  rewrite lookup_app_r, Ht by lia. destruct (decide (t < o + length src)%nat).
  - rewrite lookup_app_l by lia. apply Hin. lia.
  - rewrite lookup_app_r, lookup_drop by lia. replace (o + length src + (t - o - length src))%nat with t by lia.
    destruct (decide (t < length c)%nat); [apply Hout; lia|]. rewrite !lookup_ge_None_2 by lia. done.
Qed.

Section effect.
Context (sb : superblock) (off : Z) (src : list Z) (V : Z -> list Z) (ip : inode) (V' : Z -> list Z) (ip' : inode).
Context (Hfs : fs_ok V sb) (Hst : file_state V sb ip) (Hoff : 0 <= off <= isize ip).
Context (Hmax : off + Z.of_nat (length src) <= MAXFILE * BLK) (Hwr : written sb off src V ip V' ip').

Lemma old_ptr o : 0 <= o < isize ip -> ptr V ip (o / BLK) <> 0.
Proof using Hst.
  clear -Hst. intros Ho. apply (fs_whole _ _ _ Hst); [apply Z.div_pos; unfold BSIZE; lia|unfold BSIZE in *; dlia].
Qed.

(** The bytes of the file, for the size it then has. *)
Lemma written_contents V'' ip'' :
  isize ip'' = Z.max (isize ip) (off + Z.of_nat (length src)) ->
  (forall o, 0 <= o < isize ip'' -> byte V'' ip'' o = byte V' ip' o) ->
  contents V'' ip'' = splice (contents V ip) (Z.to_nat off) src.
Proof using Hst Hoff Hmax Hwr.
  intros Hsz Hby. destruct (fs_whole _ _ _ Hst) as [Hs _]. apply splice_eq; rewrite ?contents_length; try lia.
  - intros t Ht. rewrite contents_lookup, Hby by lia. destruct (wr_new _ _ _ _ _ _ _ Hwr (Z.of_nat t)) as [-> _]; [lia|].
    rewrite (list_lookup_lookup_total_lt src) by lia. do 2 f_equal. lia.
  - intros t Ht Hl. rewrite !contents_lookup, Hby by lia. f_equal. apply (wr_old _ _ _ _ _ _ _ Hwr); [lia..|]. apply old_ptr. lia.
Qed.

Lemma written_inside : off + Z.of_nat (length src) <= isize ip -> ip' = ip /\ rewritten sb off src V ip V' ip'.
Proof using All.
  intros Hin. pose proof (wr_ext _ _ _ _ _ _ _ Hwr) as Hex.
  assert (ip' = ip) as E by (apply (wr_there _ _ _ _ _ _ _ Hwr); intros o Ho; apply old_ptr; lia).
  split; [done|]. split; try apply Hex.
  - rewrite E. apply (file_state_change V); [done|rewrite <- E; apply Hex| |].
    + destruct (fs_whole _ _ _ Hst) as [Hs Hw]. split; [done|]. intros j H0 Hj. specialize (Hw j H0 Hj). rewrite <- E.
      rewrite (ex_ptr _ _ _ _ _ Hex); [done| |done]. unfold MAXFILE, NINDIRECT, NDIRECT, BSIZE in *. lia.
    + rewrite (extends_iblock _ _ _ _ _ _ Hfs Hex) by apply (fs_inum _ _ _ Hst). apply (fs_disk _ _ _ Hst).
  - rewrite E. apply written_contents; [lia|]. by rewrite E.
  - rewrite E, Z.max_l by lia. by destruct ip.
  - intros m Hm. by apply (extends_in_file _ _ _ _ _ _ Hex).
  - intros ip2 H2 Hne Hdis. destruct (extends_others _ _ _ _ _ ip2 Hfs Hex (fs_file _ _ _ H2) Hdis) as (Hsame & Hnf & Hdis').
    split_and!; [|by apply apart_contents, H2|done]. apply (file_state_change V); [done|..].
    + by apply (apart_file_ok sb V); [apply H2|..].
    + by apply (apart_whole V), H2.
    + rewrite (extends_iblock _ _ _ _ _ _ Hfs Hex) by apply (fs_inum _ _ _ H2). apply (fs_disk _ _ _ H2).
Qed.

Lemma written_beyond : isize ip < off + Z.of_nat (length src) ->
  let ip'' := ip' <| isize := off + Z.of_nat (length src) |> in rewritten sb off src V ip (iupdated sb ip'' V') ip''.
Proof using All.
  intros Hout ip''. pose proof (wr_ext _ _ _ _ _ _ _ Hwr) as Hex. pose proof (ex_fs _ _ _ _ _ Hex) as Hfs'.
  pose proof (ex_ip _ _ _ _ _ Hex) as Eip. pose proof (ex_file _ _ _ _ _ Hex) as Hfi'.
  assert (inum ip'' = inum ip /\ idev ip'' = 1) as [En Ed] by (unfold ip''; rewrite Eip; split; [done|apply (fs_dev _ _ _ Hst)]).
  assert (0 <= inum ip'' < sb_ninodes sb) as Hn by (rewrite En; apply (fs_inum _ _ _ Hst)).
  set (V'' := iupdated sb ip'' V').
  assert (file_ok V' sb ip'') as Hfi'' by (destruct Hfi'; split; done).
  assert (forall m, in_file V' ip'' m -> V'' m = V' m) as Hsame by (intros m Hm; by apply (iupdated_file sb V' ip'' Hfs' Hn ip'')).
  assert (free_blocks V'' sb = free_blocks V' sb) as Ef by (by apply iupdated_free).
  assert (forall j, 0 <= j -> j * BLK < isize ip'' -> ptr V' ip' j <> 0) as Hptr.
  { intros j Hj Hl. unfold ip'' in Hl. simpl in Hl. destruct (decide (j * BLK < isize ip)) as [Hlt|Hge].
    - pose proof (fs_whole _ _ _ Hst) as [Hs Hw]. specialize (Hw j Hj Hlt).
      rewrite (ex_ptr _ _ _ _ _ Hex); [done| |done]. unfold MAXFILE, NINDIRECT, NDIRECT, BSIZE in *. lia.
    - destruct (wr_new _ _ _ _ _ _ _ Hwr (j * BLK)) as [_ Hp]; [lia|]. by rewrite Z.div_mul in Hp by (unfold BSIZE; lia). }
  assert (whole V' ip'') as Hw' by (split; [unfold ip''; simpl; lia|exact Hptr]).
  assert (dinode_ok ip'') as Hdi.
  { destruct (fs_fields _ _ _ Hst) as (Hf & _). split; [|split; [unfold ip''; simpl; unfold MAXFILE, NINDIRECT, NDIRECT, BSIZE in *; lia|]].
    - unfold ip''. rewrite Eip. simpl. done.
    - by apply (addrs_range V' sb). }
  split.
  - by apply iupdated_fs_ok.
  - split; try done.
    + apply (apart_file_ok sb V'); [done..|]. intros m Hm. rewrite Ef. by apply (in_file_range V' sb ip'').
    + by apply (apart_whole V').
    + by apply iupdated_same.
  - apply written_contents; [unfold ip''; simpl; lia|]. intros o Ho. rewrite (apart_byte V' V'' ip'' Hsame); [done|unfold ip'' in Ho; simpl in Ho; lia|].
    apply (Hptr (o / BLK)); [apply Z.div_pos; unfold BSIZE; lia|unfold BSIZE in *; dlia].
  - unfold ip''. simpl. rewrite Z.max_r by lia. rewrite Eip. by destruct ip.
  - rewrite Ef. apply Hex.
  - intros m Hm. apply (apart_in_file V' V'' ip'' Hsame). by apply (extends_in_file _ _ _ _ _ _ Hex).
  - intros m Hm. rewrite Ef. intros Hm'. apply (apart_in_file V' V'' ip'' Hsame). by apply (ex_kept _ _ _ _ _ Hex).
  - intros ip2 H2 Hne Hdis. destruct (extends_others _ _ _ _ _ ip2 Hfs Hex (fs_file _ _ _ H2) Hdis) as (Hsame2 & Hnf & Hdis').
    assert (file_ok V' sb ip2) as Hfi2 by (by apply (apart_file_ok sb V); [apply H2|..]).
    assert (forall m, in_file V' ip2 m -> V'' m = V' m) as Hsame3 by (intros m Hm; by apply (iupdated_file sb V' ip'' Hfs' Hn ip2)).
    split_and!.
    + apply (file_state_change V); [done|..].
      * apply (apart_file_ok sb V'); [done..|]. intros m Hm. rewrite Ef. by apply (in_file_range V' sb ip2).
      * apply (apart_whole V'); [done|]. by apply (apart_whole V), H2.
      * unfold V''. rewrite iupdated_other; [|done|done|apply Hfi''|apply H2|by rewrite En].
        rewrite (extends_iblock _ _ _ _ _ _ Hfs Hex) by apply (fs_inum _ _ _ H2). apply (fs_disk _ _ _ H2).
    + rewrite (apart_contents V' V'' ip2 Hsame3); [|by apply (apart_whole V), H2]. by apply apart_contents, H2.
    + intros m Hm Hm2. apply (apart_in_file V' V'' ip'' Hsame) in Hm. apply (apart_in_file V' V'' ip2 Hsame3) in Hm2. by apply (Hdis' m).
Qed.
End effect.

Section io.
Context {D : BlockDriver} {DL : BlockDriverLaws D} {DS : DevSw} (fuel : nat) (Hfuel : (0 < fuel)%nat) (k0 : kernel) (i s : nat).
Abbreviation txn := (txn k0 i).
Abbreviation cap := (log_cap k0).

(** [bmap] of a block that is there only reads. *)
Lemma bmap_there bn P V F k :
  let ip := icache F !!! s in let sb := ksb F in
  txn [] P V F k -> fs_ok V sb -> file_ok V sb ip -> idev ip = 1 -> (size P < NBUF)%nat ->
  0 <= bn < MAXFILE -> ptr V ip bn <> 0 ->
  returns (alone idle (bmap fuel s bn k)) (fun a k' => a = ptr V ip bn /\ txn [] P V F k').
Proof using DL Hfuel.
  intros ip sb H Hfs Hfi Hdev Hs Hbn Hn. unfold bmap. kunfold. cbn [obind]. unfold inode_at.
  rewrite (tx_fsys _ _ _ _ _ _ _ H). fold ip. destruct (Z.ltb_spec bn (Z.of_nat NDIRECT)) as [Hd|Hd].
  - assert (ptr V ip bn = addrs ip !!! Z.to_nat bn) as <- by (unfold ptr; by rewrite (proj2 (Z.ltb_lt bn _)) by lia).
    rewrite (proj2 (Z.eqb_neq _ 0)) by done. by apply alone_returns.
  - rewrite (proj2 (Z.ltb_lt _ _)) by (unfold MAXFILE in *; lia).
    assert (ptr V ip bn = if indirect ip =? 0 then 0 else word_at (V (indirect ip)) (Z.to_nat (4 * (bn - Z.of_nat NDIRECT)))) as E.
    { unfold ptr. by rewrite (proj2 (Z.ltb_ge bn _)), (proj2 (Z.eqb_neq bn _)) by lia. }
    destruct (Z.eqb_spec (indirect ip) 0) as [|Hi]; [done|]. cbn [obind]. rewrite Hdev.
    destruct (fi_ptr _ _ _ Hfi MAXFILE ltac:(done) Hi) as [Hri _]. rewrite ptr_indirect in Hri.
    pose proof (fo_geometry _ _ Hfs) as (_ & _ & _ & Hsz).
    apply (tx_read_block fuel k0 i [] P V F k (indirect ip) Hfuel H); [lia|set_solver|simpl; lia|].
    intros bp k1 H1 Hd1. cbn [obind]. rewrite Hd1, <- E, (proj2 (Z.eqb_neq _ 0)) by done. cbn [obind].
    apply (tx_release k0 i _ _ _ _ _ _ _ H1). intros k2 H2. by apply alone_returns.
Qed.

Lemma readi_loop_spec P V F : let ip := icache F !!! s in let sb := ksb F in
  fs_ok V sb -> file_ok V sb ip -> idev ip = 1 -> (size P < NBUF)%nat ->
  forall left off n k, txn [] P V F k -> 0 <= off -> 0 <= n -> off + n <= MAXFILE * BLK ->
  (0 < n -> off mod BLK + n <= Z.of_nat left * BLK) ->
  (forall o, off <= o < off + n -> ptr V ip (o / BLK) <> 0) ->
  returns (alone idle (readi_loop fuel left s off n k)) (fun l k' =>
    l = byte V ip <$> seqZ off n /\ txn [] P V F k').
Proof using DL Hfuel.
  intros ip sb Hfs Hfi Hdev HP. induction left as [|left IH]; intros off n k H Ho Hn Hmax Hleft Hptr; cbn [readi_loop];
    destruct (Z.ltb_spec 0 n) as [Hpos|Hz]; pose proof (Z.mod_pos_bound off BLK ltac:(unfold BSIZE; lia)) as Hb; [lia| | |];
    try (replace n with 0 by lia; by apply alone_returns).
  set (m := Z.min n (BLK - off mod BLK)). kunfold. cbn [obind]. unfold inode_at. rewrite (tx_fsys _ _ _ _ _ _ _ H). fold ip. rewrite Hdev.
  assert (0 <= off / BLK < MAXFILE) as Hbn by (apply blk_div; lia).
  assert (ptr V ip (off / BLK) <> 0) as Hp by (apply Hptr; lia).
  destruct (fi_ptr _ _ _ Hfi (off / BLK) ltac:(lia) Hp) as [Hr _]. pose proof (fo_geometry _ _ Hfs) as (_ & _ & _ & Hsz).
  pose proof (fs_ok_bmap _ _ Hfs) as Hbm.
  eapply alone_bind; [by apply (bmap_there _ P V F k H Hfs Hfi Hdev HP Hbn Hp)|]. intros a k1 [-> H1]. fold ip.
  apply (tx_read_block fuel k0 i [] P V F k1 _ Hfuel H1); [lia|set_solver|simpl; lia|].
  intros bp k2 H2 Hd. cbn [obind]. rewrite Hd. apply (tx_release k0 i _ _ _ _ _ _ _ H2). intros k3 H3.
  eapply alone_bind.
  - apply (IH (off + m) (n - m) k3 H3); try lia.
    + intros Hnm. by apply next_piece.
    + intros o Hoo. apply Hptr. lia.
  - intros l k4 [-> H4]. apply alone_returns. cbn [returns]. split; [|done].
    rewrite piece_bytes; [|lia|lia|apply (fo_block _ _ Hfs); fold sb; lia].
    rewrite (seqZ_split off m n), fmap_app by lia. done.
Qed.

Lemma writei_loop_spec left : forall nb off src P V F k,
  let ip := icache F !!! s in let sb := ksb F in
  txn [] P V F k -> fs_ok V sb -> file_ok V sb ip -> idev ip = 1 -> (s < length (icache F))%nat ->
  0 <= off -> off + Z.of_nat (length src) <= MAXFILE * BLK -> Forall (fun x => 0 <= x < 256) src ->
  (0 < Z.of_nat (length src) -> off mod BLK + Z.of_nat (length src) <= Z.of_nat nb * BLK) -> (nb <= left)%nat ->
  Z.of_nat nb + 1 <= slack V sb ip -> load P sb ip + Z.of_nat nb < cap ->
  returns (alone idle (writei_loop fuel left s off src k)) (fun off' k' => exists V' ip' P',
    off' = off + Z.of_nat (length src) /\ txn [] P' V' (put_inode s ip' F) k' /\
    written sb off src V ip V' ip' /\ load P' sb ip' <= load P sb ip + Z.of_nat nb /\
    slack V sb ip - Z.of_nat nb <= slack V' sb ip' /\ (P <> ∅ \/ src <> [] -> P' <> ∅) /\
    forall n, n ∈ P' -> n ∈ P \/ sb_bmapstart sb <= n < sb_size sb).
Proof using DL Hfuel.
  induction left as [|left IH]; intros nb off src P V F k ip sb H Hfs Hfi Hdev Hs Ho Hmax Hsrc Hnb Hle Hsl Hld;
    pose proof (Z.mod_pos_bound off BLK ltac:(unfold BSIZE; lia)) as Hb.
  { destruct src as [|x src]; [|simpl in Hnb; lia]. apply alone_returns. exists V, ip, P. simpl.
    split; [lia|]. split; [by unfold ip; rewrite put_inode_same|]. split; [by apply written_nil|]. split_and!; [lia|lia|by intros [?|?]|by left]. }
  destruct (decide (src = [])) as [->|Hne].
  { apply alone_returns. exists V, ip, P. simpl.
    split; [lia|]. split; [by unfold ip; rewrite put_inode_same|]. split; [by apply written_nil|]. split_and!; [lia|lia|by intros [?|?]|by left]. }
  assert (0 < Z.of_nat (length src)) as Hpos by (destruct src; [done|simpl; lia]).
  assert (writei_loop fuel (S left) s off src = (
    ip ← gets (fun k => inode_at k s) ;
    addr ← bmap fuel s (off / BLK) ;
    bp ← bread fuel (idev ip) addr ;
    let m := Z.min (Z.of_nat (length src)) (BLK - off mod BLK) in
    set_data bp (fun d => splice d (Z.to_nat (off mod BLK)) (take (Z.to_nat m) src)) ;;
    log_write bp ;;
    brelse bp ;;
    writei_loop fuel left s (off + m) (drop (Z.to_nat m) src))) as -> by (by destruct src).
  destruct nb as [|nb]; [simpl in Hnb; lia|].
  unfold gets at 1. unfold mbind at 1, K_bind at 1. cbn [obind]. unfold inode_at. rewrite (tx_fsys _ _ _ _ _ _ _ H). fold ip. rewrite Hdev.
  set (m := Z.min _ _). assert (0 <= off / BLK < MAXFILE) as Hbn by (apply blk_div; lia).
  eapply alone_bind; [apply (bmap_spec fuel Hfuel k0 i s (off / BLK) P V F k H Hfs Hfi Hdev Hs Hbn); fold ip sb; lia|].
  intros a k1 (V1 & ip1 & P1 & H1 & Hmp & Hsp). fold ip sb in Hmp, Hsp.
  pose proof (mp_ext _ _ _ _ _ _ _ Hmp) as Hex. pose proof (mp_ptr _ _ _ _ _ _ _ Hmp) as Hp.
  pose proof (mp_some _ _ _ _ _ _ _ Hmp) as Ha. pose proof (ex_fs _ _ _ _ _ Hex) as Hfs1. pose proof (ex_file _ _ _ _ _ Hex) as Hfi1.
  rewrite <- Hp in Ha. destruct (fi_ptr _ _ _ Hfi1 (off / BLK) ltac:(lia) Ha) as [Hr _]. rewrite Hp in Hr, Ha.
  pose proof (fo_geometry _ _ Hfs) as (_ & _ & _ & Hsz). pose proof (fs_ok_bmap _ _ Hfs) as Hbm.
  pose proof (sp_load _ _ _ _ _ _ _ _ Hsp) as Hl1. pose proof (sp_slack _ _ _ _ _ _ _ _ Hsp) as Hs1.
  assert (fits k0 P1) as Hfit1.
  { unfold fits. unfold load in Hl1 at 1.
    assert (size P1 <= size ({[sb_bmapstart sb]} ∪ ({[a]} ∪ P1)))%nat by (apply subseteq_size; set_solver). case_bool_decide; lia. }
  apply (tx_read_block fuel k0 i [] P1 V1 _ k1 a Hfuel H1); [lia|set_solver|by apply (fits_room k0); [|simpl; lia]|].
  intros bp k2 H2 Hd. apply (tx_update k0 i _ _ _ _ k2 bp a
    (fun d => splice d (Z.to_nat (off mod BLK)) (take (Z.to_nat m) src)) H2); [apply list_elem_of_here|done|].
  intros k3 H3. apply (tx_release k0 i _ _ _ _ _ _ _ H3). intros k4 H4.
  set (d := splice (V1 a) (Z.to_nat (off mod BLK)) (take (Z.to_nat m) src)) in *.
  assert (is_block d) as Hdb.
  { apply splice_block; [apply (fo_block _ _ Hfs1); lia|rewrite length_take; lia|by apply Forall_take]. }
  pose proof (extends_data sb V1 ip1 (off / BLK) d Hfs1 Hfi1 Hbn ltac:(by rewrite Hp) Hdb) as Hex2. rewrite Hp in Hex2.
  assert (icache (put_inode s ip1 F) !!! s = ip1) as Eip by (by apply put_inode_at).
  pose proof (IH nb (off + m) (drop (Z.to_nat m) src) _ _ (put_inode s ip1 F) k4 H4) as He.
  cbv zeta in He. rewrite Eip in He. change (ksb (put_inode s ip1 F)) with sb in He. rewrite length_drop in He.
  assert (slack (<[a := d]> V1) sb ip1 = slack V1 sb ip1) as Esl by (unfold slack; by rewrite free_insert by lia).
  eapply returns_mono; [apply He|].
  - apply Hex2.
  - apply Hex2.
  - rewrite (ex_ip _ _ _ _ _ Hex). done.
  - unfold put_inode. simpl. by rewrite length_alter.
  - lia.
  - lia.
  - by apply Forall_drop.
  - replace (Z.of_nat (length src - Z.to_nat m)) with (Z.of_nat (length src) - m) by lia. intros Hlt. by apply next_piece.
  - lia.
  - rewrite Esl. lia.
  - lia.
  - intros off' k' (V' & ip' & P' & -> & Hk' & Hw & Hl' & Hrest). exists V', ip', P'. rewrite put_put_inode in Hk'.
    split; [lia|]. split; [done|]. destruct Hrest as (Hs' & Hne' & Hlg').
    split; [eapply (written_cons sb off src m V ip a V1 ip1); done || lia|].
    split_and!; [lia|rewrite Esl in Hs'; lia|intros _; apply Hne'; left; set_solver|].
    intros n Hin. destruct (Hlg' n Hin) as [Hin'|]; [|by right].
    assert (n = a \/ n ∈ P1) as [->|Hin1] by set_solver; [right; lia|]. by apply (sp_logged _ _ _ _ _ _ _ _ Hsp).
Qed.

Lemma iupdate_spec P V F k :
  let ip := icache F !!! s in let sb := ksb F in
  txn [] P V F k -> fs_ok V sb -> idev ip = 1 -> 0 <= inum ip < sb_ninodes sb -> fits k0 P ->
  returns (alone idle (iupdate fuel s k)) (fun _ k' =>
    txn [] ({[IBLOCK (inum ip) sb]} ∪ P) (iupdated sb ip V) F k').
Proof using DL Hfuel.
  intros ip sb H Hfs Hdev Hn Hf. pose proof (iblock_range _ _ _ Hfs Hn) as Hr. pose proof (fo_geometry _ _ Hfs) as (_ & _ & _ & Hsz).
  unfold iupdate, getsb. kunfold. cbn [obind]. unfold inode_at. rewrite (tx_fsys _ _ _ _ _ _ _ H). fold ip sb. rewrite Hdev.
  apply (tx_read_block fuel k0 i [] P V F k (IBLOCK (inum ip) sb) Hfuel H); [lia|set_solver|by apply (fits_room k0); [|simpl; lia]|].
  intros bp k1 H1 _. cbn [obind]. rewrite (tx_fsys _ _ _ _ _ _ _ H1). fold ip.
  apply (tx_update k0 i _ _ _ _ k1 bp (IBLOCK (inum ip) sb) (fun d => put_dinode d (dinode_off (inum ip)) ip) H1);
    [apply list_elem_of_here|done|].
  intros k2 H2. by apply alone_returns, (tx_brelse k0 i _ _ _ _ _ _ _ H2).
Qed.
End io.

(** ** [readi] and [writei] *)
Section calls.
Context {D : BlockDriver} {DL : BlockDriverLaws D} {DS : DevSw}.

Lemma take_contents V ip off n : 0 <= off -> 0 <= n -> off + n <= isize ip ->
  take (Z.to_nat n) (drop (Z.to_nat off) (contents V ip)) = byte V ip <$> seqZ off n.
Proof.
  intros Ho Hn Hs. unfold contents. rewrite (seqZ_split 0 off (isize ip)), (seqZ_split (0 + off) n (isize ip - off)) by lia.
  rewrite !fmap_app, drop_app_length' by (rewrite length_fmap, length_seqZ; lia).
  rewrite take_app_length' by (rewrite length_fmap, length_seqZ; lia). by rewrite Z.add_0_l.
Qed.

Lemma nblocks_enough off n : 0 <= off -> 0 <= n -> 0 < n -> off mod BLK + n <= Z.of_nat (nblocks n) * BLK.
Proof. intros Ho Hn Hp. unfold nblocks, BSIZE. dlia. Qed.

(** C4. [readi] on a file delivers exactly the bytes of the file from the offset on, as many as
    asked for and there are, and changes neither the file system nor its tables; an
    offset beyond the end, or a count with which the offset overflows, gives -1. *)
Theorem readi_reads_contents fuel me s P V F k off n :
  let ip := icache F !!! s in let sb := ksb F in
  (0 < fuel)%nat -> txn k me [] P V F k -> fs_ok V sb -> file_state V sb ip -> itype ip <> T_DEV ->
  (size P < NBUF)%nat -> 0 <= off < 2 ^ 32 -> 0 <= n < 2 ^ 32 ->
  returns (alone idle (readi fuel s off n k)) (fun r k' => txn k me [] P V F k' /\
    r = if (isize ip <? off) || (2 ^ 32 <=? off + n) then (-1, [])
        else let l := take (Z.to_nat n) (drop (Z.to_nat off) (contents V ip)) in (Z.of_nat (length l), l)).
Proof using DL.
  intros ip sb Hfu H Hfs Hst Hty HP Ho Hn. unfold readi. kunfold. cbn [obind]. unfold inode_at.
  rewrite (tx_fsys _ _ _ _ _ _ _ H). fold ip. rewrite (proj2 (Z.eqb_neq _ _) Hty).
  destruct (fs_whole _ _ _ Hst) as [Hsz Hw].
  destruct (Z.ltb_spec (isize ip) off) as [|Hle]; cbn [orb]; [by apply alone_returns|].
  assert (isize ip < 2 ^ 32) as Hs32 by (unfold MAXFILE, NINDIRECT, NDIRECT, BSIZE in Hsz; lia).
  destruct (Z.leb_spec (2 ^ 32) (off + n)) as [Hov|Hov].
  { unfold u32. replace ((off + n) mod 2 ^ 32) with (off + n - 2 ^ 32) by dlia.
    rewrite (proj2 (Z.ltb_lt _ _)) by lia. by apply alone_returns. }
  unfold u32. rewrite Z.mod_small, (proj2 (Z.ltb_ge (off + n) off)) by lia.
  set (n' := if isize ip <? off + n then isize ip - off else n).
  assert (n' = Z.min n (isize ip - off)) as En by (unfold n'; destruct (Z.ltb_spec (isize ip) (off + n)); lia).
  eapply alone_bind.
  - apply (readi_loop_spec fuel Hfu k me s P V F Hfs (fs_file _ _ _ Hst) (fs_dev _ _ _ Hst) HP (nblocks n') off n' k H); fold ip; try lia.
    + intros Hp. apply nblocks_enough; lia.
    + intros o Hoo. apply Hw; [apply Z.div_pos; unfold BSIZE; lia|unfold BSIZE in *; dlia].
  - intros l k1 [-> H1]. apply alone_returns. cbn [returns]. split; [done|]. fold ip. rewrite <- (take_contents V ip off n') by lia.
    assert (take (Z.to_nat n) (drop (Z.to_nat off) (contents V ip)) = take (Z.to_nat n') (drop (Z.to_nat off) (contents V ip))) as ->.
    { destruct (decide (n <= isize ip - off)); [by replace n' with n by lia|].
      rewrite !take_ge by (rewrite length_drop, contents_length; lia). done. }
    f_equal. rewrite length_take, length_drop, contents_length. lia.
Qed.

(** The blocks a write touches. *)
Definition touched (off n : Z) : Z := (off mod BLK + n + BLK - 1) / BLK.

Lemma writei_spec k0 fuel me s P V F k src off :
  let ip := icache F !!! s in let sb := ksb F in let n := Z.of_nat (length src) in
  (0 < fuel)%nat -> txn k0 me [] P V F k -> fs_ok V sb -> file_state V sb ip -> itype ip <> T_DEV ->
  (s < length (icache F))%nat -> 0 <= off < 2 ^ 32 -> n < 2 ^ 32 -> Forall (fun x => 0 <= x < 256) src ->
  touched off n < slack V sb ip -> load P sb ip + touched off n < log_cap k0 ->
  returns (alone idle (writei fuel s src off k)) (fun r k' =>
    if (isize ip <? off) || (MAXFILE * BLK <? off + n) then r = -1 /\ txn k0 me [] P V F k'
    else r = n /\ exists V' ip' P', txn k0 me [] P' V' (put_inode s ip' F) k' /\ rewritten sb off src V ip V' ip' /\
      (0 < n -> P' <> ∅) /\ Z.of_nat (size P') <= log_cap k0 /\ slack V sb ip - touched off n <= slack V' sb ip' /\
      forall m, m ∈ P' -> m ∈ P \/ sb_inodestart sb <= m < sb_size sb).
Proof using DL.
  intros ip sb n Hfu H Hfs Hst Hty Hs Ho Hn Hsrc Hsl Hld. unfold writei. kunfold. cbn [obind]. unfold inode_at.
  rewrite (tx_fsys _ _ _ _ _ _ _ H). fold ip n. rewrite (proj2 (Z.eqb_neq _ _) Hty).
  destruct (fs_whole _ _ _ Hst) as [Hsz _]. assert (MAXFILE * BLK = 71680) as EM by done.
  destruct (Z.ltb_spec (isize ip) off) as [|Hle]; cbn [orb]; [by apply alone_returns|].
  assert (0 <= n) as Hn0 by lia.
  destruct (Z.ltb_spec (MAXFILE * BLK) (off + n)) as [Hbig|Hfit].
  { unfold u32. destruct (decide (off + n < 2 ^ 32)) as [Hov|Hov].
    - rewrite Z.mod_small, (proj2 (Z.ltb_ge _ off)), (proj2 (Z.ltb_lt (MAXFILE * BLK) _)) by lia. by apply alone_returns.
    - replace ((off + n) mod 2 ^ 32) with (off + n - 2 ^ 32) by dlia. rewrite (proj2 (Z.ltb_lt _ _)) by lia. by apply alone_returns. }
  unfold u32. rewrite Z.mod_small, (proj2 (Z.ltb_ge _ off)), (proj2 (Z.ltb_ge (MAXFILE * BLK) _)) by lia.
  assert (0 <= touched off n) as Ht0 by (unfold touched, BSIZE in *; dlia).
  eapply alone_bind.
  { apply (writei_loop_spec fuel Hfu k0 me s (nblocks n) (Z.to_nat (touched off n)) off src P V F k H Hfs (fs_file _ _ _ Hst) (fs_dev _ _ _ Hst) Hs);
      fold ip sb n; try lia; try done.
    - intros Hp. unfold touched, BSIZE in *. dlia.
    - unfold touched, nblocks, BSIZE in *. dlia. }
  intros off' k1 (V1 & ip1 & P1 & -> & H1 & Hw & Hl1 & Hs1' & Hne1 & Hlg1). fold ip sb n in Hw, Hl1, Hs1', Hlg1 |- *. kunfold. cbn [obind].
  unfold inode_at. rewrite (tx_fsys _ _ _ _ _ _ _ H1), put_inode_at by done.
  assert (Z.of_nat (size P1) < log_cap k0) as Hf1.
  { unfold load in Hl1 at 1. assert (size P1 <= size ({[sb_bmapstart sb]} ∪ P1))%nat by (apply subseteq_size; set_solver).
    case_bool_decide; lia. }
  assert (isize ip1 = isize ip) as Es1 by (by rewrite (ex_ip _ _ _ _ _ (wr_ext _ _ _ _ _ _ _ Hw))). rewrite Es1.
  destruct ((0 <? n) && (isize ip <? off + n)) eqn:Eg.
  - apply andb_true_iff in Eg as [_ Eg]. apply Z.ltb_lt in Eg. unfold upd_inode. kunfold. cbn [obind].
    apply (tx_tables k0 me _ _ _ _ _ (upd icache (alter (fun ip => ip <| isize := off + n |>) s))) in H1.
    change (upd icache ?f (put_inode s ip1 F)) with (put_inode s ip1 F <| icache ::= f |>) in H1.
    assert (s < length (icache (put_inode s ip1 F)))%nat as Hs1 by (unfold put_inode; simpl; by rewrite length_alter).
    rewrite put_inode_upd, put_inode_at, put_put_inode in H1 by done.
    pose proof (written_beyond sb off src V ip V1 ip1 Hfs Hst ltac:(lia) ltac:(lia) Hw ltac:(lia)) as Hrw. cbv zeta in Hrw. fold n in Hrw.
    set (ip2 := ip1 <| isize := off + n |>) in *.
    assert (inum ip2 = inum ip /\ idev ip2 = 1) as [En Ed]
      by (unfold ip2; rewrite (ex_ip _ _ _ _ _ (wr_ext _ _ _ _ _ _ _ Hw)); split; [done|apply (fs_dev _ _ _ Hst)]).
    eapply alone_bind.
    { pose proof (iupdate_spec fuel Hfu k0 me s P1 V1 _ _ H1) as Hi. cbv zeta in Hi. rewrite put_inode_at in Hi by done. apply Hi.
      - apply Hw.
      - done.
      - rewrite En. apply (fs_inum _ _ _ Hst).
      - unfold fits. lia. }
    intros [] k2 H2. change (ksb (put_inode s ip2 F)) with sb in H2. apply alone_returns. split; [done|]. eexists _, ip2, _.
    split; [exact H2|]. split; [exact Hrw|]. split_and!; [intros _; set_solver| | |].
    + pose proof (size_add P1 (IBLOCK (inum ip2) sb)). lia.
    + assert (slack (iupdated sb ip2 V1) sb ip2 = slack V1 sb ip1) as ->; [|lia].
      unfold slack. rewrite iupdated_free; [done|apply Hw|rewrite En; apply (fs_inum _ _ _ Hst)].
    + intros m Hm. assert (m = IBLOCK (inum ip2) sb \/ m ∈ P1) as [->|Hm1] by set_solver.
      * right. rewrite En. pose proof (iblock_range _ _ _ Hfs (fs_inum _ _ _ Hst)). pose proof (fs_ok_bmap _ _ Hfs). lia.
      * destruct (Hlg1 m Hm1) as [|]; [by left|right]. pose proof (iblock_range _ _ _ Hfs (fs_inum _ _ _ Hst)). lia.
  - cbn [obind]. apply alone_returns. split; [done|]. exists V1, ip1, P1. split; [done|].
    split; [|split_and!; [intros Hp; apply Hne1; right; intros E; unfold n in Hp; by rewrite E in Hp|lia|lia|]].
    + apply andb_false_iff in Eg. apply (written_inside sb off src V ip V1 ip1 Hfs Hst); [lia|lia|done|].
      fold n. destruct Eg as [Eg|Eg]; apply Z.ltb_ge in Eg; lia.
    + intros m Hm. destruct (Hlg1 m Hm) as [|]; [by left|right]. pose proof (iblock_range _ _ _ Hfs (fs_inum _ _ _ Hst)). lia.
Qed.
(** C3. [writei] replaces the bytes of the file from the offset on by the given ones, extending
    it where they reach beyond its end. The inode on disk agrees with the cached one again,
    every block taken from the free map is now a block of the file, and all other files
    keep their blocks, their inodes and their contents. Nothing reaches the disk before the
    commit. A write beyond the end or beyond the largest size gives -1 and changes nothing. The
    log and the free map must have room for the blocks touched, the map and the indirect block. *)
Theorem writei_writes_contents fuel me s P V F k src off :
  let ip := icache F !!! s in let sb := ksb F in let n := Z.of_nat (length src) in
  (0 < fuel)%nat -> txn k me [] P V F k -> fs_ok V sb -> file_state V sb ip -> itype ip <> T_DEV ->
  (s < length (icache F))%nat -> 0 <= off < 2 ^ 32 -> n < 2 ^ 32 -> Forall (fun x => 0 <= x < 256) src ->
  touched off n < slack V sb ip -> load P sb ip + touched off n < log_cap k ->
  returns (alone idle (writei fuel s src off k)) (fun r k' =>
    if (isize ip <? off) || (MAXFILE * BLK <? off + n) then r = -1 /\ txn k me [] P V F k'
    else r = n /\ exists V' ip' P', txn k me [] P' V' (put_inode s ip' F) k' /\ rewritten sb off src V ip V' ip').
Proof using DL.
  intros ip sb n Hfu H Hfs Hst Hty Hs Ho Hn Hsrc Hsl Hld.
  eapply returns_mono; [by apply (writei_spec k fuel me s P V F k src off)|]. cbv zeta. fold ip sb n. intros r k'.
  destruct (_ || _); [done|]. intros (Hr & V' & ip' & P' & Htx & Hrw & _). split; [done|]. by exists V', ip', P'.
Qed.
End calls.

(** ** A file system with one file

    Inode 1 has one block, 59, with the bytes of "hi" and a newline. *)
Definition demo_sb : superblock := mkSuperblock 100 41 200 30 2 32 58.
Definition demo_ip : inode := mkInode 1 1 1 1 T_FILE 0 0 1 3 (59 :: replicate 12 0).
Definition demo_super : list Z :=
  set_word (set_word (set_word (set_word (set_word (set_word (set_word zeros 0 100) 4 41) 8 200) 12 30) 16 2) 20 32) 24 58.
Definition demo_disk (n : Z) : list Z :=
  if n =? 1 then demo_super
  else if n =? 32 then put_dinode zeros (dinode_off 1) demo_ip
  else if n =? 58 then replicate 7 255 ++ [15] ++ replicate 504 0
  else if n =? 59 then [104; 105; 10] ++ replicate 509 0
  else zeros.
Definition demo_fs : fsstate := mkFs [] [demo_ip] demo_sb false.
Definition demo_kernel : kernel :=
  cold_cache demo_disk <| fsys := demo_fs |> <| klog := mkLog 2 30 1 false 1 0 (replicate 30 0) |>.

Lemma demo_ptr j : 0 <= j <= MAXFILE -> ptr demo_disk demo_ip j = if decide (j = 0) then 59 else 0.
Proof.
  intros Hj. assert (Forall (fun j => ptr demo_disk demo_ip j = if decide (j = 0) then 59 else 0) (seqZ 0 141)) as H.
  { apply (bool_decide_unpack _). by vm_compute. }
  rewrite Forall_forall in H. apply H, elem_of_seqZ. unfold MAXFILE, NINDIRECT, NDIRECT in Hj. lia.
Qed.

Lemma demo_fs_ok : fs_ok demo_disk demo_sb.
Proof.
  split; [reflexivity|vm_compute; split_and!; done| |].
  - intros n _. unfold demo_disk. repeat (case_match; [split; [reflexivity|apply (bool_decide_unpack _); by vm_compute]|]).
    apply zeros_block.
  - intros b Hb. assert (Forall (fun b => bit_clear (demo_disk 58) b = false) (seqZ 0 59)) as H
      by (apply (bool_decide_unpack _); by vm_compute).
    rewrite Forall_forall in H. apply H, elem_of_seqZ. simpl in Hb. lia.
Qed.

Lemma demo_state : file_state demo_disk demo_sb demo_ip.
Proof.
  split; try done.
  - split; [done|intros j Hj|intros j j' Hj Hj']; rewrite !demo_ptr by done; repeat case_decide; try done; try congruence.
  - split; [done|]. intros j Hj Hl. simpl in Hl. assert (j = 0) as -> by (unfold BSIZE in Hl; lia). by rewrite demo_ptr.
  - repeat split; try done. apply (bool_decide_unpack _). by vm_compute.
Qed.

Lemma demo_txn : txn (D := ide) demo_kernel 3 [] ∅ demo_disk demo_fs demo_kernel.
Proof.
  destruct (cold_ok demo_disk) as ((Hs & Hdr & Hok) & _ & Hv). split; try done.
  - split; [by apply (solo_same 3 (cold_cache demo_disk))|]. split; [done|]. by apply (cache_ok_frame [] (cold_cache demo_disk)).
  - constructor.
  - intros b Hb. by rewrite (zero_bufs_at demo_kernel b).
Qed.

Lemma readi_reads_contents_witness :
  returns (alone ide_idle (readi (D := ide) (DS := Build_DevSw (fun _ => None) (fun _ => None)) 1 0 1 5 demo_kernel))
    (fun r _ => r = (2, [105; 10])).
Proof.
  eapply returns_mono.
  - apply (readi_reads_contents (D := ide) (DS := Build_DevSw (fun _ => None) (fun _ => None)) 1 3 0 ∅ demo_disk demo_fs demo_kernel 1 5).
    + lia.
    + apply demo_txn.
    + apply demo_fs_ok.
    + apply demo_state.
    + done.
    + apply Nat.ltb_lt. reflexivity.
    + lia.
    + lia.
  - intros r k' [_ ->]. by vm_compute.
Defined.

Lemma writei_writes_contents_witness :
  returns (alone ide_idle (writei (D := ide) (DS := Build_DevSw (fun _ => None) (fun _ => None)) 1 0 [111; 33; 10] 1 demo_kernel))
    (fun r k' => r = 3 /\ exists V' ip', (forall n, view k' n = V' n) /\ contents V' ip' = [104; 111; 33; 10]).
Proof.
  eapply returns_mono.
  - apply (writei_writes_contents (D := ide) (DS := Build_DevSw (fun _ => None) (fun _ => None)) 1 3 0 ∅ demo_disk demo_fs demo_kernel [111; 33; 10] 1).
    + lia.
    + apply demo_txn.
    + apply demo_fs_ok.
    + apply demo_state.
    + done.
    + simpl. lia.
    + lia.
    + simpl. lia.
    + repeat constructor; lia.
    + by vm_compute.
    + by vm_compute.
  - intros r k' H. destruct H as (Hr & V' & ip' & P' & Htx & Hrw). split; [exact Hr|]. exists V', ip'.
    split; [apply (tx_reads _ _ _ _ _ _ _ Htx)|]. rewrite (rw_contents _ _ _ _ _ _ _ Hrw). by vm_compute.
Defined.
