(* ===== verification/Console.v ===== *)
(** * Console: console input and output (console.c) and the keyboard (kbd.c, kbd.h)

    Formatting, the screen, the input line discipline, and the device of major number
    [CONSOLE] that file.c reaches through [devsw]. *)
From stdpp Require Import base list list_numbers gmap strings functions sorting.
From Stdlib Require Import ZArith Lia.
From S2P Require Import Prelude Mem Layout Machine Sched Sleeplock Disk Bio Log Fs.
Local Open Scope Z_scope.

Definition bytes_of (s : string) : list Z :=
  (fun c => Z.of_N (Ascii.N_of_ascii c)) <$> String.list_ascii_of_string s.

(** ** Formatting *)

(** [do buf[i++] = digits[x % base]; while((x /= base) != 0)] *)
Fixpoint digits_loop (left : nat) (x base : Z) : list Z :=
  let d := bytes_of "0123456789abcdef" !!! Z.to_nat (x mod base) in
  match left with
  | O => [d]
  | S left' => if x / base =? 0 then [d] else d :: digits_loop left' (x / base) base
  end.

(** The characters printed for an [int]; [None] if negating it overflows. *)
Definition printint (xx base : Z) (sign : bool) : option (list Z) :=
  let neg := sign && (xx <? 0) in
  if neg && (xx =? - 2 ^ 31) then None
  else
    let x := if neg then - xx else u32 xx in
    let buf := digits_loop 32 x base in
    Some (rev (if neg then buf ++ [45] else buf)).

(** An argument of [cprintf]: a word, or a pointer to a string. *)
Inductive carg := CInt (x : Z) | CStr (s : option (list Z)).

(** The characters [cprintf] prints; [None] if it runs out of arguments or is given a
    string for a number or the reverse. *)
Fixpoint cformat (fmt : list Z) (args : list carg) : option (list Z) :=
  match fmt with
  | [] => Some []
  | c :: fmt' =>
      if negb (c =? 37) then cons c <$> cformat fmt' args
      else
        match fmt' with
        | [] => Some []
        | c :: fmt'' =>
            if c =? 100 then
              match args with
              | CInt x :: args' => s ← printint x 10 true; rest ← cformat fmt'' args'; Some (s ++ rest)
              | _ => None
              end
            else if (c =? 120) || (c =? 112) then
              match args with
              | CInt x :: args' => s ← printint x 16 false; rest ← cformat fmt'' args'; Some (s ++ rest)
              | _ => None
              end
            else if c =? 115 then
              match args with
              | CStr s :: args' => rest ← cformat fmt'' args'; Some (default (bytes_of "(null)") s ++ rest)
              | _ => None
              end
            else if c =? 37 then cons 37 <$> cformat fmt'' args
            else (fun rest => 37 :: c :: rest) <$> cformat fmt'' args
        end
  end.

(** ** The screen *)
Definition BACKSPACE : Z := 256.

(** The cursor position and the cells of the CGA memory; [None] is the panic. *)
Definition cgaputc (c : Z) (s : Z * list Z) : option (Z * list Z) :=
  let '(pos, crt) := s in
  let '(pos, crt) :=
    if c =? 10 then (pos + (80 - pos mod 80), crt)
    else if c =? BACKSPACE then ((if 0 <? pos then pos - 1 else pos), crt)
    else (pos + 1, <[Z.to_nat pos := Z.lor (Z.land c 255) 1792]> crt) in
  if (pos <? 0) || (25 * 80 <? pos) then None
  else
    let '(pos, crt) :=
      if 24 <=? pos / 80 then
        let crt := take (23 * 80) (drop 80 crt) ++ drop (23 * 80) crt in
        let pos := pos - 80 in
        (pos, take (Z.to_nat pos) crt ++ replicate (Z.to_nat (24 * 80 - pos)) 0 ++ drop (24 * 80) crt)
      else (pos, crt) in
    Some (pos, <[Z.to_nat pos := Z.lor 32 1792]> crt).

(** What is sent to the serial port and the screen. *)
Definition consputc (c : Z) : K unit :=
  modify (fun k => k <| kcons ::= fun s => s <| conout ::= (fun o => o ++ [c]) |> |>).

(** ** Input *)
Definition upd_input (f : consstate -> consstate) : K unit := modify (fun k => k <| kcons ::= f |>).
Definition ctl (x : Z) : Z := x - 64.
Definition ibufsize : Z := Z.of_nat INPUT_BUF.

(** [while(input.e != input.w && input.buf[(input.e-1) % INPUT_BUF] != '\n')] *)
Fixpoint kill_line (left : nat) : K unit :=
  s ← gets kcons ;
  if negb (ie s =? iw s) && negb (ibuf s !!! Z.to_nat (u32 (ie s - 1) mod ibufsize) =? 10) then
    match left with
    | O => out_of_fuel
    | S left' =>
        upd_input (fun s => s <| ie ::= (fun e => u32 (e - 1)) |>) ;;
        consputc BACKSPACE ;;
        kill_line left'
    end
  else mret tt.

(** One character of [consoleintr]; true for [doprocdump = 1]. *)
Definition consoleintr_char (c : Z) : K bool :=
  if c =? ctl 80 then mret true
  else if c =? ctl 85 then
    s ← gets kcons ;
    kill_line (Z.to_nat (u32 (ie s - iw s))) ;; mret false
  else if (c =? ctl 72) || (c =? 127) then
    s ← gets kcons ;
    whenK (negb (ie s =? iw s)) (
      upd_input (fun s => s <| ie ::= (fun e => u32 (e - 1)) |>) ;;
      consputc BACKSPACE) ;;
    mret false
  else
    s ← gets kcons ;
    whenK (negb (c =? 0) && (u32 (ie s - ir s) <? ibufsize)) (
      let c := if c =? 13 then 10 else c in
      upd_input (fun s => s <| ibuf ::= <[Z.to_nat (ie s mod ibufsize) := u8 c]> |> <| ie := u32 (ie s + 1) |>) ;;
      consputc c ;;
      s ← gets kcons ;
      whenK ((c =? 10) || (c =? ctl 68) || (ie s =? u32 (ir s + ibufsize))) (
        upd_input (fun s => s <| iw := ie s |>) ;;
        wakeup ChanInput)) ;;
    mret false.

Fixpoint consoleintr_loop (cs : list Z) (dump : bool) : K bool :=
  match cs with
  | [] => mret dump
  | c :: cs' => d ← consoleintr_char c ; consoleintr_loop cs' (d || dump)
  end.

(** ** [procdump] (proc.c) and [getcallerpcs] (spinlock.c) *)
Fixpoint callerpcs_loop (left : nat) (m : memory) (ebp : Z) : list Z :=
  match left with
  | O => []
  | S left' =>
      if (ebp =? 0) || (ebp <? KERNBASE) || (ebp =? 2 ^ 32 - 1) then []
      else load32 m (ebp + 4) :: callerpcs_loop left' m (load32 m ebp)
  end.

(** The ten entries, zeros last. *)
Definition getcallerpcs (m : memory) (v : Z) : list Z :=
  let pcs := callerpcs_loop 10 m (u32 (v - 8)) in
  pcs ++ replicate (10 - length pcs) 0.

Definition states (s : procstate) : string :=
  match s with
  | UNUSED => "unused" | EMBRYO => "embryo" | SLEEPING => "sleep " | RUNNABLE => "runble"
  | RUNNING => "run   " | ZOMBIE => "zombie"
  end.

Fixpoint print_pcs (pcs : list Z) : K unit :=
  match pcs with
  | [] => mret tt
  | pc :: pcs' => if pc =? 0 then mret tt else cprintf " %p" [pc] ;; print_pcs pcs'
  end.

(** A string argument is listed by its bytes. *)
Fixpoint procdump_loop (ps : list proc) : K unit :=
  match ps with
  | [] => mret tt
  | p :: ps' =>
      whenK (negb (bool_decide (state p = UNUSED))) (
        cprintf "%d %s %s" (pid p :: bytes_of (states (state p)) ++ cstr (name p)) ;;
        whenK (bool_decide (state p = SLEEPING)) (
          m ← gets mem ;
          print_pcs (getcallerpcs m (u32 (ctx_ebp (context p) + 2 * 4)))) ;;
        cprintf "\n" []) ;;
      procdump_loop ps'
  end.

Definition procdump : K unit := ps ← gets ptable ; procdump_loop ps.

(** [cs] are the characters [getc] returns before a negative one. *)
Definition consoleintr (cs : list Z) : K unit :=
  acquire ConsLock ;;
  d ← consoleintr_loop cs false ;
  release ConsLock ;;
  whenK d procdump.

(** ** The device *)
Section device.
Context {D : BlockDriver} (fuel : nat).

(** [while(input.r == input.w)]; false if killed. *)
Fixpoint consoleread_wait (fuel : nat) : K bool :=
  s ← gets kcons ;
  if ir s =? iw s then
    i ← cur ;
    kd ← gets (fun k => killed (ptable k !!! i)) ;
    if negb (kd =? 0) then mret false
    else
      match fuel with
      | O => out_of_fuel
      | S fuel' => sleep ChanInput (Some ConsLock) ;; consoleread_wait fuel'
      end
  else mret true.

(** The loop with [left] bytes to go of [target]; [None] if killed. *)
Fixpoint consoleread_loop (left : nat) (target : nat) : K (option (list Z)) :=
  match left with
  | O => mret (Some [])
  | S left' =>
      ok ← consoleread_wait fuel ;
      if ok : bool then
        s ← gets kcons ;
        let c := ibuf s !!! Z.to_nat (ir s mod ibufsize) in
        upd_input (fun s => s <| ir ::= (fun r => u32 (r + 1)) |>) ;;
        if c =? ctl 68 then
          whenK (Nat.ltb left target) (upd_input (fun s => s <| ir ::= (fun r => u32 (r - 1)) |>)) ;;
          mret (Some [])
        else if c =? 10 then mret (Some [c])
        else
          rest ← consoleread_loop left' target ;
          mret (cons c <$> rest)
      else mret None
  end.

Definition consoleread (ip : nat) (n : Z) : K (Z * list Z) :=
  iunlock ip ;;
  acquire ConsLock ;;
  r ← consoleread_loop (Z.to_nat (s32 n)) (Z.to_nat (s32 n)) ;
  release ConsLock ;;
  ilock fuel ip ;;
  mret (match r with Some l => (Z.of_nat (length l), l) | None => (-1, []) end).

Fixpoint consolewrite_loop (buf : list Z) : K unit :=
  match buf with
  | [] => mret tt
  | c :: buf' => consputc (Z.land c 255) ;; consolewrite_loop buf'
  end.

Definition consolewrite (ip : nat) (buf : list Z) : K Z :=
  iunlock ip ;;
  acquire ConsLock ;;
  consolewrite_loop buf ;;
  release ConsLock ;;
  ilock fuel ip ;;
  mret (Z.of_nat (length buf)).

Definition CONSOLE : Z := 1.

(** The table [consoleinit] fills in. *)
Definition devsw : DevSw := {|
  dev_read n := if n =? CONSOLE then Some consoleread else None;
  dev_write n := if n =? CONSOLE then Some consolewrite else None;
|}.
End device.

(** ** The keyboard *)
Definition SHIFT : Z := 1.
Definition CTL : Z := 2.
Definition CAPSLOCK : Z := 8.
Definition E0ESC : Z := 64.

(** A C initialiser: the first elements, then designated ones; the rest are zero. *)
Definition table (l : list Z) (designated : list (Z * Z)) : list Z :=
  foldl (fun t x => <[Z.to_nat x.1 := u8 x.2]> t) ((u8 <$> l) ++ replicate (256 - length l) 0) designated.

Definition shiftcode : list Z :=
  table []
    [(29, 2); (42, 1); (54, 1); (56, 4); (157, 2); (184, 4)].
Definition togglecode : list Z :=
  table []
    [(58, 8); (69, 16); (70, 32)].
Definition normalmap : list Z :=
  table [0; 27; 49; 50; 51; 52; 53; 54; 55; 56; 57; 48; 45; 61; 8; 9;
   113; 119; 101; 114; 116; 121; 117; 105; 111; 112; 91; 93; 10; 0; 97; 115;
   100; 102; 103; 104; 106; 107; 108; 59; 39; 96; 0; 92; 122; 120; 99; 118;
   98; 110; 109; 44; 46; 47; 0; 42; 0; 32; 0; 0; 0; 0; 0; 0;
   0; 0; 0; 0; 0; 0; 0; 55; 56; 57; 45; 52; 53; 54; 43; 49;
   50; 51; 48; 46; 0; 0; 0; 0]
    [(156, 10); (181, 47); (200, 226); (208, 227); (201, 230); (209, 231); (203, 228); (205, 229); (151, 224); (207, 225); (210, 232); (211, 233)].
Definition shiftmap : list Z :=
  table [0; 27; 33; 64; 35; 36; 37; 94; 38; 42; 40; 41; 95; 43; 8; 9;
   81; 87; 69; 82; 84; 89; 85; 73; 79; 80; 123; 125; 10; 0; 65; 83;
   68; 70; 71; 72; 74; 75; 76; 58; 34; 126; 0; 124; 90; 88; 67; 86;
   66; 78; 77; 60; 62; 63; 0; 42; 0; 32; 0; 0; 0; 0; 0; 0;
   0; 0; 0; 0; 0; 0; 0; 55; 56; 57; 45; 52; 53; 54; 43; 49;
   50; 51; 48; 46; 0; 0; 0; 0]
    [(156, 10); (181, 47); (200, 226); (208, 227); (201, 230); (209, 231); (203, 228); (205, 229); (151, 224); (207, 225); (210, 232); (211, 233)].
Definition ctlmap : list Z :=
  table [0; 0; 0; 0; 0; 0; 0; 0; 0; 0; 0; 0; 0; 0; 0; 0;
   17; 23; 5; 18; 20; 25; 21; 9; 15; 16; 0; 0; 13; 0; 1; 19;
   4; 6; 7; 8; 10; 11; 12; 0; 0; 0; 0; 28; 26; 24; 3; 22;
   2; 14; 13; 0; 0; -17; 0; 0]
    [(156, 13); (181, -17); (200, 226); (208, 227); (201, 230); (209, 231); (203, 228); (205, 229); (151, 224); (207, 225); (210, 232); (211, 233)].

Definition charcode (sh : Z) : list Z :=
  match sh with 0 => normalmap | 1 => shiftmap | _ => ctlmap end.

(** [data] is the scan code read from the port; the character, and the new [shift]. *)
Definition kbdgetc (shift data : Z) : Z * Z :=
  if data =? 224 then (0, Z.lor shift E0ESC)
  else if negb (Z.land data 128 =? 0) then
    let data := if negb (Z.land shift E0ESC =? 0) then data else Z.land data 127 in
    (0, Z.land shift (2 ^ 32 - 1 - Z.lor (shiftcode !!! Z.to_nat data) E0ESC))
  else
    let '(data, shift) :=
      if negb (Z.land shift E0ESC =? 0) then (Z.lor data 128, Z.land shift (2 ^ 32 - 1 - E0ESC)) else (data, shift) in
    let shift := Z.lor shift (shiftcode !!! Z.to_nat data) in
    let shift := Z.lxor shift (togglecode !!! Z.to_nat data) in
    let c := charcode (Z.land shift (Z.lor CTL SHIFT)) !!! Z.to_nat data in
    let c :=
      if negb (Z.land shift CAPSLOCK =? 0) then
        if (97 <=? c) && (c <=? 122) then c + (65 - 97)
        else if (65 <=? c) && (c <=? 90) then c + (97 - 65)
        else c
      else c in
    (c, shift).

(** The scan codes waiting in the controller. *)
Fixpoint kbd_chars (shift : Z) (scans : list Z) : list Z * Z :=
  match scans with
  | [] => ([], shift)
  | d :: scans' =>
      let '(c, shift) := kbdgetc shift d in
      let '(cs, shift) := kbd_chars shift scans' in
      (c :: cs, shift)
  end.

Definition kbdintr (scans : list Z) : K unit :=
  s ← gets (fun k => kbdshift (kcons k)) ;
  let '(cs, s') := kbd_chars s scans in
  upd_input (fun c => c <| kbdshift := s' |>) ;;
  consoleintr cs.

(** ** The line discipline

    The input buffer holds the lines that were entered, [pend], and the line that is being
    typed, which can still be edited. *)
Definition cell (x : Z) : nat := Z.to_nat (x mod ibufsize).

(** The bytes from [input.r] to [input.e]. *)
Record input_raw (s : consstate) (q : list Z) : Prop := {
  raw_len : length (ibuf s) = INPUT_BUF;
  raw_e : ie s = u32 (ir s + Z.of_nat (length q));
  raw_r : 0 <= ir s < 2 ^ 32;
  raw_room : Z.of_nat (length q) <= ibufsize;
  raw_bytes i c : q !! i = Some c -> ibuf s !!! cell (ir s + Z.of_nat i) = c;
}.

Record input_rep (s : consstate) (pend line : list Z) : Prop := {
  in_raw : input_raw s (pend ++ line);
  in_w : iw s = u32 (ir s + Z.of_nat (length pend));
  in_full : Z.of_nat (length (pend ++ line)) = ibufsize -> line = [];
  in_line : Forall (fun c => c <> 10) line;
}.

(** What a key does to the lines entered and to the line being typed. *)
Definition type_char (st : list Z * list Z) (c : Z) : list Z * list Z :=
  let '(pend, line) := st in
  if c =? ctl 80 then (pend, line)
  else if c =? ctl 85 then (pend, [])
  else if (c =? ctl 72) || (c =? 127) then (pend, take (length line - 1) line)
  else if (c =? 0) || (Z.of_nat (length (pend ++ line)) =? ibufsize) then (pend, line)
  else
    let c := if c =? 13 then 10 else c in
    let line' := line ++ [u8 c] in
    if (c =? 10) || (c =? ctl 68) || (Z.of_nat (length (pend ++ line')) =? ibufsize) then (pend ++ line', [])
    else (pend, line').

Lemma cell_u32 x : Z.to_nat (u32 x mod ibufsize) = cell x.
Proof.
  unfold cell, u32. f_equal. change ibufsize with 128. rewrite <- (Z.mod_mod_divide x (2 ^ 32) 128); [done|]. by exists (2 ^ 25).
Qed.

Lemma cell_lt x : (cell x < INPUT_BUF)%nat.
Proof. unfold cell, INPUT_BUF. change ibufsize with 128. pose proof (Z.mod_pos_bound x 128). lia. Qed.

Lemma cell_inj r i j : 0 <= i < 128 -> 0 <= j < 128 -> cell (r + i) = cell (r + j) -> i = j.
Proof.
  intros Hi Hj. unfold cell. change ibufsize with 128. pose proof (Z.mod_pos_bound (r + i) 128). pose proof (Z.mod_pos_bound (r + j) 128).
  intros E. apply Z2Nat.inj in E; [|lia..]. dlia.
Qed.

Lemma u32_diff r a b : 0 <= a - b < 2 ^ 32 -> u32 (u32 (r + a) - u32 (r + b)) = a - b.
Proof. intros H. unfold u32. rewrite <- Zminus_mod. replace (r + a - (r + b)) with (a - b) by lia. by apply Z.mod_small. Qed.

(** The last character is taken back, and one is added. *)
Lemma input_raw_pop s q c : input_raw s (q ++ [c]) -> input_raw (s <| ie ::= (fun e => u32 (e - 1)) |>) q.
Proof.
  intros [H1 H2 H3 H4 H5]. rewrite length_app in *. simpl in *. split; simpl; try done; [|lia|].
  - rewrite H2. unfold u32. rewrite Zminus_mod_idemp_l. f_equal. lia.
  - intros i x Hx. apply H5. by apply lookup_app_l_Some.
Qed.

Lemma input_raw_push s q c : input_raw s q -> Z.of_nat (length q) < ibufsize ->
  input_raw (s <| ibuf ::= <[Z.to_nat (ie s mod ibufsize) := c]> |> <| ie := u32 (ie s + 1) |>) (q ++ [c]).
Proof.
  intros [H1 H2 H3 H4 H5] Hr. assert (Z.to_nat (ie s mod ibufsize) = cell (ir s + Z.of_nat (length q))) as -> by (rewrite H2; apply cell_u32).
  split; simpl; rewrite ?length_app, ?length_insert; simpl; try done; [|lia|].
  - rewrite H2. unfold u32. rewrite Zplus_mod_idemp_l. f_equal. lia.
  - intros i x Hx. change ibufsize with 128 in *.
    destruct (decide (i < length q)%nat) as [Hi|Hi].
    + rewrite lookup_app_l in Hx by done. rewrite list_lookup_total_insert_ne; [by apply H5|].
      intros E. apply cell_inj in E; lia.
    + rewrite lookup_app_r in Hx by lia. apply list_lookup_singleton_Some in Hx as [Hi' <-]. replace i with (length q) by lia.
      apply list_lookup_total_insert_eq. rewrite H1. apply cell_lt.
Qed.

(** Echoing does not touch the buffer. *)
Lemma input_raw_echo s q f : input_raw s q -> input_raw (s <| conout ::= f |>) q.
Proof. intros [? ? ? ? ?]. by split. Qed.

Lemma input_empty s pend line : input_rep s pend line -> (ie s =? iw s) = bool_decide (line = []).
Proof.
  intros [[H1 H2 H3 H4 H5] Hw Hf _]. rewrite Hw, H2, length_app in *. change ibufsize with 128 in *.
  destruct line as [|c line]; [rewrite bool_decide_true by done; simpl; apply Z.eqb_eq; f_equal; lia|].
  rewrite bool_decide_false by done. apply Z.eqb_neq. intros E. simpl in *.
  pose proof (u32_diff (ir s) (Z.of_nat (length pend + S (length line))) (Z.of_nat (length pend)) ltac:(lia)) as Hd.
  rewrite E, Z.sub_diag in Hd. change (u32 0) with 0 in Hd. lia.
Qed.

Lemma input_rep_back s pend line : input_rep s pend line -> line <> [] ->
  input_rep (s <| ie ::= (fun e => u32 (e - 1)) |> <| conout ::= (fun o => o ++ [BACKSPACE]) |>) pend (take (length line - 1) line).
Proof.
  intros [Hr Hw Hf Hl] Hne. destruct line as [|c line _] using rev_ind; [done|]. clear Hne.
  rewrite length_app. replace (length line + length [c] - 1)%nat with (length line) by (simpl; lia). rewrite take_app_length.
  rewrite app_assoc in Hr. pose proof (raw_room _ _ Hr) as Hroom. rewrite length_app in Hroom. simpl in Hroom.
  split; [by eapply input_raw_echo, input_raw_pop|done|lia|by apply Forall_app in Hl as [? _]].
Qed.

(** Only the console changes. *)
Definition only_console (k k' : kernel) : Prop := k' = k <| kcons := kcons k' |>.

#[export] Instance only_console_preorder : PreOrder only_console.
Proof.
  split.
  - intros k. unfold only_console. kernel_ext.
  - intros k1 k2 k3 H1 H2. unfold only_console in *. rewrite H2, H1. kernel_ext.
Qed.

Lemma kill_line_spec pend : forall left line k, length line = left -> input_rep (kcons k) pend line ->
  exists k', kill_line left k = Ret tt k' /\ only_console k k' /\ input_rep (kcons k') pend [].
Proof.
  induction left as [|left IH]; intros line k Hl H; cbn [kill_line]; kunfold; cbn [obind]; rewrite (input_empty _ _ _ H).
  - destruct line; [|done]. rewrite bool_decide_true by done. exists k. by split_and!.
  - rewrite bool_decide_false by (by intros ->). cbn [negb andb].
    destruct line as [|c line _] using rev_ind; [done|]. rewrite length_app in Hl. simpl in Hl.
    assert (ibuf (kcons k) !!! Z.to_nat (u32 (ie (kcons k) - 1) mod ibufsize) = c) as ->.
    { destruct H as [[H1 H2 H3 H4 H5] _ _ _]. rewrite app_assoc in *. rewrite cell_u32, H2, length_app. simpl.
      assert (forall x, cell (u32 x - 1) = cell (x - 1)) as Ec.
      { intros x. rewrite <- (cell_u32 (u32 x - 1)), <- (cell_u32 (x - 1)). unfold u32. by rewrite Zminus_mod_idemp_l. }
      rewrite Ec. replace (ir (kcons k) + Z.of_nat (length (pend ++ line) + 1) - 1) with (ir (kcons k) + Z.of_nat (length (pend ++ line))) by lia.
      apply H5. by apply list_lookup_middle. }
    pose proof (in_line _ _ _ H) as Hc. apply Forall_app in Hc as [_ Hc]. apply Forall_cons in Hc as [Hc _].
    rewrite (proj2 (Z.eqb_neq c 10)) by done. cbn [negb]. unfold upd_input, consputc. kunfold. cbn [obind].
    pose proof (input_rep_back _ _ _ H ltac:(by destruct line)) as Hb. rewrite length_app in Hb.
    replace (length line + length [c] - 1)%nat with (length line) in Hb by (simpl; lia). rewrite take_app_length in Hb.
    set (k1 := _ <| kcons ::= _ |> <| kcons ::= _ |>).
    destruct (IH line k1 ltac:(lia) Hb) as (k' & -> & F & Hk'). exists k'. split_and!; [done| |done].
    etrans; [|exact F]. unfold only_console, k1. kernel_ext.
Qed.

(** A key press leaves everything but the console alone and wakes the readers when it completes a line. *)
Definition typed (k k' : kernel) : Prop :=
  only_console k k' \/ exists k1, only_console k k1 /\ k' = k1 <| ptable ::= fmap (woken ChanInput) |>.

(** A key that is not an editing key. *)
Lemma consoleintr_plain k pend line c : input_rep (kcons k) pend line -> 0 <= c < 256 -> PtableLock ∉ held k ->
  let r := if (c =? 0) || (Z.of_nat (length (pend ++ line)) =? ibufsize) then (pend, line)
    else let c := if c =? 13 then 10 else c in
      if (c =? 10) || (c =? ctl 68) || (Z.of_nat (length (pend ++ line ++ [u8 c])) =? ibufsize) then (pend ++ line ++ [u8 c], [])
      else (pend, line ++ [u8 c]) in
  exists b k', (s ← gets kcons ;
    whenK (negb (c =? 0) && (u32 (ie s - ir s) <? ibufsize)) (
      let c := if c =? 13 then 10 else c in
      upd_input (fun s => s <| ibuf ::= <[Z.to_nat (ie s mod ibufsize) := u8 c]> |> <| ie := u32 (ie s + 1) |>) ;;
      consputc c ;;
      s ← gets kcons ;
      whenK ((c =? 10) || (c =? ctl 68) || (ie s =? u32 (ir s + ibufsize))) (
        upd_input (fun s => s <| iw := ie s |>) ;;
        wakeup ChanInput)) ;;
    mret false) k = Ret b k' /\ typed k k' /\ input_rep (kcons k') r.1 r.2.
Proof.
  intros H Hc Hh r. pose proof H as [Hraw Hw Hf Hl]. pose proof (raw_room _ _ Hraw) as Hroom. pose proof (raw_e _ _ Hraw) as He.
  pose proof (raw_r _ _ Hraw) as Hr0.
  kunfold. cbn [obind].
  assert (u32 (ie (kcons k) - ir (kcons k)) = Z.of_nat (length (pend ++ line))) as ->.
  { rewrite He. replace (ir (kcons k)) with (u32 (ir (kcons k) + 0)) at 2 by (rewrite Z.add_0_r; by apply u32_small).
    change ibufsize with 128 in *. rewrite u32_diff; lia. }
  unfold r. destruct (Z.eqb_spec c 0) as [->|Hc0]; cbn [negb andb orb].
  { eexists _, k. split; [reflexivity|]. by split; [left|]. }
  destruct (Z.eqb_spec (Z.of_nat (length (pend ++ line))) ibufsize) as [Ef|Ef].
  { rewrite (proj2 (Z.ltb_ge _ _)) by lia. eexists _, k. split; [reflexivity|]. by split; [left|]. }
  rewrite (proj2 (Z.ltb_lt _ _)) by lia. set (c' := if c =? 13 then 10 else c).
  unfold upd_input, consputc. kunfold. cbn [obind].
  pose proof (input_raw_echo _ _ (fun o => o ++ [c']) (input_raw_push _ _ (u8 c') Hraw ltac:(lia))) as Hpush. rewrite <- app_assoc in Hpush.
  set (k1 := _ <| kcons ::= _ |> <| kcons ::= _ |>).
  change (input_raw (kcons k1) (pend ++ line ++ [u8 c'])) in Hpush.
  assert (only_console k k1) as F1 by (unfold only_console, k1; kernel_ext).
  assert ((ie (kcons k1) =? u32 (ir (kcons k1) + ibufsize)) = (Z.of_nat (length (pend ++ line ++ [u8 c'])) =? ibufsize)) as ->.
  { rewrite (raw_e _ _ Hpush). pose proof (raw_room _ _ Hpush) as Hr1. change ibufsize with 128 in *.
    destruct (Z.eqb_spec (Z.of_nat (length (pend ++ line ++ [u8 c']))) 128) as [E|E]; [apply Z.eqb_eq; by rewrite E|].
    apply Z.eqb_neq. intros E'. pose proof (u32_diff (ir (kcons k1)) 128 (Z.of_nat (length (pend ++ line ++ [u8 c']))) ltac:(lia)) as Hd.
    rewrite <- E', Z.sub_diag in Hd. change (u32 0) with 0 in Hd. lia. }
  assert (iw (kcons k1) = iw (kcons k) /\ ir (kcons k1) = ir (kcons k)) as [Ew Er] by done.
  clearbody k1. destruct ((c' =? 10) || (c' =? ctl 68) || (Z.of_nat (length (pend ++ line ++ [u8 c'])) =? ibufsize)) eqn:Ec.
  - cbn [obind]. rewrite wakeup_spec by (simpl; rewrite F1; exact Hh). cbn [obind]. eexists _, _. split; [reflexivity|]. split.
    + right. eexists. split; [|reflexivity]. etrans; [exact F1|]. unfold only_console. kernel_ext.
    + cbn [fst snd]. split; simpl; rewrite ?app_nil_r; try done; [by destruct Hpush; split|]. apply (raw_e _ _ Hpush).
  - apply orb_false_iff in Ec as [Ec Ec2]. apply orb_false_iff in Ec as [Ec0 _]. apply Z.eqb_neq in Ec0, Ec2.
    eexists _, k1. split; [reflexivity|]. split; [by left|]. cbn [fst snd]. split; [done|by rewrite Ew, Er|done|].
    apply Forall_app. split; [done|]. constructor; [|constructor]. unfold c' in *. destruct (c =? 13); [done|].
    unfold u8. rewrite Z.mod_small by lia. done.
Qed.

Lemma consoleintr_char_spec k pend line c : input_rep (kcons k) pend line -> 0 <= c < 256 -> PtableLock ∉ held k ->
  exists b k', consoleintr_char c k = Ret b k' /\ typed k k' /\
    input_rep (kcons k') (type_char (pend, line) c).1 (type_char (pend, line) c).2.
Proof.
  intros H Hc Hh. unfold consoleintr_char, type_char.
  destruct (c =? ctl 80); [eexists _, k; split; [reflexivity|]; by split; [left|]|].
  destruct (c =? ctl 85).
  - kunfold. cbn [obind]. assert (Z.to_nat (u32 (ie (kcons k) - iw (kcons k))) = length line) as ->.
    { destruct H as [[H1 H2 H3 H4 H5] Hw _ _]. rewrite H2, Hw, u32_diff; rewrite length_app in *; change ibufsize with 128 in *; lia. }
    destruct (kill_line_spec pend _ line k eq_refl H) as (k' & -> & F & Hk'). cbn [obind]. eexists _, k'. split; [reflexivity|]. by split; [left|].
  - destruct ((c =? ctl 72) || (c =? 127)).
    + kunfold. cbn [obind]. rewrite (input_empty _ _ _ H). case_bool_decide as El; cbn [negb].
      * subst. eexists _, k. split; [reflexivity|]. by split; [left|].
      * unfold upd_input, consputc. kunfold. cbn [obind]. eexists _, _. split; [reflexivity|].
        split; [left; unfold only_console; kernel_ext|]. by apply input_rep_back.
    + by apply consoleintr_plain.
Qed.

Lemma typed_held k k' : typed k k' -> held k' = held k.
Proof. intros [F|(k1 & F & ->)]; simpl; by rewrite F. Qed.

Lemma consoleintr_loop_spec : forall cs k pend line d, Forall (fun c => 0 <= c < 256) cs -> input_rep (kcons k) pend line ->
  PtableLock ∉ held k ->
  let st := foldl type_char (pend, line) cs in
  exists b k', consoleintr_loop cs d k = Ret b k' /\ rtc typed k k' /\ input_rep (kcons k') st.1 st.2.
Proof.
  induction cs as [|c cs IH]; intros k pend line d Hcs H Hh st; cbn [consoleintr_loop].
  - exists d, k. by split_and!.
  - apply Forall_cons in Hcs as [Hc Hcs]. unfold mbind, K_bind.
    destruct (consoleintr_char_spec k pend line c H Hc Hh) as (b & k1 & -> & Ht & H1). cbn [obind].
    destruct (IH k1 _ _ (b || d) Hcs H1) as (b' & k' & -> & Hr & H'); [by rewrite (typed_held _ _ Ht)|].
    exists b', k'. split_and!; [done|by eapply rtc_l|]. unfold st. cbn [foldl]. by destruct (type_char (pend, line) c).
Qed.

(** ** Reading *)

(** What a read of [left] more bytes takes from the lines entered; [None] if it has to wait. *)
Fixpoint read_line (left target : nat) (pend : list Z) : option (list Z * list Z) :=
  match left with
  | O => Some ([], pend)
  | S left' =>
      match pend with
      | [] => None
      | c :: pend' =>
          if c =? ctl 68 then Some ([], if Nat.ltb left target then pend else pend')
          else if c =? 10 then Some ([c], pend')
          else (fun r => (c :: r.1, r.2)) <$> read_line left' target pend'
      end
  end.

Lemma input_pending s c pend line : input_rep s (c :: pend) line ->
  (ir s =? iw s) = false /\ ibuf s !!! Z.to_nat (ir s mod ibufsize) = c /\
  input_rep (s <| ir ::= (fun r => u32 (r + 1)) |>) pend line.
Proof.
  intros [[H1 H2 H3 H4 H5] Hw Hf Hl]. change ibufsize with 128 in *. simpl in *.
  rewrite length_app in *. split_and!.
  - apply Z.eqb_neq. rewrite Hw. intros E. replace (ir s) with (u32 (ir s + 0)) in E at 1 by (rewrite Z.add_0_r; by apply u32_small).
    pose proof (u32_diff (ir s) (Z.of_nat (S (length pend))) 0 ltac:(lia)) as Hd. rewrite <- E, Z.sub_diag in Hd. change (u32 0) with 0 in Hd. lia.
  - rewrite <- (H5 0%nat c eq_refl). unfold cell. change ibufsize with 128. by rewrite Z.add_0_r.
  - assert (forall x, u32 (u32 (ir s + 1) + x) = u32 (ir s + (1 + x))) as Eu by (intros x; unfold u32; rewrite Zplus_mod_idemp_l; f_equal; lia).
    split; [split| | |done]; simpl; try done.
    + rewrite H2, Eu, length_app. f_equal. lia.
    + apply u32_range.
    + rewrite length_app. change ibufsize with 128. lia.
    + intros i x Hx. rewrite <- cell_u32, Eu, cell_u32. replace (1 + Z.of_nat i) with (Z.of_nat (S i)) by lia. by apply H5.
    + rewrite Hw, Eu. f_equal. lia.
    + rewrite length_app. change ibufsize with 128. lia.
Qed.

(** [^D] is put back. *)
Lemma input_unread s pend line : input_rep s pend line ->
  s <| ir ::= (fun r => u32 (r + 1)) |> <| ir ::= (fun r => u32 (r - 1)) |> = s.
Proof.
  intros H. pose proof (raw_r _ _ (in_raw _ _ _ H)) as Hr. destruct s as [b r w e o sh]. unfold upd, upd_ir. simpl in *. f_equal.
  unfold u32. rewrite Zminus_mod_idemp_l. replace (r + 1 - 1) with r by lia. by apply Z.mod_small.
Qed.

Lemma consoleread_loop_spec fuel target line l rest : forall left pend k, input_rep (kcons k) pend line ->
  read_line left target pend = Some (l, rest) ->
  exists k', consoleread_loop fuel left target k = Ret (Some l) k' /\ only_console k k' /\ input_rep (kcons k') rest line.
Proof.
  intros left. revert l rest. induction left as [|left IH]; intros l rest pend k H; cbn [read_line consoleread_loop].
  - intros [= <- <-]. exists k. by split_and!.
  - destruct pend as [|c pend]; [done|]. destruct (input_pending _ _ _ _ H) as (Ew & Ec & Hn).
    assert (consoleread_wait fuel k = Ret true k) as Ewt.
    { destruct fuel; cbn [consoleread_wait]; kunfold; cbn [obind]; by rewrite Ew. }
    unfold mbind, K_bind. rewrite Ewt. cbn [obind]. unfold gets. cbn [obind]. rewrite Ec. unfold upd_input, modify. cbn [obind].
    set (k1 := k <| kcons ::= _ |>). assert (only_console k k1) as F1 by (unfold only_console, k1; kernel_ext).
    destruct (c =? ctl 68).
    + intros E. unfold whenK. destruct (Nat.ltb (S left) target); injection E as <- <-.
      * unfold modify. cbn [obind]. eexists. split; [reflexivity|]. split; [unfold only_console, k1; kernel_ext|].
        simpl. pose proof (input_unread _ _ _ H) as Eq. unfold upd, upd_kcons in *. simpl in *. by rewrite Eq.
      * unfold mret, K_ret. cbn [obind]. exists k1. by split_and!.
    + destruct (c =? 10); [intros [= <- <-]; exists k1; by split_and!|].
      destruct (read_line left target pend) as [[l' rest']|] eqn:E; [|done]. intros [= <- <-].
      destruct (IH l' rest' pend k1 Hn E) as (k' & -> & F & H'). cbn [obind]. exists k'. split_and!; [done|by etrans|done].
Qed.

(** C32. Console input is a line editor in front of a queue.  Key presses edit the line being typed
    (erase, kill line, a full buffer ignores keys) and a newline, [^D] or a full buffer enters
    it; a read takes the oldest bytes entered, up to a newline or [^D], in order and once, across
    the wrap-around of the buffer and its 32-bit indices. *)
Theorem console_edits_and_delivers fuel cs n k pend line l rest :
  Forall (fun c => 0 <= c < 256) cs -> PtableLock ∉ held k -> input_rep (kcons k) pend line ->
  let st := foldl type_char (pend, line) cs in
  read_line n n st.1 = Some (l, rest) ->
  exists b k1 k2, consoleintr_loop cs false k = Ret b k1 /\ rtc typed k k1 /\
    consoleread_loop fuel n n k1 = Ret (Some l) k2 /\ only_console k1 k2 /\ input_rep (kcons k2) rest st.2.
Proof.
  intros Hcs Hh H st Hr. destruct (consoleintr_loop_spec cs k pend line false Hcs H Hh) as (b & k1 & E1 & Ht & H1).
  destruct (consoleread_loop_spec fuel n _ l rest n _ k1 H1 Hr) as (k2 & E2 & F & H2). exists b, k1, k2. by split_and!.
Qed.

Lemma kernel0_input : input_rep (kcons kernel0) [] [].
Proof. split; [split| | |]; done. Qed.

(** [ax<BACKSPACE>b<RETURN>c] gives the reader [ab] and leaves [c]. *)
Lemma console_edits_and_delivers_witness : exists b k1 k2,
  consoleintr_loop [97; 120; 8; 98; 13; 99] false kernel0 = Ret b k1 /\
  consoleread_loop 0 100 100 k1 = Ret (Some [97; 98; 10]) k2 /\ input_rep (kcons k2) [] [99].
Proof.
  destruct (console_edits_and_delivers 0 [97; 120; 8; 98; 13; 99] 100 kernel0 [] [] [97; 98; 10] [])
    as (b & k1 & k2 & E1 & _ & E2 & _ & H).
  - repeat constructor; lia.
  - apply not_elem_of_nil.
  - exact kernel0_input.
  - reflexivity.
  - exists b, k1, k2. exact (conj E1 (conj E2 H)).
Defined.
