(* ===== verification/Pipe.v ===== *)
(** * Pipe: the operations on an open pipe (pipe.c)

    A pipe is named by the page it lives in; its buffer is indexed by counters that wrap
    at 32 bits.  The buffer is shown to be a queue. *)
From stdpp Require Import base list list_numbers gmap strings.
From Stdlib Require Import ZArith Lia.
From S2P Require Import Prelude Mem Layout Machine Kalloc Sched.
Local Open Scope Z_scope.

Definition PIPESIZE : Z := 512.

(** ** Operations *)
Definition get_pipe (p : Z) : K pipe := fun k =>
  match pipes k !! p with Some x => Ret x k | None => Undef "no pipe" end.
Definition upd_pipe (p : Z) (f : pipe -> pipe) : K unit :=
  modify (fun k => k <| pipes ::= alter f p |>).

Definition pipeclose (p : Z) (writable : bool) : K unit :=
  acquire (PipeLock p) ;;
  (if writable then
     upd_pipe p (fun x => x <| writeopen := 0 |>) ;; wakeup (ChanPipeRead p)
   else
     upd_pipe p (fun x => x <| readopen := 0 |>) ;; wakeup (ChanPipeWrite p)) ;;
  x ← get_pipe p ;
  if (readopen x =? 0) && (writeopen x =? 0) then
    release (PipeLock p) ;;
    modify (fun k => k <| pipes ::= delete p |>) ;;
    kfree p
  else release (PipeLock p).

(** [p->data[p->nwrite++ % PIPESIZE] = b] and [p->data[p->nread++ % PIPESIZE]]. *)
Definition put (b : Z) (x : pipe) : pipe :=
  x <| pdata ::= <[Z.to_nat (nwrite x mod PIPESIZE) := b]> |> <| nwrite := u32 (nwrite x + 1) |>.
Definition front (x : pipe) : Z := pdata x !!! Z.to_nat (nread x mod PIPESIZE).
Definition pop (x : pipe) : pipe := x <| nread := u32 (nread x + 1) |>.

(** The wait of [pipewrite]; false when it gives up, having released the lock. *)
Fixpoint pipewrite_wait (fuel : nat) (p : Z) : K bool :=
  x ← get_pipe p ;
  if nwrite x =? u32 (nread x + PIPESIZE) then
    i ← cur ;
    kd ← gets (fun k => killed (ptable k !!! i)) ;
    if (readopen x =? 0) || negb (kd =? 0) then release (PipeLock p) ;; mret false
    else
      match fuel with
      | O => out_of_fuel
      | S fuel' =>
          wakeup (ChanPipeRead p) ;;
          sleep (ChanPipeWrite p) (Some (PipeLock p)) ;;
          pipewrite_wait fuel' p
      end
  else mret true.

Section pipe.
Context (fuel : nat).

(** [n] is the length of the bytes at [addr]. *)
Fixpoint pipewrite_loop (p : Z) (addr : list Z) : K bool :=
  match addr with
  | [] => mret true
  | b :: addr' =>
      ok ← pipewrite_wait fuel p ;
      if ok : bool then upd_pipe p (put b) ;; pipewrite_loop p addr' else mret false
  end.

Definition pipewrite (p : Z) (addr : list Z) : K Z :=
  acquire (PipeLock p) ;;
  ok ← pipewrite_loop p addr ;
  if ok : bool then
    wakeup (ChanPipeRead p) ;;
    release (PipeLock p) ;;
    mret (Z.of_nat (length addr))
  else mret (-1).

Fixpoint piperead_wait (fuel : nat) (p : Z) : K bool :=
  x ← get_pipe p ;
  if (nread x =? nwrite x) && negb (writeopen x =? 0) then
    i ← cur ;
    kd ← gets (fun k => killed (ptable k !!! i)) ;
    if negb (kd =? 0) then release (PipeLock p) ;; mret false
    else
      match fuel with
      | O => out_of_fuel
      | S fuel' => sleep (ChanPipeRead p) (Some (PipeLock p)) ;; piperead_wait fuel' p
      end
  else mret true.

(** At most [left] bytes. *)
Fixpoint piperead_loop (left : nat) (p : Z) : K (list Z) :=
  match left with
  | O => mret []
  | S left' =>
      x ← get_pipe p ;
      if nread x =? nwrite x then mret []
      else
        upd_pipe p pop ;;
        rest ← piperead_loop left' p ;
        mret (front x :: rest)
  end.

(** The count and the bytes stored at [addr]. *)
Definition piperead (p : Z) (n : Z) : K (Z * list Z) :=
  acquire (PipeLock p) ;;
  ok ← piperead_wait fuel p ;
  if ok : bool then
    l ← piperead_loop (Z.to_nat n) p ;
    wakeup (ChanPipeWrite p) ;;
    release (PipeLock p) ;;
    mret (Z.of_nat (length l), l)
  else mret (-1, []).
End pipe.

(** ** The buffer as a queue *)
Definition count (x : pipe) : Z := u32 (nwrite x - nread x).
Definition queue (x : pipe) : list Z :=
  (fun j => pdata x !!! Z.to_nat ((nread x + Z.of_nat j) mod PIPESIZE)) <$> seq 0 (Z.to_nat (count x)).

Record pipe_ok (x : pipe) : Prop := {
  po_data : length (pdata x) = Z.to_nat PIPESIZE;
  po_nread : 0 <= nread x < 2 ^ 32;
  po_nwrite : 0 <= nwrite x < 2 ^ 32;
  po_count : count x <= PIPESIZE;
}.

Lemma count_put b x : pipe_ok x -> count x < PIPESIZE -> count (put b x) = count x + 1.
Proof. intros [_ H1 H2 _]. unfold count, u32, put, PIPESIZE. simpl. unfold u32. intros. dlia. Qed.

Lemma count_pop x : pipe_ok x -> 0 < count x -> count (pop x) = count x - 1.
Proof. intros [_ H1 H2 _]. unfold count, u32, pop, PIPESIZE. simpl. unfold u32. intros. dlia. Qed.

Lemma empty_count x : pipe_ok x -> (nread x =? nwrite x) = (count x =? 0).
Proof. intros [_ H1 H2 _]. unfold count, u32. zcases; try done; dlia. Qed.

Lemma full_count x : pipe_ok x -> (nwrite x =? u32 (nread x + PIPESIZE)) = (count x =? PIPESIZE).
Proof. intros [_ H1 H2 _]. unfold count, u32, PIPESIZE. zcases; try done; dlia. Qed.

Lemma queue_length x : Z.of_nat (length (queue x)) = count x.
Proof.
  unfold queue. rewrite length_fmap, length_seq. rewrite Z2Nat.id; [done|]. unfold count. apply u32_range.
Qed.

Lemma slots_distinct a j n : 0 <= j < n -> n <= 512 -> (a + j) mod 512 = (a + n) mod 512 -> n = 512 /\ j = 0.
Proof. intros. dlia. Qed.

Lemma queue_put b x : pipe_ok x -> count x < PIPESIZE -> pipe_ok (put b x) /\ queue (put b x) = queue x ++ [b].
Proof.
  intros H Hc. pose proof H as [Hd H1 H2 H3]. pose proof (count_put b x H Hc) as Ec. split.
  - split; [simpl; by rewrite length_insert|done|apply u32_range|lia].
  - assert (0 <= count x) as H0 by (unfold count; apply u32_range).
    unfold queue. rewrite Ec, Z2Nat.inj_add, seq_app, fmap_app by lia. simpl. f_equal.
    + apply list_fmap_ext. intros i j Hj. apply lookup_seq in Hj as [-> Hi]. simpl. unfold PIPESIZE in *.
      apply list_lookup_total_insert_ne. intros E. apply Z2Nat.inj in E; [|apply Z.mod_pos_bound; lia..].
      unfold count, u32 in *. dlia.
    + f_equal. rewrite Z2Nat.id by lia. replace ((nread x + count x) mod PIPESIZE) with (nwrite x mod PIPESIZE).
      * apply list_lookup_total_insert_eq. rewrite Hd. unfold PIPESIZE. pose proof (Z.mod_pos_bound (nwrite x) 512). lia.
      * unfold count, u32, PIPESIZE. dlia.
Qed.

Lemma queue_pop x : pipe_ok x -> 0 < count x -> pipe_ok (pop x) /\ queue x = front x :: queue (pop x).
Proof.
  intros H Hc. pose proof H as [Hd H1 H2 H3]. pose proof (count_pop x H Hc) as Ec. split.
  - split; [done|apply u32_range|done|lia].
  - unfold queue. rewrite Ec. replace (Z.to_nat (count x)) with (S (Z.to_nat (count x - 1))) by lia. rewrite <- cons_seq, fmap_cons. f_equal.
    + unfold front. by rewrite Z.add_0_r.
    + rewrite <- fmap_S_seq, <- list_fmap_compose. apply list_fmap_ext. intros i j Hj. apply lookup_seq in Hj as [-> Hi]. simpl.
      f_equal. f_equal. unfold PIPESIZE, u32. dlia.
Qed.

Lemma queue_empty x : pipe_ok x -> count x = 0 -> queue x = [].
Proof. intros _ E. unfold queue. by rewrite E. Qed.

(** ** Reading and writing without waiting *)
Section fifo.
Context (fuel : nat) (p : Z).

Lemma pipewrite_loop_spec addr : forall k x,
  pipes k !! p = Some x -> pipe_ok x -> Z.of_nat (length addr) <= PIPESIZE - count x ->
  exists x', pipewrite_loop fuel p addr k = Ret true (k <| pipes ::= <[p := x']> |>) /\
    pipe_ok x' /\ queue x' = queue x ++ addr.
Proof.
  induction addr as [|b addr IH]; intros k x Hx Hok Hroom; cbn [pipewrite_loop length] in *.
  - exists x. split_and!; [|done|by rewrite app_nil_r]. kunfold. f_equal. kernel_ext. simpl. by rewrite insert_id.
  - destruct (queue_put b x) as [Hok' Hq]; [done|lia|]. unfold upd_pipe. kunfold.
    assert (pipewrite_wait fuel p k = Ret true k) as ->.
    { destruct fuel; cbn [pipewrite_wait]; unfold get_pipe; kunfold; rewrite Hx; cbn [obind];
        rewrite full_count by done; zcases; done. }
    cbn [obind]. destruct (IH (k <| pipes ::= alter (put b) p |>) (put b x)) as (x' & E & Hok2 & Hq2).
    + simpl. rewrite lookup_alter_eq, Hx. done.
    + done.
    + rewrite count_put by (done || lia). lia.
    + exists x'. split_and!; [|done|rewrite Hq2, Hq; by rewrite <- app_assoc]. rewrite E. f_equal. kernel_ext. simpl.
      apply map_eq. intros q. destruct (decide (p = q)) as [<-|Hne]; [by rewrite !lookup_insert_eq|].
      by rewrite !lookup_insert_ne, lookup_alter_ne by done.
Qed.

Lemma piperead_loop_spec left : forall k x, pipes k !! p = Some x -> pipe_ok x ->
  exists x', piperead_loop left p k = Ret (take left (queue x)) (k <| pipes ::= <[p := x']> |>) /\
    pipe_ok x' /\ queue x' = drop left (queue x).
Proof.
  induction left as [|left IH]; intros k x Hx Hok; cbn [piperead_loop].
  - exists x. split_and!; try done. kunfold. rewrite take_0. f_equal. kernel_ext. simpl. by rewrite insert_id.
  - unfold get_pipe, upd_pipe. kunfold. rewrite Hx. cbn [obind]. rewrite empty_count by done.
    destruct (Z.eqb_spec (count x) 0) as [E|E].
    + rewrite (queue_empty x) by done. exists x. split_and!; [|done|by rewrite queue_empty]. f_equal. kernel_ext. simpl. by rewrite insert_id.
    + assert (0 < count x) as Hc by (pose proof (u32_range (nwrite x - nread x)); unfold count in *; lia).
      destruct (queue_pop x Hok Hc) as [Hok' Hq]. rewrite Hq. cbn [obind take drop].
      destruct (IH (k <| pipes ::= alter pop p |>) (pop x)) as (x' & -> & Hok2 & Hq2); [simpl; by rewrite lookup_alter_eq, Hx|done|].
      exists x'. cbn [obind]. split_and!; try done. f_equal. kernel_ext. simpl.
      apply map_eq. intros q. destruct (decide (p = q)) as [<-|Hne]; [by rewrite !lookup_insert_eq|].
      by rewrite !lookup_insert_ne, lookup_alter_ne by done.
Qed.
End fifo.

(** Nobody sleeps on [c]. *)
Definition awake (c : channel) (k : kernel) : Prop :=
  Forall (fun q => ~ (state q = SLEEPING /\ chan q = c)) (ptable k).

Lemma wakeup_awake c k : awake c (k <| ptable ::= fmap (woken c) |>).
Proof.
  unfold awake. simpl. apply Forall_forall. intros q Hq. apply list_elem_of_fmap in Hq as (r & -> & _).
  unfold woken. repeat case_bool_decide; simpl; intros [H1 H2]; naive_solver.
Qed.

(** C33. A pipe is a queue of at most [PIPESIZE] bytes, across the wrap-around of its buffer and of
    its 32-bit counters: a write that fits appends its bytes in order and leaves no reader
    asleep, and a read of at most [n] bytes takes the oldest ones and leaves no writer
    asleep; neither touches anything else. *)
Theorem pipe_is_fifo fuel p x k :
  pipes k !! p = Some x -> pipe_ok x -> (PipeLock p ∉ held k) -> PtableLock ∉ held k ->
  (forall addr, Z.of_nat (length addr) <= PIPESIZE - count x ->
     exists x' k', pipewrite fuel p addr k = Ret (Z.of_nat (length addr)) k' /\
       pipes k' = <[p := x']> (pipes k) /\ pipe_ok x' /\ queue x' = queue x ++ addr /\ awake (ChanPipeRead p) k' /\
       k' = k <| pipes := pipes k' |> <| ptable := ptable k' |>) /\
  (forall n, 0 < count x \/ writeopen x = 0 ->
     exists x' k', piperead fuel p n k = Ret (Z.of_nat (length (take (Z.to_nat n) (queue x))), take (Z.to_nat n) (queue x)) k' /\
       pipes k' = <[p := x']> (pipes k) /\ pipe_ok x' /\ queue x' = drop (Z.to_nat n) (queue x) /\ awake (ChanPipeWrite p) k' /\
       k' = k <| pipes := pipes k' |> <| ptable := ptable k' |>).
Proof.
  intros Hx Hok Hp Hpt. split.
  - intros addr Hroom. unfold pipewrite. kunfold. rewrite acquire_ok by done. cbn [obind].
    destruct (pipewrite_loop_spec fuel p addr (k <| held ::= cons (PipeLock p) |>) x) as (x' & -> & Hok' & Hq); try done.
    cbn [obind]. rewrite wakeup_spec by (simpl; apply not_elem_of_cons; done). cbn [obind].
    rewrite (release_ok _ (held k)) by done. cbn [obind]. eexists x', _. split_and!; [done|done|done|done|apply wakeup_awake|kernel_ext].
  - intros n Hn. unfold piperead. kunfold. rewrite acquire_ok by done. cbn [obind].
    set (k1 := k <| held ::= cons (PipeLock p) |>).
    assert (piperead_wait fuel p k1 = Ret true k1) as ->.
    { destruct fuel; cbn [piperead_wait]; unfold get_pipe; kunfold; change (pipes k1) with (pipes k); rewrite Hx; cbn [obind];
        rewrite empty_count by done; destruct (Z.eqb_spec (count x) 0); (try done); (destruct Hn as [?| ->]; [lia|done]). }
    cbn [obind]. destruct (piperead_loop_spec p (Z.to_nat n) k1 x) as (x' & -> & Hok' & Hq); try done.
    cbn [obind]. rewrite wakeup_spec by (simpl; apply not_elem_of_cons; done). cbn [obind].
    rewrite (release_ok _ (held k)) by done. cbn [obind]. eexists x', _. split_and!; [done|done|done|done|apply wakeup_awake|kernel_ext].
Qed.

(** A pipe whose counters are about to wrap. *)
Definition wrapping : pipe := mkPipe (replicate 512 9) (2 ^ 32 - 2) (2 ^ 32 - 1) 1 1.

Lemma pipe_is_fifo_witness :
  let k := kernel0 <| pipes := {[P2V 4194304 := wrapping]} |> in
  exists x' k', pipewrite 0 (P2V 4194304) [1; 2; 3] k = Ret 3 k' /\
    pipes k' !! P2V 4194304 = Some x' /\ queue x' = [9; 1; 2; 3].
Proof.
  intros k. destruct (pipe_is_fifo 0 (P2V 4194304) wrapping k) as [H _].
  - apply lookup_singleton_eq.
  - split; vm_compute; (reflexivity || (split; congruence) || congruence).
  - apply not_elem_of_nil.
  - apply not_elem_of_nil.
  - destruct (H [1; 2; 3]) as (x' & k' & E & Ep & _ & Eq & _); [vm_compute; congruence|].
    exists x', k'. split_and!; [exact E|rewrite Ep; apply lookup_insert_eq|]. rewrite Eq. vm_compute. reflexivity.
Defined.
