(* ===== verification/File.v ===== *)
(** * File: the open file table (file.c) and making pipes (pipe.c)

    A file is the index of its slot in [ftable]. *)
From stdpp Require Import base list list_numbers gmap strings functions sorting.
From Stdlib Require Import ZArith Lia.
From S2P Require Import Prelude Mem Layout Machine Kalloc Sched Sleeplock Disk Bio Log Vm Fs Pipe.
Local Open Scope Z_scope.

(** ** Operations *)
Definition file_at (k : kernel) (f : nat) : file := ftable (fsys k) !!! f.
Definition upd_file (f : nat) (g : file -> file) : K unit :=
  modify (fun k => k <| fsys ::= fun s => s <| ftable ::= alter g f |> |>).

Definition fileinit : K unit := initlock FtableLock.

Definition filealloc : K (option nat) :=
  acquire FtableLock ;;
  l ← gets (fun k => ftable (fsys k)) ;
  match fst <$> list_find (fun x => fref x = 0) l with
  | Some f =>
      upd_file f (fun x => x <| fref := 1 |>) ;;
      release FtableLock ;;
      mret (Some f)
  | None => release FtableLock ;; mret None
  end.

Definition filedup (f : nat) : K nat :=
  acquire FtableLock ;;
  x ← gets (fun k => file_at k f) ;
  if fref x <? 1 then panic "filedup"
  else
    r ← sadd (fref x) 1 ;
    upd_file f (fun x => x <| fref := r |>) ;;
    release FtableLock ;;
    mret f.

(** The inode of a file; [None] is the null pointer. *)
Definition inode_of (x : file) : K nat :=
  match fip x with Some ip => mret ip | None => undef "null inode" end.

Section file.
Context {D : BlockDriver} {DS : DevSw} (fuel : nat).

Definition fileclose (f : nat) : K unit :=
  acquire FtableLock ;;
  x ← gets (fun k => file_at k f) ;
  if fref x <? 1 then panic "fileclose"
  else
    upd_file f (fun x => x <| fref ::= (fun r => r - 1) |>) ;;
    if 0 <? fref x - 1 then release FtableLock
    else
      ff ← gets (fun k => file_at k f) ;
      upd_file f (fun x => x <| fref := 0 |> <| ftype := FD_NONE |>) ;;
      release FtableLock ;;
      match ftype ff with
      | FD_PIPE => pipeclose (fpipe ff) (writable ff)
      | FD_INODE =>
          begin_op fuel ;;
          ip ← inode_of ff ;
          iput fuel ip ;;
          end_op fuel
      | FD_NONE => mret tt
      end.

(** [None] stands for the return value -1. *)
Definition filestat (f : nat) : K (option stat) :=
  x ← gets (fun k => file_at k f) ;
  if bool_decide (ftype x = FD_INODE) then
    ip ← inode_of x ;
    ilock fuel ip ;;
    st ← stati ip ;
    iunlock ip ;;
    mret (Some st)
  else mret None.

(** The result and the bytes stored at [addr]. *)
Definition fileread (f : nat) (n : Z) : K (Z * list Z) :=
  x ← gets (fun k => file_at k f) ;
  if negb (readable x) then mret (-1, [])
  else
    match ftype x with
    | FD_PIPE => piperead fuel (fpipe x) n
    | FD_INODE =>
        ip ← inode_of x ;
        ilock fuel ip ;;
        off ← gets (fun k => foff (file_at k f)) ;
        r ← readi fuel ip off (u32 n) ;
        whenK (0 <? fst r) (upd_file f (fun x => x <| foff ::= (fun o => u32 (o + fst r)) |>)) ;;
        iunlock ip ;;
        mret r
    | FD_NONE => panic "fileread"
    end.

(** The chunks [filewrite] writes in one transaction each. *)
Definition filewrite_max : Z := (LOGSIZE - 1 - 1 - 2) / 2 * 512.

(** [addr] are the bytes from [addr + i] on; false after an error. *)
Fixpoint filewrite_loop (left : nat) (f ip : nat) (addr : list Z) : K bool :=
  match addr with
  | [] => mret true
  | _ =>
      match left with
      | O => out_of_fuel
      | S left' =>
          let n1 := Z.min (Z.of_nat (length addr)) filewrite_max in
          begin_op fuel ;;
          ilock fuel ip ;;
          off ← gets (fun k => foff (file_at k f)) ;
          r ← writei fuel ip (take (Z.to_nat n1) addr) off ;
          whenK (0 <? r) (upd_file f (fun x => x <| foff ::= (fun o => u32 (o + r)) |>)) ;;
          iunlock ip ;;
          end_op fuel ;;
          if r <? 0 then mret false
          else if negb (r =? n1) then panic "short filewrite"
          else filewrite_loop left' f ip (drop (Z.to_nat r) addr)
      end
  end.

Definition filewrite (f : nat) (addr : list Z) : K Z :=
  x ← gets (fun k => file_at k f) ;
  if negb (writable x) then mret (-1)
  else
    match ftype x with
    | FD_PIPE => pipewrite fuel (fpipe x) addr
    | FD_INODE =>
        ip ← inode_of x ;
        ok ← filewrite_loop (length addr) f ip addr ;
        mret (if ok : bool then Z.of_nat (length addr) else -1)
    | FD_NONE => panic "filewrite"
    end.

(** ** [pipealloc] *)

(** The buffer of a new pipe holds what was in its page, behind the lock's 52 bytes. *)
Definition new_pipe (m : memory) (p : Z) : pipe :=
  mkPipe ((fun j => m (p + 52 + j)) <$> seqZ 0 PIPESIZE) 0 0 1 1.

(** The error exit. *)
Definition pipealloc_bad (p : Z) (f0 f1 : option nat) : K (option (nat * nat)) :=
  whenK (negb (p =? 0)) (kfree p) ;;
  match f0 with Some f => fileclose f | None => mret tt end ;;
  match f1 with Some f => fileclose f | None => mret tt end ;;
  mret None.

(** The two files, or [None] for the return value -1. *)
Definition pipealloc : K (option (nat * nat)) :=
  f0 ← filealloc ;
  match f0 with
  | None => pipealloc_bad 0 None None
  | Some f0' =>
      f1 ← filealloc ;
      match f1 with
      | None => pipealloc_bad 0 f0 None
      | Some f1' =>
          p ← kalloc ;
          if p =? 0 then pipealloc_bad 0 f0 f1
          else
            modify (fun k => k <| pipes ::= <[p := new_pipe (mem k) p]> |>) ;;
            initlock (PipeLock p) ;;
            upd_file f0' (fun x => x <| ftype := FD_PIPE |> <| readable := true |> <| writable := false |> <| fpipe := p |>) ;;
            upd_file f1' (fun x => x <| ftype := FD_PIPE |> <| readable := false |> <| writable := true |> <| fpipe := p |>) ;;
            mret (Some (f0', f1'))
      end
  end.
End file.

(** ** The file table *)

(** A slot without references has been closed, or never opened. *)
Definition ftable_ok (k : kernel) : Prop :=
  length (ftable (fsys k)) = NFILE /\ forall f, fref (file_at k f) = 0 -> ftype (file_at k f) = FD_NONE.

Definition set_files (l : list file) (k : kernel) : kernel := k <| fsys ::= upd ftable (fun _ => l) |>.

Lemma set_files_id k : set_files (ftable (fsys k)) k = k.
Proof. unfold set_files. kernel_ext. simpl. by destruct (fsys k). Qed.

Lemma file_slot (l : list file) f g j : (f < length l)%nat ->
  alter g f l !!! j = if decide (j = f) then g (l !!! f) else l !!! j.
Proof. intros Hf. case_decide as E; [subst; by apply alter_same|by apply alter_other]. Qed.

(** [filealloc] takes the first slot without references. *)
Lemma filealloc_spec k : FtableLock ∉ held k -> length (ftable (fsys k)) = NFILE ->
  (exists f, (f < NFILE)%nat /\ fref (file_at k f) = 0 /\
     filealloc k = Ret (Some f) (set_files (alter (fun x => x <| fref := 1 |>) f (ftable (fsys k))) k)) \/
  ((forall f, (f < NFILE)%nat -> fref (file_at k f) <> 0) /\ filealloc k = Ret None k).
Proof.
  intros Hh Hl. unfold filealloc, upd_file. kunfold. rewrite acquire_ok by done. cbn [obind].
  change (ftable (fsys (k <| held ::= cons FtableLock |>))) with (ftable (fsys k)).
  destruct (fst <$> list_find (fun x => fref x = 0) (ftable (fsys k))) as [f|] eqn:E; cbn [obind].
  - left. destruct (list_find_total _ _ _ E) as [Hf H0]. exists f. split_and!; [lia|done|].
    by rewrite (release_ok _ (held k)).
  - right. rewrite (release_ok _ (held k)) by done. cbn [obind]. split; [|apply (f_equal (Ret _)); kernel_ext].
    intros f Hf. apply (list_find_total_None _ _ _ E). lia.
Qed.

Lemma alter_id_at (l : list file) f g : g (l !!! f) = l !!! f -> alter g f l = l.
Proof.
  intros Hg. apply list_eq. intros j. destruct (decide (f = j)) as [<-|Hne]; [|by apply list_lookup_alter_ne].
  rewrite list_lookup_alter_eq. destruct (l !! f) as [x|] eqn:E; simpl; [|done].
  apply list_lookup_total_correct in E as Et. rewrite Et in Hg. by rewrite Hg.
Qed.

Section pipealloc.
Context {D : BlockDriver} (fuel : nat).

(** Closing a file that was just allocated undoes the allocation. *)
Lemma fileclose_fresh k f : FtableLock ∉ held k -> ftable_ok k -> (f < NFILE)%nat -> fref (file_at k f) = 0 ->
  fileclose fuel f (set_files (alter (fun x => x <| fref := 1 |>) f (ftable (fsys k))) k) = Ret tt k.
Proof.
  intros Hh [Hl Ht] Hf H0. specialize (Ht f H0). unfold fileclose, upd_file. kunfold. rewrite acquire_ok by done. cbn [obind].
  unfold file_at in *. set (l := ftable (fsys k)) in *. simpl.
  rewrite !(file_slot l f) by lia. rewrite decide_True by done. simpl.
  rewrite (release_ok _ (held k)) by done. simpl. rewrite !alter_alter. simpl.
  rewrite !(file_slot l f) by lia. rewrite decide_True by done. simpl. rewrite Ht. f_equal. kernel_ext. simpl.
  destruct (fsys k) as [fl ic sb fi] eqn:E. unfold upd, upd_ftable, upd_icache, upd_ksb, upd_first. simpl. f_equal. change fl with l.
  rewrite !alter_alter. apply alter_id_at. destruct (l !!! f) as [t r rd wr fp ip off]. simpl in *. by subst.
Qed.
Lemma new_pipe_ok m p : pipe_ok (new_pipe m p) /\ queue (new_pipe m p) = [].
Proof. split; [split; [unfold new_pipe; cbn [pdata]; by rewrite length_fmap, length_seqZ|done..]|done]. Qed.

(** C34. [pipealloc] makes both ends of an empty pipe in a page of its own, in two slots nobody
    referred to, or fails and leaves files and pages as they were; it fails only if a slot
    or a page is missing. *)
Theorem pipealloc_all_or_nothing k l :
  FtableLock ∉ held k -> ftable_ok k -> free_rep k l ->
  match pipealloc fuel k with
  | Ret (Some (f0, f1)) k' => exists p l',
      l = p :: l' /\ free_rep k' l' /\ f0 <> f1 /\
      fref (file_at k f0) = 0 /\ fref (file_at k f1) = 0 /\
      (ftype (file_at k' f0) = FD_PIPE /\ fref (file_at k' f0) = 1 /\ readable (file_at k' f0) = true /\
       writable (file_at k' f0) = false /\ fpipe (file_at k' f0) = p) /\
      (ftype (file_at k' f1) = FD_PIPE /\ fref (file_at k' f1) = 1 /\ readable (file_at k' f1) = false /\
       writable (file_at k' f1) = true /\ fpipe (file_at k' f1) = p) /\
      (forall f, f <> f0 -> f <> f1 -> file_at k' f = file_at k f) /\
      exists x, pipes k' = <[p := x]> (pipes k) /\ pipe_ok x /\ queue x = [] /\ readopen x = 1 /\ writeopen x = 1
  | Ret None k' => k' = k /\
      (l = [] \/ exists f0, forall f, (f < NFILE)%nat -> f <> f0 -> fref (file_at k f) <> 0)
  | _ => False
  end.
Proof.
  intros Hh Hok Hr. pose proof Hok as [Hl Ht]. unfold pipealloc, mbind, K_bind.
  destruct (filealloc_spec k Hh Hl) as [(f0 & Hf0 & H0 & ->) | [Hno ->]]; cbn [obind].
  2: { unfold pipealloc_bad. kunfold. cbn [obind]. split; [done|]. right. exists 0%nat. intros f Hf _. by apply Hno. }
  set (k1 := set_files (alter (fun x => x <| fref := 1 |>) f0 (ftable (fsys k))) k).
  assert (forall f, file_at k1 f = if decide (f = f0) then file_at k f0 <| fref := 1 |> else file_at k f) as Hat1.
  { intros f. unfold file_at. apply file_slot. lia. }
  assert (length (ftable (fsys k1)) = NFILE) as Hl1 by (simpl; by rewrite length_alter).
  destruct (filealloc_spec k1 Hh Hl1) as [(f1 & Hf1 & H1 & ->) | [Hno ->]]; cbn [obind].
  2: { unfold pipealloc_bad. kunfold. cbn [obind Z.eqb negb]. unfold k1 at 1. rewrite fileclose_fresh by done. cbn [obind]. split; [done|]. right.
       exists f0. intros f Hf Hne. specialize (Hno f Hf). by rewrite Hat1, decide_False in Hno by done. }
  assert (f1 <> f0) as Hne by (intros ->; by rewrite Hat1, decide_True in H1 by done).
  rewrite Hat1, decide_False in H1 by done.
  set (k2 := set_files (alter (fun x => x <| fref := 1 |>) f1 (ftable (fsys k1))) k1).
  destruct l as [|p l].
  - rewrite (kalloc_none k2 Hr). cbn [obind]. change (0 =? 0) with true. cbv iota. unfold pipealloc_bad. kunfold. cbn [obind Z.eqb negb].
    set (k2' := set_files (alter (fun x => x <| fref := 1 |>) f1 (ftable (fsys k))) k).
    assert (k2 = set_files (alter (fun x => x <| fref := 1 |>) f0 (ftable (fsys k2'))) k2') as ->.
    { unfold k2, k2', k1, set_files. kernel_ext. simpl. by rewrite list_alter_alter_ne. }
    assert (forall f, file_at k2' f = if decide (f = f1) then file_at k f1 <| fref := 1 |> else file_at k f) as Hat2.
    { intros f. unfold file_at. apply file_slot. lia. }
    rewrite fileclose_fresh; [|done| |done|by rewrite Hat2, decide_False]. 2: {
      split; [simpl; by rewrite length_alter|]. intros f. rewrite Hat2. case_decide; [done|apply Ht]. }
    cbn [obind]. unfold k2'. rewrite fileclose_fresh by done. cbn [obind]. split; [done|by left].
  - destruct (kalloc_take k2 p l Hr) as (k3 & -> & F3 & M3 & Hr3 & Hp0). cbn [obind]. rewrite (proj2 (Z.eqb_neq p 0)) by done.
    unfold upd_file, initlock. kunfold. cbn [obind]. exists p, l.
    assert (fsys k3 = fsys k2) as Ef by (by rewrite F3).
    assert (forall f, file_at k3 f = if decide (f = f1) then file_at k f1 <| fref := 1 |> else
              if decide (f = f0) then file_at k f0 <| fref := 1 |> else file_at k f) as Hat3.
    { intros f. unfold file_at at 1. rewrite Ef. change (file_at k2 f = if decide (f = f1) then file_at k f1 <| fref := 1 |> else
              if decide (f = f0) then file_at k f0 <| fref := 1 |> else file_at k f).
      rewrite <- Hat1. unfold k2. unfold file_at at 1. simpl. rewrite file_slot by (rewrite length_alter; lia).
      case_decide; [|done]. subst. f_equal. change (file_at k1 f1 = file_at k f1). by rewrite Hat1, decide_False. }
    assert (length (ftable (fsys k3)) = NFILE) as Hl3 by (rewrite Ef; simpl; by rewrite !length_alter).
    unfold file_at at 3 4 5 6 7 8 9 10 11 12 13. simpl. rewrite !(file_slot _ f1) by (rewrite ?length_alter; lia).
    rewrite (decide_True (P := f1 = f1)), (decide_False (P := f0 = f1)) by done. rewrite !(file_slot _ f0) by lia.
    rewrite (decide_True (P := f0 = f0)), (decide_False (P := f1 = f0)) by done.
    change (ftable (fsys k3) !!! f0) with (file_at k3 f0). change (ftable (fsys k3) !!! f1) with (file_at k3 f1). rewrite !Hat3.
    rewrite (decide_True (P := f0 = f0)), (decide_True (P := f1 = f1)), (decide_False (P := f0 = f1)) by done. simpl.
    split_and!; try done.
    + destruct Hr3 as (C1 & C2 & C3 & C4 & C5 & C6). split_and!; try done. intros Hu Hin. apply (C6 Hu).
      by apply list_elem_of_filter in Hin as [_ Hin].
    + intros f Hn0 Hn1. unfold file_at at 1. simpl. rewrite file_slot by (rewrite length_alter; lia). rewrite decide_False by done.
      rewrite file_slot by lia. rewrite decide_False by done. change (file_at k3 f = file_at k f). rewrite Hat3. by rewrite !decide_False by done.
    + exists (new_pipe (mem k3) p). assert (pipes k3 = pipes k) as -> by (by rewrite F3).
      destruct (new_pipe_ok (mem k3) p). done.
Qed.
End pipealloc.

Lemma kernel0_file f : file_at kernel0 f = zero_file.
Proof.
  unfold file_at. destruct (decide (f < NFILE)%nat) as [Hf|Hf].
  - by apply lookup_total_replicate_2.
  - rewrite list_lookup_total_alt, lookup_ge_None_2; [done|]. change (length (ftable (fsys kernel0))) with NFILE. lia.
Qed.

Lemma small_files : ftable_ok small.
Proof. split; [done|]. intros f _. change (file_at small f) with (file_at kernel0 f). by rewrite kernel0_file. Qed.

Lemma pipealloc_all_or_nothing_witness :
  exists r k', @pipealloc Disk.ide 0 small = Ret r k'.
Proof.
  pose proof (@pipealloc_all_or_nothing Disk.ide 0 small [small_dir + 12288] (not_elem_of_nil _) small_files
    (vs_free _ _ _ _ _ (as_space _ _ _ _ _ _ small_ok))) as H.
  destruct (@pipealloc Disk.ide 0 small) as [r k'|m|m| |k' r].
  - exists r, k'. reflexivity.
  - destruct H.
  - destruct H.
  - destruct H.
  - destruct H.
Defined.
