(* ===== verification/Filewrite.v ===== *)
(** * Filewrite: writing to a file, down to the disk

    [filewrite] (file.c) composes the transactions of log.c, the locking of inodes and
    [writei].  Writing is shown to replace the bytes of the file on disk, piece by piece: a
    crash at any moment, with any number of crashes during recovery, leaves a file with a
    first part of the data written, and every other file as it was. *)
From stdpp Require Import base list list_numbers gmap strings functions sorting relations.
From Stdlib Require Import ZArith Lia.
From S2P Require Import Prelude Mem Layout Machine Kalloc Sched Sleeplock Disk Bio Log Vm Fs Tx Blocks Inode Contents Pipe File.
Local Open Scope Z_scope.

(** ** The blocks outside the log *)

(** The superblock, and all from the inodes on. *)
Definition home (sb : superblock) (m : Z) : Prop := m = 1 \/ sb_inodestart sb <= m < sb_size sb.
Definition agree (sb : superblock) (V V' : Z -> list Z) : Prop := forall m, home sb m -> V' m = V m.

Section agree.
Context (sb : superblock) (V V' : Z -> list Z) (Hag : agree sb V V') (Hfs : fs_ok V sb).

Lemma agree_bmap : V' (sb_bmapstart sb) = V (sb_bmapstart sb).
Proof using All. apply Hag. right. pose proof (fs_ok_bmap _ _ Hfs). lia. Qed.

Lemma agree_fs_ok : fs_ok V' sb.
Proof using All.
  split; [rewrite Hag by (by left); apply Hfs|apply Hfs| |].
  - intros n Hn. rewrite Hag by (by right). by apply (fo_block _ _ Hfs).
  - rewrite agree_bmap. apply Hfs.
Qed.

Lemma agree_free : free_blocks V' sb = free_blocks V sb.
Proof using All. unfold free_blocks. by rewrite agree_bmap. Qed.

Lemma agree_in_file ip m : file_ok V sb ip -> in_file V ip m -> V' m = V m.
Proof using All.
  intros Hfi Hm. apply Hag. right. destruct (in_file_range _ _ _ _ Hfi Hm). pose proof (fs_ok_bmap _ _ Hfs). lia.
Qed.

Lemma agree_iblock n : 0 <= n < sb_ninodes sb -> V' (IBLOCK n sb) = V (IBLOCK n sb).
Proof using All.
  intros Hn. apply Hag. right. pose proof (iblock_range _ _ _ Hfs Hn). pose proof (fs_ok_bmap _ _ Hfs). lia.
Qed.

Lemma agree_file ip : file_state V sb ip -> file_state V' sb ip.
Proof using All.
  intros H. pose proof (fs_file _ _ _ H) as Hfi. pose proof (fun m => agree_in_file ip m Hfi) as Hs.
  apply (file_state_change V); [done|..].
  - apply (apart_file_ok sb V); [done..|]. rewrite agree_free. intros m Hm. by apply (in_file_range _ _ _ _ Hfi).
  - apply (apart_whole V); [done|apply H].
  - rewrite agree_iblock by apply (fs_inum _ _ _ H). apply (fs_disk _ _ _ H).
Qed.

Lemma agree_contents ip : file_state V sb ip -> contents V' ip = contents V ip.
Proof using All. intros H. apply apart_contents; [|apply H]. intros m. apply agree_in_file, H. Qed.

Lemma agree_members ip m : file_ok V sb ip -> in_file V' ip m <-> in_file V ip m.
Proof using All. intros H. apply apart_in_file. intros m'. by apply agree_in_file. Qed.
End agree.

(** ** Files as they are on disk *)
Definition disk_inode (d : Z -> list Z) (sb : superblock) (n : Z) : inode :=
  get_dinode (d (IBLOCK n sb)) (dinode_off n) (zero_inode <| idev := 1 |> <| inum := n |>).
Definition disk_contents (d : Z -> list Z) (sb : superblock) (n : Z) : list Z := contents d (disk_inode d sb n).

Lemma contents_fields V ip ip' : addrs ip' = addrs ip -> isize ip' = isize ip -> contents V ip' = contents V ip.
Proof.
  intros Ha Hs. unfold contents. rewrite Hs. apply list_fmap_ext. intros t o _. unfold byte, ptr. by rewrite Ha.
Qed.

Lemma disk_contents_eq V sb ip : file_state V sb ip -> disk_contents V sb (inum ip) = contents V ip.
Proof.
  intros H. pose proof (fs_disk _ _ _ H) as E. apply contents_fields.
  - rewrite <- E at 2. done.
  - rewrite <- E at 2. done.
Qed.

Lemma agree_disk sb V d ip : agree sb V d -> fs_ok V sb -> file_state V sb ip ->
  disk_contents d sb (inum ip) = contents V ip.
Proof.
  intros Hag Hfs H. rewrite disk_contents_eq by (by eapply agree_file). by apply (agree_contents sb).
Qed.

(** ** Writes in sequence *)
Lemma splice_nil (c : list Z) o : splice c o [] = c.
Proof. unfold splice. simpl. rewrite Nat.add_0_r. apply take_drop. Qed.

Lemma splice_splice (c s1 s2 : list Z) o : (o <= length c)%nat ->
  splice (splice c o s1) (o + length s1) s2 = splice c o (s1 ++ s2).
Proof.
  intros Ho. unfold splice. assert (length (take o c) = o) as Hl by (rewrite length_take; lia).
  rewrite (assoc_L (++) (take o c) s1), take_app_length' by (rewrite length_app; lia).
  rewrite <- !(assoc_L (++)). do 3 f_equal. rewrite length_app. rewrite drop_app_ge by lia. rewrite drop_app_ge by lia.
  rewrite drop_drop. f_equal. lia.
Qed.

Lemma rewritten_nil sb off V ip : fs_ok V sb -> file_state V sb ip -> 0 <= off <= isize ip ->
  rewritten sb off [] V ip V ip.
Proof.
  intros Hfs Hst Ho. split; try done.
  - by rewrite splice_nil.
  - simpl. rewrite Z.max_l by lia. by destruct ip.
Qed.

Lemma rewritten_agree sb off src V ip V' ip' V'' :
  rewritten sb off src V ip V' ip' -> agree sb V' V'' -> rewritten sb off src V ip V'' ip'.
Proof.
  intros H Hag. pose proof (rw_fs _ _ _ _ _ _ _ H) as Hfs. pose proof (rw_file _ _ _ _ _ _ _ H) as Hst.
  pose proof (fs_file _ _ _ Hst) as Hfi. split; rewrite ?(agree_free sb V' V'' Hag Hfs).
  - by apply (agree_fs_ok sb V').
  - by apply (agree_file sb V').
  - rewrite (agree_contents sb V') by done. apply H.
  - apply H.
  - apply H.
  - intros m Hm. apply (agree_members sb V'); try done. by apply (rw_ptr _ _ _ _ _ _ _ H).
  - intros m Hm Hm'. apply (agree_members sb V'); try done. by apply (rw_kept _ _ _ _ _ _ _ H).
  - intros ip2 H2 Hne Hdis. destruct (rw_others _ _ _ _ _ _ _ H ip2 H2 Hne Hdis) as (H2' & <- & Hdis').
    pose proof (fs_file _ _ _ H2') as Hfi2.
    split_and!; [by apply (agree_file sb V')|by apply (agree_contents sb)|].
    intros m Hm Hm2. apply (Hdis' m); by apply (agree_members sb V' V'').
Qed.

Lemma rewritten_trans sb off s1 s2 V ip V1 ip1 V2 ip2 :
  rewritten sb off s1 V ip V1 ip1 -> rewritten sb (off + Z.of_nat (length s1)) s2 V1 ip1 V2 ip2 ->
  0 <= off <= isize ip -> rewritten sb off (s1 ++ s2) V ip V2 ip2.
Proof.
  intros H1 H2 Ho. pose proof (rw_inode _ _ _ _ _ _ _ H1) as E1. pose proof (rw_inode _ _ _ _ _ _ _ H2) as E2. split.
  - apply H2.
  - apply H2.
  - rewrite (rw_contents _ _ _ _ _ _ _ H2), (rw_contents _ _ _ _ _ _ _ H1).
    replace (Z.to_nat (off + Z.of_nat (length s1))) with (Z.to_nat off + length s1)%nat by lia.
    apply splice_splice. rewrite contents_length. lia.
  - rewrite E2, E1, length_app. simpl.
    replace (Z.max (Z.max (isize ip) (off + Z.of_nat (length s1))) (off + Z.of_nat (length s1) + Z.of_nat (length s2)))
      with (Z.max (isize ip) (off + Z.of_nat (length s1 + length s2))) by lia. done.
  - etransitivity; [apply (rw_free _ _ _ _ _ _ _ H2)|apply (rw_free _ _ _ _ _ _ _ H1)].
  - intros m Hm. by apply (rw_ptr _ _ _ _ _ _ _ H2), (rw_ptr _ _ _ _ _ _ _ H1).
  - intros m Hm Hm'. destruct (decide (m ∈ free_blocks V1 sb)).
    + by apply (rw_kept _ _ _ _ _ _ _ H2).
    + by apply (rw_ptr _ _ _ _ _ _ _ H2), (rw_kept _ _ _ _ _ _ _ H1).
  - intros ip' Hst Hne Hdis. destruct (rw_others _ _ _ _ _ _ _ H1 ip' Hst Hne Hdis) as (Hst1 & <- & Hdis1).
    apply (rw_others _ _ _ _ _ _ _ H2); [done| |done]. rewrite E1. done.
Qed.

(** ** Between transactions *)

(** Process [me] is alone and holds no buffer, every buffer agrees with the disk, and the log,
    which is before the inodes, is empty in memory and on disk. *)
Record at_rest `{BlockDriver} (me : nat) (k : kernel) : Prop := {
  ar_cache : cache_state me [] k;
  ar_clean m : ~ dirty k m;
  ar_counts : lhn (klog k) = 0 /\ outstanding (klog k) = 0 /\ committing (klog k) = false;
  ar_place : ldev (klog k) = 1 /\ 1 < lstart (klog k) /\ lstart (klog k) + lsize (klog k) <= sb_inodestart (ksb (fsys k)) /\
    18 <= lsize (klog k) <= LOGSIZE;
  ar_lhblock : length (lhblock (klog k)) = Z.to_nat LOGSIZE;
  ar_head : length (disk k 1 (lstart (klog k))) = BSIZE;
  ar_empty : logged (disk k 1 (lstart (klog k))) = [];
}.

(** File [f] is open on the unlocked inode in slot [s]. *)
Record opened (f s : nat) (k : kernel) : Prop := {
  op_file : (f < length (ftable (fsys k)))%nat /\ ftype (file_at k f) = FD_INODE /\ fip (file_at k f) = Some s;
  op_inode : (s < length (icache (fsys k)))%nat /\ 1 <= iref (inode_at k s) /\ ivalid (inode_at k s) <> 0 /\
    itype (inode_at k s) <> T_DEV;
  op_lock : slocked (slocks k (InodeLock s)) = 0;
}.

Lemma in_log_home start size sb m : 1 < start -> start + size <= sb_inodestart sb -> home sb m -> ~ in_log start size m.
Proof. unfold in_log, home. lia. Qed.

Lemma load_empty sb ip : load ∅ sb ip = 2.
Proof.
  unfold load. rewrite bool_decide_false by set_solver. replace ({[sb_bmapstart sb]} ∪ ∅ : gset Z) with ({[sb_bmapstart sb]} : gset Z) by set_solver.
  by rewrite size_singleton.
Qed.

Lemma touched_max off n : 0 <= off -> 0 <= n <= filewrite_max -> touched off n <= 14.
Proof. intros Ho Hn. change filewrite_max with 6656 in Hn. unfold touched, BSIZE. dlia. Qed.

Lemma slack_agree sb V V' ip : agree sb V V' -> fs_ok V sb -> slack V' sb ip = slack V sb ip.
Proof. intros Ha Hfs. unfold slack. by rewrite (agree_free sb V V'). Qed.

Lemma file_at_alter (F : fsstate) f g : (f < length (ftable F))%nat -> alter g f (ftable F) !!! f = g (ftable F !!! f).
Proof. intros Hf. by apply alter_same. Qed.

Section chunk.
Context {D : BlockDriver} {DL : BlockDriverLaws D} {DS : DevSw}.

Definition begun (k : kernel) : kernel := k <| klog ::= (fun l => l <| outstanding := 1 |>) |>.

Lemma begin_op_rest fuel me k : at_rest me k -> begin_op fuel k = Ret tt (begun k).
Proof using Type.
  intros H. destruct (ar_counts _ _ H) as (Hn & Ho & Hc). destruct (ar_cache _ _ H) as ((Hh & _) & _).
  unfold begin_op, upd_log. kunfold. rewrite acquire_ok by (rewrite Hh; notheld). cbn [obind].
  assert (forall left k', klog k' = klog k -> held k' = [LogLock] ->
    begin_op_loop left k' = Ret tt (k' <| klog ::= (fun l => l <| outstanding ::= (fun o => o + 1) |>) |> <| held := [] |>)) as Hl.
  { intros left k' El Eh. destruct left; cbn [begin_op_loop]; unfold upd_log; kunfold; cbn [obind];
      rewrite El, Hc, Hn, Ho; cbn [Z.add Z.mul]; (rewrite (proj2 (Z.ltb_ge _ _)) by done); cbn [obind];
      by rewrite (release_ok _ []) by (done || notheld). }
  rewrite Hl; [|done|simpl; by rewrite Hh]. f_equal. unfold begun. kernel_ext; [simpl; by rewrite Hh|].
  simpl. destruct (klog k). simpl in *. by subst.
Qed.

Lemma begun_txn me k : at_rest me k -> txn (begun k) me [] ∅ (disk k 1) (fsys k) (begun k).
Proof using DL.
  intros H. destruct (ar_counts _ _ H) as (Hn & Ho & Hc). destruct (ar_cache _ _ H) as (Hs & Hdr & Hok).
  assert (pending (klog (begun k)) = []) as Hp by (unfold pending; simpl; by rewrite Hn).
  split; try done; rewrite ?Hp; try done.
  - split; [by apply (solo_same me k)|]. split; [by apply (drv_ok_frame k)|]. by apply (cache_ok_frame [] k).
  - intros n. change (view (begun k) n) with (view k n). apply view_not_dirty; [done|apply H].
  - simpl. rewrite Hn. done.
  - apply H.
  - constructor.
  - intros b Hb Hd. exfalso. apply (ar_clean _ _ H (bblockno (buf_at k b))). exists b. split; [|done].
    split; [done|]. split; [|done]. by apply (co_dirty _ _ Hok).
Qed.

(** Locks of inodes are not the transaction's business. *)
Lemma tx_ilock k0 me L P V F k s v : txn k0 me L P V F k ->
  txn (set_sleeplock (InodeLock s) v k0) me L P V F (set_sleeplock (InodeLock s) v k).
Proof using DL.
  intros H. destruct (tx_cache _ _ _ _ _ _ _ H) as (Hs & Hdr & Hok).
  split; try apply H.
  - split; [by apply (solo_same me k)|]. split; [by apply (drv_ok_frame k)|]. destruct Hok. by split.
  - destruct (tx_frame_ _ _ _ _ _ _ _ H) as (Hr & Hd & Hw & Hl). split_and!; try done.
    exact (f_equal (fun '(a, b, c, d, e, f, g, h, l, m, n, o, p, q) =>
      (a, b, c, d, e, f, g, h, l, m, n, o, p, fun n => if decide (InodeLock s = InodeLock n) then v else q n)) Hr).
Qed.

Lemma tx_ilocked k0 me L P V F k s : txn k0 me L P V F k -> slocks k (InodeLock s) = slocks k0 (InodeLock s).
Proof using Type.
  intros H. destruct (tx_frame_ _ _ _ _ _ _ _ H) as (Hr & _).
  exact (f_equal (fun '(_, _, _, _, _, _, _, _, _, _, _, _, _, q) => q s) Hr).
Qed.

(** The end of the transaction. *)
Lemma txn_commit_ready k0 me P V F k sb :
  txn k0 me [] P V F k -> P <> ∅ -> Z.of_nat (size P) < lsize (klog k0) -> (forall m, m ∈ P -> sb_inodestart sb <= m < FSSIZE) ->
  ldev (klog k0) = 1 -> 1 < lstart (klog k0) -> lstart (klog k0) + lsize (klog k0) <= sb_inodestart sb ->
  sb_inodestart sb <= FSSIZE -> lsize (klog k0) <= LOGSIZE ->
  length (disk k0 1 (lstart (klog k0))) = BSIZE -> logged (disk k0 1 (lstart (klog k0))) = [] ->
  commit_ready me (closing k) (pending (klog k)).
Proof using DL.
  intros H Hne Hsz Hrange Hdev Hst Hpl Hfs Hmax Hhd Hem. destruct (tx_cache _ _ _ _ _ _ _ H) as (Hs & Hdr & Hok).
  destruct (tx_frame_ _ _ _ _ _ _ _ H) as (_ & Hd & _ & Hl). unfold log_fixed in Hl.
  assert (lstart (klog k) = lstart (klog k0) /\ lsize (klog k) = lsize (klog k0) /\ ldev (klog k) = ldev (klog k0))
    as (E1 & E2 & E3) by (simplify_eq; split_and!; congruence).
  pose proof (tx_size _ _ _ _ _ _ _ H) as Hn. pose proof (tx_pending _ _ _ _ _ _ _ H) as HP.
  assert (forall m, m ∈ pending (klog k) <-> m ∈ P) as Hin by (intros m; rewrite <- HP; by rewrite elem_of_list_to_set).
  assert (length (pending (klog k)) = Z.to_nat (lhn (klog k))) as Hlen.
  { unfold pending. rewrite length_take, (tx_lhblock _ _ _ _ _ _ _ H). pose proof (tx_lhn _ _ _ _ _ _ _ H). lia. }
  split.
  - split; [by apply (solo_same me k)|]. split; [by apply (drv_ok_frame k)|]. by apply (cache_ok_frame [] k).
  - split_and!; [done|simpl; lia|]. intros j n Hj. pose proof (lookup_lt_Some _ _ _ Hj) as Hlt.
    unfold pending in Hj. rewrite lookup_take_lt in Hj by lia. by rewrite Z.add_0_l, Nat2Z.id.
  - split_and!; simpl; rewrite ?E1, ?E2, ?E3; try lia. intros n Hn'. apply Hin, Hrange in Hn'.
    split; [unfold block_ok; lia|unfold in_log; lia].
  - apply H.
  - intros E. apply Hne. rewrite <- HP, E. done.
  - simpl. by rewrite E2.
  - intros m. rewrite Hin. split; [|by apply (tx_pinned _ _ _ _ _ _ _ H)].
    intros (b & (Hb & _ & <-) & Hdi). by apply (tx_dirty _ _ _ _ _ _ _ H).
  - change (length (disk k 1 (lstart (klog k))) = BSIZE). by rewrite Hd, E1.
  - change (logged (disk k 1 (lstart (klog k))) = []). by rewrite Hd, E1.
Qed.

(** *** One piece *)
Record chunk_done (me f s : nat) (off : Z) (src : list Z) (k k' : kernel) : Prop := {
  cd_rest : at_rest me k';
  cd_log : lstart (klog k') = lstart (klog k);
  cd_sb : ksb (fsys k') = ksb (fsys k);
  cd_open : opened f s k';
  cd_off : foff (file_at k' f) = off + Z.of_nat (length src);
  cd_written : rewritten (ksb (fsys k)) off src (disk k 1) (inode_at k s) (disk k' 1) (inode_at k' s);
  cd_slack : slack (disk k 1) (ksb (fsys k)) (inode_at k s) - touched off (Z.of_nat (length src)) <=
    slack (disk k' 1) (ksb (fsys k)) (inode_at k' s);
  cd_crash : exists W, dwrites k' = dwrites k ++ (on1 <$> W) /\ disk k' 1 = apply1 W (disk k 1) /\
    forall P d, P `prefix_of` W -> rtc (recovery_crash (lstart (klog k))) (apply1 P (disk k 1)) d ->
      let d' := apply1 (recover_writes (lstart (klog k)) d) d in
      agree (ksb (fsys k)) (disk k 1) d' \/ agree (ksb (fsys k)) (disk k' 1) d';
}.

Lemma ilock_valid fuel me s k : solo me k -> 1 <= iref (inode_at k s) -> ivalid (inode_at k s) <> 0 ->
  slocked (slocks k (InodeLock s)) = 0 ->
  ilock fuel s k = Ret tt (set_sleeplock (InodeLock s) (mkSleeplock 1 (pid (ptable k !!! me))) k).
Proof using Type.
  intros (Hh & Hc & _) Hr Hv Hl. unfold ilock. kunfold. cbn [obind]. rewrite (proj2 (Z.ltb_ge _ _)) by lia.
  rewrite (acquiresleep_free fuel me) by (done || (rewrite Hh; notheld)). cbn [obind].
  change (inode_at (set_sleeplock _ _ k) s) with (inode_at k s). by rewrite (proj2 (Z.eqb_neq _ _) Hv).
Qed.

Lemma iunlock_held me s k : solo me k -> 1 <= iref (inode_at k s) -> slocked (slocks k (InodeLock s)) <> 0 ->
  iunlock s k = Ret tt (set_sleeplock (InodeLock s) (mkSleeplock 0 0) k).
Proof using Type.
  intros Hs Hr Hl. pose proof Hs as (Hh & _). unfold iunlock. kunfold.
  rewrite holdingsleep_spec by (rewrite Hh; notheld). cbn [obind]. rewrite (proj2 (Z.eqb_neq _ _) Hl), (proj2 (Z.ltb_ge _ _)) by lia.
  cbn [negb orb]. apply releasesleep_quiet; [by eapply solo_no_sleeper|rewrite Hh; notheld..].
Qed.

(** Ending the transaction brings the file system to the disk. *)
Lemma end_op_txn fuel k0 me P V F k sb :
  (0 < fuel)%nat -> txn k0 me [] P V F k -> P <> ∅ -> Z.of_nat (size P) < lsize (klog k0) ->
  (forall m, m ∈ P -> sb_inodestart sb <= m < FSSIZE) -> sb = ksb F -> sb_inodestart sb <= FSSIZE ->
  outstanding (klog k0) = 1 -> committing (klog k0) = false ->
  ldev (klog k0) = 1 -> 1 < lstart (klog k0) -> lstart (klog k0) + lsize (klog k0) <= sb_inodestart sb ->
  18 <= lsize (klog k0) <= LOGSIZE -> length (disk k0 1 (lstart (klog k0))) = BSIZE -> logged (disk k0 1 (lstart (klog k0))) = [] ->
  returns (alone idle (end_op fuel k)) (fun _ k' =>
    at_rest me k' /\ fsys k' = F /\ lstart (klog k') = lstart (klog k0) /\
    (forall n, slocks k' (InodeLock n) = slocks k0 (InodeLock n)) /\ agree sb V (disk k' 1) /\
    exists W, dwrites k' = dwrites k0 ++ (on1 <$> W) /\ disk k' 1 = apply1 W (disk k0 1) /\
      forall P d, P `prefix_of` W -> rtc (recovery_crash (lstart (klog k0))) (apply1 P (disk k0 1)) d ->
        let d' := apply1 (recover_writes (lstart (klog k0)) d) d in agree sb (disk k0 1) d' \/ agree sb V d').
Proof using DL.
  intros Hfu H Hne Hsz Hrange Hsb Hfs Ho Hc Hdev Hst Hpl Hmax Hhd Hem.
  pose proof (txn_commit_ready k0 me P V F k sb H Hne Hsz Hrange Hdev Hst Hpl Hfs ltac:(lia) Hhd Hem) as Hcr.
  destruct (tx_frame_ _ _ _ _ _ _ _ H) as (Hr & Hd & Hw & Hl). unfold log_fixed in Hl.
  assert (lstart (klog k) = lstart (klog k0) /\ lsize (klog k) = lsize (klog k0) /\ ldev (klog k) = ldev (klog k0) /\
    outstanding (klog k) = 1 /\ committing (klog k) = false) as (E1 & E2 & E3 & E4 & E5) by (simplify_eq; split_and!; congruence).
  eapply returns_mono; [by apply (end_op_spec fuel me k (pending (klog k)))|]. cbv zeta. intros _ k' [Hk Hhome].
  pose proof (fi_log _ _ _ _ _ _ _ _ Hk) as Hlk. pose proof (fi_disk _ _ _ _ _ _ _ _ Hk) as Hdk.
  set (W := commit_writes _ _ _ _) in *.
  assert (disk k' 1 = apply1 W (disk k0 1)) as Hdk1 by (by rewrite Hdk, apply_writes_on1, Hd).
  assert (fsys k' = F /\ forall n, slocks k' (InodeLock n) = slocks k0 (InodeLock n)) as [Hfk Hik].
  { pose proof (fi_core _ _ _ _ _ _ _ _ Hk) as Hco. split.
    - destruct (same_core_rest _ _ Hco) as [_ ->]. apply H.
    - intros n. rewrite <- (tx_ilocked _ _ _ _ _ _ _ n H). destruct (same_core_rest _ _ Hco) as [Hr' _].
      exact (f_equal (fun '(_, _, _, _, _, _, _, _, _, _, _, _, _, q) => q n) Hr'). }
  destruct (commit_clears (lstart (klog k)) (disk k 1 (lstart (klog k))) (view k) (pending (klog k)) (disk k0 1)) as [Hlen Hlog];
    [by rewrite Hd, E1|]. fold W in Hlen, Hlog.
  assert (forall m, home sb m -> ~ in_log (lstart (klog k0)) (lsize (klog k0)) m) as Hnl by (intros m; by apply in_log_home).
  split_and!; try done.
  - split; rewrite ?Hlk, ?Hdk1; simpl; try done.
    + apply Hk.
    + intros m Hm. apply (fi_dirty _ _ _ _ _ _ _ _ Hk) in Hm. by apply elem_of_nil in Hm.
    + rewrite Hfk, <- Hsb, E1, E2, E3. done.
    + apply H.
  - by rewrite Hlk.
  - intros m Hm. rewrite Hhome by (rewrite E1, E2; by apply Hnl). apply H.
  - exists W. split; [by rewrite (fi_writes _ _ _ _ _ _ _ _ Hk), Hw|]. split; [done|]. intros P' d HP' Hd'. cbv zeta.
    pose proof (commit_ready_crash me (closing k) (pending (klog k)) P' d Hcr) as Hcrash.
    change (lstart (klog (closing k))) with (lstart (klog k)) in Hcrash. change (lsize (klog (closing k))) with (lsize (klog k)) in Hcrash.
    change (disk (closing k)) with (disk k) in Hcrash. change (view (closing k)) with (view k) in Hcrash.
    rewrite Hd, E1, E2 in Hcrash. unfold W in HP'. rewrite Hd, E1 in HP'.
    destruct (Hcrash HP' Hd') as [Hold|Hnew]; [left|right]; intros m Hm.
    + by apply Hold, Hnl.
    + rewrite Hnew by (by apply Hnl). apply H.
Qed.

Lemma chunk_spec fuel me f s src k {A} (cont : Z -> K A) Q :
  let sb := ksb (fsys k) in let ip := inode_at k s in let off := foff (file_at k f) in let n := Z.of_nat (length src) in
  (0 < fuel)%nat -> at_rest me k -> opened f s k -> fs_ok (disk k 1) sb -> file_state (disk k 1) sb ip ->
  0 <= off <= isize ip -> 0 < n <= filewrite_max -> off + n <= MAXFILE * BLK -> Forall (fun x => 0 <= x < 256) src ->
  touched off n < slack (disk k 1) sb ip ->
  (forall k', chunk_done me f s off src k k' -> returns (alone idle (cont n k')) Q) ->
  returns (alone idle ((
    begin_op fuel ;;
    ilock fuel s ;;
    off ← gets (fun k => foff (file_at k f)) ;
    r ← writei fuel s src off ;
    whenK (0 <? r) (upd_file f (fun x => x <| foff ::= (fun o => u32 (o + r)) |>)) ;;
    iunlock s ;;
    end_op fuel ;;
    cont r) k)) Q.
Proof using DL.
  intros sb ip off n Hfu Hrest Hop Hfs Hst Ho Hn Hmax Hsrc Hsl Hcont.
  destruct (ar_cache _ _ Hrest) as (Hsolo & _). destruct (ar_place _ _ Hrest) as (Hdev & Hls & Hpl & Hsz).
  destruct (op_inode _ _ _ Hop) as (Hs & Hir & Hiv & Hty). destruct (op_file _ _ _ Hop) as (Hf & Hft & Hfi).
  destruct (ar_counts _ _ Hrest) as (_ & _ & Hcom). pose proof (fo_geometry _ _ Hfs) as (_ & _ & Hg & Hfss).
  pose proof (fs_ok_bmap _ _ Hfs) as Hbm.
  unfold mbind at 1, K_bind at 1. rewrite (begin_op_rest fuel me k Hrest). cbn [obind].
  unfold mbind at 1, K_bind at 1. rewrite (ilock_valid fuel me) by (done || by apply (solo_same me k) || apply (op_lock _ _ _ Hop)). cbn [obind].
  set (k1 := set_sleeplock (InodeLock s) _ (begun k)).
  assert (txn k1 me [] ∅ (disk k 1) (fsys k) k1) as H1 by (apply tx_ilock; by apply begun_txn).
  unfold gets at 1. unfold mbind at 1, K_bind at 1. cbn [obind]. change (foff (file_at k1 f)) with off.
  assert (log_cap k1 = Z.min (LOGSIZE - 1) (lsize (klog k) - 1)) as Hcap by done.
  assert (LOGSIZE = 30) as EL by done. pose proof (touched_max off n ltac:(lia) ltac:(lia)) as Ht.
  assert (MAXFILE * BLK = 71680) as EM by done.
  eapply alone_bind.
  { apply (writei_spec k1 fuel me s ∅ (disk k 1) (fsys k) k1 src off); try done; try (fold n; lia).
    change (ksb (fsys k)) with sb. change (icache (fsys k) !!! s) with ip. fold n. rewrite load_empty. lia. }
  change (icache (fsys k) !!! s) with ip. change (ksb (fsys k)) with sb. fold n.
  rewrite (proj2 (Z.ltb_ge (isize ip) off)), (proj2 (Z.ltb_ge (MAXFILE * BLK) (off + n))) by lia. cbn [orb].
  intros r k2 (-> & V' & ip' & P' & H2 & Hrw & HPne & HPsz & Hsl' & HPr).
  unfold whenK at 1. rewrite (proj2 (Z.ltb_lt 0 n)) by lia. unfold upd_file at 1, modify at 1. unfold mbind at 1, K_bind at 1. cbn [obind].
  apply (tx_tables k1 me _ _ _ _ _ (upd ftable (alter (fun x => x <| foff ::= (fun o => u32 (o + n)) |>) f))) in H2.
  set (F2 := upd ftable _ _) in H2. set (k3 := k2 <| fsys ::= _ |>) in *.
  assert (icache F2 !!! s = ip') as Eip by (by apply put_inode_at).
  assert (iref ip' = iref ip /\ ivalid ip' = ivalid ip /\ itype ip' = itype ip /\ inum ip' = inum ip) as (Er & Ev & Ety & En)
    by (by rewrite (rw_inode _ _ _ _ _ _ _ Hrw)).
  assert (inode_at k3 s = ip') as Eat by (unfold inode_at; by rewrite (tx_fsys _ _ _ _ _ _ _ H2)).
  unfold mbind at 1, K_bind at 1. rewrite (iunlock_held me s k3).
  2: { apply (tx_cache _ _ _ _ _ _ _ H2). }
  2: { rewrite Eat, Er. apply Hir. }
  2: { rewrite (tx_ilocked _ _ _ _ _ _ _ s H2). unfold k1, set_sleeplock. simpl. by rewrite fn_lookup_insert. }
  cbn [obind]. apply (tx_ilock _ _ _ _ _ _ _ s (mkSleeplock 0 0)) in H2.
  set (k4 := set_sleeplock (InodeLock s) (mkSleeplock 0 0) k3) in *. set (k5 := set_sleeplock (InodeLock s) (mkSleeplock 0 0) k1) in *.
  eapply alone_bind.
  { apply (end_op_txn fuel k5 me P' V' F2 k4 sb Hfu H2); try done.
    - apply HPne. lia.
    - change (lsize (klog k5)) with (lsize (klog k)). lia.
    - intros m Hm. destruct (HPr m Hm); [set_solver|lia].
    - lia.
    - apply Hrest.
    - apply Hrest. }
  intros [] k' (Hrest' & Hfs' & Hls' & Hil & Hag & W & HW & HdW & Hcr). change (ksb (put_inode s ip' (fsys k))) with sb in *.
  apply Hcont. change (lstart (klog k5)) with (lstart (klog k)) in *. change (disk k5) with (disk k) in *. change (dwrites k5) with (dwrites k) in *.
  assert (inode_at k' s = ip') as Eat' by (unfold inode_at; by rewrite Hfs').
  assert (file_at k' f = file_at k f <| foff ::= (fun o => u32 (o + n)) |>) as Efile.
  { unfold file_at. rewrite Hfs'. by apply (file_at_alter (fsys k)). }
  split; rewrite ?Hfs', ?Eat'; fold sb ip; try done.
  - split; rewrite ?Hfs', ?Efile, ?Eat'.
    + split_and!; try done. simpl. by rewrite length_alter.
    + rewrite Er, Ev, Ety. split_and!; [|exact Hir|exact Hiv|exact Hty]. unfold F2, put_inode. simpl. by rewrite length_alter.
    + rewrite Hil. unfold k5, set_sleeplock. simpl. by rewrite fn_lookup_insert.
  - rewrite Efile. simpl. fold off n. unfold u32. apply Z.mod_small. lia.
  - by apply (rewritten_agree sb off src _ _ V').
  - fold n. rewrite (slack_agree sb V' (disk k' 1)) by (done || apply Hrw). lia.
  - exists W. split_and!; try done. intros P d HP Hd. destruct (Hcr P d HP Hd) as [Hold|Hnew]; [by left|right].
    intros m Hm. rewrite Hnew, Hag by done. done.
Qed.

(** *** All pieces *)
Record write_done (me f s : nat) (off : Z) (src : list Z) (k k' : kernel) : Prop := {
  wd_rest : at_rest me k';
  wd_open : opened f s k';
  wd_off : foff (file_at k' f) = off + Z.of_nat (length src);
  wd_written : rewritten (ksb (fsys k)) off src (disk k 1) (inode_at k s) (disk k' 1) (inode_at k' s);
  wd_crash : exists W, dwrites k' = dwrites k ++ (on1 <$> W) /\
    forall P d, P `prefix_of` W -> rtc (recovery_crash (lstart (klog k))) (apply1 P (disk k 1)) d ->
      exists t V ip, (t <= length src)%nat /\ rewritten (ksb (fsys k)) off (take t src) (disk k 1) (inode_at k s) V ip /\
        agree (ksb (fsys k)) V (apply1 (recover_writes (lstart (klog k)) d) d);
}.

(** Recovery of an empty log changes nothing. *)
Lemma rest_recovery me k d : at_rest me k -> rtc (recovery_crash (lstart (klog k))) (disk k 1) d ->
  agree (ksb (fsys k)) (disk k 1) (apply1 (recover_writes (lstart (klog k)) d) d).
Proof using Type.
  intros H Hd. destruct (ar_place _ _ H) as (_ & Hst & Hpl & Hsz).
  assert (log_fits (lstart (klog k)) (lsize (klog k)) []) as Hfit by (split_and!; [done|simpl; lia|constructor]).
  eapply (rtc_recoverable _ _ _ (disk k 1) (disk k 1)) in Hd; [|done|].
  - destruct (recover_all _ _ _ _ Hfit _ _ Hd) as (_ & _ & Hall). intros m Hm. apply Hall. by eapply in_log_home.
  - split; [apply H|]. left. split; [apply H|done].
Qed.

Lemma write_done_nil me f s k :
  let off := foff (file_at k f) in
  at_rest me k -> opened f s k -> fs_ok (disk k 1) (ksb (fsys k)) -> file_state (disk k 1) (ksb (fsys k)) (inode_at k s) ->
  0 <= off <= isize (inode_at k s) -> write_done me f s off [] k k.
Proof using Type.
  intros off Hr Ho Hfs Hst Hoff. pose proof (rewritten_nil _ off _ _ Hfs Hst Hoff) as Hw. split; try done.
  - simpl. unfold off. lia.
  - exists []. split; [by rewrite app_nil_r|]. intros P d HP Hd. apply prefix_nil_inv in HP as ->.
    exists 0%nat, (disk k 1), (inode_at k s). split; [done|]. split; [done|]. by apply (rest_recovery me).
Qed.

Lemma write_done_cons me f s off s1 s2 k k1 k2 :
  0 <= off <= isize (inode_at k s) -> fs_ok (disk k 1) (ksb (fsys k)) -> file_state (disk k 1) (ksb (fsys k)) (inode_at k s) ->
  chunk_done me f s off s1 k k1 -> write_done me f s (off + Z.of_nat (length s1)) s2 k1 k2 -> write_done me f s off (s1 ++ s2) k k2.
Proof using Type.
  intros Ho Hfs Hst H1 H2. pose proof (cd_sb _ _ _ _ _ _ _ H1) as Esb. pose proof (cd_log _ _ _ _ _ _ _ H1) as Elog.
  pose proof (cd_written _ _ _ _ _ _ _ H1) as Hw1. split.
  - apply H2.
  - apply (wd_open _ _ _ _ _ _ _ H2).
  - rewrite (wd_off _ _ _ _ _ _ _ H2), length_app. lia.
  - eapply rewritten_trans; [done| |done]. rewrite <- Esb. apply H2.
  - destruct (cd_crash _ _ _ _ _ _ _ H1) as (W1 & HW1 & HD1 & Hc1), (wd_crash _ _ _ _ _ _ _ H2) as (W2 & HW2 & Hc2).
    exists (W1 ++ W2). rewrite HW2, HW1, fmap_app, (assoc_L (++)). split; [done|]. rewrite Esb, Elog in Hc2.
    intros P d HP Hd. assert (P `prefix_of` W1 \/ exists P2, P = W1 ++ P2 /\ P2 `prefix_of` W2) as [HP1|(P2 & -> & HP2)]
      by (by apply prefix_app_cases).
    + destruct (Hc1 P d HP1 Hd) as [Ha|Ha].
      * exists 0%nat, (disk k 1), (inode_at k s). split; [lia|]. split; [by apply rewritten_nil|done].
      * exists (length s1), (disk k1 1), (inode_at k1 s). rewrite length_app, take_app_length. split; [lia|done].
    + rewrite apply1_app, <- HD1 in Hd. destruct (Hc2 P2 d HP2 Hd) as (t & V & ip & Ht & Hw & Ha).
      exists (length s1 + t)%nat, V, ip. rewrite length_app. split; [lia|]. rewrite take_app_add. split; [|done].
      by eapply rewritten_trans.
Qed.

(** The blocks a write may need, each piece counted apart. *)
Definition blocks_for (n : Z) : Z := n / BLK + n / filewrite_max + 2.

Lemma filewrite_loop_spec fuel me f s : (0 < fuel)%nat -> forall left addr k,
  let sb := ksb (fsys k) in let ip := inode_at k s in let off := foff (file_at k f) in let n := Z.of_nat (length addr) in
  at_rest me k -> opened f s k -> fs_ok (disk k 1) sb -> file_state (disk k 1) sb ip ->
  0 <= off <= isize ip -> off + n <= MAXFILE * BLK -> Forall (fun x => 0 <= x < 256) addr ->
  (addr <> [] -> blocks_for n < slack (disk k 1) sb ip) -> (length addr <= left)%nat ->
  returns (alone idle (filewrite_loop fuel left f s addr k)) (fun ok k' => ok = true /\ write_done me f s off addr k k').
Proof using DL.
  intros Hfu. induction left as [|left IH]; intros addr k sb ip off n Hr Hop Hfs Hst Ho Hmax Hby Hsl Hle;
    (destruct (decide (addr = [])) as [->|Hne]; [apply alone_returns; split; [done|by apply write_done_nil]|]).
  { destruct addr; [done|simpl in Hle; lia]. }
  assert (0 < n) as Hpos by (unfold n; destruct addr; [done|simpl; lia]).
  assert (filewrite_max = 6656) as EM by done. specialize (Hsl Hne). unfold blocks_for in Hsl. rewrite EM in Hsl.
  set (n1 := Z.min n filewrite_max) in *. set (s1 := take (Z.to_nat n1) addr).
  assert (Z.of_nat (length s1) = n1) as En1 by (unfold s1; rewrite length_take; lia).
  assert (filewrite_loop fuel (S left) f s addr = (
    begin_op fuel ;;
    ilock fuel s ;;
    off ← gets (fun k => foff (file_at k f)) ;
    r ← writei fuel s s1 off ;
    whenK (0 <? r) (upd_file f (fun x => x <| foff ::= (fun o => u32 (o + r)) |>)) ;;
    iunlock s ;;
    end_op fuel ;;
    if r <? 0 then mret false
    else if negb (r =? n1) then panic "short filewrite"
    else filewrite_loop fuel left f s (drop (Z.to_nat r) addr))) as -> by (by destruct addr).
  assert (touched off n1 <= n1 / 512 + 2) as Ht1 by (unfold touched, BSIZE; dlia).
  assert (n1 / 512 <= n / 512) by (apply Z.div_le_mono; lia). pose proof (Z.div_pos n 6656). change BLK with 512 in Hsl.
  apply (chunk_spec fuel me); try done; rewrite ?En1; try lia; [by apply Forall_take|fold off sb ip; lia|].
  intros k1 H1. fold off in H1. rewrite (proj2 (Z.ltb_ge n1 0)), Z.eqb_refl by lia. cbn [negb].
  pose proof (cd_sb _ _ _ _ _ _ _ H1) as Esb. pose proof (cd_written _ _ _ _ _ _ _ H1) as Hw1.
  pose proof (cd_off _ _ _ _ _ _ _ H1) as Eoff. rewrite En1 in Eoff. pose proof (rw_inode _ _ _ _ _ _ _ Hw1) as Eip.
  assert (isize (inode_at k1 s) = Z.max (isize ip) (off + n1)) as Esz by (rewrite Eip; simpl; by rewrite En1).
  pose proof (cd_slack _ _ _ _ _ _ _ H1) as Hs1. rewrite En1 in Hs1. fold sb ip in Hs1.
  pose proof (IH (drop (Z.to_nat n1) addr) k1) as He. cbv zeta in He. rewrite Esb, Eoff, Esz, length_drop in He. fold sb in He.
  replace (Z.of_nat (length addr - Z.to_nat n1)) with (n - n1) in He by lia.
  eapply returns_mono; [apply He; try lia|].
  - apply H1.
  - apply (cd_open _ _ _ _ _ _ _ H1).
  - apply Hw1.
  - apply Hw1.
  - by apply Forall_drop.
  - intros Hd. assert (0 < length (drop (Z.to_nat n1) addr))%nat as Hp by (destruct (drop _ _); [done|simpl; lia]).
    rewrite length_drop in Hp. assert (n1 = 6656) as E6 by lia. rewrite E6 in Hs1 |- *.
    pose proof (touched_max off 6656 ltac:(lia) ltac:(lia)). unfold blocks_for. rewrite EM. change BLK with 512.
    assert ((n - 6656) / 512 = n / 512 - 13) as -> by (replace (n - 6656) with (n + (-13) * 512) by lia; rewrite Z.div_add by lia; lia).
    assert ((n - 6656) / 6656 = n / 6656 - 1) as -> by (replace (n - 6656) with (n + (-1) * 6656) by lia; rewrite Z.div_add by lia; lia).
    lia.
  - intros ok k2 [-> H2]. split; [done|]. rewrite <- (take_drop (Z.to_nat n1) addr). fold s1.
    apply (write_done_cons me f s off s1 _ k k1 k2); try done. by rewrite En1.
Qed.
End chunk.

(** C2. Writing to a file is safe across crashes, with either disk driver. On a machine at rest,
    [filewrite] writes all bytes: the offset advances, and the file on disk has them in place of
    the old ones from the offset on, or beyond its end. If the power fails after any
    number of block writes, and then during any number of recoveries, the next completed recovery
    leaves on disk the old file with some first part of the bytes written, and every
    other file as it was. The free map must have room for the blocks the pieces touch. *)
Theorem filewrite_crash_safe {D : BlockDriver} {DL : BlockDriverLaws D} {DS : DevSw} fuel me f s addr k :
  let sb := ksb (fsys k) in let ip := inode_at k s in let off := foff (file_at k f) in let n := Z.of_nat (length addr) in
  let old := disk k 1 in let start := lstart (klog k) in
  (0 < fuel)%nat -> at_rest me k -> opened f s k -> writable (file_at k f) = true -> fs_ok old sb -> file_state old sb ip ->
  0 <= off <= isize ip -> off + n <= MAXFILE * BLK -> Forall (fun x => 0 <= x < 256) addr -> blocks_for n < slack old sb ip ->
  returns (alone idle (filewrite fuel f addr k)) (fun r k' =>
    r = n /\ at_rest me k' /\ foff (file_at k' f) = off + n /\ rewritten sb off addr old ip (disk k' 1) (inode_at k' s) /\
    disk_contents (disk k' 1) sb (inum ip) = splice (disk_contents old sb (inum ip)) (Z.to_nat off) addr /\
    exists W, dwrites k' = dwrites k ++ (on1 <$> W) /\
      forall P d, P `prefix_of` W -> rtc (recovery_crash start) (apply1 P old) d ->
        let d' := apply1 (recover_writes start d) d in
        (exists t, (t <= length addr)%nat /\
          disk_contents d' sb (inum ip) = splice (disk_contents old sb (inum ip)) (Z.to_nat off) (take t addr)) /\
        forall ip2, file_state old sb ip2 -> inum ip2 <> inum ip -> disjoint_files old ip ip2 ->
          disk_contents d' sb (inum ip2) = disk_contents old sb (inum ip2)).
Proof.
  intros sb ip off n old start Hfu Hr Hop Hwr Hfs Hst Ho Hmax Hby Hsl.
  destruct (op_file _ _ _ Hop) as (Hf & Hft & Hfi). unfold filewrite. kunfold. cbn [obind]. rewrite Hwr, Hft. cbn [negb].
  unfold inode_of. rewrite Hfi. kunfold. cbn [obind].
  eapply alone_bind; [by apply (filewrite_loop_spec fuel me f s Hfu)|]. intros ok k' [-> Hd]. fold off in Hd.
  apply alone_returns. cbn [returns]. pose proof (wd_written _ _ _ _ _ _ _ Hd) as Hw. fold sb ip old in Hw.
  assert (forall V' ip' t d', rewritten sb off (take t addr) old ip V' ip' -> agree sb V' d' ->
    disk_contents d' sb (inum ip) = splice (disk_contents old sb (inum ip)) (Z.to_nat off) (take t addr)) as Hdc.
  { intros V' ip' t d' Hrw Hag. assert (inum ip' = inum ip) as <- by (by rewrite (rw_inode _ _ _ _ _ _ _ Hrw)).
    rewrite (agree_disk sb V' d' ip' Hag) by apply Hrw. rewrite (rw_contents _ _ _ _ _ _ _ Hrw). f_equal.
    rewrite (rw_inode _ _ _ _ _ _ _ Hrw). symmetry. by apply (disk_contents_eq old sb ip). }
  split_and!; [done|apply Hd|apply (wd_off _ _ _ _ _ _ _ Hd)|done| |].
  - rewrite <- (take_ge addr (length addr)) by done. by apply (Hdc (disk k' 1) (inode_at k' s)); [rewrite take_ge|].
  - destruct (wd_crash _ _ _ _ _ _ _ Hd) as (W & HW & Hc). exists W. split; [done|]. intros P d HP Hrt. cbv zeta.
    destruct (Hc P d HP Hrt) as (t & V' & ip' & Ht & Hrw & Hag). fold sb ip old start in Hrw, Hag. split.
    + exists t. split; [done|]. by apply (Hdc V' ip').
    + intros ip2 H2 Hne Hdis. destruct (rw_others _ _ _ _ _ _ _ Hrw ip2 H2 Hne Hdis) as (H2' & Ec & _).
      rewrite (agree_disk sb V' _ ip2 Hag) by (done || apply Hrw). rewrite Ec. symmetry. by apply disk_contents_eq.
Qed.

(** The demonstration file system, with the file open at its end. *)
Definition demo_rest : kernel :=
  cold_cache demo_disk <| fsys := mkFs [zero_file <| ftype := FD_INODE |> <| fref := 1 |> <| writable := true |> <| fip := Some 0%nat |> <| foff := 3 |>]
                                      [demo_ip] demo_sb false |>
    <| klog := mkLog 2 30 0 false 1 0 (replicate 30 0) |>.

Lemma demo_at_rest : at_rest (H := ide) 3 demo_rest.
Proof.
  destruct (cold_ok demo_disk) as ((Hs & Hdr & Hok) & Hnc & _). split; try done.
  - split; [by apply (solo_same 3 (cold_cache demo_disk))|]. split; [done|]. by apply (cache_ok_frame [] (cold_cache demo_disk)).
  - intros m (b & Hc & _). by apply (Hnc b m).
Qed.

Lemma filewrite_crash_safe_witness :
  returns (alone ide_idle (filewrite (D := ide) (DS := Build_DevSw (fun _ => None) (fun _ => None)) 1 0 [33; 10] demo_rest))
    (fun r k' => r = 2 /\ disk_contents (disk k' 1) demo_sb 1 = [104; 105; 10; 33; 10]).
Proof.
  eapply returns_mono.
  - apply (filewrite_crash_safe (D := ide) (DS := Build_DevSw (fun _ => None) (fun _ => None)) 1 3 0 0 [33; 10] demo_rest).
    + lia.
    + apply demo_at_rest.
    + split; [split_and!; [simpl; lia|done..]|split_and!; [simpl; lia|done..]|done].
    + done.
    + apply demo_fs_ok.
    + apply demo_state.
    + by vm_compute.
    + by vm_compute.
    + repeat constructor; lia.
    + by vm_compute.
  - intros r k' (Hr & _ & _ & _ & Hc & _). split; [exact Hr|]. change (inum (inode_at demo_rest 0)) with 1 in Hc.
    change (ksb (fsys demo_rest)) with demo_sb in Hc. rewrite Hc. by vm_compute.
Defined.
