(* ===== verification/Process.v ===== *)
(** * Process: creating, growing and reaping processes (proc.c)

    The part of proc.c that moves memory and files: [allocproc], [userinit], [growproc],
    [fork], [exit], [wait], [wait2], [clone], [join], [forkret] and [getptable]. *)
From stdpp Require Import base list list_numbers gmap strings functions sorting.
From Stdlib Require Import ZArith Lia.
From S2P Require Import Prelude Mem Layout Machine Kalloc Sched Semaphore Sleeplock Disk Bio Log Vm Fs Pipe File.
Local Open Scope Z_scope.

(** What the linker fixes: the address of [forkret] and the bytes of initcode.S. *)
Class Image : Type := {
  forkret_addr : Z;
  initcode : list Z;
}.

(** The selectors and flag of a user process (mmu.h). *)
Definition user_cs : Z := Z.lor (Z.shiftl 3 3) 3.
Definition user_ds : Z := Z.lor (Z.shiftl 4 3) 3.
Definition FL_IF : Z := 512.

Definition proc_at (k : kernel) (i : nat) : proc := ptable k !!! i.
Definition set_proc (i : nat) (f : proc -> proc) : K unit := modify (upd_proc i f).

(** The channel a parent sleeps on in [wait]: its own slot, or the null pointer. *)
Definition chan_of (p : option nat) : channel :=
  match p with Some i => ChanProc i | None => ChanNone end.

Fixpoint initlocks (left n : nat) : K unit :=
  match left with
  | O => mret tt
  | S left' => initlock (SemaLock n) ;; initlocks left' (S n)
  end.

Definition pinit : K unit :=
  initlock PtableLock ;;
  initlock SchedulerLock ;;
  initlocks NSEM 0.

Section process.
Context {D : BlockDriver} {DS : DevSw} {I : Image} (fuel : nat).

(** The trap frame of the new process is the uninitialised top of its stack: the caller
    fills it in. *)
Definition allocproc : K (option nat) :=
  acquire PtableLock ;;
  ps ← gets ptable ;
  match fst <$> list_find (fun p => state p = UNUSED) ps with
  | None => release PtableLock ;; mret None
  | Some i =>
      set_proc i (fun p => p <| state := EMBRYO |> <| priority := 10 |>) ;;
      n ← gets nextpid ;
      n' ← sadd n 1 ;
      set_proc i (fun p => p <| pid := n |>) ;;
      modify (fun k => k <| nextpid := n' |>) ;;
      set_proc i (fun p => p <| sem_held := replicate NSEM 0 |>) ;;
      release PtableLock ;;
      s ← kalloc ;
      set_proc i (fun p => p <| kstack := s |>) ;;
      if s =? 0 then set_proc i (fun p => p <| state := UNUSED |>) ;; mret None
      else
        set_proc i (fun p => p <| context := zero_ctxt <| ctx_eip := forkret_addr |> |>) ;;
        mret (Some i)
  end.

Definition userinit : K unit :=
  r ← allocproc ;
  modify (fun k => k <| initproc := r |>) ;;
  match r with
  | None => undef "userinit: no process"
  | Some i =>
      dir ← setupkvm ;
      set_proc i (fun p => p <| pgdir := dir |>) ;;
      if dir =? 0 then panic "userinit: out of memory?"
      else
        inituvm dir initcode ;;
        set_proc i (fun p => p <| sz := PGSIZE |>
          <| tf := zero_tf <| tf_cs := user_cs |> <| tf_ds := user_ds |> <| tf_es := user_ds |> <| tf_ss := user_ds |>
                           <| tf_eflags := FL_IF |> <| tf_esp := PGSIZE |> <| tf_eip := 0 |> |>) ;;
        nm ← gets (fun k => name (proc_at k i)) ;
        nm ← lift (safestrcpy nm [105; 110; 105; 116; 99; 111; 100; 101; 0] 16) ;
        set_proc i (fun p => p <| name := nm |>) ;;
        d ← namei fuel [47] ;
        set_proc i (fun p => p <| cwd := d |>) ;;
        acquire PtableLock ;;
        set_proc i (fun p => p <| state := RUNNABLE |>) ;;
        release PtableLock
  end.

Definition growproc (n : Z) : K Z :=
  i ← cur ;
  p ← gets (fun k => proc_at k i) ;
  s ← (if 0 <? n then allocuvm (pgdir p) (sz p) (u32 (sz p + n))
       else if n <? 0 then deallocuvm (pgdir p) (sz p) (u32 (sz p + n))
       else mret (sz p)) ;
  if negb (n =? 0) && (s =? 0) then mret (-1)
  else
    set_proc i (fun p => p <| sz := s |>) ;;
    p ← gets (fun k => proc_at k i) ;
    switchuvm p ;;
    mret 0.

(** [np->ofile[i] = filedup(curproc->ofile[i])] for the open files. *)
Fixpoint dup_files (left : nat) (np cp fd : nat) : K unit :=
  match left with
  | O => mret tt
  | S left' =>
      p ← gets (fun k => proc_at k cp) ;
      match ofile p !!! fd with
      | Some f => f ← filedup f ; set_proc np (fun p => p <| ofile ::= <[fd := Some f]> |>)
      | None => mret tt
      end ;;
      dup_files left' np cp (S fd)
  end.

(** The end of [fork] and [clone]: files, directory, name, and make it runnable. *)
Definition share_and_start (np cp : nat) : K Z :=
  dup_files NOFILE np cp 0 ;;
  p ← gets (fun k => proc_at k cp) ;
  d ← match cwd p with Some d => idup d | None => undef "no current directory" end ;
  set_proc np (fun p => p <| cwd := Some d |>) ;;
  nm ← gets (fun k => name (proc_at k np)) ;
  nm ← lift (safestrcpy nm (name p) 16) ;
  set_proc np (fun p => p <| name := nm |>) ;;
  n ← gets (fun k => pid (proc_at k np)) ;
  acquire PtableLock ;;
  set_proc np (fun p => p <| state := RUNNABLE |>) ;;
  release PtableLock ;;
  mret n.

Definition fork : K Z :=
  cp ← cur ;
  r ← allocproc ;
  match r with
  | None => mret (-1)
  | Some np =>
      p ← gets (fun k => proc_at k cp) ;
      dir ← copyuvm (pgdir p) (sz p) ;
      set_proc np (fun q => q <| pgdir := dir |>) ;;
      if dir =? 0 then
        s ← gets (fun k => kstack (proc_at k np)) ;
        kfree s ;;
        set_proc np (fun q => q <| kstack := 0 |> <| state := UNUSED |>) ;;
        mret (-1)
      else
        p ← gets (fun k => proc_at k cp) ;
        set_proc np (fun q => q <| sz := sz p |> <| parent := Some cp |> <| tf := tf p <| tf_eax := 0 |> |>) ;;
        share_and_start np cp
  end.

Fixpoint close_files (left : nat) (i fd : nat) : K unit :=
  match left with
  | O => mret tt
  | S left' =>
      p ← gets (fun k => proc_at k i) ;
      match ofile p !!! fd with
      | Some f => fileclose fuel f ;; set_proc i (fun p => p <| ofile ::= <[fd := None]> |>)
      | None => mret tt
      end ;;
      close_files left' i (S fd)
  end.

(** Pass abandoned children to init. *)
Fixpoint give_children (left : nat) (i j : nat) : K unit :=
  match left with
  | O => mret tt
  | S left' =>
      p ← gets (fun k => proc_at k j) ;
      whenK (bool_decide (parent p = Some i)) (
        ip ← gets initproc ;
        set_proc j (fun p => p <| parent := ip |>) ;;
        whenK (bool_decide (state p = ZOMBIE)) (wakeup1 (chan_of ip))) ;;
      give_children left' i (S j)
  end.

Definition exit : K unit :=
  i ← cur ;
  ip ← gets initproc ;
  if bool_decide (ip = Some i) then panic "init exiting"
  else
    exit_sems i NSEM 0 ;;
    close_files NOFILE i 0 ;;
    begin_op fuel ;;
    p ← gets (fun k => proc_at k i) ;
    match cwd p with Some d => iput fuel d | None => undef "no current directory" end ;;
    end_op fuel ;;
    set_proc i (fun p => p <| cwd := None |>) ;;
    acquire PtableLock ;;
    p ← gets (fun k => proc_at k i) ;
    wakeup1 (chan_of (parent p)) ;;
    give_children NPROC i 0 ;;
    set_proc i (fun p => p <| state := ZOMBIE |>) ;;
    sched ;;
    panic "zombie exit".

(** The first child in state ZOMBIE. *)
Definition find_zombie (i : nat) (ps : list proc) : option nat :=
  fst <$> list_find (fun p => parent p = Some i /\ state p = ZOMBIE) ps.
Definition has_child (i : nat) (ps : list proc) : bool :=
  existsb (fun p => bool_decide (parent p = Some i)) ps.

(** The loop of [wait]; [left] bounds its sleeps. *)
Fixpoint wait_loop (left : nat) (i : nat) : K Z :=
  ps ← gets ptable ;
  match find_zombie i ps with
  | Some j =>
      let p := ps !!! j in
      kfree (kstack p) ;;
      set_proc j (fun p => p <| kstack := 0 |>) ;;
      freevm (pgdir p) ;;
      set_proc j (fun p => p <| pid := 0 |> <| parent := None |> <| name ::= <[0%nat := 0]> |> <| killed := 0 |>
                             <| state := UNUSED |>) ;;
      release PtableLock ;;
      mret (pid p)
  | None =>
      if negb (has_child i ps) || negb (killed (ps !!! i) =? 0) then release PtableLock ;; mret (-1)
      else
        match left with
        | O => out_of_fuel
        | S left' => sleep (ChanProc i) (Some PtableLock) ;; wait_loop left' i
        end
  end.

Definition wait : K Z :=
  i ← cur ;
  acquire PtableLock ;;
  wait_loop fuel i.

(** The three counters are stored at the user's addresses. *)
Fixpoint wait2_loop (left : nat) (i : nat) (retimep rutimep stimep : Z) : K Z :=
  ps ← gets ptable ;
  match find_zombie i ps with
  | Some j =>
      let p := ps !!! j in
      vstore32 retimep (retime p) ;;
      vstore32 rutimep (rutime p) ;;
      vstore32 stimep (stime p) ;;
      kfree (kstack p) ;;
      set_proc j (fun p => p <| kstack := 0 |>) ;;
      freevm (pgdir p) ;;
      set_proc j (fun p => p <| state := UNUSED |> <| pid := 0 |> <| parent := None |> <| name ::= <[0%nat := 0]> |>
                             <| killed := 0 |> <| ctime := 0 |> <| retime := 0 |> <| rutime := 0 |> <| stime := 0 |>
                             <| priority := 0 |>) ;;
      release PtableLock ;;
      mret (pid p)
  | None =>
      if negb (has_child i ps) || negb (killed (ps !!! i) =? 0) then release PtableLock ;; mret (-1)
      else
        match left with
        | O => out_of_fuel
        | S left' => sleep (ChanProc i) (Some PtableLock) ;; wait2_loop left' i retimep rutimep stimep
        end
  end.

Definition wait2 (retimep rutimep stimep : Z) : K Z :=
  acquire PtableLock ;;
  i ← cur ;
  wait2_loop fuel i retimep rutimep stimep.

Definition clone (func arg ustack : Z) : K Z :=
  cp ← cur ;
  r ← allocproc ;
  match r with
  | None => mret (-1)
  | Some np =>
      p ← gets (fun k => proc_at k cp) ;
      set_proc np (fun q => q <| pgdir := pgdir p |> <| sz := sz p |> <| parent := Some cp |>
        <| tf := tf p <| tf_eax := 0 |> <| tf_eip := func |> |> <| stack := ustack |>) ;;
      vstore32 (u32 (ustack + 4096 - 2 * 4)) (2 ^ 32 - 1) ;;
      vstore32 (u32 (ustack + 4096 - 4)) arg ;;
      let sp := u32 (ustack + PGSIZE - 2 * 4) in
      set_proc np (fun q => q <| tf ::= (fun t => t <| tf_esp := sp |> <| tf_ebp := sp |>) |> <| isthread := 1 |>) ;;
      share_and_start np cp
  end.

Definition find_thread (i : nat) (ps : list proc) : option nat :=
  fst <$> list_find (fun p => (parent p = Some i /\ isthread p = 1) /\ state p = ZOMBIE) ps.
Definition has_thread (i : nat) (ps : list proc) : bool :=
  existsb (fun p => bool_decide (parent p = Some i) && (isthread p =? 1)) ps.

Fixpoint join_loop (left : nat) (i : nat) (stackp : Z) : K Z :=
  ps ← gets ptable ;
  match find_thread i ps with
  | Some j =>
      let p := ps !!! j in
      kfree (kstack p) ;;
      set_proc j (fun p => p <| kstack := 0 |> <| state := UNUSED |> <| pid := 0 |> <| parent := None |>
                             <| name ::= <[0%nat := 0]> |> <| killed := 0 |>) ;;
      vstore32 stackp (stack p) ;;
      release PtableLock ;;
      mret (pid p)
  | None =>
      if negb (has_thread i ps) || negb (killed (ps !!! i) =? 0) then release PtableLock ;; mret (-1)
      else
        match left with
        | O => out_of_fuel
        | S left' => sleep (ChanProc i) (Some PtableLock) ;; join_loop left' i stackp
        end
  end.

Definition join (stackp : Z) : K Z :=
  i ← cur ;
  acquire PtableLock ;;
  join_loop fuel i stackp.

Definition forkret : K unit :=
  release PtableLock ;;
  f ← gets (fun k => first (fsys k)) ;
  whenK f (
    modify (fun k => k <| fsys ::= upd first (fun _ => false) |>) ;;
    iinit fuel ROOTDEV ;;
    initlog fuel ROOTDEV).
End process.

(** ** The process table for user space *)

Definition state_code (s : procstate) : Z :=
  match s with UNUSED => 0 | EMBRYO => 1 | SLEEPING => 2 | RUNNABLE => 3 | RUNNING => 4 | ZOMBIE => 5 end.

(** [struct proc_info] (ptable.h): five words and the name. *)
Definition proc_info_size : Z := 36.
Definition proc_info (ps : list proc) (p : proc) : K (list Z) :=
  if bool_decide (state p = UNUSED) then mret (replicate (Z.to_nat proc_info_size) 0)
  else
    let ppid := match parent p with Some j => pid (ps !!! j) | None => -1 end in
    nm ← lift (safestrcpy (replicate 16 0) (name p) 16) ;
    mret (bytes32 (pid p) ++ bytes32 ppid ++ bytes32 (priority p) ++ bytes32 (sz p) ++
          bytes32 (state_code (state p)) ++ nm).

Fixpoint getptable_loop (left : nat) (ubuf : Z) (i : nat) : K Z :=
  match left with
  | O => release PtableLock ;; mret 0
  | S left' =>
      ps ← gets ptable ;
      pi ← proc_info ps (ps !!! i) ;
      c ← cur ;
      d ← gets (fun k => pgdir (proc_at k c)) ;
      r ← copyout d (u32 (ubuf + Z.of_nat i * proc_info_size)) pi ;
      if r <? 0 then release PtableLock ;; mret (-1)
      else getptable_loop left' ubuf (S i)
  end.

(** The sizes are compared as unsigned. *)
Definition getptable (ubuf size : Z) : K Z :=
  if u32 size <? Z.of_nat NPROC * proc_info_size then mret (-1)
  else
    acquire PtableLock ;;
    getptable_loop NPROC ubuf 0.

(** ** Process numbers and slots *)

(** Slots in use have distinct numbers, all given out before. *)
Record procs_ok (k : kernel) : Prop := {
  pr_len : length (ptable k) = NPROC;
  pr_pid i : (i < NPROC)%nat -> state (proc_at k i) <> UNUSED -> 0 < pid (proc_at k i) < nextpid k;
  pr_inj i j : (i < NPROC)%nat -> (j < NPROC)%nat -> state (proc_at k i) <> UNUSED -> state (proc_at k j) <> UNUSED ->
    pid (proc_at k i) = pid (proc_at k j) -> i = j;
  pr_next : 1 <= nextpid k;
}.

Lemma proc_slot k i f j : length (ptable k) = NPROC -> (i < NPROC)%nat ->
  proc_at (upd_proc i f k) j = if decide (j = i) then f (proc_at k i) else proc_at k j.
Proof.
  intros Hl Hi. unfold proc_at, upd_proc. simpl. case_decide as E; [subst; apply alter_same; lia|by apply alter_other].
Qed.

(** A slot of the table changes, keeping its number or taking a new one. *)
Lemma procs_ok_upd k i f n : procs_ok k -> (i < NPROC)%nat -> nextpid k <= n ->
  (state (f (proc_at k i)) = UNUSED \/
   (state (proc_at k i) <> UNUSED /\ pid (f (proc_at k i)) = pid (proc_at k i)) \/
   (pid (f (proc_at k i)) = nextpid k /\ nextpid k < n)) ->
  procs_ok (upd_proc i f k <| nextpid := n |>).
Proof.
  intros [Hl Hp Hinj Hn] Hi Hle Hf.
  assert (forall j, proc_at (upd_proc i f k <| nextpid := n |>) j = if decide (j = i) then f (proc_at k i) else proc_at k j) as Hat
    by (intros j; by apply proc_slot).
  split; simpl.
  - by rewrite length_alter.
  - intros j Hj. rewrite Hat. case_decide; [|intros Hs; specialize (Hp j Hj Hs); lia]. subst. intros Hs.
    destruct Hf as [?|[[Hs0 ->]|[-> ?]]]; [done|specialize (Hp i Hi Hs0); lia|lia].
  - intros a b Ha Hb. rewrite !Hat. destruct (decide (a = i)) as [->|Ea], (decide (b = i)) as [->|Eb]; intros Hsa Hsb E; try done.
    + destruct Hf as [?|[[Hs0 E0]|[E0 ?]]]; [done| |specialize (Hp b Hb Hsb); lia].
      rewrite E0 in E. by apply Hinj.
    + destruct Hf as [?|[[Hs0 E0]|[E0 ?]]]; [done| |specialize (Hp a Ha Hsa); lia].
      rewrite E0 in E. by apply Hinj.
    + by apply Hinj.
  - lia.
Qed.

Lemma procs_ok_ext k k' : procs_ok k -> length (ptable k') = NPROC -> (forall j, proc_at k' j = proc_at k j) ->
  nextpid k' = nextpid k -> procs_ok k'.
Proof.
  intros [Hl Hp Hinj Hn] Hl' Hat E. split; [done| | |lia]; [intros i|intros i j]; rewrite !Hat, ?E; [apply Hp|apply Hinj].
Qed.

(** The page allocator does not look at the process table. *)
Lemma free_rep_same k k' l : mem k' = mem k -> kmem k' = kmem k -> kend k' = kend k -> held k' = held k ->
  free_rep k l -> free_rep k' l.
Proof. intros E1 E2 E3 E4 H. unfold free_rep in *. by rewrite E1, E2, E3, E4. Qed.

Lemma kalloc_pop k t l : free_rep k (t :: l) ->
  exists km, kalloc k = Ret t (k <| kmem := km |>) /\ free_rep (k <| kmem := km |>) l /\ t <> 0.
Proof.
  intros H. pose proof (kalloc_take k t l H) as (k' & E & _ & _ & Hr & Ht).
  rewrite kalloc_eq in E by apply H. cbn zeta in E. destruct (freelist (kmem k) =? 0) eqn:E0.
  - injection E as E1 _. apply Z.eqb_eq in E0. congruence.
  - injection E as E1 <-. exists (kmem k <| freelist := load32 (mem k) (freelist (kmem k)) |>). split; [|done].
    rewrite kalloc_eq by apply H. cbn zeta. by rewrite E0, E1.
Qed.

Section alloc.
Context {I : Image}.

(** The slot of a new process. *)
Definition born (n stk : Z) (p : proc) : proc :=
  p <| state := EMBRYO |> <| priority := 10 |> <| pid := n |> <| sem_held := replicate NSEM 0 |> <| kstack := stk |>
    <| context := zero_ctxt <| ctx_eip := forkret_addr |> |>.

(** The slot after [kalloc] failed. *)
Definition stillborn (n : Z) (p : proc) : proc :=
  p <| state := UNUSED |> <| priority := 10 |> <| pid := n |> <| sem_held := replicate NSEM 0 |> <| kstack := 0 |>.

Lemma alter_fuse (f g : proc -> proc) i k : upd_proc i f (upd_proc i g k) = upd_proc i (fun p => f (g p)) k.
Proof. unfold upd_proc. kernel_ext. simpl. apply alter_alter. Qed.

Lemma upd_proc_nextpid i f n k : upd_proc i f (k <| nextpid := n |>) = upd_proc i f k <| nextpid := n |>.
Proof. done. Qed.

Lemma allocproc_spec k l :
  PtableLock ∉ held k -> free_rep k l -> nextpid k < 2 ^ 31 - 1 -> - 2 ^ 31 <= nextpid k -> length (ptable k) = NPROC ->
  (exists i s l' km, l = s :: l' /\ (i < NPROC)%nat /\ state (proc_at k i) = UNUSED /\
     allocproc k = Ret (Some i) (upd_proc i (born (nextpid k) s) k <| nextpid := nextpid k + 1 |> <| kmem := km |>) /\
     s <> 0 /\ free_rep (k <| kmem := km |>) l') \/
  (l = [] /\ exists i, (i < NPROC)%nat /\ state (proc_at k i) = UNUSED /\
     allocproc k = Ret None (upd_proc i (stillborn (nextpid k)) k <| nextpid := nextpid k + 1 |>)) \/
  ((forall i, (i < NPROC)%nat -> state (proc_at k i) <> UNUSED) /\ allocproc k = Ret None k).
Proof.
  intros Hh Hr Hn Hn' Hl. unfold allocproc, set_proc, mbind, K_bind. rewrite acquire_ok by done. unfold gets. cbn [obind].
  change (ptable (k <| held ::= cons PtableLock |>)) with (ptable k).
  destruct (fst <$> list_find (fun p => state p = UNUSED) (ptable k)) as [i|] eqn:E.
  - destruct (list_find_total _ _ _ E) as [Hi Hs]. rewrite Hl in Hi. unfold modify. cbn [obind].
    set (k1 := upd_proc i _ _). change (nextpid k1) with (nextpid k). rewrite sadd_ok by lia. cbn [obind].
    rewrite (release_ok _ (held k)) by done. cbn [obind].
    set (k2 := _ <| held := held k |>).
    assert (k2 = upd_proc i (fun p => p <| state := EMBRYO |> <| priority := 10 |> <| pid := nextpid k |> <| sem_held := replicate NSEM 0 |>) k
              <| nextpid := nextpid k + 1 |>) as Ek2.
    { unfold k2, k1, upd_proc. kernel_ext. simpl. by rewrite !alter_alter. }
    clearbody k2. subst k2. set (k2 := upd_proc _ _ _ <| nextpid := _ |>).
    assert (free_rep k2 l) as Hr2 by (eapply free_rep_same; [..|exact Hr]; done).
    destruct l as [|s l].
    + right. left. split; [done|]. exists i. split_and!; try done.
      rewrite (kalloc_none k2 Hr2). cbn [obind]. change (0 =? 0) with true. cbv iota. cbn [obind].
      apply (f_equal (Ret None)). unfold k2. rewrite !upd_proc_nextpid, !alter_fuse. done.
    + left. destruct (kalloc_pop k2 s l Hr2) as (km & -> & Hr3 & Hs0). cbn [obind]. rewrite (proj2 (Z.eqb_neq s 0)) by done. cbn [obind].
      exists i, s, l, km. split_and!; try done.
      apply (f_equal (Ret (Some i))). unfold k2, upd_proc. kernel_ext. simpl. by rewrite !alter_alter.
  - right. right. split; [|cbn [obind]; rewrite (release_ok _ (held k)) by done; cbn [obind]; apply (f_equal (Ret None)); kernel_ext].
    intros i Hi. apply (list_find_total_None _ _ _ E). lia.
Qed.
End alloc.

(** A new process gets a slot that was unused, a page for its kernel stack, and a number
    that no process in the table has; all other slots stay as they are.  [allocproc] fails
    only without a free slot or page, and then no page is lost. *)
Theorem allocproc_unique_pid {I : Image} k l :
  PtableLock ∉ held k -> procs_ok k -> free_rep k l -> nextpid k < 2 ^ 31 - 1 ->
  match allocproc k with
  | Ret (Some i) k' =>
      procs_ok k' /\ (i < NPROC)%nat /\ state (proc_at k i) = UNUSED /\ state (proc_at k' i) = EMBRYO /\
      pid (proc_at k' i) = nextpid k /\ (forall j, j <> i -> proc_at k' j = proc_at k j) /\
      exists l', l = kstack (proc_at k' i) :: l' /\ free_rep k' l'
  | Ret None k' =>
      procs_ok k' /\ free_rep k' l /\ (forall j, state (proc_at k' j) = state (proc_at k j)) /\
      (l = [] \/ forall j, (j < NPROC)%nat -> state (proc_at k j) <> UNUSED)
  | _ => False
  end.
Proof.
  intros Hh Hok Hr Hn. pose proof Hok as [Hl _ _ Hn1].
  destruct (allocproc_spec k l Hh Hr Hn ltac:(lia) Hl)
    as [(i & s & l' & km & -> & Hi & Hs & -> & Hs0 & Hr') | [(-> & i & Hi & Hs & ->) | [Hno ->]]].
  - assert (procs_ok (upd_proc i (born (nextpid k) s) k <| nextpid := nextpid k + 1 |>)) as Hok'.
    { apply procs_ok_upd; [done|done|lia|]. right. right. split; [done|lia]. }
    set (k' := _ <| kmem := km |>).
    assert (forall j, proc_at k' j = if decide (j = i) then born (nextpid k) s (proc_at k i) else proc_at k j) as Hat
      by (intros j; by apply proc_slot).
    rewrite !Hat, decide_True by done. split_and!; try done.
    + destruct Hok' as [A B C E]. by split.
    + intros j Hj. by rewrite Hat, decide_False.
    + by exists l'.
  - split_and!; [|done| |by left].
    + apply procs_ok_upd; [done|done|lia|by left].
    + intros j. change (state (proc_at (upd_proc i (stillborn (nextpid k)) k) j) = state (proc_at k j)).
      rewrite proc_slot by done. case_decide; [by subst|done].
  - split_and!; try done. by right.
Qed.

#[export] Instance demo_image : Image := {| forkret_addr := 2148541248; initcode := [] |}.

Lemma kernel0_proc i : proc_at kernel0 i = zero_proc.
Proof.
  unfold proc_at. destruct (decide (i < NPROC)%nat) as [Hi|Hi].
  - by apply lookup_total_replicate_2.
  - rewrite list_lookup_total_alt, lookup_ge_None_2; [done|]. change (length (ptable kernel0)) with NPROC. lia.
Qed.

Lemma small_procs : procs_ok small.
Proof.
  split; [done|..]; try (intros i j); try intros i; change (proc_at small) with (proc_at kernel0); rewrite ?kernel0_proc; done.
Qed.

Lemma allocproc_unique_pid_witness :
  exists r k', allocproc small = Ret r k' /\ procs_ok k'.
Proof.
  pose proof (allocproc_unique_pid small [small_dir + 12288] (not_elem_of_nil _) small_procs
    (vs_free _ _ _ _ _ (as_space _ _ _ _ _ _ small_ok))) as H.
  destruct (allocproc small) as [[i|] k'|m|m| |k' r].
  - exists (Some i), k'. split; [reflexivity|]. apply H. reflexivity.
  - exists None, k'. split; [reflexivity|]. apply H. reflexivity.
  - destruct H. reflexivity.
  - destruct H. reflexivity.
  - destruct H. reflexivity.
  - destruct H. reflexivity.
Defined.

(** ** Sharing files *)

Lemma filedup_spec k f : FtableLock ∉ held k -> 1 <= fref (file_at k f) < 2 ^ 31 - 1 ->
  filedup f k = Ret f (set_files (alter (fun x => x <| fref ::= (fun r => r + 1) |>) f (ftable (fsys k))) k).
Proof.
  intros Hh Hr. unfold filedup, upd_file. kunfold. rewrite acquire_ok by done. cbn [obind].
  change (file_at (k <| held ::= cons FtableLock |>) f) with (file_at k f). rewrite (proj2 (Z.ltb_ge _ _)) by lia.
  rewrite sadd_ok by lia. cbn [obind]. rewrite (release_ok _ (held k)) by done. cbn [obind].
  apply (f_equal (Ret f)). unfold set_files. kernel_ext. simpl. destruct (fsys k) as [l ic sb fi] eqn:E. 
  unfold upd, upd_ftable. simpl. f_equal. apply list_eq. intros j. destruct (decide (f = j)) as [<-|Hne].
  - rewrite !list_lookup_alter_eq. unfold file_at. rewrite E. simpl. destruct (l !! f) as [x|] eqn:Ex; simpl; [|done].
    by rewrite (list_lookup_total_correct _ _ _ Ex).
  - by rewrite !list_lookup_alter_ne.
Qed.

Lemma idup_spec k d : IcacheLock ∉ held k -> - 2 ^ 31 <= iref (inode_at k d) < 2 ^ 31 - 1 ->
  idup d k = Ret d (k <| fsys ::= fun s => s <| icache ::= alter (fun x => x <| iref := iref (inode_at k d) + 1 |>) d |> |>).
Proof.
  intros Hh Hr. unfold idup, upd_inode. kunfold. rewrite acquire_ok by done. cbn [obind].
  change (inode_at (k <| held ::= cons IcacheLock |>) d) with (inode_at k d). rewrite sadd_ok by lia. cbn [obind].
  rewrite (release_ok _ (held k)) by done. cbn [obind]. apply (f_equal (Ret d)). kernel_ext.
Qed.

(** The effect of the loop over the descriptors from [fd] on. *)
Fixpoint dup_to (left fd : nat) (src dst : list (option nat)) : list (option nat) :=
  match left with
  | O => dst
  | S left' => dup_to left' (S fd) src (match src !!! fd with Some f => <[fd := Some f]> dst | None => dst end)
  end.

Fixpoint ref_all (left fd : nat) (src : list (option nat)) (l : list file) : list file :=
  match left with
  | O => l
  | S left' =>
      ref_all left' (S fd) src
        (match src !!! fd with Some f => alter (fun x => x <| fref ::= (fun r => r + 1) |>) f l | None => l end)
  end.

Lemma upd_proc_id i k : upd_proc i (fun p => p) k = k.
Proof. unfold upd_proc. kernel_ext. simpl. by apply list_alter_id. Qed.

Lemma dup_files_spec left : forall np cp fd k,
  np <> cp -> FtableLock ∉ held k -> length (ftable (fsys k)) = NFILE ->
  (forall j f, ofile (proc_at k cp) !!! j = Some f -> (f < NFILE)%nat /\ 1 <= fref (file_at k f) < 2 ^ 31 - 1 - Z.of_nat left) ->
  dup_files left np cp fd k =
    Ret tt (upd_proc np (fun q => q <| ofile ::= dup_to left fd (ofile (proc_at k cp)) |>)
      (set_files (ref_all left fd (ofile (proc_at k cp)) (ftable (fsys k))) k)).
Proof.
  induction left as [|left IH]; intros np cp fd k Hne Hh Hl Hf; cbn [dup_files dup_to ref_all].
  - kunfold. apply (f_equal (Ret tt)). rewrite set_files_id. rewrite <- (upd_proc_id np k) at 1. unfold upd_proc. kernel_ext. simpl.
    apply list_alter_ext; [|done]. intros q _. by destruct q.
  - unfold set_proc. kunfold. cbn [obind]. destruct (ofile (proc_at k cp) !!! fd) as [f|] eqn:E.
    + destruct (Hf fd f E) as [Hfn Hfr]. rewrite filedup_spec by (done || lia). cbn [obind].
      set (k1 := upd_proc np _ _).
      assert (proc_at k1 cp = proc_at k cp) as Ep.
      { unfold proc_at, k1, upd_proc. simpl. by apply alter_other. }
      rewrite IH; rewrite ?Ep; try done.
      * apply (f_equal (Ret tt)). unfold k1, upd_proc, set_files. kernel_ext. simpl. rewrite alter_alter. done.
      * simpl. by rewrite length_alter.
      * intros j g Hg. destruct (Hf j g Hg) as [Hgn Hgr]. split; [done|].
        change (file_at k1 g) with (alter (fun x => x <| fref ::= (fun r => r + 1) |>) f (ftable (fsys k)) !!! g).
        rewrite file_slot by lia. case_decide as Eg; [|unfold file_at in *; lia]. subst g. simpl. unfold file_at in *. lia.
    + cbn [obind]. rewrite IH; try done. intros j g Hg. destruct (Hf j g Hg). split; [done|lia].
Qed.

Lemma dup_to_all left : forall fd src dst, length src = (fd + left)%nat -> length dst = length src ->
  (forall j, (j < fd)%nat -> dst !!! j = src !!! j) -> (forall j, (fd <= j < length src)%nat -> dst !!! j = None) ->
  dup_to left fd src dst = src.
Proof.
  induction left as [|left IH]; intros fd src dst Hs Hd Hlo Hhi; cbn [dup_to].
  - apply list_eq. intros j. destruct (decide (j < length src)%nat) as [Hj|Hj]; [|by rewrite !lookup_ge_None_2 by lia].
    rewrite !list_lookup_lookup_total_lt by lia. f_equal. apply Hlo. lia.
  - apply IH; [lia| | |].
    + destruct (src !!! fd); [by rewrite length_insert|done].
    + intros j Hj. destruct (decide (j = fd)) as [->|Hne].
      * destruct (src !!! fd) eqn:E; [by apply list_lookup_total_insert_eq; lia|by rewrite Hhi by lia].
      * destruct (src !!! fd) eqn:E; [rewrite list_lookup_total_insert_ne by done|]; apply Hlo; lia.
    + intros j Hj. destruct (src !!! fd); [rewrite list_lookup_total_insert_ne by lia|]; apply Hhi; lia.
Qed.

(** How often a file is open in [src]. *)
Definition nrefs (src : list (option nat)) (f : nat) : Z := Z.of_nat (length (filter (fun o => o = Some f) src)).

Lemma ref_all_count left : forall fd src l f, length src = (fd + left)%nat -> (f < length l)%nat ->
  (forall j g, src !!! j = Some g -> (g < length l)%nat) ->
  ref_all left fd src l !!! f = (l !!! f) <| fref ::= (fun r => r + nrefs (drop fd src) f) |>.
Proof.
  induction left as [|left IH]; intros fd src l f Hs Hf Hg; cbn [ref_all].
  - rewrite drop_ge by lia. unfold nrefs. simpl. destruct (l !!! f). unfold upd, upd_fref. simpl. f_equal. lia.
  - destruct (src !! fd) as [o|] eqn:E; [|apply lookup_ge_None_1 in E; lia].
    rewrite (list_lookup_total_correct _ _ _ E), (drop_S _ _ _ E).
    assert (nrefs (o :: drop (S fd) src) f = (if decide (o = Some f) then 1 else 0) + nrefs (drop (S fd) src) f) as ->.
    { unfold nrefs. rewrite filter_cons. case_decide; simpl; lia. }
    destruct o as [g|].
    + rewrite IH; [|lia|by rewrite length_alter|intros j h Hh; rewrite length_alter; by eapply Hg].
      rewrite file_slot by (apply (Hg fd); by rewrite (list_lookup_total_correct _ _ _ E)).
      destruct (decide (f = g)) as [<-|Hne]; [rewrite decide_True by done|rewrite decide_False by congruence];
        destruct (l !!! f); unfold upd, upd_fref; simpl; f_equal; lia.
    + rewrite decide_False by done. by rewrite IH by (lia || done).
Qed.

Lemma safestrcpy_16 s t : length s = 16%nat -> length t = 16%nat -> exists r, safestrcpy s t 16 = Some r /\ length r = 16%nat.
Proof.
  unfold safestrcpy. change (16 <=? 0) with false. cbv iota. change (Z.to_nat 16) with 16%nat.
  assert (forall n s t, (0 < n)%nat -> (n <= length s)%nat -> (n <= length t)%nat ->
    exists r, safestrcpy_loop s t n = Some r /\ length r = length s) as H.
  { induction n as [|n IH]; intros s' t' Hn Hs Ht; [lia|]. destruct s' as [|a s']; [simpl in Hs; lia|].
    destruct t' as [|b t']; [simpl in Ht; lia|]. simpl in Hs, Ht. cbn [safestrcpy_loop]. destruct n as [|n].
    - eexists. split; [done|]. done.
    - destruct (b =? 0); [destruct s' as [|c s']; [simpl in Hs; lia|eexists; split; done]|].
      destruct (IH s' t') as (r & -> & Hr); [lia..|]. eexists. split; [done|]. simpl. lia. }
  intros Hs Ht. destruct (H 16%nat s t) as (r & E & Hr); [lia..|]. exists r. split; [done|lia].
Qed.

(** ** Fork *)

#[local] Opaque dup_to ref_all.

(** What the new process takes over in [fork] and [clone]. *)
Definition take_over (src : list (option nat)) (d : nat) (nm : list Z) (q : proc) : proc :=
  q <| ofile ::= dup_to NOFILE 0 src |> <| cwd := Some d |> <| name := nm |> <| state := RUNNABLE |>.

Definition shared_fs (src : list (option nat)) (d : nat) (s : fsstate) : fsstate :=
  s <| ftable ::= ref_all NOFILE 0 src |> <| icache ::= alter (fun x => x <| iref ::= (fun r => r + 1) |>) d |>.

Lemma share_and_start_spec k np cp d :
  held k = [] -> np <> cp -> (np < NPROC)%nat -> length (ptable k) = NPROC -> length (ftable (fsys k)) = NFILE ->
  (forall j f, ofile (proc_at k cp) !!! j = Some f -> (f < NFILE)%nat /\ 1 <= fref (file_at k f) < 2 ^ 31 - 1 - Z.of_nat NOFILE) ->
  cwd (proc_at k cp) = Some d -> - 2 ^ 31 <= iref (inode_at k d) < 2 ^ 31 - 1 ->
  length (name (proc_at k np)) = 16%nat -> length (name (proc_at k cp)) = 16%nat ->
  exists nm, share_and_start np cp k =
    Ret (pid (proc_at k np)) (upd_proc np (take_over (ofile (proc_at k cp)) d nm) (k <| fsys ::= shared_fs (ofile (proc_at k cp)) d |>)).
Proof.
  intros Hh Hne Hnp Hl Hfl Hf Hd Hi Hn1 Hn2. unfold share_and_start, mbind, K_bind.
  rewrite dup_files_spec by (done || rewrite Hh; notheld). cbn [obind]. unfold gets. cbn [obind].
  set (src := ofile (proc_at k cp)) in *. set (k1 := upd_proc np _ _).
  assert (forall j, proc_at k1 j = if decide (j = np) then proc_at k np <| ofile ::= dup_to NOFILE 0 src |> else proc_at k j) as Hat1.
  { intros j. unfold k1. by apply (proc_slot (set_files (ref_all NOFILE 0 src (ftable (fsys k))) k)). }
  rewrite (Hat1 cp), decide_False by done. rewrite Hd. rewrite idup_spec by (done || (simpl; rewrite Hh; notheld)). cbn [obind].
  unfold set_proc, modify. cbn [obind]. set (k2 := upd_proc np _ _).
  assert (proc_at k2 np = proc_at k1 np <| cwd := Some d |>) as Hat2.
  { unfold k2. rewrite proc_slot by (done || (simpl; by rewrite length_alter)). by rewrite decide_True. }
  rewrite Hat2, Hat1, decide_True by done. cbn [name upd upd_cwd upd_ofile].
  destruct (safestrcpy_16 (name (proc_at k np)) (name (proc_at k cp)) Hn1 Hn2) as (nm & Es & Hnm).
  unfold lift. change (name (proc_at k np <| ofile ::= dup_to NOFILE 0 src |> <| cwd := Some d |>)) with (name (proc_at k np)).
  rewrite Es. kunfold. cbn [obind].
  rewrite acquire_ok by (simpl; rewrite Hh; notheld). cbn [obind]. rewrite (release_ok _ []) by (done || (simpl; by rewrite Hh) || notheld).
  cbn [obind]. exists nm.
  match goal with |- Ret ?a ?x = Ret ?b ?y => assert (a = b) as ->; [|assert (x = y) as ->; [|done]] end.
  - rewrite proc_slot; [|simpl; by rewrite !length_alter|done]. rewrite decide_True by done. simpl. rewrite Hat2, Hat1, decide_True by done. done.
  - unfold k2, k1, upd_proc, set_files. apply kernel_eq; simpl; [by rewrite Hh|reflexivity| |reflexivity..| |reflexivity].
    + rewrite !alter_alter. f_equal.
    + destruct (fsys k) as [fl ic sb fi] eqn:E. unfold shared_fs, upd, upd_ftable, upd_icache, inode_at. simpl. rewrite E. simpl. f_equal.
      apply list_eq. intros j. destruct (decide (d = j)) as [<-|Hd']; [|by rewrite !list_lookup_alter_ne].
      rewrite !list_lookup_alter_eq. destruct (ic !! d) as [x|] eqn:Ex; simpl; [|done]. by rewrite (list_lookup_total_correct _ _ _ Ex).
Qed.

(** An address space is in memory; the process table and the rest of the kernel do not matter. *)
Lemma aspace_same k k' dir T U R l : mem k' = mem k -> kmem k' = kmem k -> kend k' = kend k -> held k' = held k ->
  aspace k dir T U R l -> aspace k' dir T U R l.
Proof.
  intros E1 E2 E3 E4 [[H1 H2 H3 H4] H5 H6]. split; [split| |]; rewrite ?E1, ?E3; try done. by eapply free_rep_same.
Qed.

Lemma aspace_take k km dir T U R s l : aspace k dir T U R (s :: l) -> free_rep (k <| kmem := km |>) l ->
  aspace (k <| kmem := km |>) dir T U (s :: R) l.
Proof.
  intros H Hf. eapply (aspace_other k _ dir T U R (s :: R) (s :: l) l []); [done|unfold vm_frame; kernel_ext|done|done|apply list_subseteq_nil|].
  apply Permutation_middle.
Qed.

Lemma aspace_perm k dir T U R R' l : R ≡ₚ R' -> aspace k dir T U R l -> aspace k dir T U R' l.
Proof. intros HR [H1 H2 H3]. split; [|done|done]. eapply vspace_perm; [|done]. by rewrite HR. Qed.

Lemma aspace_give k dir T U R R' s l : aspace k dir T U R' l -> R' ≡ₚ s :: R ->
  exists k', kfree s k = Ret tt k' /\ vm_frame k k' /\ aspace k' dir T U R (s :: l) /\ kept U k k'.
Proof.
  intros H Hp. pose proof (vs_own _ _ _ _ _ (as_space _ _ _ _ _ _ H)) as Hnd.
  pose proof (vs_all_ok _ _ _ _ _ (as_space _ _ _ _ _ _ H)) as Hok. rewrite Hp in Hnd, Hok. rewrite Forall_forall in Hok.
  apply NoDup_cons in Hnd as [_ Hnd]. apply NoDup_app in Hnd as (_ & _ & Hnd). rewrite <- app_assoc in Hnd.
  apply NoDup_app in Hnd as (_ & _ & Hnd). simpl in Hnd. apply NoDup_cons in Hnd as [Hs _].
  destruct (kfree_give k l s) as (k' & E & F & M & Hf); [apply H|apply Hok; inlist|intros Hin; apply Hs; inlist|].
  destruct (aspace_other k k' dir T U R' R l (s :: l) [s] H F Hf M) as (Ha & Hk & _);
    [intros q Hq; rewrite Hp; revert Hq; inlist|rewrite Hp; symmetry; apply Permutation_middle|].
  exists k'. by split_and!.
Qed.

Section forking.
Context {I : Image}.

(** The process [i] can fork: its space is well formed and mapped up to its size, its files and
    its directory are referenced, and their counts cannot overflow. *)
Record forkable (k : kernel) (i d : nat) (T : gmap Z Z) (U : gmap Z (Z * Z)) (R l : list Z) : Prop := {
  fk_held : held k = [];
  fk_cur : curproc k = Some i;
  fk_run : (i < NPROC)%nat /\ state (proc_at k i) <> UNUSED;
  fk_procs : procs_ok k;
  fk_pid : nextpid k < 2 ^ 31 - 1;
  fk_space : aspace k (pgdir (proc_at k i)) T U R l;
  fk_image : image_ok k;
  fk_sz : 0 <= sz (proc_at k i) <= KERNBASE;
  fk_mapped va : 0 <= va < sz (proc_at k i) -> va mod PGSIZE = 0 -> is_Some (U !! va);
  fk_len : length (ofile (proc_at k i)) = NOFILE;
  fk_files j f : ofile (proc_at k i) !!! j = Some f ->
    (f < NFILE)%nat /\ 1 <= fref (file_at k f) < 2 ^ 31 - 1 - Z.of_nat NOFILE;
  fk_ftable : length (ftable (fsys k)) = NFILE;
  fk_cwd : cwd (proc_at k i) = Some d;
  fk_iref : (d < length (icache (fsys k)))%nat /\ - 2 ^ 31 <= iref (inode_at k d) < 2 ^ 31 - 1;
  fk_name : length (name (proc_at k i)) = 16%nat;
  fk_unused j : (j < NPROC)%nat -> state (proc_at k j) = UNUSED ->
    ofile (proc_at k j) = replicate NOFILE None /\ length (name (proc_at k j)) = 16%nat;
}.

(** The child [c] of process [i]. *)
Record is_child (k k' : kernel) (i d c : nat) : Prop := {
  ch_slot : (c < NPROC)%nat /\ state (proc_at k c) = UNUSED;
  ch_state : state (proc_at k' c) = RUNNABLE;
  ch_pid : pid (proc_at k' c) = nextpid k;
  ch_parent : parent (proc_at k' c) = Some i;
  ch_sz : sz (proc_at k' c) = sz (proc_at k i);
  ch_tf : tf (proc_at k' c) = tf (proc_at k i) <| tf_eax := 0 |>;
  ch_files : ofile (proc_at k' c) = ofile (proc_at k i);
  ch_cwd : cwd (proc_at k' c) = Some d;
  ch_frefs f : (f < NFILE)%nat -> file_at k' f = file_at k f <| fref ::= (fun r => r + nrefs (ofile (proc_at k i)) f) |>;
  ch_iref x : inode_at k' x = if decide (x = d) then inode_at k d <| iref ::= (fun r => r + 1) |> else inode_at k x;
  ch_other j : j <> c -> proc_at k' j = proc_at k j;
}.

(** The child's memory: every address below the size reads as the parent's did, with the same
    protection, from pages that are the child's alone. *)
Definition same_memory (k k' : kernel) (dir dir' sz : Z) : Prop :=
  forall va, 0 <= va < sz -> exists p p' f,
    mmu (mem k) (V2P dir) va = Some (V2P p + va mod PGSIZE, f) /\
    mmu (mem k') (V2P dir') va = Some (V2P p' + va mod PGSIZE, f) /\
    mem k' (p' + va mod PGSIZE) = mem k (p + va mod PGSIZE).

Lemma inode_slot (s : fsstate) src d x : (d < length (icache s))%nat ->
  icache (shared_fs src d s) !!! x = if decide (x = d) then (icache s !!! d) <| iref ::= (fun r => r + 1) |> else icache s !!! x.
Proof. intros Hd. unfold shared_fs. simpl. case_decide as E; [subst; by apply alter_same|by apply alter_other]. Qed.

(** The part of [fork] after [copyuvm]. *)
Definition named (cp : nat) (p : proc) (dir : Z) (q : proc) : proc :=
  q <| pgdir := dir |> <| sz := sz p |> <| parent := Some cp |> <| tf := tf p <| tf_eax := 0 |> |>.

Lemma start_child k k2 i d c dir s T U R l km :
  forkable k i d T U R l -> (c < NPROC)%nat -> state (proc_at k c) = UNUSED ->
  vm_frame (upd_proc c (born (nextpid k) s) k <| nextpid := nextpid k + 1 |> <| kmem := km |>) k2 ->
  exists k', share_and_start c i (upd_proc c (named i (proc_at k i) dir) k2) = Ret (nextpid k) k' /\
    is_child k k' i d c /\ procs_ok k' /\ pgdir (proc_at k' c) = dir /\ kstack (proc_at k' c) = s /\
    mem k' = mem k2 /\ kmem k' = kmem k2 /\ kend k' = kend k2 /\ held k' = held k2.
Proof.
  intros Hk Hc Hs F. pose proof (pr_len _ (fk_procs _ _ _ _ _ _ _ Hk)) as Hl. destruct (fk_run _ _ _ _ _ _ _ Hk) as [Hi Hrun].
  assert (c <> i) as Hne by congruence.
  assert (length (ptable k2) = NPROC) as Hl2 by (rewrite F; simpl; by rewrite length_alter).
  set (k3 := upd_proc c _ k2).
  assert (forall j, proc_at k3 j = if decide (j = c) then named i (proc_at k i) dir (born (nextpid k) s (proc_at k c)) else proc_at k j) as Hat.
  { intros j. assert (forall x, proc_at k2 x = if decide (x = c) then born (nextpid k) s (proc_at k c) else proc_at k x) as H2
      by (intros x; rewrite F; exact (proc_slot k c _ x Hl Hc)).
    unfold k3. rewrite proc_slot, !H2, (decide_True (P := c = c)) by done. by case_decide. }
  assert (proc_at k3 i = proc_at k i) as Hati by (by rewrite Hat, decide_False).
  assert (fsys k3 = fsys k) as Hfs by (unfold k3; simpl; by rewrite F).
  assert (held k3 = []) as Hh3 by (unfold k3; simpl; rewrite F; simpl; by rewrite (fk_held _ _ _ _ _ _ _ Hk)).
  assert (nextpid k3 = nextpid k + 1) as Hn3 by (unfold k3; simpl; by rewrite F).
  destruct (fk_unused _ _ _ _ _ _ _ Hk c Hc Hs) as [Hof Hnm].
  destruct (share_and_start_spec k3 c i d) as (nm & E); try done.
  - unfold k3. simpl. by rewrite length_alter.
  - rewrite Hfs. exact (fk_ftable _ _ _ _ _ _ _ Hk).
  - rewrite Hati. unfold file_at. rewrite Hfs. exact (fk_files _ _ _ _ _ _ _ Hk).
  - rewrite Hati. exact (fk_cwd _ _ _ _ _ _ _ Hk).
  - unfold inode_at. rewrite Hfs. exact (proj2 (fk_iref _ _ _ _ _ _ _ Hk)).
  - by rewrite Hat, decide_True.
  - rewrite Hati. exact (fk_name _ _ _ _ _ _ _ Hk).
  - rewrite Hati in E. rewrite E. rewrite Hat, decide_True by done. change (pid (named _ _ _ _)) with (nextpid k).
    set (k' := upd_proc c _ _). exists k'. split; [done|].
    assert (length (ptable k3) = NPROC) as Hl3 by (unfold k3; simpl; by rewrite length_alter).
    assert (forall j, proc_at k' j = if decide (j = c)
       then take_over (ofile (proc_at k i)) d nm (named i (proc_at k i) dir (born (nextpid k) s (proc_at k c))) else proc_at k j) as Hat'.
    { intros j. unfold k'. rewrite (proc_slot (k3 <| fsys ::= _ |>)) by done.
      change (proc_at (k3 <| fsys ::= ?g |>)) with (proc_at k3). rewrite !Hat, (decide_True (P := c = c)) by done. by case_decide. }
    assert (fsys k' = shared_fs (ofile (proc_at k i)) d (fsys k)) as Hfs' by (rewrite <- Hfs; reflexivity).
    split_and!; [| | | |reflexivity..].
    + split; rewrite ?Hat', ?(decide_True (P := c = c)) by done; try done.
      * change (dup_to NOFILE 0 (ofile (proc_at k i)) (ofile (proc_at k c)) = ofile (proc_at k i)). rewrite Hof.
        pose proof (fk_len _ _ _ _ _ _ _ Hk) as Hlen. apply dup_to_all; [done|by rewrite length_replicate|lia|].
        intros j Hj. apply lookup_total_replicate_2. lia.
      * intros f Hf. unfold file_at. rewrite Hfs'. change (ftable (shared_fs ?src d ?fs)) with (ref_all NOFILE 0 src (ftable fs)).
        pose proof (fk_ftable _ _ _ _ _ _ _ Hk) as Hft.
        rewrite ref_all_count; [by rewrite drop_0|apply (fk_len _ _ _ _ _ _ _ Hk)|lia|].
        intros j g Hg. rewrite Hft. by apply (fk_files _ _ _ _ _ _ _ Hk j).
      * intros x. unfold inode_at. rewrite Hfs'. apply inode_slot, (fk_iref _ _ _ _ _ _ _ Hk).
      * intros j Hj. by rewrite Hat', decide_False.
    + pose proof (fk_procs _ _ _ _ _ _ _ Hk) as Hok. eapply procs_ok_ext;
        [apply (procs_ok_upd k c (fun q => take_over (ofile (proc_at k i)) d nm (named i (proc_at k i) dir (born (nextpid k) s q))) (nextpid k + 1)); try done; [lia|]| | |done].
      * right. right. split; [done|lia].
      * unfold k'. simpl. by rewrite length_alter.
      * intros j. rewrite Hat'. symmetry. by apply (proc_slot k c).
    + by rewrite Hat', decide_True.
    + by rewrite Hat', decide_True.
Qed.

Lemma fork_frame k k' k1 i d c s km T U R l : forkable k i d T U R l -> (c < NPROC)%nat -> state (proc_at k c) = UNUSED ->
  k1 = upd_proc c (born (nextpid k) s) k <| nextpid := nextpid k + 1 |> <| kmem := km |> -> vm_frame k1 k' ->
  proc_at k' i = proc_at k i /\ kstack (proc_at k' c) = s /\ forall j, j <> c -> proc_at k' j = proc_at k j.
Proof.
  intros Hk Hc Hs -> F. pose proof (pr_len _ (fk_procs _ _ _ _ _ _ _ Hk)) as Hl. destruct (fk_run _ _ _ _ _ _ _ Hk) as [Hi Hrun].
  assert (forall j, proc_at k' j = if decide (j = c) then born (nextpid k) s (proc_at k c) else proc_at k j) as H
    by (intros j; rewrite F; exact (proc_slot k c _ j Hl Hc)).
  split_and!; [|by rewrite H, decide_True|intros j Hj; by rewrite H, decide_False].
  rewrite H, decide_False by congruence. done.
Qed.

(** A fork without memory gives its slot back. *)
Lemma fork_undone k k2 k3 i d c s km T U R l : forkable k i d T U R l -> (c < NPROC)%nat -> state (proc_at k c) = UNUSED ->
  vm_frame (upd_proc c (born (nextpid k) s) k <| nextpid := nextpid k + 1 |> <| kmem := km |>) k2 ->
  vm_frame (upd_proc c (fun q => q <| pgdir := 0 |>) k2) k3 ->
  let k' := upd_proc c (fun q => q <| kstack := 0 |> <| state := UNUSED |>) k3 in
  (forall j, state (proc_at k' j) = state (proc_at k j)) /\ procs_ok k' /\ fsys k' = fsys k.
Proof.
  intros Hk Hc Hs F F3 k'. pose proof (fk_procs _ _ _ _ _ _ _ Hk) as Hok. pose proof (pr_len _ Hok) as Hl.
  assert (ptable k' = alter (fun q => born (nextpid k) s q <| pgdir := 0 |> <| kstack := 0 |> <| state := UNUSED |>) c (ptable k)) as Hpt.
  { unfold k'. simpl. rewrite F3. simpl. rewrite F. simpl. rewrite !alter_alter. f_equal. }
  set (g := fun q => _) in Hpt.
  assert (forall j, proc_at k' j = proc_at (upd_proc c g k) j) as Hat by (intros j; unfold proc_at; by rewrite Hpt).
  split_and!.
  - intros j. rewrite Hat, proc_slot by done. case_decide; [by subst|done].
  - eapply procs_ok_ext; [apply (procs_ok_upd k c g (nextpid k + 1)); [done|done|lia|by left]|rewrite Hpt; by rewrite length_alter|exact Hat|].
    unfold k'. simpl. rewrite F3. simpl. by rewrite F.
  - unfold k'. simpl. rewrite F3. simpl. by rewrite F.
Qed.

Lemma stillborn_state k c j : length (ptable k) = NPROC -> (c < NPROC)%nat -> state (proc_at k c) = UNUSED ->
  state (proc_at (upd_proc c (stillborn (nextpid k)) k) j) = state (proc_at k j).
Proof. intros Hl Hc Hs. rewrite proc_slot by done. case_decide; [by subst|done]. Qed.
End forking.


(** The program of [small], run by process 0. *)
Definition small_user : kernel :=
  small <| ptable ::= alter (fun p => p <| state := RUNNING |> <| pid := 1 |> <| sz := 4096 |> <| pgdir := small_dir |> <| cwd := Some 0%nat |>) 0%nat |>
        <| curproc := Some 0%nat |> <| nextpid := 2 |>.

Lemma small_user_proc j : proc_at small_user j =
  if decide (j = 0%nat) then zero_proc <| state := RUNNING |> <| pid := 1 |> <| sz := 4096 |> <| pgdir := small_dir |> <| cwd := Some 0%nat |> else zero_proc.
Proof.
  transitivity (if decide (j = 0%nat) then proc_at kernel0 0 <| state := RUNNING |> <| pid := 1 |> <| sz := 4096 |> <| pgdir := small_dir |> <| cwd := Some 0%nat |> else proc_at kernel0 j).
  - apply (proc_slot kernel0); [done|unfold NPROC; lia].
  - by rewrite !kernel0_proc.
Qed.

Lemma small_forkable : forkable small_user 0 0 small_tables small_pages [] [small_dir + 12288].
Proof.
  pose proof (small_user_proc 0) as H0. rewrite decide_True in H0 by done.
  split; rewrite ?H0; try done.
  - split; [unfold NPROC; lia|done].
  - split; [done| | |done].
    + intros i Hi. rewrite small_user_proc. case_decide; done.
    + intros i j Hi Hj. rewrite !small_user_proc. repeat case_decide; by subst.
  - apply (aspace_same small); try done. exact small_ok.
  - exact small_mapped.
  - intros j f Hf. change (replicate NOFILE None !!! j = Some f) in Hf. exfalso. clear -Hf.
    rewrite list_lookup_total_alt in Hf. destruct (replicate NOFILE None !! j) as [o|] eqn:E; [|done].
    apply lookup_replicate in E as [-> _]. done.
  - split; [change (0 < NINODE)%nat; unfold NINODE; lia|]. unfold inode_at. change (icache (fsys small_user) !!! 0%nat) with (inode_at kernel0 0). by rewrite kernel0_inode.
  - intros j Hj. rewrite small_user_proc. case_decide; done.
Qed.


(** ** Reaping a child *)

Lemma free_rep_locks k k' l : mem k' = mem k -> kmem k' = kmem k -> kend k' = kend k -> KmemLock ∉ held k' ->
  free_rep k l -> free_rep k' l.
Proof. intros E1 E2 E3 Hn (H1 & H2 & H3 & H4 & H5 & _). unfold free_rep. rewrite E1, E2, E3. by split_and!. Qed.

Lemma aspace_locks k k' dir T U R l : mem k' = mem k -> kmem k' = kmem k -> kend k' = kend k -> KmemLock ∉ held k' ->
  aspace k dir T U R l -> aspace k' dir T U R l.
Proof.
  intros E1 E2 E3 Hn [[H1 H2 H3 H4] H5 H6]. split; [split| |]; rewrite ?E1, ?E3; try done. by eapply free_rep_locks.
Qed.

Lemma find_zombie_some i ps c : find_zombie i ps = Some c -> (c < length ps)%nat /\ state (ps !!! c) = ZOMBIE /\ parent (ps !!! c) = Some i.
Proof. intros H. unfold find_zombie in H. apply list_find_total in H as [? [? ?]]. done. Qed.

Definition reaped (p : proc) : proc :=
  p <| kstack := 0 |> <| pid := 0 |> <| parent := None |> <| name ::= <[0%nat := 0]> |> <| killed := 0 |> <| state := UNUSED |>.

Lemma wait_loop_zombie n i k c : find_zombie i (ptable k) = Some c ->
  wait_loop n i k =
    (kfree (kstack (proc_at k c)) ;;
     set_proc c (fun p => p <| kstack := 0 |>) ;;
     freevm (pgdir (proc_at k c)) ;;
     set_proc c (fun p => p <| pid := 0 |> <| parent := None |> <| name ::= <[0%nat := 0]> |> <| killed := 0 |> <| state := UNUSED |>) ;;
     release PtableLock ;;
     mret (pid (proc_at k c))) k.
Proof. intros H. destruct n; cbn [wait_loop]; unfold mbind at 1, K_bind at 1, gets at 1; cbn [obind]; by rewrite H. Qed.

Lemma wait_spec n k i c T U R l :
  held k = [] -> curproc k = Some i -> length (ptable k) = NPROC -> find_zombie i (ptable k) = Some c ->
  aspace k (pgdir (proc_at k c)) T U (kstack (proc_at k c) :: R) l ->
  exists k' l', wait n k = Ret (pid (proc_at k c)) k' /\ held k' = [] /\ nextpid k' = nextpid k /\
    (forall j, proc_at k' j = if decide (j = c) then reaped (proc_at k c) else proc_at k j) /\ length (ptable k') = NPROC /\
    free_rep k' l' /\ l' ≡ₚ kstack (proc_at k c) :: pgdir (proc_at k c) :: vals T ++ upages U ++ l.
Proof.
  intros Hh Hc Hl Hz Ha. destruct (find_zombie_some _ _ _ Hz) as (Hcl & Hst & Hpar). rewrite Hl in Hcl.
  unfold wait, mbind, K_bind. unfold cur at 1. rewrite Hc. cbn [obind]. rewrite acquire_ok by (rewrite Hh; notheld). cbn [obind].
  set (k1 := k <| held ::= cons PtableLock |>).
  assert (held k1 = [PtableLock]) as Hh1 by (unfold k1; simpl; by rewrite Hh).
  assert (aspace k1 (pgdir (proc_at k c)) T U (kstack (proc_at k c) :: R) l) as Ha1.
  { apply (aspace_locks k); [done..|rewrite Hh1; notheld|done]. }
  rewrite (wait_loop_zombie n i k1 c Hz). change (proc_at k1 c) with (proc_at k c). unfold mbind, K_bind.
  destruct (aspace_give k1 _ T U R _ (kstack (proc_at k c)) l Ha1) as (k2 & -> & F2 & Ha2 & _); [done|]. cbn [obind]. unfold set_proc, modify. cbn [obind].
  set (k3 := upd_proc c _ k2).
  destruct (freevm_spec k3 (pgdir (proc_at k c)) T U R (kstack (proc_at k c) :: l)) as (k4 & l' & -> & F4 & Hf4 & Hp4 & _);
    [by apply (aspace_same k2)|]. cbn [obind].
  assert (ptable k4 = alter (fun p => p <| kstack := 0 |>) c (ptable k)) as Hpt by (rewrite F4; simpl; by rewrite F2).
  assert (held k4 = [PtableLock]) as Hh4 by (rewrite F4; simpl; rewrite F2; exact Hh1).
  rewrite (release_ok _ []) by (done || (simpl; by rewrite Hh4) || notheld). cbn [obind]. kunfold. cbn [obind].
  eexists _, l'. split; [done|]. split_and!; [done|simpl; rewrite F4; simpl; by rewrite F2| | | |].
  - intros j. unfold proc_at. simpl. rewrite Hpt, alter_alter. exact (proc_slot k c reaped j Hl Hcl).
  - simpl. by rewrite Hpt, !length_alter.
  - apply (free_rep_locks k4); [done..|simpl; notheld|done].
  - rewrite Hp4. clear. perm.
Qed.

(** C10. [wait] reaps a child that has exited: it returns the child's number, makes its slot free for
    a new process, and gives its kernel stack, page directory, page tables and memory
    back, each page once; no other process changes. *)
Theorem wait_reaps_child n k i c T U R l :
  held k = [] -> curproc k = Some i -> procs_ok k -> find_zombie i (ptable k) = Some c ->
  aspace k (pgdir (proc_at k c)) T U (kstack (proc_at k c) :: R) l ->
  exists k' l', wait n k = Ret (pid (proc_at k c)) k' /\ procs_ok k' /\ held k' = [] /\
    state (proc_at k' c) = UNUSED /\ (forall j, j <> c -> proc_at k' j = proc_at k j) /\
    free_rep k' l' /\ l' ≡ₚ kstack (proc_at k c) :: pgdir (proc_at k c) :: vals T ++ upages U ++ l.
Proof.
  intros Hh Hc Hok Hz Ha. destruct (wait_spec n k i c T U R l Hh Hc (pr_len _ Hok) Hz Ha) as (k' & l' & E & Hh' & Hn & Hat & Hl' & Hf & Hp).
  exists k', l'. split_and!; try done.
  - destruct (find_zombie_some _ _ _ Hz) as (Hcl & _ & _). rewrite (pr_len _ Hok) in Hcl.
    eapply procs_ok_ext; [apply (procs_ok_upd k c reaped (nextpid k)); [done|done|lia|by left]|done| |done].
    intros j. rewrite Hat. symmetry. apply (proc_slot k c); [apply Hok|done].
  - by rewrite Hat, decide_True.
  - intros j Hj. by rewrite Hat, decide_False.
Qed.

(** Process 0 of [small_user] with a child that has exited; the child's stack was the last free page. *)
Definition small_zombie : kernel :=
  small_user <| kmem := mkKmem true 0 |>
             <| ptable ::= alter (fun p => p <| state := ZOMBIE |> <| parent := Some 0%nat |> <| pid := 2 |> <| kstack := small_dir + 12288 |> <| pgdir := small_dir |>) 1%nat |>
             <| nextpid := 3 |>.

Lemma small_zombie_space : aspace small_zombie small_dir small_tables small_pages [small_dir + 12288] [].
Proof.
  apply (aspace_same (small <| kmem := mkKmem true 0 |>)); [done..|]. apply aspace_take; [exact small_ok|].
  destruct (vs_free _ _ _ _ _ (as_space _ _ _ _ _ _ small_ok)) as (_ & _ & _ & Hb & Hk & _).
  split_and!; [done|by apply NoDup_nil|by apply Forall_nil|done..|]. intros _. apply not_elem_of_nil.
Qed.

Lemma procs_ok_kmem k km : procs_ok k -> procs_ok (k <| kmem := km |>).
Proof. intros [? ? ? ?]. by split. Qed.

Lemma small_zombie_procs : procs_ok small_zombie.
Proof.
  pose proof (fk_procs _ _ _ _ _ _ _ small_forkable) as H.
  apply (procs_ok_upd (small_user <| kmem := mkKmem true 0 |>) 1
    (fun p => p <| state := ZOMBIE |> <| parent := Some 0%nat |> <| pid := 2 |> <| kstack := small_dir + 12288 |> <| pgdir := small_dir |>) 3).
  - by apply procs_ok_kmem.
  - unfold NPROC. lia.
  - simpl. lia.
  - right. right. simpl. lia.
Qed.

Lemma small_zombie_child : proc_at small_zombie 1 =
  zero_proc <| state := ZOMBIE |> <| parent := Some 0%nat |> <| pid := 2 |> <| kstack := small_dir + 12288 |> <| pgdir := small_dir |>.
Proof. reflexivity. Qed.

Lemma wait_reaps_child_witness : exists k' l', wait 0 small_zombie = Ret 2 k' /\ procs_ok k' /\ free_rep k' l'.
Proof.
  destruct (wait_reaps_child 0 small_zombie 0 1 small_tables small_pages [] []) as (k' & l' & E & Hok & _ & _ & _ & Hf & _).
  - reflexivity.
  - reflexivity.
  - exact small_zombie_procs.
  - reflexivity.
  - rewrite small_zombie_child. exact small_zombie_space.
  - rewrite small_zombie_child in E. exists k', l'. exact (conj E (conj Hok Hf)).
Defined.
