(* ===== verification/Exec.v ===== *)
(** * Exec: loading a program (exec.c, and [loaduvm] of vm.c)

    [path] and the arguments are the bytes before the terminators of the strings in the
    caller's memory. *)
From stdpp Require Import base list list_numbers gmap strings functions sorting.
From Stdlib Require Import ZArith Lia.
From S2P Require Import Prelude Mem Layout Machine Kalloc Sched Sleeplock Disk Bio Log Vm Fs.
Local Open Scope Z_scope.

Definition MAXARG : nat := 32.
Definition ELF_MAGIC : Z := 1179403647.
Definition ELF_PROG_LOAD : Z := 1.

(** ** [struct elfhdr] and [struct proghdr] (elf.h) *)
Definition elf_size : Z := 52.
Definition elf_magic (h : list Z) : Z := word_at h 0.
Definition elf_entry (h : list Z) : Z := word_at h 24.
Definition elf_phoff (h : list Z) : Z := word_at h 28.
Definition elf_phnum (h : list Z) : Z := half_at h 44.

Definition ph_size : Z := 32.
Definition ph_type (p : list Z) : Z := word_at p 0.
Definition ph_off (p : list Z) : Z := word_at p 4.
Definition ph_vaddr (p : list Z) : Z := word_at p 8.
Definition ph_filesz (p : list Z) : Z := word_at p 16.
Definition ph_memsz (p : list Z) : Z := word_at p 20.

Section exec.
Context {D : BlockDriver} {DS : DevSw} (fuel : nat).

(** [for(i = 0; i < sz; i += PGSIZE)]; true for success. *)
Fixpoint loaduvm_loop (left : nat) (dir addr : Z) (ip : nat) (offset sz i : Z) : K bool :=
  if i <? sz then
    match left with
    | O => out_of_fuel
    | S left' =>
        pte ← walkpgdir dir (u32 (addr + i)) false ;
        if pte =? 0 then panic "loaduvm: address should exist"
        else
          v ← peek pte ;
          let pa := PTE_ADDR v in
          let n := if sz - i <? PGSIZE then sz - i else PGSIZE in
          r ← readi fuel ip (u32 (offset + i)) n ;
          let '(c, l) := r in
          modify (fun k => k <| mem ::= fun m => store_bytes m (P2V pa) l |>) ;;
          if negb (c =? n) then mret false
          else loaduvm_loop left' dir addr ip offset sz (i + PGSIZE)
    end
  else mret true.

Definition loaduvm (dir addr : Z) (ip : nat) (offset sz : Z) : K bool :=
  if negb (addr mod PGSIZE =? 0) then panic "loaduvm: addr must be page aligned"
  else loaduvm_loop (Z.to_nat ((sz + PGSIZE - 1) / PGSIZE)) dir addr ip offset sz 0.

(** Load the program segments; the size reached, or [None] for [goto bad]. *)
Fixpoint exec_segments (left : nat) (dir : Z) (ip : nat) (off sz : Z) : K (option Z) :=
  match left with
  | O => mret (Some sz)
  | S left' =>
      r ← readi fuel ip (u32 off) ph_size ;
      let '(c, ph) := r in
      if negb (c =? ph_size) then mret None
      else if negb (ph_type ph =? ELF_PROG_LOAD) then
        off' ← sadd off ph_size ; exec_segments left' dir ip off' sz
      else if ph_memsz ph <? ph_filesz ph then mret None
      else if u32 (ph_vaddr ph + ph_memsz ph) <? ph_vaddr ph then mret None
      else
        sz' ← allocuvm dir sz (u32 (ph_vaddr ph + ph_memsz ph)) ;
        if sz' =? 0 then mret None
        else if negb (ph_vaddr ph mod PGSIZE =? 0) then mret None
        else
          ok ← loaduvm dir (ph_vaddr ph) ip (ph_off ph) (ph_filesz ph) ;
          if ok : bool then off' ← sadd off ph_size ; exec_segments left' dir ip off' sz'
          else mret None
  end.

(** Push the argument strings; the stack pointer and their addresses. *)
Fixpoint exec_args (argc : nat) (dir sp : Z) (argv : list (list Z)) : K (option (Z * list Z)) :=
  match argv with
  | [] => mret (Some (sp, []))
  | a :: argv' =>
      if Nat.leb MAXARG argc then mret None
      else
        let sp := Z.land (u32 (sp - (Z.of_nat (length a) + 1))) (2 ^ 32 - 4) in
        r ← copyout dir sp (a ++ [0]) ;
        if r <? 0 then mret None
        else
          x ← exec_args (S argc) dir sp argv' ;
          mret ((fun y => (fst y, sp :: snd y)) <$> x)
  end.

(** [last]: what follows the last slash. *)
Fixpoint basename (path last : list Z) : list Z :=
  match path with
  | [] => last
  | c :: path' => basename path' (if c =? slash then path' else last)
  end.

(** The error exit. *)
Definition exec_bad (dir : Z) (ip : option nat) : K Z :=
  whenK (negb (dir =? 0)) (freevm dir) ;;
  match ip with Some ip => iunlockput fuel ip ;; end_op fuel | None => mret tt end ;;
  mret (-1).

(** The stack, from the end of the program on, and the switch to the new image. *)
Definition exec_finish (path : list Z) (argv : list (list Z)) (dir size entry : Z) : K Z :=
  i ← cur ;
  let size := PGROUNDUP size in
  size ← allocuvm dir size (u32 (size + 2 * PGSIZE)) ;
  if size =? 0 then exec_bad dir None
  else
    clearpteu dir (u32 (size - 2 * PGSIZE)) ;;
    r ← exec_args 0 dir size argv ;
    match r with
    | None => exec_bad dir None
    | Some (sp, ptrs) =>
        let argc := Z.of_nat (length argv) in
        let ustack := [2 ^ 32 - 1; argc; u32 (sp - (argc + 1) * 4)] ++ ptrs ++ [0] in
        let sp := u32 (sp - (3 + argc + 1) * 4) in
        r ← copyout dir sp (concat (bytes32 <$> ustack)) ;
        if r <? 0 then exec_bad dir None
        else
          nm ← gets (fun k => name (ptable k !!! i)) ;
          nm ← lift (safestrcpy nm (basename path path ++ [0]) 16) ;
          olddir ← gets (fun k => pgdir (ptable k !!! i)) ;
          modify (upd_proc i (fun p => p <| name := nm |> <| pgdir := dir |> <| sz := size |>
            <| tf ::= (fun t => t <| tf_eip := entry |> <| tf_esp := sp |>) |>)) ;;
          p ← gets (fun k => ptable k !!! i) ;
          switchuvm p ;;
          freevm olddir ;;
          mret 0
    end.

Definition exec (path : list Z) (argv : list (list Z)) : K Z :=
  begin_op fuel ;;
  r ← namei fuel path ;
  match r with
  | None => end_op fuel ;; cprintf "exec: fail\n" [] ;; mret (-1)
  | Some ip =>
      ilock fuel ip ;;
      r ← readi fuel ip 0 elf_size ;
      let '(c, elf) := r in
      if negb (c =? elf_size) then exec_bad 0 (Some ip)
      else if negb (elf_magic elf =? ELF_MAGIC) then exec_bad 0 (Some ip)
      else
        dir ← setupkvm ;
        if dir =? 0 then exec_bad 0 (Some ip)
        else
          r ← exec_segments (Z.to_nat (elf_phnum elf)) dir ip (s32 (elf_phoff elf)) 0 ;
          match r with
          | None => exec_bad dir (Some ip)
          | Some sz =>
              iunlockput fuel ip ;;
              end_op fuel ;;
              exec_finish path argv dir sz (elf_entry elf)
          end
  end.
End exec.
