(* ===== verification/Syscall.v ===== *)
(** * Syscall: system call arguments (syscall.c) and the process calls (sysproc.c)

    Arguments are read from the user's stack through the page table of the process, after
    the checks against its size.  [None] stands for the return value -1 of the functions
    that fetch. *)
From stdpp Require Import base list list_numbers gmap strings functions sorting.
From Stdlib Require Import ZArith Lia.
From S2P Require Import Prelude Mem Layout Machine Kalloc Sched Semaphore Sleeplock Disk Bio Log Vm Fs Pipe File Process.
Local Open Scope Z_scope.

(** ** Fetching arguments *)
Definition fetchint (addr : Z) : K (option Z) :=
  i ← cur ;
  p ← gets (fun k => proc_at k i) ;
  if (sz p <=? addr) || (sz p <? u32 (addr + 4)) then mret None
  else v ← vload32 addr ; mret (Some (s32 v)).

(** The characters from [s] on, up to the terminator. *)
Fixpoint fetchstr_loop (left : nat) (s ep : Z) : K (option (list Z)) :=
  if s <? ep then
    match left with
    | O => out_of_fuel
    | S left' =>
        c ← vload8 s ;
        if c =? 0 then mret (Some [])
        else r ← fetchstr_loop left' (s + 1) ep ; mret (cons c <$> r)
    end
  else mret None.

Definition fetchstr (addr : Z) : K (option (list Z)) :=
  i ← cur ;
  p ← gets (fun k => proc_at k i) ;
  if sz p <=? addr then mret None
  else fetchstr_loop (Z.to_nat (sz p - addr)) addr (sz p).

Definition argint (n : Z) : K (option Z) :=
  i ← cur ;
  p ← gets (fun k => proc_at k i) ;
  fetchint (u32 (tf_esp (tf p) + 4 + 4 * n)).

Definition argptr (n size : Z) : K (option Z) :=
  r ← argint n ;
  match r with
  | None => mret None
  | Some v =>
      i ← cur ;
      p ← gets (fun k => proc_at k i) ;
      if (size <? 0) || (sz p <=? u32 v) || (sz p <? u32 (u32 v + size)) then mret None
      else mret (Some (u32 v))
  end.

Definition argstr (n : Z) : K (option (list Z)) :=
  r ← argint n ;
  match r with
  | None => mret None
  | Some addr => fetchstr (u32 addr)
  end.

(** [if(argint(n, &x) < 0) return -1;] and the like. *)
Definition with_arg {A} (m : K (option A)) (f : A -> K Z) : K Z :=
  r ← m ;
  match r with None => mret (-1) | Some a => f a end.

(** ** Process calls *)
Section sysproc.
Context {D : BlockDriver} {DS : DevSw} {I : Image} (fuel : nat).

Definition sys_fork : K Z := fork.
Definition sys_exit : K Z := exit fuel ;; mret 0.
Definition sys_wait : K Z := wait fuel.
Definition sys_kill : K Z := with_arg (argint 0) kill.
Definition sys_getpid : K Z := i ← cur ; gets (fun k => pid (proc_at k i)).

Definition sys_sbrk : K Z :=
  with_arg (argint 0) (fun n =>
    i ← cur ;
    addr ← gets (fun k => sz (proc_at k i)) ;
    r ← growproc n ;
    if r <? 0 then mret (-1) else mret addr).

(** [while(ticks - ticks0 < n)], compared as unsigned. *)
Fixpoint sys_sleep_loop (left : nat) (ticks0 n : Z) : K Z :=
  t ← gets ticks ;
  if u32 (t - ticks0) <? u32 n then
    i ← cur ;
    kd ← gets (fun k => killed (proc_at k i)) ;
    if negb (kd =? 0) then release TicksLock ;; mret (-1)
    else
      match left with
      | O => out_of_fuel
      | S left' => sleep ChanTicks (Some TicksLock) ;; sys_sleep_loop left' ticks0 n
      end
  else release TicksLock ;; mret 0.

Definition sys_sleep : K Z :=
  with_arg (argint 0) (fun n =>
    acquire TicksLock ;;
    ticks0 ← gets ticks ;
    sys_sleep_loop fuel ticks0 n).

Definition sys_uptime : K Z :=
  acquire TicksLock ;;
  x ← gets ticks ;
  release TicksLock ;;
  mret x.

Definition sys_getptable : K Z :=
  with_arg (argptr 0 (proc_info_size * Z.of_nat NPROC)) (fun buf =>
    with_arg (argint 1) (fun size => getptable buf size)).

Definition sys_getppid : K Z :=
  i ← cur ;
  p ← gets (fun k => proc_at k i) ;
  match parent p with
  | Some j => gets (fun k => pid (proc_at k j))
  | None => undef "no parent"
  end.

Definition sys_setpriority : K Z :=
  with_arg (argint 0) (fun n => with_arg (argint 1) (fun prio => setpriority n prio)).

Definition sys_sem_init : K Z := with_arg (argint 0) (fun sem => with_arg (argint 1) (fun value => sem_init sem value)).
Definition sys_sem_destroy : K Z := with_arg (argint 0) sem_destroy.
Definition sys_sem_wait : K Z := with_arg (argint 0) (fun sem => with_arg (argint 1) (fun count => sem_wait fuel sem count)).
Definition sys_sem_signal : K Z := with_arg (argint 0) (fun sem => with_arg (argint 1) (fun count => sem_signal sem count)).

Definition sys_clone : K Z :=
  with_arg (argint 0) (fun func =>
    with_arg (argint 1) (fun arg =>
      with_arg (argint 2) (fun stk => clone (u32 func) (u32 arg) (u32 stk)))).

Definition sys_join : K Z := with_arg (argint 0) (fun stk => join fuel (u32 stk)).
Definition sys_getscheduler : K Z := getscheduler.
Definition sys_setscheduler : K Z := with_arg (argint 0) setscheduler.

Definition sys_wait2 : K Z :=
  with_arg (argptr 0 4) (fun retimep =>
    with_arg (argptr 1 4) (fun rutimep =>
      with_arg (argptr 2 4) (fun stimep => wait2 fuel retimep rutimep stimep))).
End sysproc.
