(* ===== verification/Sysfile.v ===== *)
(** * Sysfile: the file system calls (sysfile.c) *)
From stdpp Require Import base list list_numbers gmap strings functions sorting.
From Stdlib Require Import ZArith Lia.
From S2P Require Import Prelude Mem Layout Machine Kalloc Sched Semaphore Sleeplock Disk Bio Log Vm Fs Pipe File Process Exec Syscall.
Local Open Scope Z_scope.

Definition O_RDONLY : Z := 0.
Definition O_WRONLY : Z := 1.
Definition O_RDWR : Z := 2.
Definition O_CREATE : Z := 512.

(** The descriptor and the file. *)
Definition argfd (n : Z) : K (option (Z * nat)) :=
  r ← argint n ;
  match r with
  | None => mret None
  | Some fd =>
      i ← cur ;
      p ← gets (fun k => proc_at k i) ;
      if (fd <? 0) || (Z.of_nat NOFILE <=? fd) then mret None
      else mret ((fun f => (fd, f)) <$> (ofile p !!! Z.to_nat fd))
  end.

(** The first free descriptor. *)
Definition fdalloc (f : nat) : K (option nat) :=
  i ← cur ;
  p ← gets (fun k => proc_at k i) ;
  match fst <$> list_find (fun o => o = None) (ofile p) with
  | Some fd => set_proc i (fun p => p <| ofile ::= <[fd := Some f]> |>) ;; mret (Some fd)
  | None => mret None
  end.

Definition dot : list Z := [46; 0].
Definition dotdot : list Z := [46; 46; 0].

Section sysfile.
Context {D : BlockDriver} {DS : DevSw} {I : Image} (fuel : nat).

Definition sys_dup : K Z :=
  with_arg (argfd 0) (fun a =>
    let '(_, f) := a in
    r ← fdalloc f ;
    match r with
    | None => mret (-1)
    | Some fd => filedup f ;; mret (Z.of_nat fd)
    end).

Definition sys_read : K Z :=
  with_arg (argfd 0) (fun a =>
    with_arg (argint 2) (fun n =>
      with_arg (argptr 1 n) (fun p =>
        r ← fileread fuel (snd a) n ;
        vstore p (snd r) ;;
        mret (fst r)))).

Definition sys_write : K Z :=
  with_arg (argfd 0) (fun a =>
    with_arg (argint 2) (fun n =>
      with_arg (argptr 1 n) (fun p =>
        l ← vload (Z.to_nat n) p ;
        filewrite fuel (snd a) l))).

Definition sys_close : K Z :=
  with_arg (argfd 0) (fun a =>
    let '(fd, f) := a in
    i ← cur ;
    set_proc i (fun p => p <| ofile ::= <[Z.to_nat fd := None]> |>) ;;
    fileclose fuel f ;;
    mret 0).

(** [struct stat] in memory: type, dev, ino, nlink, size. *)
Definition stat_size : Z := 20.

(** The fields are assigned; the padding of the user's structure is left alone. *)
Definition store_stat (p : Z) (s : stat) : K unit :=
  vstore32 (u32 (p + 4)) (st_dev s) ;;
  vstore32 (u32 (p + 8)) (st_ino s) ;;
  vstore p [u8 (st_type s); u8 (Z.shiftr (st_type s) 8)] ;;
  vstore (u32 (p + 12)) [u8 (st_nlink s); u8 (Z.shiftr (st_nlink s) 8)] ;;
  vstore32 (u32 (p + 16)) (st_size s).

Definition sys_fstat : K Z :=
  with_arg (argfd 0) (fun a =>
    with_arg (argptr 1 stat_size) (fun p =>
      r ← filestat fuel (snd a) ;
      match r with
      | None => mret (-1)
      | Some st => store_stat p st ;; mret 0
      end)).

(** [goto bad] of [sys_link]. *)
Definition link_bad (ip : nat) : K Z :=
  ilock fuel ip ;;
  upd_inode ip (fun x => x <| nlink ::= (fun n => s16 (n - 1)) |>) ;;
  iupdate fuel ip ;;
  iunlockput fuel ip ;;
  end_op fuel ;;
  mret (-1).

Definition sys_link : K Z :=
  with_arg (argstr 0) (fun old =>
    with_arg (argstr 1) (fun new =>
      begin_op fuel ;;
      r ← namei fuel old ;
      match r with
      | None => end_op fuel ;; mret (-1)
      | Some ip =>
          ilock fuel ip ;;
          x ← gets (fun k => inode_at k ip) ;
          if itype x =? T_DIR then iunlockput fuel ip ;; end_op fuel ;; mret (-1)
          else
            upd_inode ip (fun x => x <| nlink ::= (fun n => s16 (n + 1)) |>) ;;
            iupdate fuel ip ;;
            iunlock ip ;;
            r ← nameiparent fuel new (replicate DIRSIZ 0) ;
            match r with
            | (None, _) => link_bad ip
            | (Some dp, nm) =>
                ilock fuel dp ;;
                d ← gets (fun k => idev (inode_at k dp)) ;
                x ← gets (fun k => inode_at k ip) ;
                r ← (if negb (d =? idev x) then mret (-1) else dirlink fuel dp nm (inum x)) ;
                if r <? 0 then iunlockput fuel dp ;; link_bad ip
                else
                  iunlockput fuel dp ;;
                  iput fuel ip ;;
                  end_op fuel ;;
                  mret 0
            end
      end)).

(** [off] starts after the entries of [.] and [..]. *)
Fixpoint isdirempty_loop (left : nat) (dp : nat) (off : Z) : K bool :=
  x ← gets (fun k => inode_at k dp) ;
  if u32 off <? isize x then
    match left with
    | O => out_of_fuel
    | S left' =>
        r ← readi fuel dp (u32 off) dirent_size ;
        let '(c, de) := r in
        if negb (c =? dirent_size) then panic "isdirempty: readi"
        else if negb (de_inum de =? 0) then mret false
        else off' ← sadd off dirent_size ; isdirempty_loop left' dp off'
    end
  else mret true.

Definition isdirempty (dp : nat) : K bool :=
  x ← gets (fun k => inode_at k dp) ;
  isdirempty_loop (nents (isize x)) dp (2 * dirent_size).

Definition unlink_bad (dp : nat) : K Z :=
  iunlockput fuel dp ;; end_op fuel ;; mret (-1).

Definition sys_unlink : K Z :=
  with_arg (argstr 0) (fun path =>
    begin_op fuel ;;
    r ← nameiparent fuel path (replicate DIRSIZ 0) ;
    match r with
    | (None, _) => end_op fuel ;; mret (-1)
    | (Some dp, nm) =>
        ilock fuel dp ;;
        c1 ← namecmp nm dot ;
        c2 ← (if c1 =? 0 then mret 0 else namecmp nm dotdot) ;
        if c2 =? 0 then unlink_bad dp
        else
          r ← dirlookup fuel dp nm ;
          match r with
          | None => unlink_bad dp
          | Some (ip, off) =>
              ilock fuel ip ;;
              x ← gets (fun k => inode_at k ip) ;
              if nlink x <? 1 then panic "unlink: nlink < 1"
              else
                busy ← (if itype x =? T_DIR then e ← isdirempty ip ; mret (negb e) else mret false) ;
                if busy : bool then iunlockput fuel ip ;; unlink_bad dp
                else
                  c ← writei fuel dp (replicate (Z.to_nat dirent_size) 0) off ;
                  if negb (c =? dirent_size) then panic "unlink: writei"
                  else
                    x ← gets (fun k => inode_at k ip) ;
                    whenK (itype x =? T_DIR) (
                      upd_inode dp (fun x => x <| nlink ::= (fun n => s16 (n - 1)) |>) ;;
                      iupdate fuel dp) ;;
                    iunlockput fuel dp ;;
                    upd_inode ip (fun x => x <| nlink ::= (fun n => s16 (n - 1)) |>) ;;
                    iupdate fuel ip ;;
                    iunlockput fuel ip ;;
                    end_op fuel ;;
                    mret 0
          end
    end).

(** The inode, locked. *)
Definition create (path : list Z) (type mj mn : Z) : K (option nat) :=
  r ← nameiparent fuel path (replicate DIRSIZ 0) ;
  match r with
  | (None, _) => mret None
  | (Some dp, nm) =>
      ilock fuel dp ;;
      r ← dirlookup fuel dp nm ;
      match r with
      | Some (ip, _) =>
          iunlockput fuel dp ;;
          ilock fuel ip ;;
          x ← gets (fun k => inode_at k ip) ;
          if (type =? T_FILE) && (itype x =? T_FILE) then mret (Some ip)
          else iunlockput fuel ip ;; mret None
      | None =>
          d ← gets (fun k => idev (inode_at k dp)) ;
          ip ← ialloc fuel d type ;
          ilock fuel ip ;;
          upd_inode ip (fun x => x <| major := s16 mj |> <| minor := s16 mn |> <| nlink := 1 |>) ;;
          iupdate fuel ip ;;
          whenK (type =? T_DIR) (
            upd_inode dp (fun x => x <| nlink ::= (fun n => s16 (n + 1)) |>) ;;
            iupdate fuel dp ;;
            n ← gets (fun k => inum (inode_at k ip)) ;
            r1 ← dirlink fuel ip dot n ;
            if r1 <? 0 then panic "create dots"
            else
              n' ← gets (fun k => inum (inode_at k dp)) ;
              r2 ← dirlink fuel ip dotdot n' ;
              if r2 <? 0 then panic "create dots" else mret tt) ;;
          n ← gets (fun k => inum (inode_at k ip)) ;
          r ← dirlink fuel dp nm n ;
          if r <? 0 then panic "create: dirlink"
          else iunlockput fuel dp ;; mret (Some ip)
      end
  end.

Definition has_flag (omode f : Z) : bool := negb (Z.land omode f =? 0).

(** The inode to open, locked; [None] after [end_op]. *)
Definition open_inode (path : list Z) (omode : Z) : K (option nat) :=
  if has_flag omode O_CREATE then
    r ← create path T_FILE 0 0 ;
    match r with
    | None => end_op fuel ;; mret None
    | Some ip => mret (Some ip)
    end
  else
    r ← namei fuel path ;
    match r with
    | None => end_op fuel ;; mret None
    | Some ip =>
        ilock fuel ip ;;
        x ← gets (fun k => inode_at k ip) ;
        if (itype x =? T_DIR) && negb (omode =? O_RDONLY) then
          iunlockput fuel ip ;; end_op fuel ;; mret None
        else mret (Some ip)
    end.

Definition sys_open : K Z :=
  with_arg (argstr 0) (fun path =>
    with_arg (argint 1) (fun omode =>
      begin_op fuel ;;
      r ← open_inode path omode ;
      match r with
      | None => mret (-1)
      | Some ip =>
          f ← filealloc ;
          fd ← match f with Some f => fdalloc f | None => mret None end ;
          match f, fd with
          | Some f, Some fd =>
              iunlock ip ;;
              end_op fuel ;;
              upd_file f (fun x => x <| ftype := FD_INODE |> <| fip := Some ip |> <| foff := 0 |>
                <| readable := negb (has_flag omode O_WRONLY) |>
                <| writable := has_flag omode O_WRONLY || has_flag omode O_RDWR |>) ;;
              mret (Z.of_nat fd)
          | _, _ =>
              match f with Some f => fileclose fuel f | None => mret tt end ;;
              iunlockput fuel ip ;;
              end_op fuel ;;
              mret (-1)
          end
      end)).

(** [end_op(); return -1;] of the calls that start the transaction first. *)
Definition in_op {A} (m : K (option A)) (f : A -> K Z) : K Z :=
  r ← m ;
  match r with None => end_op fuel ;; mret (-1) | Some a => f a end.

Definition sys_mkdir : K Z :=
  begin_op fuel ;;
  in_op (argstr 0) (fun path =>
    in_op (create path T_DIR 0 0) (fun ip =>
      iunlockput fuel ip ;; end_op fuel ;; mret 0)).

Definition sys_mknod : K Z :=
  begin_op fuel ;;
  in_op (argstr 0) (fun path =>
    in_op (argint 1) (fun mj =>
      in_op (argint 2) (fun mn =>
        in_op (create path T_DEV (s16 mj) (s16 mn)) (fun ip =>
          iunlockput fuel ip ;; end_op fuel ;; mret 0)))).

Definition sys_chdir : K Z :=
  i ← cur ;
  begin_op fuel ;;
  in_op (argstr 0) (fun path =>
    in_op (namei fuel path) (fun ip =>
      ilock fuel ip ;;
      x ← gets (fun k => inode_at k ip) ;
      if negb (itype x =? T_DIR) then iunlockput fuel ip ;; end_op fuel ;; mret (-1)
      else
        iunlock ip ;;
        p ← gets (fun k => proc_at k i) ;
        match cwd p with Some d => iput fuel d | None => undef "no current directory" end ;;
        end_op fuel ;;
        set_proc i (fun p => p <| cwd := Some ip |>) ;;
        mret 0)).

(** The argument vector at [uargv], from element [i] on. *)
Fixpoint fetch_argv (left : nat) (uargv i : Z) : K (option (list (list Z))) :=
  match left with
  | O => mret None
  | S left' =>
      r ← fetchint (u32 (uargv + 4 * i)) ;
      match r with
      | None => mret None
      | Some uarg =>
          if uarg =? 0 then mret (Some [])
          else
            s ← fetchstr (u32 uarg) ;
            match s with
            | None => mret None
            | Some s => rest ← fetch_argv left' uargv (i + 1) ; mret (cons s <$> rest)
            end
      end
  end.

Definition sys_exec : K Z :=
  with_arg (argstr 0) (fun path =>
    with_arg (argint 1) (fun uargv =>
      with_arg (fetch_argv MAXARG (u32 uargv) 0) (fun argv => exec fuel path argv))).

Definition sys_pipe : K Z :=
  with_arg (argptr 0 8) (fun fdp =>
    r ← pipealloc fuel ;
    match r with
    | None => mret (-1)
    | Some (rf, wf) =>
        fd0 ← fdalloc rf ;
        fd1 ← match fd0 with Some _ => fdalloc wf | None => mret None end ;
        match fd0, fd1 with
        | Some fd0, Some fd1 =>
            vstore32 fdp (Z.of_nat fd0) ;;
            vstore32 (u32 (fdp + 4)) (Z.of_nat fd1) ;;
            mret 0
        | _, _ =>
            i ← cur ;
            match fd0 with
            | Some fd0 => set_proc i (fun p => p <| ofile ::= <[fd0 := None]> |>)
            | None => mret tt
            end ;;
            fileclose fuel rf ;;
            fileclose fuel wf ;;
            mret (-1)
        end
    end).

(** ** Dispatch (syscall.c) *)
Definition syscalls (num : Z) : option (K Z) :=
  match num with
  | 1 => Some sys_fork | 2 => Some (sys_exit fuel) | 3 => Some (sys_wait fuel) | 4 => Some sys_pipe
  | 5 => Some sys_read | 6 => Some sys_kill | 7 => Some sys_exec | 8 => Some sys_fstat
  | 9 => Some sys_chdir | 10 => Some sys_dup | 11 => Some sys_getpid | 12 => Some sys_sbrk
  | 13 => Some (sys_sleep fuel) | 14 => Some sys_uptime | 15 => Some sys_open | 16 => Some sys_write
  | 17 => Some sys_mknod | 18 => Some sys_unlink | 19 => Some sys_link | 20 => Some sys_mkdir
  | 21 => Some sys_close | 22 => Some sys_getptable | 23 => Some sys_getppid | 24 => Some sys_setpriority
  | 25 => Some sys_sem_init | 26 => Some sys_sem_destroy | 27 => Some (sys_sem_wait fuel) | 28 => Some sys_sem_signal
  | 29 => Some sys_clone | 30 => Some (sys_join fuel) | 31 => Some sys_getscheduler | 32 => Some sys_setscheduler
  | 33 => Some (sys_wait2 fuel) | 34 => Some sys_yield
  | _ => None
  end.

Definition syscall : K unit :=
  i ← cur ;
  num ← gets (fun k => s32 (tf_eax (tf (proc_at k i)))) ;
  match syscalls num with
  | Some f =>
      r ← f ;
      set_proc i (fun p => p <| tf ::= (fun t => t <| tf_eax := u32 r |>) |>)
  | None =>
      p ← gets (fun k => proc_at k i) ;
      cprintf "%d %s: unknown sys call %d\n" (pid p :: cstr (name p) ++ [num]) ;;
      set_proc i (fun p => p <| tf ::= (fun t => t <| tf_eax := u32 (-1) |>) |>)
  end.
End sysfile.
