(* ===== verification/Trap.v ===== *)
(** * Trap: traps and interrupts (trap.c) *)
From stdpp Require Import base list list_numbers gmap strings functions sorting.
From Stdlib Require Import ZArith Lia.
From S2P Require Import Prelude Mem Layout Machine Kalloc Sched Semaphore Sleeplock Disk Bio Log Vm Fs Console Pipe File Process Exec Syscall Sysfile.
Local Open Scope Z_scope.

Definition T_SYSCALL : Z := 64.
Definition T_IRQ0 : Z := 32.
Definition IRQ_TIMER : Z := 0.
Definition IRQ_KBD : Z := 1.
Definition IRQ_COM1 : Z := 4.
Definition IRQ_IDE : Z := 14.
Definition IRQ_SPURIOUS : Z := 31.

Definition timer : Z := T_IRQ0 + IRQ_TIMER.

Section trap.
Context {D : BlockDriver} {DS : DevSw} {I : Image} (fuel : nat).

(** What the hardware supplies: the disk driver's handler, the CPU's number, the faulting
    address, and what waits in the keyboard controller and the serial port. *)
Context (ideintr : K unit) (cpuid cr2 : Z) (scans serial : list Z).

Definition is_killed (k : kernel) : bool :=
  match curproc k with Some i => negb (killed (ptable k !!! i) =? 0) | None => false end.

(** The clock interrupt on CPU 0. *)
Definition clock_tick : K unit :=
  acquire TicksLock ;;
  modify (fun k => k <| ticks ::= (fun t => u32 (t + 1)) |>) ;;
  update_statistics ;;
  wakeup ChanTicks ;;
  release TicksLock.

(** [switch(tf->trapno)]. *)
Definition trap_switch (t : trapframe) : K unit :=
  let n := tf_trapno t in
  if n =? timer then whenK (cpuid =? 0) clock_tick
  else if n =? T_IRQ0 + IRQ_IDE then ideintr
  else if n =? T_IRQ0 + IRQ_IDE + 1 then mret tt
  else if n =? T_IRQ0 + IRQ_KBD then kbdintr scans
  else if n =? T_IRQ0 + IRQ_COM1 then consoleintr serial
  else if (n =? T_IRQ0 + 7) || (n =? T_IRQ0 + IRQ_SPURIOUS) then
    cprintf "cpu%d: spurious interrupt at %x:%x\n" [cpuid; tf_cs t; tf_eip t]
  else
    c ← gets curproc ;
    match c with
    | None =>
        cprintf "unexpected trap %d from cpu %d eip %x (cr2=0x%x)\n" [n; cpuid; tf_eip t; cr2] ;;
        panic "trap"
    | Some i =>
        if Z.land (tf_cs t) 3 =? 0 then
          cprintf "unexpected trap %d from cpu %d eip %x (cr2=0x%x)\n" [n; cpuid; tf_eip t; cr2] ;;
          panic "trap"
        else
          p ← gets (fun k => proc_at k i) ;
          cprintf "pid %d %s: trap %d err %d on cpu %d eip 0x%x addr 0x%x--kill proc\n"
            (pid p :: cstr (name p) ++ [n; tf_err t; cpuid; tf_eip t; cr2]) ;;
          set_proc i (fun p => p <| killed := 1 |>)
    end.

(** [if(myproc() && myproc()->killed && (tf->cs&3) == DPL_USER) exit();] *)
Definition exit_if_killed (t : trapframe) : K unit :=
  b ← gets is_killed ;
  whenK (b && (Z.land (tf_cs t) 3 =? 3)) (exit fuel).

Definition trap (t : trapframe) : K unit :=
  if tf_trapno t =? T_SYSCALL then
    b ← gets is_killed ;
    whenK b (exit fuel) ;;
    i ← cur ;
    set_proc i (fun p => p <| tf := t |>) ;;
    syscall fuel ;;
    b ← gets is_killed ;
    whenK b (exit fuel)
  else
    trap_switch t ;;
    exit_if_killed t ;;
    c ← gets curproc ;
    match c with
    | Some i =>
        s ← gets (fun k => state (proc_at k i)) ;
        whenK (bool_decide (s = RUNNING) && (tf_trapno t =? timer)) yield
    | None => mret tt
    end ;;
    exit_if_killed t.
End trap.
