(* ===== verification/Grep.v ===== *)
(** * grep.c

    The pattern matcher of Kernighan and Pike, proved equivalent to a declarative reading of
    patterns, and the loop that splits what [read] delivers into lines. Patterns and lines are
    the bytes before their terminator. [read] is the system call: it delivers the bytes of the
    file in order, at most as many as it is asked for and at least one before the end. *)
From stdpp Require Import base list.
From Stdlib Require Import ZArith Lia.
From S2P Require Import Prelude.
Local Open Scope Z_scope.

Definition c_star : Z := 42.
Definition c_dot : Z := 46.
Definition c_dollar : Z := 36.
Definition c_caret : Z := 94.
Definition newline : Z := 10.

(** ** The matcher *)

(** [matchstar], given [matchhere] for what follows the star. *)
Fixpoint matchstar (here : list Z -> bool) (c : Z) (text : list Z) : bool :=
  here text ||
  match text with
  | [] => false
  | t :: text' => ((t =? c) || (c =? c_dot)) && matchstar here c text'
  end.

Fixpoint matchhere (re text : list Z) {struct re} : bool :=
  match re with
  | [] => true
  | c :: re1 =>
      let single :=
        if (c =? c_dollar) && (if re1 is [] then true else false) then (if text is [] then true else false)
        else match text with
             | t :: text' => ((c =? c_dot) || (c =? t)) && matchhere re1 text'
             | [] => false
             end in
      match re1 with
      | s :: re2 => if s =? c_star then matchstar (matchhere re2) c text else single
      | [] => single
      end
  end.

Fixpoint match_from (re text : list Z) : bool :=
  matchhere re text || match text with [] => false | _ :: text' => match_from re text' end.

Definition match_ (re text : list Z) : bool :=
  match re with
  | c :: re' => if c =? c_caret then matchhere re' text else match_from re text
  | [] => match_from re text
  end.

(** ** The lines of a file *)

Record input := mkInput { rest : list Z; sizes : list nat }.

(** The next sizes [read] is willing to return; past them it returns all it is asked for, as
    it does for a regular file. *)
Definition read (n : nat) (s : input) : list Z * input :=
  let c := match sizes s with [] => n | c :: _ => Nat.min n (S c) end in
  (take c (rest s), mkInput (drop c (rest s)) (tail (sizes s))).

(** [strchr(p, '\n')] in a buffer terminated after its last byte. *)
Fixpoint find_newline (p : list Z) : option nat :=
  match p with
  | [] => None
  | c :: p' => if c =? 0 then None else if c =? newline then Some 0%nat else S <$> find_newline p'
  end.

(** The lines from [p] on: what they print, and where [p] ends. *)
Fixpoint grep_lines (left : nat) (pattern p : list Z) : list Z * list Z :=
  match left with
  | O => ([], p)
  | S left' =>
      match find_newline p with
      | None => ([], p)
      | Some q =>
          let '(out, p') := grep_lines left' pattern (drop (S q) p) in
          ((if match_ pattern (take q p) then take (S q) p else []) ++ out, p')
      end
  end.

Definition bufsize : nat := 1024.

(** [buf] has [m] bytes. *)
Fixpoint grep_loop (left : nat) (pattern buf : list Z) (s : input) : option (list Z) :=
  match left with
  | O => None
  | S left' =>
      let '(new, s') := read (bufsize - length buf - 1) s in
      match new with
      | [] => Some []
      | _ =>
          let b := buf ++ new in
          let '(out, p) := grep_lines (S (length b)) pattern b in
          let b' := if (length p =? length b)%nat then [] else p in
          (fun o => out ++ o) <$> grep_loop left' pattern b' s'
      end
  end.

(** One read for each byte, and one at the end. *)
Definition grep (pattern : list Z) (s : input) : option (list Z) :=
  grep_loop (S (length (rest s))) pattern [] s.

(** ** What a pattern means *)

Inductive atom := One (c : Z) | Star (c : Z).

Definition sat (c t : Z) : Prop := c = c_dot \/ c = t.

(** The words of a sequence of atoms. *)
Inductive denotes : list atom -> list Z -> Prop :=
  | den_nil : denotes [] []
  | den_one c t r w : sat c t -> denotes r w -> denotes (One c :: r) (t :: w)
  | den_star c r u w : Forall (sat c) u -> denotes r w -> denotes (Star c :: r) (u ++ w).

(** The atoms of a pattern without [^], and whether it ends in [$]. *)
Fixpoint compile (re : list Z) {struct re} : list atom * bool :=
  match re with
  | [] => ([], false)
  | c :: re1 =>
      let single :=
        if (c =? c_dollar) && (if re1 is [] then true else false) then ([], true)
        else let '(a, e) := compile re1 in (One c :: a, e) in
      match re1 with
      | s :: re2 => if s =? c_star then let '(a, e) := compile re2 in (Star c :: a, e) else single
      | [] => single
      end
  end.

(** [re] occurs in [text]. *)
Definition occurs (re text : list Z) : Prop :=
  let '(bol, body) := match re with c :: re' => if c =? c_caret then (true, re') else (false, re) | [] => (false, re) end in
  exists u w v, text = u ++ w ++ v /\ (bol = true -> u = []) /\ ((compile body).2 = true -> v = []) /\ denotes (compile body).1 w.

(** At the beginning of [text]. *)
Definition occurs_here (re text : list Z) : Prop :=
  exists w v, text = w ++ v /\ ((compile re).2 = true -> v = []) /\ denotes (compile re).1 w.

Lemma sat_spec c t : ((c =? c_dot) || (c =? t)) = true <-> sat c t.
Proof. unfold sat. rewrite orb_true_iff, !Z.eqb_eq. done. Qed.

Lemma matchstar_spec here c text : matchstar here c text = true <->
  exists u v, text = u ++ v /\ Forall (sat c) u /\ here v = true.
Proof.
  induction text as [|t text IH]; simpl; rewrite orb_true_iff.
  - split; [intros [H|[=]]; by exists [], []|]. intros (u & v & E & _ & H). left.
    by destruct (app_eq_nil u v (eq_sym E)) as [-> ->].
  - rewrite andb_true_iff, IH, (Z.eqb_sym t c), orb_comm, sat_spec. split.
    + intros [H|[Hs (u & v & -> & Hu & H)]]; [by exists [], (t :: text)|]. exists (t :: u), v. by split_and!; [|constructor|].
    + intros (u & v & E & Hu & H). destruct u as [|x u]; simpl in E; [subst; by left|]. injection E as <- ->.
      apply Forall_cons in Hu as [Hx Hu]. right. split; [done|]. by exists u, v.
Qed.

Lemma occurs_here_nil text : occurs_here [] text.
Proof. exists [], text. by split_and!; [|intros [=]|constructor]. Qed.

Lemma denotes_one c r w : denotes (One c :: r) w <-> exists t w', w = t :: w' /\ sat c t /\ denotes r w'.
Proof.
  split.
  - intros H. inversion H; subst. eauto.
  - intros (t & w' & -> & Hs & H). by constructor.
Qed.

Lemma denotes_star c r w : denotes (Star c :: r) w <-> exists u w', w = u ++ w' /\ Forall (sat c) u /\ denotes r w'.
Proof.
  split.
  - intros H. inversion H; subst. eauto.
  - intros (u & w' & -> & Hs & H). by constructor.
Qed.

Lemma occurs_here_star c re text : occurs_here (c :: c_star :: re) text <->
  exists u v, text = u ++ v /\ Forall (sat c) u /\ occurs_here re v.
Proof.
  unfold occurs_here. simpl. destruct (compile re) as [a e]. simpl. split.
  - intros (w & v & -> & He & (u & w' & -> & Hu & Hd)%denotes_star).
    exists u, (w' ++ v). split_and!; [by rewrite app_assoc|done|]. by exists w', v.
  - intros (u & v & -> & Hu & (w & v' & -> & He & Hd)). exists (u ++ w), v'. rewrite app_assoc. split_and!; try done.
    apply denotes_star. by exists u, w.
Qed.

(** A first character that is neither starred nor the [$] at the end. *)
Definition plain (c : Z) (re : list Z) : Prop := re !! 0%nat <> Some c_star /\ ~ (c = c_dollar /\ re = []).

Lemma matchhere_plain c re text : plain c re ->
  matchhere (c :: re) text = match text with t :: text' => ((c =? c_dot) || (c =? t)) && matchhere re text' | [] => false end.
Proof.
  intros [Hs Hd]. cbn [matchhere]. destruct re as [|s re].
  - destruct (Z.eqb_spec c c_dollar); [exfalso; auto|done].
  - rewrite andb_false_r. destruct (Z.eqb_spec s c_star); [subst; done|done].
Qed.

Lemma compile_plain c re : plain c re -> compile (c :: re) = (One c :: (compile re).1, (compile re).2).
Proof.
  intros [Hs Hd]. cbn [compile]. destruct re as [|s re].
  - destruct (Z.eqb_spec c c_dollar); [exfalso; auto|done].
  - rewrite andb_false_r. destruct (Z.eqb_spec s c_star); [subst; done|]. by destruct (compile (s :: re)).
Qed.

Lemma occurs_here_plain c re text : plain c re ->
  occurs_here (c :: re) text <-> exists t text', text = t :: text' /\ sat c t /\ occurs_here re text'.
Proof.
  intros Hp. unfold occurs_here. rewrite (compile_plain c re Hp). cbn [fst snd]. split.
  - intros (w & v & -> & He & (t & w' & -> & Hs & Hd)%denotes_one). exists t, (w' ++ v). split_and!; [done|done|]. by exists w', v.
  - intros (t & text' & -> & Hs & (w & v & -> & He & Hd)). exists (t :: w), v. split_and!; [done|done|]. apply denotes_one. eauto.
Qed.

Lemma occurs_here_dollar text : occurs_here [c_dollar] text <-> text = [].
Proof.
  unfold occurs_here. simpl. split.
  - intros (w & v & -> & He & Hd). inversion Hd. by rewrite He.
  - intros ->. exists [], []. by split_and!; [|done|constructor].
Qed.

Lemma matchhere_spec re : forall text, matchhere re text = true <-> occurs_here re text.
Proof.
  enough (forall n re, (length re <= n)%nat -> forall text, matchhere re text = true <-> occurs_here re text) by eauto.
  clear re. induction n as [|n IH]; intros [|c re] Hn text; try (split; [intros _; apply occurs_here_nil|done]); simpl in Hn; [lia|].
  destruct (decide (re !! 0%nat = Some c_star)) as [E|Hs]; [|destruct (decide (c = c_dollar /\ re = [])) as [[-> ->]|Hd]].
  - destruct re as [|s re]; [done|]. injection E as ->. cbn [matchhere]. rewrite Z.eqb_refl, matchstar_spec, occurs_here_star.
    simpl in Hn. by setoid_rewrite (IH re ltac:(lia)).
  - rewrite occurs_here_dollar. by destruct text.
  - rewrite matchhere_plain, occurs_here_plain by done. destruct text as [|t text]; [split; [done|by intros (? & ? & [=] & _)]|].
    rewrite andb_true_iff, sat_spec, (IH re) by lia. split; [eauto|]. by intros (? & ? & [= <- <-] & ? & ?).
Qed.

(** C28. The matcher finds a pattern in a line exactly if the line has an occurrence of it: a part
    that is a word of the pattern's atoms, at the beginning for [^] and at the end for [$]. *)
Theorem match_finds_occurrences re text : match_ re text = true <-> occurs re text.
Proof.
  assert (forall re text, match_from re text = true <-> exists u v, text = u ++ v /\ occurs_here re v) as Hfrom.
  { clear. intros re text. induction text as [|t text IH]; simpl; rewrite orb_true_iff, matchhere_spec.
    - split; [intros [H|[=]]; by exists [], []|]. intros (u & v & E & H). destruct (app_eq_nil u v (eq_sym E)) as [-> ->]. by left.
    - rewrite IH. split.
      + intros [H|(u & v & -> & H)]; [by exists [], (t :: text)|by exists (t :: u), v].
      + intros (u & v & E & H). destruct u as [|x u]; simpl in E; [subst; by left|]. injection E as <- ->. right. eauto. }
  unfold match_, occurs.
  assert (match_from re text = true <-> exists u w v, text = u ++ w ++ v /\ (false = true -> u = []) /\ ((compile re).2 = true -> v = []) /\ denotes (compile re).1 w) as H.
  { rewrite Hfrom. unfold occurs_here. naive_solver. }
  destruct re as [|c re]; [done|]. destruct (c =? c_caret); [|done]. rewrite matchhere_spec. split.
  - intros (w & v & -> & He & Hd). exists [], w, v. by split_and!.
  - intros (u & w & v & -> & Hu & He & Hd). rewrite (Hu eq_refl). by exists w, v.
Qed.

(** ** Lines *)

(** The bytes of a line. *)
Definition line_ok (l : list Z) : Prop := Forall (fun c => c <> 0 /\ c <> newline) l.
#[export] Instance line_ok_dec l : Decision (line_ok l).
Proof. unfold line_ok. apply _. Defined.

(** Lines, each with its newline, and what follows the last newline. *)
Definition text_of (ls : list (list Z)) (t : list Z) : list Z := mjoin (map (fun l => l ++ [newline]) ls) ++ t.

Lemma text_of_cons l ls t : text_of (l :: ls) t = l ++ newline :: text_of ls t.
Proof. unfold text_of. cbn [map mjoin list_join]. by rewrite <- !app_assoc. Qed.

Lemma find_newline_line l p : line_ok l -> find_newline (l ++ newline :: p) = Some (length l).
Proof.
  induction 1 as [|c l [Hc Hn] _ IH]; simpl; [done|].
  rewrite (proj2 (Z.eqb_neq c 0)), (proj2 (Z.eqb_neq c newline)), IH by done. done.
Qed.

Lemma find_newline_none p : line_ok p -> find_newline p = None.
Proof.
  induction 1 as [|c l [Hc Hn] _ IH]; simpl; [done|].
  by rewrite (proj2 (Z.eqb_neq c 0)), (proj2 (Z.eqb_neq c newline)), IH by done.
Qed.

Lemma grep_lines_spec pattern ls p : Forall line_ok ls -> line_ok p -> forall left, (length ls < left)%nat ->
  grep_lines left pattern (text_of ls p) = (text_of (filter (fun l => match_ pattern l = true) ls) [], p).
Proof.
  intros Hls Hp. induction Hls as [|l ls Hl _ IH]; intros [|left] Hlt; simpl in Hlt; try lia; cbn [grep_lines].
  - change (text_of [] p) with p. by rewrite find_newline_none.
  - rewrite text_of_cons, find_newline_line by done.
    replace (drop (S (length l)) (l ++ newline :: text_of ls p)) with (text_of ls p)
      by (by rewrite drop_app_ge, Nat.sub_succ_l, Nat.sub_diag by lia).
    rewrite IH by lia. rewrite take_app_length, filter_cons. f_equal.
    destruct (match_ pattern l) eqn:E; [rewrite decide_True by done|by rewrite decide_False by congruence].
    rewrite text_of_cons. replace (S (length l)) with (length l + 1)%nat by lia. rewrite take_app_add. simpl.
    by rewrite <- app_assoc.
Qed.

(** The first [n] bytes of a text: some of its lines and a part of the next. *)
Lemma take_text n ls t : Forall line_ok ls -> line_ok t -> exists ls1 ls2 p,
  ls = ls1 ++ ls2 /\ take n (text_of ls t) = text_of ls1 p /\ text_of ls2 t = p ++ drop n (text_of ls t) /\ line_ok p /\
  (ls1 = [] -> ls2 = [] \/ exists l, head ls = Some l /\ (n <= length l)%nat).
Proof.
  intros Hls Ht. induction Hls as [|l ls Hl Hls IH] in n |- *.
  - exists [], [], (take n t). split_and!; try done; [by rewrite take_drop|by apply Forall_take|by left].
  - destruct (decide (n <= length l)%nat) as [Hn|Hn].
    + exists [], (l :: ls), (take n l). rewrite text_of_cons, take_app_le, drop_app_le by done.
      split_and!; try done; [by rewrite app_assoc, take_drop|by apply Forall_take|right; by exists l].
    + destruct (IH (n - S (length l))%nat) as (ls1 & ls2 & p & -> & E1 & E2 & Hp & _).
      exists (l :: ls1), ls2, p. rewrite !text_of_cons, take_app_ge, drop_app_ge by lia.
      replace (n - length l)%nat with (S (n - S (length l))) by lia. cbn [take drop]. rewrite E1, E2. by split_and!.
Qed.

Lemma text_of_app ls1 ls2 t : text_of (ls1 ++ ls2) t = text_of ls1 [] ++ text_of ls2 t.
Proof. unfold text_of. by rewrite map_app, join_app, app_nil_r, <- app_assoc. Qed.

Lemma text_of_length ls t : length (text_of ls t) = (length (text_of ls []) + length t)%nat.
Proof. unfold text_of. rewrite !length_app. simpl. lia. Qed.

Lemma text_of_lines ls t : (length ls <= length (text_of ls t))%nat.
Proof. induction ls as [|l ls IH]; [simpl; lia|]. rewrite text_of_cons, length_app. simpl. lia. Qed.

Lemma grep_loop_spec pattern left : forall ls t buf r,
  Forall (fun l => line_ok l /\ (length l < bufsize - 1)%nat) ls -> line_ok t -> buf ++ r = text_of ls t -> line_ok buf ->
  (length buf < bufsize - 1)%nat -> (length r < left)%nat ->
  grep_loop left pattern buf (mkInput r []) = Some (text_of (filter (fun l => match_ pattern l = true) ls) []).
Proof.
  induction left as [|left IH]; intros ls t buf r Hls Ht E Hb Hbl Hr; [lia|]. cbn [grep_loop]. unfold read. cbn [sizes rest tail].
  set (n := (bufsize - length buf - 1)%nat).
  assert (Forall line_ok ls) as Hls' by (eapply Forall_impl; [exact Hls|by intros ? []]).
  destruct (take_text (bufsize - 1) ls t Hls' Ht) as (ls1 & ls2 & p & Els & E1 & E2 & Hp & Hno).
  assert (buf ++ take n r = text_of ls1 p) as Ebn.
  { rewrite <- E1, <- E, take_app_ge by lia. f_equal. f_equal. unfold n. lia. }
  assert (drop (bufsize - 1) (text_of ls t) = drop n r) as Edr.
  { rewrite <- E, drop_app_ge by lia. f_equal. unfold n. lia. }
  destruct (take n r) as [|x new] eqn:En.
  - assert (r = []) as -> by (destruct r; [done|]; destruct n eqn:?; [unfold n in *; lia|done]).
    rewrite app_nil_r in E. destruct ls as [|l ls]; [done|]. exfalso. rewrite text_of_cons in E. rewrite E in Hb.
    apply Forall_app in Hb as [_ Hb]. by apply Forall_cons in Hb as [[_ []] _].
  - rewrite Ebn. rewrite Els in Hls'. apply Forall_app in Hls' as [Hl1 Hl2].
    rewrite Els in Hls. apply Forall_app in Hls as [_ Hls2].
    rewrite grep_lines_spec by (done || (pose proof (text_of_lines ls1 p); lia)).
    assert (length (drop n r) < left)%nat as Hr'.
    { assert (length (take n r) = length (x :: new)) as Hlen by (by rewrite En). rewrite length_take in Hlen. simpl in Hlen.
      rewrite length_drop. lia. }
    rewrite Els, filter_app, text_of_app. rewrite Edr in E2.
    destruct (decide (ls1 = [])) as [->|Hne].
    + change (text_of [] p) with p. rewrite Nat.eqb_refl.
      destruct (Hno eq_refl) as [->|(l & Hh & Hlen)].
      * change (text_of [] t) with t in E2. rewrite (IH [] (drop n r)); try done; [|constructor|unfold bufsize; simpl; lia].
        rewrite E2 in Ht. by apply Forall_app in Ht as [_ ?].
      * exfalso. simpl in Els. subst ls2. destruct ls as [|l' ls]; [done|]. injection Hh as ->.
        apply Forall_cons in Hls2 as [[_ ?] _]. lia.
    + assert (length p < length (text_of ls1 p))%nat as Hlt.
      { rewrite text_of_length. pose proof (text_of_lines ls1 []). destruct ls1; [done|]. simpl in *. lia. }
      rewrite (proj2 (Nat.eqb_neq _ _)) by lia. rewrite (IH ls2 t p); try done.
      assert (length (text_of ls1 p) <= bufsize - 1)%nat by (rewrite <- E1, length_take; lia). lia.
Qed.

(** C36. Run on a regular file whose lines hold no NUL and fit in its buffer, [grep] prints the lines that have an
    occurrence of the pattern, whole and in order, whatever the file's length; bytes after the last
    newline are not a line. *)
Theorem grep_prints_matching_lines pattern ls t :
  Forall (fun l => line_ok l /\ (length l < bufsize - 1)%nat) ls -> line_ok t ->
  grep pattern (mkInput (text_of ls t) []) = Some (text_of (filter (fun l => match_ pattern l = true) ls) []).
Proof.
  intros Hls Ht. unfold grep. cbn [rest]. eapply grep_loop_spec; [done..| |unfold bufsize; simpl; lia|lia]. constructor.
Qed.

(** Three lines, searched for [b.*d$]. *)
Lemma grep_prints_matching_lines_witness :
  grep [98; 46; 42; 100; 36] (mkInput (text_of [[97; 98; 99; 100]; [98]; [98; 100]] [120]) []) =
    Some [97; 98; 99; 100; 10; 98; 100; 10].
Proof.
  refine (eq_trans (grep_prints_matching_lines [98; 46; 42; 100; 36] [[97; 98; 99; 100]; [98]; [98; 100]] [120] _ _) eq_refl).
  - apply (bool_decide_unpack _). vm_compute. exact I.
  - apply (bool_decide_unpack _). vm_compute. exact I.
Defined.

(** A pipe may deliver a line in parts, and then [grep] drops a part in which there is no
    newline: here [abc] is written as [ab] and [c\n] and not found. *)
Theorem grep_drops_partial_lines :
  let s := mkInput [97; 98; 99; 10] [1%nat] in
  grep [97] s = Some [] /\ grep [97] (mkInput (rest s) []) = Some [97; 98; 99; 10].
Proof. split; reflexivity. Qed.
