(* ===== verification/Sh.v ===== *)
(** * sh.c: the parser of the shell

    The recursive-descent parser over a command line.  A pointer into the line is the suffix of
    the line that starts there; the line has no NUL but the one at its end.  A command keeps
    pairs of pointers to the first byte of a word and past its last, as [argv] and [eargv] do,
    until [nulterminate] writes a NUL after every word.  [panic] prints and exits the child that
    parses.  Allocation is assumed to succeed.  Shown: parsing always ends and gives well-formed
    commands, the words survive [nulterminate], and every command has a line that parses to it. *)
From stdpp Require Import base list sets strings.
From Stdlib Require Import ZArith Lia.
From S2P Require Import Prelude.
Local Open Scope Z_scope.

Definition MAXARGS : nat := 10.
(** The modes of [<] and of [>]: [O_RDONLY], and [O_WRONLY|O_CREATE]. *)
Definition mode_in : Z := 0.
Definition mode_out : Z := 513.

Definition ptr := list Z.

(** Commands over a type of words. *)
Inductive cmd (W : Type) :=
  | EXEC (argv : list W)
  | REDIR (c : cmd W) (file : W) (mode fd : Z)
  | PIPE (left right : cmd W)
  | LIST (left right : cmd W)
  | BACK (c : cmd W).
Arguments EXEC {W}.
Arguments REDIR {W}.
Arguments PIPE {W}.
Arguments LIST {W}.
Arguments BACK {W}.

(** The bytes of a word: where it starts and where it ends. *)
Definition word : Type := ptr * ptr.

(** ** Tokens *)

Definition whitespace : list Z := [32; 9; 13; 10; 11].
Definition symbols : list Z := [60; 124; 62; 38; 59; 40; 41].
Definition strchr (l : list Z) (c : Z) : bool := bool_decide (c ∈ l).

Definition LT : Z := 60.
Definition GT : Z := 62.
Definition BAR : Z := 124.
Definition AMP : Z := 38.
Definition SEMI : Z := 59.
Definition LPAR : Z := 40.
Definition RPAR : Z := 41.
Definition PLUS : Z := 43.
Definition WORD : Z := 97.

Fixpoint skip_space (s : ptr) : ptr :=
  match s with
  | c :: s' => if strchr whitespace c then skip_space s' else s
  | [] => []
  end.

Fixpoint skip_word (s : ptr) : ptr :=
  match s with
  | c :: s' => if negb (strchr whitespace c) && negb (strchr symbols c) then skip_word s' else s
  | [] => []
  end.

(** The token, [*q], [*eq] and [*ps]. *)
Definition gettoken (ps : ptr) : Z * ptr * ptr * ptr :=
  let q := skip_space ps in
  let '(ret, s) :=
    match q with
    | [] => (0, q)
    | c :: s =>
        if strchr [BAR; LPAR; RPAR; SEMI; AMP; LT] c then (c, s)
        else if c =? GT then
          match s with
          | d :: s' => if d =? GT then (PLUS, s') else (c, s)
          | [] => (c, s)
          end
        else (WORD, skip_word q)
    end in
  (ret, q, s, skip_space s).

Definition peek (ps : ptr) (toks : list Z) : ptr * bool :=
  let s := skip_space ps in
  (s, match s with c :: _ => strchr toks c | [] => false end).

(** ** The parser *)

Inductive parsed (A : Type) :=
  | POk (a : A) (ps : ptr)
  | PPanic (msg : string)
  | PFuel.
Arguments POk {A}.
Arguments PPanic {A}.
Arguments PFuel {A}.

Definition pbind {A B} (r : parsed A) (f : A -> ptr -> parsed B) : parsed B :=
  match r with POk a ps => f a ps | PPanic m => PPanic m | PFuel => PFuel end.

Record redir := mkRedir { rfile : word; rmode : Z; rfd : Z }.
Definition redircmd (c : cmd word) (r : redir) : cmd word := REDIR c (rfile r) (rmode r) (rfd r).

(** The redirections [parseredirs] wraps around its command, the first innermost. *)
Fixpoint redirs (left : nat) (ps : ptr) : parsed (list redir) :=
  match left with
  | O => PFuel
  | S left' =>
      let '(ps, b) := peek ps [LT; GT] in
      if b then
        let '(tok, _, _, ps) := gettoken ps in
        let '(w, q, eq, ps) := gettoken ps in
        if negb (w =? WORD) then PPanic "missing file for redirection"
        else
          let r := if tok =? LT then [mkRedir (q, eq) mode_in 0]
                   else if tok =? GT then [mkRedir (q, eq) mode_out 1]
                   else if tok =? PLUS then [mkRedir (q, eq) mode_out 1]
                   else [] in
          pbind (redirs left' ps) (fun rs ps => POk (r ++ rs) ps)
      else POk [] ps
  end.

Definition parseredirs (c : cmd word) (ps : ptr) : parsed (cmd word) :=
  pbind (redirs (S (length ps)) ps) (fun rs ps => POk (foldl redircmd c rs) ps).

(** The loop of [parseexec].  The redirections go around the command that the arguments are
    stored into, so that both are collected and put together at the end. *)
Fixpoint execargs (left : nat) (argv : list word) (rs : list redir) (ps : ptr) : parsed (list word * list redir) :=
  match left with
  | O => PFuel
  | S left' =>
      let '(ps, b) := peek ps [BAR; RPAR; AMP; SEMI] in
      if b then POk (argv, rs) ps
      else
        let '(tok, q, eq, ps) := gettoken ps in
        if tok =? 0 then POk (argv, rs) ps
        else if negb (tok =? WORD) then PPanic "syntax"
        else
          let argv' := argv ++ [(q, eq)] in
          if (MAXARGS <=? length argv')%nat then PPanic "too many args"
          else pbind (redirs (S (length ps)) ps) (fun rs' ps => execargs left' argv' (rs ++ rs') ps)
  end.

Fixpoint backs (left : nat) (c : cmd word) (ps : ptr) : parsed (cmd word) :=
  match left with
  | O => PFuel
  | S left' =>
      let '(ps, b) := peek ps [AMP] in
      if b then let '(_, _, _, ps) := gettoken ps in backs left' (BACK c) ps
      else POk c ps
  end.

Fixpoint parseline (fuel : nat) (ps : ptr) {struct fuel} : parsed (cmd word) :=
  match fuel with
  | O => PFuel
  | S fuel' =>
      pbind (parsepipe fuel' ps) (fun c ps =>
      pbind (backs (S (length ps)) c ps) (fun c ps =>
      let '(ps, b) := peek ps [SEMI] in
      if b then
        let '(_, _, _, ps) := gettoken ps in
        pbind (parseline fuel' ps) (fun r ps => POk (LIST c r) ps)
      else POk c ps))
  end
with parsepipe (fuel : nat) (ps : ptr) {struct fuel} : parsed (cmd word) :=
  match fuel with
  | O => PFuel
  | S fuel' =>
      pbind (parseexec fuel' ps) (fun c ps =>
      let '(ps, b) := peek ps [BAR] in
      if b then
        let '(_, _, _, ps) := gettoken ps in
        pbind (parsepipe fuel' ps) (fun r ps => POk (PIPE c r) ps)
      else POk c ps)
  end
with parseexec (fuel : nat) (ps : ptr) {struct fuel} : parsed (cmd word) :=
  match fuel with
  | O => PFuel
  | S fuel' =>
      let '(ps, b) := peek ps [LPAR] in
      if b then parseblock fuel' ps
      else
        pbind (redirs (S (length ps)) ps) (fun rs ps =>
        pbind (execargs (S (length ps)) [] rs ps) (fun '(argv, rs) ps =>
        POk (foldl redircmd (EXEC argv) rs) ps))
  end
with parseblock (fuel : nat) (ps : ptr) {struct fuel} : parsed (cmd word) :=
  match fuel with
  | O => PFuel
  | S fuel' =>
      let '(ps, b) := peek ps [LPAR] in
      if negb b then PPanic "parseblock"
      else
        let '(_, _, _, ps) := gettoken ps in
        pbind (parseline fuel' ps) (fun c ps =>
        let '(ps, b) := peek ps [RPAR] in
        if negb b then PPanic "syntax - missing )"
        else
          let '(_, _, _, ps) := gettoken ps in
          parseredirs c ps)
  end.

(** ** Words in the buffer *)

(** A pointer's place in a buffer that holds a line of [n] bytes and its NUL. *)
Definition offset (n : nat) (p : ptr) : nat := (n - length p)%nat.

Definition terminate (n : nat) (buf : list Z) (w : word) : list Z := <[offset n w.2 := 0]> buf.

Fixpoint nulterminate (n : nat) (c : cmd word) (buf : list Z) : list Z :=
  match c with
  | EXEC argv => foldl (terminate n) buf argv
  | REDIR c f _ _ => terminate n (nulterminate n c buf) f
  | PIPE l r | LIST l r => nulterminate n r (nulterminate n l buf)
  | BACK c => nulterminate n c buf
  end.

(** Four calls for each byte, and four for the empty rest. *)
Definition parse_fuel (s : ptr) : nat := (4 * length s + 4)%nat.

(** The command and the buffer after [nulterminate]. *)
Definition parsecmd (s : ptr) : parsed (cmd word * list Z) :=
  pbind (parseline (parse_fuel s) s) (fun c ps =>
  let '(ps, _) := peek ps [] in
  match ps with
  | [] => POk (c, nulterminate (length s) c (s ++ [0])) ps
  | _ => PPanic "syntax"
  end).

(** ** Parsing ends *)

(** The parser returns or panics, with at most [n] bytes left. *)
Definition ends {A} (n : nat) (r : parsed A) : Prop :=
  match r with POk _ ps => (length ps <= n)%nat | PPanic _ => True | PFuel => False end.

Lemma ends_bind {A B} n m (r : parsed A) (f : A -> ptr -> parsed B) :
  ends n r -> (forall a ps, (length ps <= n)%nat -> ends m (f a ps)) -> ends m (pbind r f).
Proof. destruct r; simpl; auto. Qed.

Lemma ends_le {A} n m (r : parsed A) : ends n r -> (n <= m)%nat -> ends m r.
Proof. destruct r; simpl; auto. lia. Qed.

Lemma skip_space_length s : (length (skip_space s) <= length s)%nat.
Proof. induction s as [|c s IH]; simpl; [done|]. destruct (strchr _ _); simpl; lia. Qed.

Lemma skip_word_length s : (length (skip_word s) <= length s)%nat.
Proof. induction s as [|c s IH]; simpl; [done|]. destruct (_ && _); simpl; lia. Qed.

Lemma skip_space_head s c s' : skip_space s = c :: s' -> strchr whitespace c = false.
Proof.
  induction s as [|d s IH]; simpl; [done|]. destruct (strchr whitespace d) eqn:E; [done|]. by intros [= <- <-].
Qed.

Lemma skip_space_idem s : skip_space (skip_space s) = skip_space s.
Proof. induction s as [|c s IH]; simpl; [done|]. destruct (strchr whitespace c) eqn:E; [done|]. simpl. by rewrite E. Qed.

(** A token is consumed. *)
Lemma gettoken_length s : let '(t, _, _, s') := gettoken s in
  (length s' <= length s)%nat /\ (t <> 0 -> (length s' < length s)%nat).
Proof.
  unfold gettoken. pose proof (skip_space_length s) as Hs. destruct (skip_space s) as [|c q] eqn:Eq; [simpl; by split|].
  assert (forall s', (length s' <= length q)%nat -> (length (skip_space s') < length s)%nat) as H.
  { intros s' Hl. pose proof (skip_space_length s'). simpl in Hs. lia. }
  destruct (strchr [BAR; LPAR; RPAR; SEMI; AMP; LT] c) eqn:E1; [specialize (H q); lia|].
  destruct (c =? GT) eqn:E2.
  - destruct q as [|d q']; [specialize (H []); simpl in H; simpl; lia|].
    destruct (d =? GT); [specialize (H q')|specialize (H (d :: q'))]; simpl in *; lia.
  - assert (skip_word (c :: q) = skip_word q) as ->.
    { simpl. rewrite (skip_space_head s c q Eq). simpl. replace (strchr symbols c) with false; [done|]. symmetry.
      unfold strchr in *. apply bool_decide_eq_false in E1. apply bool_decide_eq_false. apply Z.eqb_neq in E2.
      unfold symbols, LT, BAR, AMP, SEMI, LPAR, RPAR, GT in *. set_solver. }
    specialize (H (skip_word q) (skip_word_length q)). lia.
Qed.

Lemma peek_length s toks : let '(s', b) := peek s toks in
  (length s' <= length s)%nat /\ (b = true -> let '(_, _, _, s'') := gettoken s' in (length s'' < length s)%nat).
Proof.
  unfold peek. pose proof (skip_space_length s) as Hs. split; [done|]. destruct (skip_space s) as [|c q] eqn:E; [done|]. intros _.
  pose proof (gettoken_length (c :: q)) as Hg. destruct (gettoken (c :: q)) as [[[t q0] e] s''] eqn:Eg.
  destruct Hg as [_ Hg]. assert (t <> 0); [|specialize (Hg H); lia].
  unfold gettoken in Eg. rewrite <- E, skip_space_idem, E in Eg.
  destruct (strchr [BAR; LPAR; RPAR; SEMI; AMP; LT] c) eqn:E1.
  - injection Eg as <- _ _ _. unfold strchr in E1. apply bool_decide_eq_true in E1. intros ->. revert E1. clear. set_solver.
  - destruct (c =? GT) eqn:E2; [|by injection Eg as <- _ _ _].
    apply Z.eqb_eq in E2 as ->. destruct q as [|d q']; [by injection Eg as <- _ _ _|].
    destruct (d =? GT); by injection Eg as <- _ _ _.
Qed.

Ltac peek_tok s toks :=
  let H := fresh "Hpk" in pose proof (peek_length s toks) as H;
  let s' := fresh "s" in let b := fresh "b" in destruct (peek s toks) as [s' b]; destruct H as [? H].

Ltac get_tok s :=
  let H := fresh "Hgt" in pose proof (gettoken_length s) as H;
  let t := fresh "t" in let q := fresh "q" in let e := fresh "e" in let s' := fresh "s" in
  destruct (gettoken s) as [[[t q] e] s']; destruct H as [? H].

Lemma redirs_ends left : forall ps, (length ps < left)%nat -> ends (length ps) (redirs left ps).
Proof.
  induction left as [|left IH]; intros ps Hl; [lia|]. cbn [redirs]. peek_tok ps [LT; GT]. destruct b; [|done].
  specialize (Hpk eq_refl). get_tok s. get_tok s0. destruct (negb _); [done|].
  eapply ends_bind; [apply IH; lia|]. intros rs ps' Hp. simpl. lia.
Qed.

Lemma execargs_ends left : forall argv rs ps, (length ps < left)%nat -> ends (length ps) (execargs left argv rs ps).
Proof.
  induction left as [|left IH]; intros argv rs ps Hl; [lia|]. cbn [execargs]. peek_tok ps [BAR; RPAR; AMP; SEMI]. destruct b; [done|].
  get_tok s. destruct (t =? 0) eqn:Et; [simpl; lia|]. apply Z.eqb_neq in Et. specialize (Hgt Et).
  destruct (negb _); [done|]. destruct (_ <=? _)%nat; [done|].
  eapply ends_bind; [apply redirs_ends; lia|]. intros rs' ps' Hp. eapply ends_le; [apply IH|]; lia.
Qed.

Lemma backs_ends left : forall c ps, (length ps < left)%nat -> ends (length ps) (backs left c ps).
Proof.
  induction left as [|left IH]; intros c ps Hl; [lia|]. cbn [backs]. peek_tok ps [AMP]. destruct b; [|done].
  specialize (Hpk eq_refl). get_tok s. eapply ends_le; [apply IH|]; lia.
Qed.

Lemma parse_ends fuel : forall ps, let n := length ps in
  ((4 * n + 4 <= fuel)%nat -> ends n (parseline fuel ps)) /\ ((4 * n + 3 <= fuel)%nat -> ends n (parsepipe fuel ps)) /\
  ((4 * n + 2 <= fuel)%nat -> ends n (parseexec fuel ps)) /\ ((4 * n + 1 <= fuel)%nat -> ends n (parseblock fuel ps)).
Proof.
  induction fuel as [|fuel IH]; intros ps n; [lia|]. split_and!; intros Hf; cbn [parseline parsepipe parseexec parseblock].
  - eapply ends_bind; [apply IH; lia|]. intros c ps1 H1. eapply ends_bind; [apply backs_ends; lia|]. intros c2 ps2 H2.
    peek_tok ps2 [SEMI]. destruct b; [|simpl; lia]. specialize (Hpk eq_refl). get_tok s.
    eapply ends_bind; [apply IH; lia|]. intros r ps3 H3. simpl. lia.
  - eapply ends_bind; [apply IH; lia|]. intros c ps1 H1. peek_tok ps1 [BAR]. destruct b; [|simpl; lia].
    specialize (Hpk eq_refl). get_tok s. eapply ends_bind; [apply IH; lia|]. intros r ps3 H3. simpl. lia.
  - peek_tok ps [LPAR]. destruct b; [eapply ends_le; [apply IH|]; lia|].
    eapply ends_bind; [apply redirs_ends; lia|]. intros rs ps1 H1. eapply ends_bind; [apply execargs_ends; lia|].
    intros [argv rs'] ps2 H2. simpl. lia.
  - peek_tok ps [LPAR]. destruct b; [|exact I]. cbn [negb]. specialize (Hpk eq_refl). get_tok s.
    eapply ends_bind; [apply IH; lia|]. intros c ps1 H1. peek_tok ps1 [RPAR]. destruct b; [|exact I]. cbn [negb].
    specialize (Hpk0 eq_refl). get_tok s1. unfold parseredirs. eapply ends_bind; [apply redirs_ends; lia|]. intros rs ps2 Hl2. simpl. lia.
Qed.

(** C27. Parsing a command line always ends, with a command or a syntax error: the recursion
    consumes a byte at the latest with every fourth call. *)
Theorem parsecmd_terminates s : parsecmd s <> PFuel.
Proof.
  unfold parsecmd. destruct (parse_ends (parse_fuel s) s) as [H _].
  specialize (H ltac:(unfold parse_fuel; lia)). destruct (parseline _ _) as [c ps|m|]; [|done|done]. simpl. by destruct (skip_space ps).
Qed.

(** ** Words *)

Definition wordchar (c : Z) : Prop := (c ∉ whitespace) /\ (c ∉ symbols).
#[export] Instance wordchar_dec c : Decision (wordchar c) := _.

Lemma wordchar_skip c : (negb (strchr whitespace c) && negb (strchr symbols c))%bool = bool_decide (wordchar c).
Proof.
  unfold strchr, wordchar. rewrite <- !bool_decide_not, <- bool_decide_and. done.
Qed.

(** The bytes of a word. *)
Definition text (w : word) : list Z := take (length w.1 - length w.2) w.1.

Fixpoint cmd_map {V W} (f : V -> W) (c : cmd V) : cmd W :=
  match c with
  | EXEC argv => EXEC (f <$> argv)
  | REDIR c w m fd => REDIR (cmd_map f c) (f w) m fd
  | PIPE l r => PIPE (cmd_map f l) (cmd_map f r)
  | LIST l r => LIST (cmd_map f l) (cmd_map f r)
  | BACK c => BACK (cmd_map f c)
  end.

Fixpoint cmd_words {W} (c : cmd W) : list W :=
  match c with
  | EXEC argv => argv
  | REDIR c w _ _ => cmd_words c ++ [w]
  | PIPE l r | LIST l r => cmd_words l ++ cmd_words r
  | BACK c => cmd_words c
  end.

(** A maximal word of [line]. *)
Definition word_ok (line : list Z) (w : word) : Prop :=
  exists u, w.1 = u ++ w.2 /\ u <> [] /\ Forall wordchar u /\ w.1 `suffix_of` line /\
    match w.2 with c :: _ => ~ wordchar c | [] => True end.

Lemma skip_space_suffix s : skip_space s `suffix_of` s.
Proof. induction s as [|c s IH]; simpl; [done|]. destruct (strchr _ _); [by apply suffix_cons_r|done]. Qed.

Lemma skip_word_split s : exists u, s = u ++ skip_word s /\ Forall wordchar u /\
  match skip_word s with c :: _ => ~ wordchar c | [] => True end.
Proof.
  induction s as [|c s (u & E & Hu & Hn)]; [by exists []|]. cbn [skip_word]. rewrite wordchar_skip. case_bool_decide as Hc.
  - exists (c :: u). split_and!; [simpl; by f_equal|by constructor|done].
  - by exists [].
Qed.

Definition good {A} (line : list Z) (P : A -> Prop) (r : parsed A) : Prop :=
  match r with POk a ps => P a /\ ps `suffix_of` line | _ => True end.

Lemma good_bind {A B} line (P : A -> Prop) (Q : B -> Prop) r (f : A -> ptr -> parsed B) :
  good line P r -> (forall a ps, P a -> ps `suffix_of` line -> good line Q (f a ps)) -> good line Q (pbind r f).
Proof. destruct r; simpl; auto. intros [? ?]; auto. Qed.

Lemma gettoken_good line ps : ps `suffix_of` line -> let '(t, q, eq, ps') := gettoken ps in
  ps' `suffix_of` line /\ (t = WORD -> word_ok line (q, eq)).
Proof.
  intros Hs. unfold gettoken. pose proof (skip_space_suffix ps) as Hq. destruct (skip_space ps) as [|c q] eqn:Eq.
  { split; [apply suffix_nil|done]. }
  assert (c :: q `suffix_of` line) as Hcl by (by etrans).
  assert (forall s', s' `suffix_of` q -> skip_space s' `suffix_of` line) as H.
  { intros s' Hs'. etrans; [apply skip_space_suffix|]. etrans; [done|]. etrans; [|exact Hcl]. by apply suffix_cons_r. }
  destruct (strchr [BAR; LPAR; RPAR; SEMI; AMP; LT] c) eqn:E1.
  { split; [by apply H|]. intros ->. done. }
  destruct (c =? GT) eqn:E2.
  - apply Z.eqb_eq in E2 as ->. destruct q as [|d q']; [split; [by apply H|done]|].
    destruct (d =? GT); (split; [apply H|done]); [by apply suffix_cons_r|done].
  - assert (wordchar c) as Hwc.
    { split; [pose proof (skip_space_head ps c q Eq) as Hw; unfold strchr in Hw; by apply bool_decide_eq_false in Hw|].
      unfold strchr in E1. apply bool_decide_eq_false in E1. apply Z.eqb_neq in E2.
      unfold symbols, LT, BAR, AMP, SEMI, LPAR, RPAR, GT in *. set_solver. }
    assert (skip_word (c :: q) = skip_word q) as E by (cbn [skip_word]; by rewrite wordchar_skip, bool_decide_true).
    destruct (skip_word_split q) as (u & Eu & Hu & Hn). rewrite E. split.
    + apply H. exists u. done.
    + intros _. exists (c :: u). split_and!; [simpl; by f_equal|done|by constructor|done|done].
Qed.

Lemma peek_suffix line ps toks : ps `suffix_of` line -> (peek ps toks).1 `suffix_of` line.
Proof. intros H. etrans; [apply skip_space_suffix|done]. Qed.

Ltac peek_good line s toks :=
  let H := fresh "Hpk" in pose proof (peek_suffix line s toks) as H;
  let s' := fresh "s" in let b := fresh "b" in destruct (peek s toks) as [s' b]; cbn [fst] in H.

Ltac get_good line s :=
  let H := fresh "Hgt" in pose proof (gettoken_good line s) as H;
  let t := fresh "t" in let q := fresh "q" in let e := fresh "e" in let s' := fresh "s" in
  destruct (gettoken s) as [[[t q] e] s']; destruct H as [? H]; [by auto|].

(** The two kinds of redirection. *)
Definition redir_kind (mode fd : Z) : Prop := (mode = mode_in /\ fd = 0) \/ (mode = mode_out /\ fd = 1).
Definition redir_ok (line : list Z) (r : redir) : Prop := word_ok line (rfile r) /\ redir_kind (rmode r) (rfd r).

Lemma redirs_good line left : forall ps, ps `suffix_of` line -> good line (Forall (redir_ok line)) (redirs left ps).
Proof.
  induction left as [|left IH]; intros ps Hs; [done|]. cbn [redirs]. peek_good line ps [LT; GT]. destruct b; [|by split; auto].
  get_good line s. get_good line s0. destruct (negb (t0 =? WORD)) eqn:E; [done|]. apply negb_false_iff, Z.eqb_eq in E.
  eapply good_bind; [by apply IH|]. intros rs ps' Hrs Hs'. split; [|done]. apply Forall_app. split; [|done].
  assert (word_ok line (q0, e0)) as Hw by auto. destruct (t =? LT), (t =? GT), (t =? PLUS); repeat constructor; first [done|by left|by right].
Qed.

Lemma execargs_good line left : forall argv rs ps, ps `suffix_of` line -> (length argv < MAXARGS)%nat -> Forall (word_ok line) argv ->
  Forall (redir_ok line) rs ->
  good line (fun '(argv, rs) => (length argv < MAXARGS)%nat /\ Forall (word_ok line) argv /\ Forall (redir_ok line) rs) (execargs left argv rs ps).
Proof.
  induction left as [|left IH]; intros argv rs ps Hs Hn Ha Hr; [done|]. cbn [execargs]. peek_good line ps [BAR; RPAR; AMP; SEMI].
  destruct b; [by split; auto|]. get_good line s. destruct (t =? 0); [done|].
  destruct (negb (t =? WORD)) eqn:E; [done|]. apply negb_false_iff, Z.eqb_eq in E. destruct (_ <=? _)%nat eqn:El; [done|].
  eapply good_bind; [by apply redirs_good|]. intros rs' ps' Hrs Hs'. apply IH; [done|by apply Nat.leb_gt|apply Forall_app; auto|by apply Forall_app].
Qed.

(** A command of words of [line]. *)
Fixpoint cmd_ok (line : list Z) (c : cmd word) : Prop :=
  match c with
  | EXEC argv => (length argv < MAXARGS)%nat /\ Forall (word_ok line) argv
  | REDIR c f m fd => cmd_ok line c /\ word_ok line f /\ redir_kind m fd
  | PIPE l r | LIST l r => cmd_ok line l /\ cmd_ok line r
  | BACK c => cmd_ok line c
  end.

Lemma cmd_ok_words line c w : cmd_ok line c -> w ∈ cmd_words c -> word_ok line w.
Proof.
  induction c as [argv|c IH f m fd|l IHl r IHr|l IHl r IHr|c IH]; simpl; intros H Hw; rewrite ?elem_of_app in Hw.
  - destruct H as [_ H]. rewrite Forall_forall in H. auto.
  - rewrite list_elem_of_singleton in Hw. naive_solver.
  - naive_solver.
  - naive_solver.
  - auto.
Qed.

Lemma foldl_redirs line rs : forall c, cmd_ok line c -> Forall (redir_ok line) rs -> cmd_ok line (foldl redircmd c rs).
Proof.
  induction rs as [|r rs IH]; intros c Hc Hr; [done|]. apply Forall_cons in Hr as [[Hr Hk] Hrs]. by apply IH.
Qed.

Lemma backs_good line left : forall c ps, ps `suffix_of` line -> cmd_ok line c -> good line (cmd_ok line) (backs left c ps).
Proof.
  induction left as [|left IH]; intros c ps Hs Hc; [done|]. cbn [backs]. peek_good line ps [AMP]. destruct b; [|by split; auto].
  get_good line s. by apply IH.
Qed.

Lemma parse_good line fuel : forall ps, ps `suffix_of` line ->
  good line (cmd_ok line) (parseline fuel ps) /\ good line (cmd_ok line) (parsepipe fuel ps) /\
  good line (cmd_ok line) (parseexec fuel ps) /\ good line (cmd_ok line) (parseblock fuel ps).
Proof.
  induction fuel as [|fuel IH]; intros ps Hs; [done|]. split_and!; cbn [parseline parsepipe parseexec parseblock].
  - eapply good_bind; [by apply IH|]. intros c ps1 Hc H1. eapply good_bind; [by apply backs_good|]. intros c2 ps2 Hc2 H2.
    peek_good line ps2 [SEMI]. destruct b; [|by split; auto]. get_good line s.
    eapply good_bind; [by apply IH|]. intros r ps3 Hr H3. by split.
  - eapply good_bind; [by apply IH|]. intros c ps1 Hc H1. peek_good line ps1 [BAR]. destruct b; [|by split; auto].
    get_good line s. eapply good_bind; [by apply IH|]. intros r ps3 Hr H3. by split.
  - peek_good line ps [LPAR]. destruct b; [by apply IH; auto|].
    eapply good_bind; [apply redirs_good; auto|]. intros rs ps1 Hr H1. eapply good_bind; [apply execargs_good; [done|unfold MAXARGS; simpl; lia|done|done]|].
    intros [argv rs'] ps2 (Hn & Ha & Hr') H2. split; [|done]. by apply foldl_redirs.
  - peek_good line ps [LPAR]. destruct b; [|done]. cbn [negb]. get_good line s.
    eapply good_bind; [by apply IH|]. intros c ps1 Hc H1. peek_good line ps1 [RPAR]. destruct b; [|done]. cbn [negb].
    get_good line s1. eapply good_bind; [by apply redirs_good|]. intros rs ps2 Hr H2. split; [|done]. by apply foldl_redirs.
Qed.

(** ** Strings after [nulterminate] *)

Fixpoint cstring (l : list Z) : list Z :=
  match l with c :: l' => if c =? 0 then [] else c :: cstring l' | [] => [] end.

(** The string that [argv] or [file] points to. *)
Definition string_at (n : nat) (buf : list Z) (w : word) : list Z := cstring (drop (offset n w.1) buf).

Lemma nulterminate_fold n c : forall buf, nulterminate n c buf = foldl (terminate n) buf (cmd_words c).
Proof.
  induction c as [argv|c IH w m fd|l IHl r IHr|l IHl r IHr|c IH]; intros buf; simpl; try done.
  - by rewrite foldl_app, IH.
  - by rewrite foldl_app, IHl, IHr.
  - by rewrite foldl_app, IHl, IHr.
Qed.

Lemma terminated_lookup n ws : forall buf i, foldl (terminate n) buf ws !! i =
  if decide (i ∈ offset n ∘ snd <$> ws) then (fun _ => 0) <$> buf !! i else buf !! i.
Proof.
  induction ws as [|w ws IH]; intros buf i; simpl; [done|]. rewrite IH. unfold terminate.
  destruct (decide (i = offset n w.2)) as [->|Hne].
  - rewrite (decide_True (P := _ ∈ _ :: _)) by left. destruct (decide (offset n w.2 < length buf)%nat) as [Hl|Hl].
    + destruct (lookup_lt_is_Some_2 _ _ Hl) as [x Hx]. rewrite list_lookup_insert_eq, Hx by done. by destruct (decide _).
    + rewrite list_insert_ge, lookup_ge_None_2 by lia. by destruct (decide _).
  - rewrite list_lookup_insert_ne by done. destruct (decide (i ∈ offset n ∘ snd <$> ws)) as [Hin|Hin].
    + by rewrite decide_True by (by right).
    + rewrite decide_False; [done|]. by apply not_elem_of_cons.
Qed.

Lemma cstring_prefix u l : Forall (fun c => c <> 0) u -> (forall j, (j < length u)%nat -> l !! j = u !! j) -> l !! length u = Some 0 ->
  cstring l = u.
Proof.
  intros Hu. induction Hu as [|c u Hc Hu IH] in l |- *; intros Hj H0; simpl in *.
  - destruct l as [|x l]; [done|]. injection H0 as ->. done.
  - destruct l as [|x l]; [done|]. pose proof (Hj 0%nat ltac:(lia)) as [= ->]. simpl.
    rewrite (proj2 (Z.eqb_neq c 0)) by done. f_equal. apply IH; [|done]. intros j Hlt. apply (Hj (S j)). lia.
Qed.

Lemma text_prefix (w : word) (u : list Z) : w.1 = u ++ w.2 -> text w = u.
Proof. intros E. unfold text. rewrite E, length_app. replace (length u + length w.2 - length w.2)%nat with (length u) by lia. apply take_app_length. Qed.

(** Every word of a command reads as the bytes it had in the line. *)
Lemma string_at_text line c w : Forall (fun x => x <> 0) line -> cmd_ok line c -> w ∈ cmd_words c ->
  string_at (length line) (nulterminate (length line) c (line ++ [0])) w = text w.
Proof.
  intros Hz Hok Hin. pose proof (fun w => cmd_ok_words line c w Hok) as Hw. clear Hok. rename Hw into Hok.
  assert (forall i x, line !! i = Some x -> wordchar x -> i ∉ offset (length line) ∘ snd <$> cmd_words c) as Hsafe.
  { intros i x Hi Hx (w' & -> & Hw')%list_elem_of_fmap. destruct (Hok w' Hw') as (u & E & Hu & _ & [pre Hpre] & Hd).
    rewrite E, app_assoc in Hpre. unfold offset in Hi. simpl in Hi.
    assert (length line - length w'.2 = length (pre ++ u))%nat as El by (rewrite Hpre, !length_app; lia).
    rewrite El, Hpre, lookup_app_r, Nat.sub_diag in Hi by lia. destruct (w'.2); [done|]. by injection Hi as ->. }
  destruct (Hok w Hin) as (u & E & Hne & Hu & [pre Hpre] & Hd). rewrite E in Hpre.
  rewrite (text_prefix w u E).
  assert (offset (length line) w.1 = length pre) as Eo by (unfold offset; rewrite E, Hpre, !length_app; lia).
  unfold string_at. rewrite Eo, nulterminate_fold. apply cstring_prefix.
  - rewrite Hpre in Hz. apply Forall_app in Hz as [_ Hz]. by apply Forall_app in Hz as [Hz _].
  - intros j Hj. rewrite lookup_drop, terminated_lookup.
    assert (line !! (length pre + j)%nat = u !! j) as El.
    { rewrite Hpre, lookup_app_r by lia. replace (length pre + j - length pre)%nat with j by lia. by apply lookup_app_l. }
    destruct (lookup_lt_is_Some_2 _ _ Hj) as [x Hx]. rewrite decide_False; [|apply (Hsafe _ x); [congruence|]].
    + rewrite lookup_app_l; [done|]. apply lookup_lt_is_Some_1. rewrite El, Hx. eauto.
    + rewrite Forall_lookup in Hu. by eapply Hu.
  - rewrite lookup_drop, terminated_lookup, decide_True.
    + assert (is_Some ((line ++ [0]) !! (length pre + length u)%nat)) as [x ->]; [|done].
      apply lookup_lt_is_Some_2. rewrite Hpre, !length_app. simpl. lia.
    + apply list_elem_of_fmap. exists w. split; [|done]. unfold offset. simpl. rewrite Hpre, !length_app. lia.
Qed.

Lemma cmd_map_ext {V W} (f g : V -> W) c : (forall w, w ∈ cmd_words c -> f w = g w) -> cmd_map f c = cmd_map g c.
Proof.
  induction c as [argv|c IH w m fd|l IHl r IHr|l IHl r IHr|c IH]; simpl; intros H; f_equal;
    try match goal with IH : _ -> ?P |- ?P => apply IH; intros v Hv; apply H; rewrite ?elem_of_app; auto end.
  - apply list_fmap_ext. intros i x Hx. apply H. by eapply list_elem_of_lookup_2.
  - apply H, elem_of_app. right. by left.
Qed.

Lemma parsecmd_ok s c buf ps : parsecmd s = POk (c, buf) ps -> cmd_ok s c /\ buf = nulterminate (length s) c (s ++ [0]).
Proof.
  intros H. unfold parsecmd in H. destruct (parse_good s (parse_fuel s) s ltac:(done)) as [Hg _].
  destruct (parseline _ _) as [c0 ps0|m|]; [|done|done]. destruct Hg as [Hw _]. simpl in H.
  destruct (skip_space ps0); [|done]. by injection H as -> <- <-.
Qed.

(** The NULs that [nulterminate] writes over the line end every word of the command where it
    ended in the line, and touch no other: each string the command points to is its word. *)
Theorem nulterminate_keeps_words s c buf ps : Forall (fun x => x <> 0) s -> parsecmd s = POk (c, buf) ps ->
  cmd_map (string_at (length s) buf) c = cmd_map text c.
Proof. intros Hz [Hc ->]%parsecmd_ok. apply cmd_map_ext. intros w. by apply string_at_text. Qed.

(** [a|b>c] *)
Lemma nulterminate_keeps_words_witness : exists c buf,
  parsecmd [97; 124; 98; 62; 99] = POk (c, buf) [] /\ cmd_map (string_at 5 buf) c = PIPE (EXEC [[97]]) (REDIR (EXEC [[98]]) [99] 513 1).
Proof.
  eexists _, _. split; [reflexivity|].
  refine (eq_trans (nulterminate_keeps_words [97; 124; 98; 62; 99] _ _ [] _ eq_refl) eq_refl).
  repeat constructor; lia.
Defined.

(** ** Every command has a line *)

Definition SPACE : Z := 32.

(** A line for a command, with parentheses around every part. *)
Fixpoint print (c : cmd (list Z)) : list Z :=
  match c with
  | EXEC argv => mjoin (map (fun w => w ++ [SPACE]) argv)
  | REDIR c f _ fd => LPAR :: print c ++ RPAR :: (if fd =? 0 then LT else GT) :: f
  | PIPE l r => LPAR :: print l ++ RPAR :: BAR :: LPAR :: print r ++ [RPAR]
  | LIST l r => LPAR :: print l ++ RPAR :: SEMI :: LPAR :: print r ++ [RPAR]
  | BACK c => LPAR :: print c ++ [RPAR; AMP]
  end.

Definition name_ok (w : list Z) : Prop := w <> [] /\ Forall (fun c => wordchar c /\ c <> 0) w.
#[export] Instance name_ok_dec w : Decision (name_ok w).
Proof. unfold name_ok. apply _. Defined.

(** The commands the shell can represent: at most nine arguments and the two kinds of redirection. *)
Fixpoint representable (c : cmd (list Z)) : Prop :=
  match c with
  | EXEC argv => (length argv < MAXARGS)%nat /\ Forall name_ok argv
  | REDIR c f m fd => representable c /\ name_ok f /\ redir_kind m fd
  | PIPE l r | LIST l r => representable l /\ representable r
  | BACK c => representable c
  end.

Lemma word_name line w : Forall (fun x => x <> 0) line -> word_ok line w -> name_ok (text w).
Proof.
  intros Hz (u & E & Hne & Hu & [pre Hpre] & _). rewrite (text_prefix w u E).
  split; [done|]. rewrite E in Hpre. rewrite Hpre, !Forall_app in Hz. destruct Hz as (_ & Hz & _). rewrite Forall_forall in *. eauto.
Qed.

Lemma cmd_ok_representable line c : Forall (fun x => x <> 0) line -> cmd_ok line c -> representable (cmd_map text c).
Proof.
  intros Hz. induction c as [argv|c IH f m fd|l IHl r IHr|l IHl r IHr|c IH]; simpl; intros H.
  - destruct H as [Hl Ha]. split; [by rewrite length_fmap|]. apply Forall_fmap. eapply Forall_impl; [done|]. intros w. by apply word_name.
  - destruct H as (Hc & Hf & Hk). split_and!; [auto|by eapply word_name|done].
  - destruct H. auto.
  - destruct H. auto.
  - auto.
Qed.

(** C24. Whatever line the parser accepts, the command it makes is well formed: at most nine arguments,
    words that are not empty and have no space and no symbol in them, and redirections
    only of the input from a file and of the output to a file. *)
Theorem parsecmd_well_formed s c buf ps : Forall (fun x => x <> 0) s -> parsecmd s = POk (c, buf) ps ->
  representable (cmd_map (string_at (length s) buf) c).
Proof.
  intros Hz [Hc ->]%parsecmd_ok. erewrite cmd_map_ext; [by eapply cmd_ok_representable|]. intros w. by apply string_at_text.
Qed.

(** [a>b>c] *)
Lemma parsecmd_well_formed_witness : exists c buf ps, parsecmd [97; 62; 98; 62; 99] = POk (c, buf) ps /\ representable (cmd_map (string_at 5 buf) c).
Proof.
  eexists _, _, _. split; [reflexivity|]. eapply (parsecmd_well_formed [97; 62; 98; 62; 99]); [by repeat constructor|reflexivity].
Defined.

(** What may follow a line inside parentheses, or at its end. *)
Definition stop (rest : ptr) : Prop := rest = [] \/ exists r, rest = RPAR :: r.

Lemma skip_word_app u rest : Forall wordchar u -> match rest with c :: _ => ~ wordchar c | [] => True end ->
  skip_word (u ++ rest) = rest.
Proof.
  intros Hu Hr. induction Hu as [|c u Hc Hu IH]; cbn [app].
  - destruct rest as [|c rest]; [done|]. cbn [skip_word]. by rewrite wordchar_skip, bool_decide_false.
  - cbn [skip_word]. by rewrite wordchar_skip, bool_decide_true.
Qed.

Lemma wordchar_space c s : wordchar c -> skip_space (c :: s) = c :: s.
Proof. intros [Hw _]. cbn [skip_space]. unfold strchr. by rewrite bool_decide_false. Qed.

Lemma wordchar_peek c s toks : wordchar c -> toks ⊆ symbols -> peek (c :: s) toks = (c :: s, false).
Proof.
  intros Hc Ht. unfold peek. rewrite wordchar_space by done. f_equal. unfold strchr. apply bool_decide_false. intros Hin.
  by apply Hc, Ht.
Qed.

(** A word is one token. *)
Lemma gettoken_word w rest : name_ok w -> match rest with c :: _ => ~ wordchar c | [] => True end ->
  gettoken (w ++ rest) = (WORD, w ++ rest, rest, skip_space rest).
Proof.
  intros [Hne Hw] Hr. assert (Forall wordchar w) as Hwc by (eapply Forall_impl; [exact Hw|by intros ? []]).
  unfold gettoken. destruct w as [|c w]; [done|]. pose proof Hwc as Hwc'. apply Forall_cons in Hwc' as [Hc _].
  cbn [app]. rewrite wordchar_space by done.
  replace (strchr [BAR; LPAR; RPAR; SEMI; AMP; LT] c) with false
    by (symmetry; apply bool_decide_false; destruct Hc as [_ Hc]; unfold symbols, LT, BAR, AMP, SEMI, LPAR, RPAR, GT in *; set_solver).
  destruct (Z.eqb_spec c GT) as [->|_].
  { exfalso. destruct Hc as [_ Hc]. apply Hc. unfold symbols, GT. set_solver. }
  change (c :: w ++ rest) with ((c :: w) ++ rest). by rewrite skip_word_app.
Qed.

Lemma text_word w rest : text (w ++ rest, rest) = w.
Proof.
  unfold text. cbn [fst snd]. rewrite length_app. replace (length w + length rest - length rest)%nat with (length w) by lia.
  apply take_app_length.
Qed.

Lemma stop_head rest : stop rest -> match rest with c :: _ => ~ wordchar c | [] => True end.
Proof. intros [->|[r ->]]; [done|]. intros [_ H]. apply H. unfold symbols, RPAR. set_solver. Qed.

Lemma stop_skip rest : stop rest -> skip_space rest = rest.
Proof. by intros [->|[r ->]]. Qed.

Lemma stop_peek rest toks : stop rest -> RPAR ∉ toks -> peek rest toks = (rest, false).
Proof. intros [->|[r ->]] Ht; [done|]. unfold peek. simpl. f_equal. by apply bool_decide_false. Qed.

Lemma print_skip c rest : representable c -> stop rest -> skip_space (print c ++ rest) = print c ++ rest.
Proof.
  intros Hc Hs. destruct c as [argv|c f m fd|l r|l r|c]; try done. destruct argv as [|w argv]; [by apply stop_skip|].
  destruct Hc as [_ Hw]. apply Forall_cons in Hw as [[Hne Hw] _]. destruct w as [|x w]; [done|].
  apply Forall_cons in Hw as [[Hx _] _]. simpl. by apply wordchar_space.
Qed.

(** The arguments of a command. *)
Lemma redirs_none n ps : skip_space ps = ps -> (peek ps [LT; GT]).2 = false -> redirs (S n) ps = POk [] ps.
Proof. intros E H. cbn [redirs]. unfold peek in *. rewrite E in *. cbn [snd] in H. by rewrite H. Qed.

Lemma print_exec_peek argv rest toks : Forall name_ok argv -> stop rest -> toks ⊆ symbols -> RPAR ∉ toks ->
  peek (print (EXEC argv) ++ rest) toks = (print (EXEC argv) ++ rest, false).
Proof.
  intros Ha Hs Ht Hr. destruct Ha as [|w argv [Hne Hw] Ha]; [by apply stop_peek|]. destruct w as [|x w]; [done|].
  apply Forall_cons in Hw as [[Hx _] _]. simpl. by apply wordchar_peek.
Qed.

Lemma execargs_words argv rest : Forall name_ok argv -> stop rest -> forall left done,
  (length argv + length done < MAXARGS)%nat -> (length argv < left)%nat ->
  exists ws, execargs left done [] (print (EXEC argv) ++ rest) = POk (done ++ ws, []) rest /\ text <$> ws = argv.
Proof.
  intros Ha Hs. induction Ha as [|w argv Hw Ha IH]; intros [|left] done' Hlen Hl; simpl in Hlen, Hl; try lia.
  - exists []. rewrite app_nil_r. split; [|done]. cbn [execargs print map mjoin list_join app]. unfold peek. rewrite stop_skip by done.
    destruct Hs as [->|[r ->]]; done.
  - set (more := print (EXEC argv) ++ rest).
    assert (print (EXEC (w :: argv)) ++ rest = w ++ SPACE :: more) as ->.
    { unfold more. cbn [print map mjoin list_join]. by rewrite <- !app_assoc. }
    assert (skip_space more = more) as Esk by (apply print_skip; [split; [lia|done]|done]).
    cbn [execargs]. replace (peek (w ++ SPACE :: more) [BAR; RPAR; AMP; SEMI]) with (w ++ SPACE :: more, false)
      by (destruct Hw as [Hne Hw]; destruct w as [|x w]; [done|]; apply Forall_cons in Hw as [[Hx _] _];
          symmetry; apply wordchar_peek; [done|unfold symbols, BAR, RPAR, AMP, SEMI; set_solver]).
    rewrite gettoken_word; [|done|intros [H _]; apply H; unfold whitespace, SPACE; set_solver].
    change (skip_space (SPACE :: more)) with (skip_space more). rewrite Esk. change (WORD =? 0) with false. change (WORD =? WORD) with true.
    cbn [negb]. cbv iota. rewrite length_app. simpl length. rewrite (proj2 (Nat.leb_gt _ _)) by lia.
    rewrite redirs_none; [|done|unfold more; rewrite print_exec_peek; [done|done|done|unfold symbols, LT, GT; set_solver|unfold RPAR, LT, GT; set_solver]].
    cbn [pbind app]. destruct (IH left (done' ++ [(w ++ SPACE :: more, SPACE :: more)])) as (ws & E & Hws);
      [rewrite length_app; simpl; lia|lia|].
    exists ((w ++ SPACE :: more, SPACE :: more) :: ws). split; [etrans; [exact E|by rewrite <- app_assoc]|]. cbn [fmap list_fmap]. by rewrite text_word, Hws.
Qed.

Definition parses (f : nat -> ptr -> parsed (cmd word)) (k : nat) (c : cmd (list Z)) (s rest : ptr) : Prop :=
  forall fuel, (4 * length s + k <= fuel)%nat -> exists c', f fuel s = POk c' rest /\ cmd_map text c' = c.

Lemma cmd_map_redirs rs : forall c, cmd_map text (foldl redircmd c rs) = foldl (fun c r => REDIR c (text (rfile r)) (rmode r) (rfd r)) (cmd_map text c) rs.
Proof. induction rs as [|r rs IH]; intros c; [done|]. simpl. by rewrite IH. Qed.

Lemma peek_head c y toks : strchr symbols c = true -> peek (c :: y) toks = (c :: y, strchr toks c).
Proof.
  intros H. unfold peek. replace (skip_space (c :: y)) with (c :: y); [done|]. cbn [skip_space].
  replace (strchr whitespace c) with false; [done|]. unfold strchr in *. symmetry. apply bool_decide_eq_true in H. apply bool_decide_false.
  unfold symbols, whitespace in *. set_solver.
Qed.

Lemma gettoken_head c y : strchr [BAR; LPAR; RPAR; SEMI; AMP; LT] c = true -> gettoken (c :: y) = (c, c :: y, y, skip_space y).
Proof.
  intros H. unfold gettoken. replace (skip_space (c :: y)) with (c :: y); [by rewrite H|]. cbn [skip_space].
  replace (strchr whitespace c) with false; [done|]. unfold strchr in *. symmetry. apply bool_decide_eq_true in H. apply bool_decide_false.
  unfold BAR, LPAR, RPAR, SEMI, AMP, LT, whitespace in *. set_solver.
Qed.

(** A line in parentheses, and the redirections after it. *)
Lemma parseexec_block c s x rs rest : parses parseline 4 c (s ++ RPAR :: x) (RPAR :: x) -> skip_space (s ++ RPAR :: x) = s ++ RPAR :: x ->
  skip_space x = x -> redirs (S (length x)) x = POk rs rest ->
  parses parseexec 2 (foldl (fun c r => REDIR c (text (rfile r)) (rmode r) (rfd r)) c rs) (LPAR :: s ++ RPAR :: x) rest.
Proof.
  intros Hp Es Ex Er fuel Hf. simpl in Hf. destruct fuel as [|[|fuel]]; [lia..|]. cbn [parseexec parseblock].
  rewrite !(peek_head LPAR) by done. change (strchr [LPAR] LPAR) with true. cbv iota. cbn [negb].
  rewrite (gettoken_head LPAR), Es by done.
  destruct (Hp fuel ltac:(lia)) as (c' & E & Ec). rewrite E. cbn [pbind].
  rewrite (peek_head RPAR) by done. change (strchr [RPAR] RPAR) with true. cbn [negb].
  rewrite (gettoken_head RPAR), Ex by done. unfold parseredirs. rewrite Er. cbn [pbind].
  eexists. split; [done|]. by rewrite cmd_map_redirs, Ec.
Qed.

(** A part in parentheses, followed by neither a space nor a redirection. *)
Lemma parseexec_paren c rest : representable c -> (forall rest, stop rest -> parses parseline 4 c (print c ++ rest) rest) ->
  skip_space rest = rest -> (peek rest [LT; GT]).2 = false -> parses parseexec 2 c (LPAR :: print c ++ RPAR :: rest) rest.
Proof.
  intros Hc H Es Hp. apply (parseexec_block c (print c) rest [] rest); [apply H; right; eauto| |done|by apply redirs_none].
  apply print_skip; [done|right; eauto].
Qed.

Lemma parsepipe_last c s rest : parses parseexec 2 c s rest -> peek rest [BAR] = (rest, false) -> parses parsepipe 3 c s rest.
Proof.
  intros H Hp [|fuel] Hf; [lia|]. cbn [parsepipe]. destruct (H fuel ltac:(lia)) as (c' & -> & Ec). cbn [pbind]. rewrite Hp. eauto.
Qed.

Lemma parseline_last c s rest : parses parsepipe 3 c s rest -> stop rest -> parses parseline 4 c s rest.
Proof.
  intros H Hs [|fuel] Hf; [lia|]. cbn [parseline]. destruct (H fuel ltac:(lia)) as (c' & -> & Ec). cbn [pbind backs].
  rewrite (stop_peek rest [AMP]) by (done || (unfold RPAR, AMP; set_solver)). cbn [pbind].
  rewrite (stop_peek rest [SEMI]) by (done || (unfold RPAR, SEMI; set_solver)). eauto.
Qed.

Lemma print_exec_length argv : (length argv <= length (print (EXEC argv)))%nat.
Proof. induction argv as [|w argv IH]; simpl in *; [done|]. rewrite !length_app. simpl. lia. Qed.

(** One redirection. *)
Lemma redirs_one f m fd rest n : name_ok f -> stop rest -> ((m = mode_in /\ fd = 0) \/ (m = mode_out /\ fd = 1)) ->
  redirs (S (S n)) ((if fd =? 0 then LT else GT) :: f ++ rest) = POk [mkRedir (f ++ rest, rest) m fd] rest.
Proof.
  intros Hf Hs Hm. assert (skip_space (f ++ rest) = f ++ rest /\ exists x y, f ++ rest = x :: y /\ x <> GT) as [Hsk (x & y & Exy & Hx)].
  { destruct Hf as [Hne Hf]. destruct f as [|x f]; [done|]. apply Forall_cons in Hf as [[Hx _] _]. split; [by apply wordchar_space|].
    exists x, (f ++ rest). split; [done|]. intros ->. destruct Hx as [_ Hx]. apply Hx. unfold symbols, GT. set_solver. }
  assert (redirs (S n) rest = POk [] rest) as Hrest.
  { apply redirs_none; [by apply stop_skip|]. rewrite stop_peek; [done|done|unfold RPAR, LT, GT; set_solver]. }
  assert (forall s, peek (LT :: s) [LT; GT] = (LT :: s, true) /\ peek (GT :: s) [LT; GT] = (GT :: s, true)) as Hpk by done.
  destruct Hm as [[-> ->]|[-> ->]]; cbn [redirs].
  - change (0 =? 0) with true. cbv iota. rewrite (proj1 (Hpk _)), gettoken_head, Hsk by done.
    rewrite gettoken_word, stop_skip by (done || by apply stop_head). cbn [negb Z.eqb]. change (negb (WORD =? WORD)) with false. cbv iota.
    change (redirs (S n) rest) with (redirs (S n) rest). cbn [redirs] in Hrest. rewrite Hrest. done.
  - change (1 =? 0) with false. cbv iota. rewrite (proj2 (Hpk _)).
    assert (gettoken (GT :: f ++ rest) = (GT, GT :: f ++ rest, f ++ rest, skip_space (f ++ rest))) as ->.
    { rewrite Exy. unfold gettoken. change (skip_space (GT :: x :: y)) with (GT :: x :: y).
      change (strchr _ GT) with false. cbv iota. change (GT =? GT) with true. cbv iota. by rewrite (proj2 (Z.eqb_neq x GT)). }
    rewrite Hsk, gettoken_word, stop_skip by (done || by apply stop_head). change (negb (WORD =? WORD)) with false. cbv iota.
    cbn [redirs] in Hrest. rewrite Hrest. done.
Qed.

(** The parser reads the line of [c] and stops. *)
Definition prints (c : cmd (list Z)) : Prop := forall rest, stop rest -> parses parseline 4 c (print c ++ rest) rest.

Lemma parse_exec argv : representable (EXEC argv) -> prints (EXEC argv).
Proof.
  intros Hc rest Hs. cbn [print app]. destruct Hc as [Hl Ha]. apply parseline_last; [|done]. apply parsepipe_last;
    [|apply stop_peek; [done|unfold RPAR, BAR; set_solver]].
  intros [|fuel] Hf; [lia|]. cbn [parseexec].
  assert (forall toks, toks ⊆ symbols -> RPAR ∉ toks -> peek (print (EXEC argv) ++ rest) toks = (print (EXEC argv) ++ rest, false)) as Hpk
    by (intros; by apply print_exec_peek).
  change (mjoin _) with (print (EXEC argv)). rewrite Hpk by (unfold symbols, LPAR, RPAR; set_solver).
  rewrite redirs_none; [|by apply print_skip|rewrite Hpk; [done|unfold symbols, LT, GT; set_solver|unfold RPAR, LT, GT; set_solver]].
  cbn [pbind]. destruct (execargs_words argv rest Ha Hs (S (length (print (EXEC argv) ++ rest))) []) as (ws & -> & Hws);
    [simpl; lia|rewrite length_app; pose proof (print_exec_length argv); lia|].
  cbn [pbind foldl app]. eexists. split; [done|]. simpl. by rewrite Hws.
Qed.

Lemma parse_redir c f m fd : representable (REDIR c f m fd) -> prints c -> prints (REDIR c f m fd).
Proof.
  intros Hc IH rest Hs. cbn [print app]. destruct Hc as (Hc & Hf & Hm). apply parseline_last; [|done]. apply parsepipe_last; [|apply stop_peek; [done|unfold RPAR, BAR; set_solver]].
  rewrite <- app_assoc. cbn [app].
  set (x := (if fd =? 0 then LT else GT) :: f ++ rest).
  assert (redirs (S (length x)) x = POk [mkRedir (f ++ rest, rest) m fd] rest) as Hx.
  { unfold x. by apply redirs_one. }
  replace (REDIR c f m fd) with (foldl (fun c r => REDIR c (text (rfile r)) (rmode r) (rfd r)) c [mkRedir (f ++ rest, rest) m fd])
    by (simpl; by rewrite text_word).
  apply parseexec_block; [apply IH; right; eauto|apply print_skip; [done|right; eauto]|unfold x; by destruct (fd =? 0)|done].
Qed.

Lemma parse_pipe l r : representable (PIPE l r) -> prints l -> prints r -> prints (PIPE l r).
Proof.
  intros Hc IHl IHr rest Hs. cbn [print app]. destruct Hc as [Hl Hr]. rewrite <- app_assoc. cbn [app]. rewrite <- app_assoc. cbn [app].
  apply parseline_last; [|done]. intros [|fuel] Hf; [lia|]. cbn [parsepipe].
  destruct (parseexec_paren l (BAR :: LPAR :: print r ++ RPAR :: rest) Hl IHl eq_refl eq_refl fuel ltac:(lia)) as (l' & -> & El).
  cbn [pbind]. rewrite peek_head by done. change (strchr [BAR] BAR) with true. cbv iota. rewrite gettoken_head by done. cbv iota.
  change (skip_space (LPAR :: ?y)) with (LPAR :: y).
  destruct (parsepipe_last r (LPAR :: print r ++ RPAR :: rest) rest) with (fuel := fuel) as (r' & -> & Er).
  - apply parseexec_paren; [done|done|by apply stop_skip|]. rewrite stop_peek; [done|done|unfold RPAR, LT, GT; set_solver].
  - apply stop_peek; [done|unfold RPAR, BAR; set_solver].
  - simpl in *. rewrite length_app in Hf. simpl in Hf. lia.
  - eexists. split; [done|]. simpl. by rewrite El, Er.
Qed.

Lemma parse_list l r : representable (LIST l r) -> prints l -> prints r -> prints (LIST l r).
Proof.
  intros Hc IHl IHr rest Hs. cbn [print app]. destruct Hc as [Hl Hr]. rewrite <- app_assoc. cbn [app]. rewrite <- app_assoc. cbn [app].
  intros [|fuel] Hf; [lia|]. cbn [parseline].
  destruct (parsepipe_last l (LPAR :: print l ++ RPAR :: SEMI :: LPAR :: print r ++ RPAR :: rest) (SEMI :: LPAR :: print r ++ RPAR :: rest)) with (fuel := fuel)
    as (l' & -> & El); [by apply parseexec_paren; [|done|..]|done|lia|].
  cbn [pbind backs]. rewrite peek_head by done. change (strchr [AMP] SEMI) with false. cbn [pbind].
  rewrite peek_head by done. change (strchr [SEMI] SEMI) with true. cbv iota. rewrite gettoken_head by done. cbv iota.
  change (skip_space (LPAR :: ?y)) with (LPAR :: y).
  destruct (parseline_last r (LPAR :: print r ++ RPAR :: rest) rest) with (fuel := fuel) as (r' & -> & Er); [|done|..].
  - apply parsepipe_last; [|apply stop_peek; [done|unfold RPAR, BAR; set_solver]].
    apply parseexec_paren; [done|done|by apply stop_skip|]. rewrite stop_peek; [done|done|unfold RPAR, LT, GT; set_solver].
  - simpl in *. rewrite length_app in Hf. simpl in Hf. lia.
  - eexists. split; [done|]. simpl. by rewrite El, Er.
Qed.

Lemma parse_back c : representable c -> prints c -> prints (BACK c).
Proof.
  intros Hc IH rest Hs. cbn [print app]. rewrite <- app_assoc. cbn [app]. intros [|fuel] Hf; [lia|]. cbn [parseline].
  destruct (parsepipe_last c (LPAR :: print c ++ RPAR :: AMP :: rest) (AMP :: rest)) with (fuel := fuel)
    as (c' & -> & Ec); [by apply parseexec_paren; [|done|..]|done|lia|].
  cbn [pbind length]. cbn [backs]. rewrite peek_head by done. change (strchr [AMP] AMP) with true. cbv iota. rewrite gettoken_head by done. cbv iota.
  rewrite stop_skip, (stop_peek rest [AMP]) by (done || (unfold RPAR, AMP; set_solver)). cbn [pbind].
  rewrite (stop_peek rest [SEMI]) by (done || (unfold RPAR, SEMI; set_solver)). eexists. split; [done|]. simpl. by rewrite Ec.
Qed.

Lemma parse_print c : representable c -> prints c.
Proof.
  induction c as [argv|c IH f m fd|l IHl r IHr|l IHl r IHr|c IH]; intros Hc.
  - by apply parse_exec.
  - apply parse_redir; [done|apply IH, Hc].
  - apply parse_pipe; [done|apply IHl, Hc|apply IHr, Hc].
  - apply parse_list; [done|apply IHl, Hc|apply IHr, Hc].
  - apply parse_back; auto.
Qed.

Lemma print_nonzero c : representable c -> Forall (fun x => x <> 0) (print c).
Proof.
  assert (forall w, name_ok w -> Forall (fun x => x <> 0) w) as Hw by (intros w [_ H]; eapply Forall_impl; [exact H|by intros ? []]).
  induction c as [argv|c IH f m fd|l IHl r IHr|l IHl r IHr|c IH]; simpl; intros H.
  - destruct H as [_ H]. induction H as [|w argv Ha H IH]; [done|]. simpl. rewrite !Forall_app. by repeat split; [apply Hw|repeat constructor|].
  - destruct H as (Hc & Hf & _). repeat (constructor || apply Forall_app || split); auto; try done. by destruct (fd =? 0).
  - destruct H. rewrite Forall_cons, Forall_app, !Forall_cons, Forall_app, Forall_cons. repeat split; auto; done.
  - destruct H. rewrite Forall_cons, Forall_app, !Forall_cons, Forall_app, Forall_cons. repeat split; auto; done.
  - rewrite Forall_cons, Forall_app, !Forall_cons. repeat split; auto; done.
Qed.

(** C26. Every command the shell can represent has a line that parses to it: the parser reads
    [print c] to its end, and the strings of the result are those of [c]. *)
Theorem parse_print_roundtrip c : representable c ->
  exists c' buf, parsecmd (print c) = POk (c', buf) [] /\ cmd_map (string_at (length (print c)) buf) c' = c.
Proof.
  intros Hc. destruct (parse_print c Hc [] ltac:(by left) (parse_fuel (print c))) as (c' & E & Ec);
    [rewrite app_nil_r; unfold parse_fuel; lia|]. rewrite app_nil_r in E.
  exists c', (nulterminate (length (print c)) c' (print c ++ [0])). split.
  - unfold parsecmd. by rewrite E.
  - transitivity (cmd_map text c'); [|done]. apply cmd_map_ext. intros w. apply string_at_text; [by apply print_nonzero|].
    destruct (parse_good (print c) (parse_fuel (print c)) (print c) ltac:(done)) as [Hg _]. rewrite E in Hg. apply Hg.
Qed.

(** [((ls -l )>f)|((wc )&)] *)
Lemma parse_print_roundtrip_witness :
  let c := PIPE (REDIR (EXEC [[108; 115]; [45; 108]]) [102] 513 1) (BACK (EXEC [[119; 99]])) in
  exists c' buf, parsecmd (print c) = POk (c', buf) [] /\ cmd_map (string_at (length (print c)) buf) c' = c.
Proof.
  intros c. apply (parse_print_roundtrip c). subst c. simpl. split_and!.
  - apply Nat.ltb_lt. reflexivity.
  - apply (bool_decide_unpack _). vm_compute. exact I.
  - apply (bool_decide_unpack _). vm_compute. exact I.
  - right. done.
  - apply Nat.ltb_lt. reflexivity.
  - apply (bool_decide_unpack _). vm_compute. exact I.
Defined.
