(* ===== verification/Umalloc.v ===== *)
(** * umalloc.c: the allocator of user programs

    The first-fit allocator of Kernighan and Ritchie.  Memory is seen through the headers at its
    addresses; addresses count bytes and a header has eight.  The free blocks are a ring of
    headers in ascending order, [base] first, never two of them adjacent.  [sbrk] is the system
    call: an interface with the law that growing returns new memory at the old break.  Shown:
    [malloc] and [free] always return, keep the ring and all allocated blocks, and lose no memory. *)
From stdpp Require Import base list.
From Stdlib Require Import ZArith Lia.
From S2P Require Import Prelude Layout.
Local Open Scope Z_scope.

Record header := mkHeader { hptr : Z; hsize : Z }.
#[export] Instance eta_header : Eta header := fun r => mkHeader (hptr r) (hsize r).
#[export] Instance upd_hptr : Upd hptr := ltac:(derive_upd).
#[export] Instance upd_hsize : Upd hsize := ltac:(derive_upd).

Record heap := mkHeap { hd : Z -> header; freep : Z; brk : Z }.
#[export] Instance eta_heap : Eta heap := fun r => mkHeap (hd r) (freep r) (brk r).
#[export] Instance upd_hd : Upd hd := ltac:(derive_upd).
#[export] Instance upd_freep : Upd freep := ltac:(derive_upd).
#[export] Instance upd_brk : Upd brk := ltac:(derive_upd).

Definition HSIZE : Z := 8.

(** The kernel's side of [sbrk(n)]: the new break, if it is granted, and where [base] lies. *)
Class Process := {
  base : Z;
  sbrk : Z -> Z -> option Z;
}.
Class ProcessLaws (P : Process) := {
  base_pos : 0 < base;
  sbrk_grows b n b' : 0 <= n -> sbrk b n = Some b' -> b' = b + n /\ b' <= KERNBASE;
}.

Definition set_hd (a : Z) (f : header -> header) (h : heap) : heap :=
  h <| hd ::= fun m x => if x =? a then f (m x) else m x |>.

(** [p + n] for a header pointer. *)
Definition hadd (p n : Z) : Z := u32 (p + HSIZE * n).

Section umalloc.
Context {P : Process}.

(** ** free *)

(** The loop that looks for the place of [bp]. *)
Fixpoint find_place (fuel : nat) (bp p : Z) (h : heap) : option Z :=
  match fuel with
  | O => None
  | S fuel' =>
      let n := hptr (hd h p) in
      if (p <? bp) && (bp <? n) then Some p
      else if (n <=? p) && ((p <? bp) || (bp <? n)) then Some p
      else find_place fuel' bp n h
  end.

(** Link [b] to the block [n] after it, or merge the two if they touch: the two conditionals of
    [free], for [bp] and what follows it and for [p] and [bp]. *)
Definition glue (b n : Z) (h : heap) : heap :=
  if hadd b (hsize (hd h b)) =? n then
    set_hd b (fun x => x <| hsize := u32 (hsize x + hsize (hd h n)) |> <| hptr := hptr (hd h n) |>) h
  else set_hd b (fun x => x <| hptr := n |>) h.

Definition free (fuel : nat) (ap : Z) (h : heap) : option heap :=
  let bp := hadd ap (-1) in
  p ← find_place fuel bp (freep h) h ;
  let h := glue bp (hptr (hd h p)) h in
  let h := glue p bp h in
  Some (h <| freep := p |>).

(** ** malloc *)

(** [morecore] returns 0 or [freep]. *)
Definition morecore (fuel : nat) (nu : Z) (h : heap) : option (Z * heap) :=
  let nu := if nu <? 4096 then 4096 else nu in
  match sbrk (brk h) (s32 (u32 (nu * HSIZE))) with
  | None => Some (0, h)
  | Some b =>
      let hp := brk h in
      let h := set_hd hp (fun x => x <| hsize := nu |>) (h <| brk := b |>) in
      h' ← free fuel (hadd hp 1) h ;
      Some (freep h', h')
  end.

(** The block at [p] after [prevp] is large enough. *)
Definition take_block (nunits prevp p : Z) (h : heap) : Z * heap :=
  let s := hsize (hd h p) in
  if s =? nunits then
    (hadd p 1, set_hd prevp (fun x => x <| hptr := hptr (hd h p) |>) h <| freep := prevp |>)
  else
    let h := set_hd p (fun x => x <| hsize := u32 (s - nunits) |>) h in
    let q := hadd p (hsize (hd h p)) in
    (hadd q 1, set_hd q (fun x => x <| hsize := nunits |>) h <| freep := prevp |>).

Fixpoint malloc_loop (fuel : nat) (nunits prevp : Z) (h : heap) : option (Z * heap) :=
  match fuel with
  | O => None
  | S fuel' =>
      let p := hptr (hd h prevp) in
      if nunits <=? hsize (hd h p) then Some (take_block nunits prevp p h)
      else if p =? freep h then
        r ← morecore fuel' nunits h ;
        let '(p, h) := r in
        if p =? 0 then Some (0, h) else malloc_loop fuel' nunits p h
      else malloc_loop fuel' nunits p h
  end.

Definition units (nbytes : Z) : Z := u32 (nbytes + HSIZE - 1) / HSIZE + 1.

Definition malloc (fuel : nat) (nbytes : Z) (h : heap) : option (Z * heap) :=
  let nunits := units nbytes in
  let h :=
    if freep h =? 0 then set_hd base (fun x => x <| hptr := base |> <| hsize := 0 |>) (h <| freep := base |>)
    else h in
  malloc_loop fuel nunits (freep h) h.
End umalloc.

(** ** The ring *)

Abbreviation block := (Z * Z)%type.
Definition bend (b : block) : Z := b.1 + HSIZE * b.2.

(** The blocks [l] are linked in order, the last one to [e]. *)
Fixpoint links (m : Z -> header) (l : list block) (e : Z) : Prop :=
  match l with
  | [] => True
  | b :: l' => m b.1 = mkHeader (match l' with b' :: _ => b'.1 | [] => e end) b.2 /\ links m l' e
  end.

(** Blocks in ascending order with a gap before each. *)
Fixpoint laid (lo : Z) (l : list block) : Prop :=
  match l with
  | [] => True
  | b :: l' => lo < b.1 /\ 0 < b.2 /\ laid (bend b) l'
  end.

Definition first (l : list block) (e : Z) : Z := match l with b :: _ => b.1 | [] => e end.

Lemma links_cons m b l e : links m (b :: l) e <-> m b.1 = mkHeader (first l e) b.2 /\ links m l e.
Proof. done. Qed.

Lemma links_app m l1 l2 e : links m (l1 ++ l2) e <-> links m l1 (first l2 e) /\ links m l2 e.
Proof.
  induction l1 as [|b l1 IH]; [simpl; tauto|]. cbn [app]. rewrite !links_cons, IH. destruct l1; simpl; tauto.
Qed.

Lemma links_ext m m' l e : (forall b, b ∈ l -> m' b.1 = m b.1) -> links m l e -> links m' l e.
Proof.
  intros H. induction l as [|b l IH]; [done|]. rewrite !links_cons. intros [E Hl]. rewrite H by left. split; [done|].
  apply IH; [|done]. intros b' Hb'. apply H. by right.
Qed.

Lemma links_end m l b e e' : links m (l ++ [b]) e -> (forall x, x ∈ l -> x.1 <> b.1) ->
  links (fun x => if x =? b.1 then mkHeader e' b.2 else m x) (l ++ [b]) e'.
Proof.
  rewrite !links_app, !links_cons. intros [H1 [H2 _]] Hne. simpl in *. rewrite Z.eqb_refl. split_and!; try done.
  eapply links_ext; [|done]. intros x Hx. simpl. by rewrite (proj2 (Z.eqb_neq _ _)) by (by apply Hne).
Qed.

Lemma laid_app lo l1 l2 : laid lo (l1 ++ l2) <-> laid lo l1 /\ laid (default lo (bend <$> last l1)) l2.
Proof.
  induction l1 as [|b l1 IH] in lo |- *; [simpl; tauto|]. cbn [app laid]. rewrite IH. rewrite last_cons.
  destruct (last l1); simpl; tauto.
Qed.

Lemma laid_lt lo l b : laid lo l -> b ∈ l -> lo < b.1 /\ 0 < b.2.
Proof.
  induction l as [|c l IH] in lo |- *; [by intros _ ?%elem_of_nil|]. intros (H1 & H2 & Hl) [->|Hb]%elem_of_cons; [done|].
  destruct (IH _ Hl Hb). unfold bend, HSIZE in *. lia.
Qed.

Lemma laid_weaken lo lo' l : lo' <= lo -> laid lo l -> laid lo' l.
Proof. destruct l; [done|]. simpl. intros ? (? & ? & ?). split_and!; try done. lia. Qed.

(** The addresses that blocks cover. *)
Definition covers (l : list block) (x : Z) : Prop := exists b, b ∈ l /\ b.1 <= x < bend b.

Lemma covers_app l1 l2 x : covers (l1 ++ l2) x <-> covers l1 x \/ covers l2 x.
Proof. unfold covers. setoid_rewrite elem_of_app. naive_solver. Qed.

Lemma covers_cons b l x : covers (b :: l) x <-> b.1 <= x < bend b \/ covers l x.
Proof. unfold covers. setoid_rewrite elem_of_cons. naive_solver. Qed.

Definition apart (b c : block) : Prop := bend b <= c.1 \/ bend c <= b.1.

Section ring.
Context {P : Process} {PL : ProcessLaws P}.

(** The free blocks after [base] are [G], and [A] are the blocks in use. *)
Record heap_ok (h : heap) (G A : list block) : Prop := {
  hp_ring : links (hd h) ((base, 0) :: G) base;
  hp_laid : laid base G;
  hp_freep : freep h = base \/ exists s, (freep h, s) ∈ G;
  hp_brk : base + HSIZE <= brk h <= KERNBASE;
  hp_top b : b ∈ G ++ A -> bend b <= brk h;
  hp_low b : b ∈ G ++ A -> base + HSIZE <= b.1;
  hp_used b : b ∈ A -> 0 < b.2 /\ hsize (hd h b.1) = b.2;
  hp_apart b c : b ∈ A -> c ∈ G -> apart b c;
  hp_pairs i j b c : A !! i = Some b -> A !! j = Some c -> i <> j -> apart b c;
}.

(** The ring by position. *)
Definition addr (R : list block) (i : nat) : Z := (R !!! i).1.
Definition nxt (n i : nat) : nat := if decide (S i = n) then 0%nat else S i.

Lemma links_lookup m l e i b : links m l e -> l !! i = Some b ->
  m b.1 = mkHeader (match l !! S i with Some c => c.1 | None => e end) b.2.
Proof.
  induction l as [|c l IH] in i |- *; [done|]. rewrite links_cons. intros [E Hl]. destruct i as [|i]; simpl.
  - intros [= <-]. rewrite E. by destruct l.
  - by apply IH.
Qed.

Lemma ring_at m b0 G i : links m (b0 :: G) b0.1 -> (i < length (b0 :: G))%nat ->
  m (addr (b0 :: G) i) = mkHeader (addr (b0 :: G) (nxt (length (b0 :: G)) i)) ((b0 :: G) !!! i).2.
Proof.
  intros Hl Hi. destruct (lookup_lt_is_Some_2 _ _ Hi) as [b Hb]. unfold addr. rewrite (list_lookup_total_correct _ _ _ Hb).
  rewrite (links_lookup _ _ _ _ _ Hl Hb). f_equal. unfold nxt. case_decide as E.
  - destruct (_ !! S i) as [c|] eqn:Ec; [apply lookup_lt_Some in Ec; lia|done].
  - destruct (_ !! S i) as [c|] eqn:Ec; [by rewrite (list_lookup_total_correct _ _ _ Ec)|apply lookup_ge_None_1 in Ec; lia].
Qed.

Lemma laid_lookup lo l i j b c : laid lo l -> l !! i = Some b -> l !! j = Some c -> (i < j)%nat -> bend b < c.1.
Proof.
  induction l as [|d l IH] in lo, i, j |- *; [done|]. intros (H1 & H2 & Hl) Hi Hj Hij. destruct j as [|j]; [lia|]. simpl in Hj.
  destruct i as [|i]; simpl in Hi.
  - injection Hi as ->. apply list_elem_of_lookup_2 in Hj. by apply (laid_lt _ _ _ Hl).
  - apply (IH _ i j Hl Hi Hj). lia.
Qed.

Lemma addr_mono G i j : laid base G -> (i < j < length ((base, 0%Z) :: G))%nat -> addr ((base, 0) :: G) i < addr ((base, 0) :: G) j.
Proof.
  intros Hl Hij. destruct j as [|j]; [lia|]. destruct (lookup_lt_is_Some_2 G j) as [c Hc]; [simpl in Hij; lia|].
  unfold addr. rewrite (list_lookup_total_correct ((base, 0) :: G) (S j) c) by done.
  pose proof (laid_lt _ _ c Hl ltac:(by eapply list_elem_of_lookup_2)) as [Hb _]. destruct i as [|i]; [done|].
  destruct (lookup_lt_is_Some_2 G i) as [b Hb']; [simpl in Hij; lia|].
  rewrite (list_lookup_total_correct ((base, 0) :: G) (S i) b) by done.
  pose proof (laid_lookup _ _ i j b c Hl Hb' Hc ltac:(lia)).
  pose proof (laid_lt _ _ b Hl ltac:(by eapply list_elem_of_lookup_2)) as [_ ?]. unfold bend, HSIZE in *. lia.
Qed.

(** The search for the place of [bp] ends at the last block before it. *)
Lemma find_place_spec h G t bp : links (hd h) ((base, 0) :: G) base -> laid base G -> base < bp ->
  let R := (base, 0) :: G in (t < length R)%nat -> addr R t < bp -> ((S t < length R)%nat -> bp < addr R (S t)) ->
  forall fuel i, (i < length R)%nat -> ((if decide (i <= t)%nat then t - i else length R - i + t) < fuel)%nat ->
  find_place fuel bp (addr R i) h = Some (addr R t).
Proof.
  intros Hr Hl Hb R Ht Hlo Hhi. induction fuel as [|fuel IH]; intros i Hi Hf; [lia|]. cbn [find_place].
  pose proof (ring_at _ (base, 0) G i Hr Hi) as Er. fold R in Er. rewrite Er. cbn [hptr].
  pose proof (fun a b => addr_mono G a b Hl) as Hm. fold R in Hm. change (addr R 0) with base in *.
  assert (addr R 0 = base) as H0 by done.
  assert ((i < t)%nat -> addr R i < addr R t) as M1 by (intros; apply Hm; lia).
  assert ((i < t)%nat -> addr R (S i) <= addr R t) as M2.
  { intros. destruct (decide (S i = t)) as [->|]; [lia|]. apply Z.lt_le_incl, Hm. lia. }
  assert ((t < i)%nat -> bp < addr R i) as M3.
  { intros. destruct (decide (i = S t)) as [->|]; [apply Hhi; lia|]. pose proof (Hm (S t) i ltac:(lia)). specialize (Hhi ltac:(lia)). lia. }
  assert ((S i < length R)%nat -> addr R i < addr R (S i)) as M4 by (intros; apply Hm; lia).
  assert (base <= addr R i) as M5. { destruct i as [|i']; [lia|]. rewrite <- H0. apply Z.lt_le_incl, Hm. lia. }
  destruct (decide (i = t)) as [->|Hne].
  - unfold nxt. destruct (decide (S t = length R)) as [E|E]; [|specialize (Hhi ltac:(lia))]; rewrite ?H0; zcases; done.
  - unfold nxt. destruct (decide (S i = length R)) as [E|E]; rewrite ?H0.
    + assert (t < i)%nat by lia. specialize (M3 ltac:(lia)). zcases; try done.
      rewrite <- H0. apply IH; [lia|]. rewrite decide_False in Hf by lia. rewrite decide_True by lia. lia.
    + specialize (M4 ltac:(lia)). destruct (decide (i <= t)%nat).
      * specialize (M2 ltac:(lia)). zcases; try done. apply IH; [lia|]. rewrite decide_True by lia. lia.
      * specialize (M3 ltac:(lia)). zcases; try done. apply IH; [lia|]. rewrite decide_False by lia. lia.
Qed.

(** ** Inserting a block *)

Definition merge (b : block) (l : list block) : list block :=
  match l with
  | c :: l' => if bend b =? c.1 then (b.1, b.2 + c.2) :: l' else b :: l
  | [] => [b]
  end.

Lemma first_merge b l e : first (merge b l) e = b.1.
Proof. unfold merge. destruct l as [|c l]; [done|]. by destruct (_ =? _). Qed.

Lemma hadd_end b : 0 <= b.1 -> 0 <= b.2 -> bend b <= KERNBASE -> hadd b.1 b.2 = bend b.
Proof. intros. unfold hadd, bend, HSIZE in *. apply u32_small. unfold KERNBASE in *. lia. Qed.

Lemma set_hd_at a f h x : hd (set_hd a f h) x = if x =? a then f (hd h x) else hd h x.
Proof. done. Qed.

Lemma glue_other b n h x : x <> b -> hd (glue b n h) x = hd h x.
Proof. intros Hx. unfold glue. destruct (_ =? n); rewrite set_hd_at; by rewrite (proj2 (Z.eqb_neq x b)). Qed.

(** Blocks within the process's memory. *)
Definition inside (b : block) : Prop := 0 <= b.1 /\ 0 <= b.2 /\ bend b <= KERNBASE.

Lemma glue_links h b l e : links (hd h) l e -> hsize (hd h b.1) = b.2 -> (forall c, c ∈ l -> c.1 <> b.1) ->
  inside b -> (forall c, c ∈ l -> inside c) -> (l = [] -> bend b <> e) ->
  links (hd (glue b.1 (first l e) h)) (merge b l) e.
Proof.
  intros Hl Hs Hne Hb Hin He. pose proof (hadd_end b ltac:(apply Hb) ltac:(apply Hb) ltac:(apply Hb)) as Eb.
  assert (forall f, links (hd (set_hd b.1 f h)) l e) as Hl'.
  { intros f. eapply links_ext; [|exact Hl]. intros c Hc. rewrite set_hd_at. by rewrite (proj2 (Z.eqb_neq _ _)) by (by apply Hne). }
  assert (links (hd (set_hd b.1 (fun x => x <| hptr := first l e |>) h)) (b :: l) e) as Hcons.
  { rewrite links_cons. split; [|by apply Hl']. rewrite set_hd_at, Z.eqb_refl. destruct (hd h b.1). simpl in *. by subst. }
  unfold glue, merge. rewrite Hs, Eb. destruct l as [|c l].
  - cbn [first]. by rewrite (proj2 (Z.eqb_neq _ _)) by (by apply He).
  - cbn [first]. destruct (Z.eqb_spec (bend b) c.1) as [E|E]; [|done]. rewrite links_cons in Hl. destruct Hl as [Ec Hl].
    rewrite links_cons. cbn [fst snd]. split.
    + rewrite set_hd_at, Z.eqb_refl, Ec. destruct (hd h b.1) as [pb sb]. simpl in *. subst sb. unfold upd, upd_hptr, upd_hsize. simpl. f_equal.
      apply u32_small. destruct (Hin c ltac:(left)) as (? & ? & ?). destruct Hb as (? & ? & ?). unfold bend, HSIZE, KERNBASE in *. lia.
    + eapply links_ext; [|exact Hl]. intros d Hd. rewrite set_hd_at. by rewrite (proj2 (Z.eqb_neq _ _)) by (apply Hne; by right).
Qed.

Lemma covers_merge b l x : 0 <= b.2 -> (forall c, c ∈ l -> 0 <= c.2) -> covers (merge b l) x <-> b.1 <= x < bend b \/ covers l x.
Proof.
  intros Hb Hl. unfold merge. destruct l as [|c l]; [by rewrite covers_cons|]. destruct (Z.eqb_spec (bend b) c.1) as [E|E]; [|by rewrite covers_cons].
  rewrite !covers_cons. specialize (Hl c ltac:(left)). unfold bend, HSIZE in *. cbn [fst snd]. split; intros [?|?]; auto; try lia.
  destruct H as [?|?]; auto. lia.
Qed.

Lemma laid_merge lo lo' b l : lo < b.1 -> 0 < b.2 -> (forall c, c ∈ l -> bend b <= c.1) -> laid lo' l -> laid lo (merge b l).
Proof.
  intros H1 H2 Hl Hlaid. unfold merge. destruct l as [|c l]; [done|]. destruct Hlaid as (Hc1 & Hc2 & Hlaid).
  specialize (Hl c ltac:(left)). destruct (Z.eqb_spec (bend b) c.1) as [E|E]; simpl.
  - split_and!; [done|lia|]. replace (bend (b.1, b.2 + c.2)) with (bend c); [done|]. unfold bend, HSIZE in *. simpl. lia.
  - split_and!; try done. lia.
Qed.

Lemma elem_of_merge b l c : c ∈ merge b l -> c.1 = b.1 \/ c ∈ l.
Proof.
  unfold merge. destruct l as [|d l]; [intros ->%list_elem_of_singleton; by left|]. destruct (_ =? _).
  - intros [->|Hc]%elem_of_cons; [by left|right; by right].
  - intros [->|Hc]%elem_of_cons; auto.
Qed.

Lemma merge_ends b l c : c ∈ merge b l -> (exists d, d ∈ b :: l /\ c.1 = d.1) /\ (exists d, d ∈ b :: l /\ bend c = bend d).
Proof.
  assert (forall d, d ∈ b :: l -> (exists x, x ∈ b :: l /\ d.1 = x.1) /\ (exists x, x ∈ b :: l /\ bend d = bend x)) as H by (intros d Hd; split; eauto).
  unfold merge. destruct l as [|d l]; [by intros ->%list_elem_of_singleton; apply H; left|].
  destruct (Z.eqb_spec (bend b) d.1) as [E|E]; [|by intros Hc; apply H]. intros [->|Hc]%elem_of_cons; [|apply H; by do 2 right].
  split; [exists b; split; [by left|done]|]. exists d. split; [right; by left|]. unfold bend, HSIZE in *. simpl. lia.
Qed.

Lemma merge_inside b l c : inside b -> (forall d, d ∈ l -> inside d) -> c ∈ merge b l -> inside c.
Proof.
  intros Hb Hl Hc. assert (0 <= c.2) as H2.
  { revert Hc. unfold merge. destruct l as [|d l]; [intros ->%list_elem_of_singleton; apply Hb|].
    destruct (_ =? _); intros [->|Hc]%elem_of_cons; try apply Hb; try (apply Hl; by right); [|by apply Hl].
    destruct Hb as (_ & ? & _), (Hl d ltac:(left)) as (_ & ? & _). simpl. lia. }
  assert (forall d, d ∈ b :: l -> inside d) as Hin by (intros d [->|Hd]%elem_of_cons; auto).
  destruct (merge_ends b l c Hc) as [(d & Hd & E1) (e & He & E2)]. apply Hin in Hd as (? & _ & _). apply Hin in He as (_ & _ & ?).
  split_and!; [lia|done|lia].
Qed.

(** A block apart from two that touch is apart from their union. *)
Lemma apart_merge b d l : 0 < b.2 -> apart b d -> 0 <= d.2 -> (forall c, c ∈ l -> apart b c /\ 0 <= c.2) ->
  forall c, c ∈ merge d l -> apart b c /\ 0 <= c.2.
Proof.
  intros Hb Hd Hd2 Hl c. unfold merge. destruct l as [|e l]; [by intros ->%list_elem_of_singleton|].
  destruct (Z.eqb_spec (bend d) e.1) as [E|E]; intros [->|Hc]%elem_of_cons; auto.
  - specialize (Hl e ltac:(left)) as [He He2]. unfold apart, bend, HSIZE in *. cbn [fst snd] in *. lia.
  - apply Hl. by right.
Qed.

Lemma laid_split lo G a s : laid lo G -> 0 < s -> (forall c, c ∈ G -> apart (a, s) c) ->
  exists G1 G2, G = G1 ++ G2 /\ (forall c, c ∈ G1 -> bend c <= a) /\ (forall c, c ∈ G2 -> a + HSIZE * s <= c.1).
Proof.
  intros Hl Hs. induction G as [|c G IH] in lo, Hl |- *; intros Ha.
  - exists [], []. split_and!; [done|by intros ? ?%elem_of_nil..].
  - destruct Hl as (H1 & H2 & Hl). destruct (decide (bend c <= a)) as [Hc|Hc].
    + destruct (IH _ Hl) as (G1 & G2 & -> & HG1 & HG2); [intros d Hd; apply Ha; by right|].
      exists (c :: G1), G2. split_and!; [done| |done]. intros d [->|Hd]%elem_of_cons; auto.
    + exists [], (c :: G). split_and!; [done|by intros ? ?%elem_of_nil|].
      assert (a + HSIZE * s <= c.1) as Hac. { specialize (Ha c ltac:(left)). unfold apart, bend in *. simpl in *. lia. }
      intros d [->|Hd]%elem_of_cons; [done|]. pose proof (laid_lt _ _ _ Hl Hd) as [? _]. unfold bend, HSIZE in *. lia.
Qed.

Lemma freep_index h G A : heap_ok h G A -> exists i, (i < length ((base, 0%Z) :: G))%nat /\ freep h = addr ((base, 0) :: G) i.
Proof.
  intros H. destruct (hp_freep _ _ _ H) as [E|[s Hs]].
  - exists 0%nat. split; [simpl; lia|done].
  - apply list_elem_of_lookup in Hs as [i Hi]. exists (S i). split; [simpl; apply lookup_lt_Some in Hi; lia|].
    unfold addr. by rewrite (list_lookup_total_correct ((base, 0) :: G) (S i) (freep h, s)).
Qed.

(** The last block before [a]. *)
Lemma last_before G1 : exists L p sp, (base, 0) :: G1 = L ++ [(p, sp)] /\ length L = length G1 /\
  ((L = [] /\ G1 = [] /\ p = base /\ sp = 0) \/ exists G1', L = (base, 0) :: G1' /\ G1 = G1' ++ [(p, sp)]).
Proof.
  destruct G1 as [|[p sp] G1' _] using rev_ind.
  - exists [], base, 0. split_and!; auto.
  - exists ((base, 0) :: G1'), p, sp. split_and!; [done|rewrite length_app; simpl; lia|right; eauto].
Qed.

Lemma links_prefix h h' L l l' e : links (hd h) (L ++ l) e -> links (hd h') l' e -> first l' e = first l e ->
  (forall c, c ∈ L -> hd h' c.1 = hd h c.1) -> links (hd h') (L ++ l') e.
Proof.
  rewrite !links_app. intros [H1 H2] Hl' Hf Hs. rewrite Hf. split; [|done]. eapply links_ext; [|exact H1]. intros c Hc. by apply Hs.
Qed.

(** The ring after a block is put in its place. *)
Lemma insert_ring h G1 G2 a s : links (hd h) ((base, 0) :: G1 ++ G2) base -> laid base (G1 ++ G2) -> hsize (hd h a) = s ->
  base < a -> 0 < s -> a + HSIZE * s <= KERNBASE -> (forall c, c ∈ G1 ++ G2 -> bend c <= KERNBASE) ->
  (forall c, c ∈ G1 -> bend c <= a) -> (forall c, c ∈ G2 -> a + HSIZE * s <= c.1) ->
  let p := addr ((base, 0) :: G1 ++ G2) (length G1) in
  let h' := glue p a (glue a (hptr (hd h p)) h) in
  exists G', links (hd h') ((base, 0) :: G') base /\ laid base G' /\ (p = base \/ exists s, (p, s) ∈ G') /\
    (length G' <= S (length (G1 ++ G2)))%nat /\ (forall x, covers G' x <-> covers (G1 ++ G2) x \/ a <= x < a + HSIZE * s) /\
    (forall x, x <> a -> x <> p -> hd h' x = hd h x) /\
    (forall b, 0 < b.2 -> apart b (a, s) -> (forall c, c ∈ G1 ++ G2 -> apart b c) -> forall c, c ∈ G' -> apart b c) /\
    (forall c, c ∈ G' -> (exists d, d ∈ (a, s) :: G1 ++ G2 /\ c.1 = d.1) /\ (exists d, d ∈ (a, s) :: G1 ++ G2 /\ bend c = bend d)).
Proof.
  intros Hr Hl Hs Hba Hs0 Hak HK H1 H2. pose proof base_pos as Hb0.
  destruct (last_before G1) as (L & p & sp & EL & HlenL & Hcase).
  assert ((base, 0) :: G1 ++ G2 = L ++ (p, sp) :: G2) as ER.
  { change ((base, 0) :: G1 ++ G2) with (((base, 0) :: G1) ++ G2). rewrite EL, <- app_assoc. done. }
  rewrite ER in *. assert (addr (L ++ (p, sp) :: G2) (length G1) = p) as ->.
  { unfold addr. rewrite <- HlenL, lookup_total_app_r, Nat.sub_diag by lia. done. }
  cbv zeta. pose proof Hr as Hr0. rewrite links_app, links_cons in Hr0. destruct Hr0 as (HrL & Hp & HrG2). cbn [fst snd] in Hp.
  rewrite Hp. cbn [hptr].
  assert (p < a /\ 0 <= sp /\ p + HSIZE * sp <= a /\ base <= p) as (Hpa & Hsp & Hpe & Hbp).
  { destruct Hcase as [(_ & _ & -> & ->) | (G1' & _ & ->)]; [unfold HSIZE; lia|].
    pose proof (H1 (p, sp) ltac:(apply elem_of_app; right; by left)) as Hbe. unfold bend in Hbe. simpl in Hbe.
    pose proof (laid_lt _ _ (p, sp) Hl ltac:(apply elem_of_app; left; apply elem_of_app; right; by left)) as [? ?].
    cbn [fst snd] in *. unfold HSIZE in *. lia. }
  assert (forall c, c ∈ L -> c.1 < p) as HL.
  { destruct Hcase as [(-> & _) | (G1' & -> & ->)]; [by intros ? ?%elem_of_nil|]. rewrite <- app_assoc in Hl. apply laid_app in Hl as [Hl1 Hl2].
    assert (base < p) by (destruct Hl2 as (Hlt & _); destruct (last G1') as [z|] eqn:Ez; simpl in Hlt; [|done];
      apply last_Some in Ez as [l' ->]; pose proof (laid_lt _ _ z Hl1 ltac:(apply elem_of_app; right; by left)); unfold bend, HSIZE in *; lia).
    intros c [->|Hc]%elem_of_cons; [done|]. pose proof (laid_lt _ _ c Hl1 Hc) as [_ ?]. apply list_elem_of_lookup in Hc as [i Hi].
    pose proof (laid_lookup base (G1' ++ (p, sp) :: G2) i (length G1') c (p, sp) ltac:(by apply laid_app)
      ltac:(by apply lookup_app_l_Some) ltac:(by apply list_lookup_middle) ltac:(by apply lookup_lt_Some in Hi)) as Hlt.
    unfold bend, HSIZE in Hlt. simpl in Hlt. lia. }
  assert (forall c, c ∈ G2 -> inside c /\ 0 < c.2 /\ a < c.1) as HG2.
  { intros c Hc. pose proof (laid_lt _ _ c Hl ltac:(apply elem_of_app; by right)) as [? ?]. pose proof (H2 c Hc).
    pose proof (HK c ltac:(apply elem_of_app; by right)). unfold inside, HSIZE in *. split_and!; lia. }
  set (h1 := glue a (first G2 base) h). set (X := merge (a, s) G2).
  assert (links (hd h1) X base) as HX.
  { apply (glue_links h (a, s) G2 base); try done.
    - intros c Hc. apply HG2 in Hc. simpl. lia.
    - split_and!; simpl; [lia|lia|done].
    - intros c Hc. by apply HG2.
    - intros _. unfold bend, HSIZE. simpl. lia. }
  assert (forall c, c ∈ X -> inside c /\ p < c.1) as HXi.
  { intros c Hc. split; [eapply merge_inside; [|intros d Hd; by apply HG2|exact Hc]; split_and!; simpl; [lia|lia|done]|].
    apply elem_of_merge in Hc as [->|Hc%HG2]; simpl; lia. }
  set (h2 := glue p a h1).
  assert (links (hd h2) (merge (p, sp) X) base) as HY.
  { assert (first X base = a) as Ef by apply first_merge. unfold h2. rewrite <- Ef. apply (glue_links h1 (p, sp) X base); try done.
    - cbn [fst snd]. unfold h1. rewrite glue_other by lia. by rewrite Hp.
    - intros c Hc. apply HXi in Hc. simpl. lia.
    - split_and!; simpl; [lia|done|]. unfold bend. simpl. unfold HSIZE, KERNBASE in *. lia.
    - intros c Hc. by apply HXi.
    - intros E. unfold X in E. exfalso. unfold merge in E. destruct G2; [done|]. by destruct (_ =? _). }
  assert (links (hd h2) (L ++ merge (p, sp) X) base) as Hlinks.
  { eapply (links_prefix h); [exact Hr|exact HY|by rewrite first_merge|]. intros c Hc. apply HL in Hc as Hc'.
    unfold h2, h1. rewrite !glue_other by lia. done. }
  destruct Hcase as [(-> & -> & -> & ->) | (G1' & -> & ->)].
  - exists X. assert (merge (base, 0) X = (base, 0) :: X) as EX.
    { unfold merge at 1. destruct X as [|c X'] eqn:E; [done|]. rewrite (proj2 (Z.eqb_neq _ _)); [done|].
      pose proof (HXi c ltac:(left)) as [_ ?]. unfold bend, HSIZE. simpl. lia. }
    rewrite EX in Hlinks. cbn [app] in *. split; [exact Hlinks|]. split_and!.
    + eapply laid_merge; [done|done|exact H2|exact Hl].
    + by left.
    + unfold X, merge. destruct G2; [simpl; lia|]. destruct (_ =? _); simpl; lia.
    + intros x. unfold X. rewrite covers_merge; [|simpl; lia|intros c Hc; apply HG2 in Hc; lia]. unfold bend. simpl. tauto.
    + intros x Hx1 Hx2. unfold h2, h1. by rewrite !glue_other.
    + intros b Hb Hab Hac c Hc. eapply (apart_merge b (a, s) G2); try done; [simpl; lia|]. intros d Hd. split; [by apply Hac|].
      apply HG2 in Hd. lia.
    + apply merge_ends.
  - exists (G1' ++ merge (p, sp) X). rewrite <- app_assoc in *. cbn [app] in *. apply laid_app in Hl as [Hl1 (Hp1 & Hp2 & Hl2)]. cbn [fst snd] in *.
    assert (length X <= S (length G2))%nat by (unfold X, merge; destruct G2; [simpl; lia|]; destruct (_ =? _); simpl; lia).
    split; [exact Hlinks|]. split_and!.
    + apply laid_app. split; [done|]. eapply (laid_merge _ base); [done|done| |].
      * intros c Hc. unfold bend. simpl. apply elem_of_merge in Hc as [->|Hc%H2]; simpl; unfold HSIZE in *; lia.
      * eapply laid_merge; [done|done|exact H2|exact Hl2].
    + right. unfold merge. destruct X as [|c X']; [exists sp; apply elem_of_app; right; by left|].
      destruct (_ =? _); eexists; apply elem_of_app; right; by left.
    + rewrite !length_app. simpl. unfold merge at 1. destruct X; simpl in *; [lia|]. destruct (_ =? _); simpl in *; lia.
    + intros x. rewrite !covers_app, covers_merge; [|simpl; lia|intros c Hc; apply HXi in Hc as [(? & ? & ?) _]; lia].
      unfold X. rewrite covers_merge; [|simpl; lia|intros c Hc; apply HG2 in Hc; lia]. rewrite covers_cons. unfold bend at 2. simpl. tauto.
    + intros x Hx1 Hx2. unfold h2, h1. by rewrite !glue_other.
    + intros b Hb Hab Hac c [Hc|Hc]%elem_of_app; [apply Hac, elem_of_app; by left|].
      eapply (apart_merge b (p, sp) X); try done; [apply Hac, elem_of_app; right; by left|].
      apply apart_merge; [done|done|simpl; lia|]. intros d Hd. split; [apply Hac, elem_of_app; right; by right|]. apply HG2 in Hd. lia.
    + intros c [Hc|Hc]%elem_of_app.
      * split; exists c; (split; [right; apply elem_of_app; by left|done]).
      * assert (forall d, d ∈ (p, sp) :: (a, s) :: G2 -> d ∈ (a, s) :: G1' ++ (p, sp) :: G2) as Hsub by (intros d; rewrite !elem_of_cons, elem_of_app, elem_of_cons; tauto).
        destruct (merge_ends _ _ _ Hc) as [(d & Hd & ->) (e & He & ->)]. 
        assert (forall d, d ∈ (p, sp) :: X -> (exists x, x ∈ (a, s) :: G1' ++ (p, sp) :: G2 /\ d.1 = x.1) /\
          exists x, x ∈ (a, s) :: G1' ++ (p, sp) :: G2 /\ bend d = bend x) as Hx.
        { intros z [->|Hz]%elem_of_cons; [split; exists (p, sp); (split; [apply Hsub; by left|done])|].
          destruct (merge_ends _ _ _ Hz) as [(u & Hu & ->) (v & Hv & ->)]. split; [exists u|exists v]; (split; [apply Hsub; by right|done]). }
        split; [by apply (Hx d)|by apply (Hx e)].
Qed.

Lemma addr_in G i : (i < length ((base, 0%Z) :: G))%nat ->
  (i = 0%nat /\ addr ((base, 0) :: G) i = base) \/ exists c, c ∈ G /\ addr ((base, 0) :: G) i = c.1 /\ G !! pred i = Some c.
Proof.
  intros Hi. destruct i as [|i]; [by left|]. right. destruct (lookup_lt_is_Some_2 G i) as [c Hc]; [simpl in Hi; lia|].
  exists c. split_and!; [by eapply list_elem_of_lookup_2| |done]. unfold addr.
  by rewrite (list_lookup_total_correct ((base, 0) :: G) (S i) c).
Qed.

Lemma glue_brk b n h : brk (glue b n h) = brk h.
Proof. unfold glue. by destruct (_ =? n). Qed.

Lemma apart_ne b c : 0 < b.2 -> 0 < c.2 -> apart b c -> b.1 <> c.1.
Proof. unfold apart, bend, HSIZE. lia. Qed.

Lemma used_in h G A b : heap_ok h G A -> b ∈ A -> base < b.1 /\ 0 < b.2.
Proof.
  intros H Hb. pose proof (hp_low _ _ _ H b ltac:(apply elem_of_app; by right)). destruct (hp_used _ _ _ H b Hb). unfold HSIZE in *. lia.
Qed.

Lemma free_spec fuel h G a s A : heap_ok h G ((a, s) :: A) -> (length G < fuel)%nat ->
  exists h' G', free fuel (a + HSIZE) h = Some h' /\ heap_ok h' G' A /\ brk h' = brk h /\ (length G' <= S (length G))%nat /\
    (forall x, covers G' x <-> covers G x \/ a <= x < a + HSIZE * s) /\ (forall x, covers A x -> hd h' x = hd h x).
Proof.
  intros H Hf. destruct (used_in _ _ _ (a, s) H ltac:(left)) as [Hba Hs]. cbn [fst snd] in *.
  destruct (hp_used _ _ _ H (a, s) ltac:(left)) as [_ Hsz]. cbn [fst snd] in Hsz.
  destruct (hp_brk _ _ _ H) as [Hbrk1 Hbrk2]. pose proof base_pos as Hb0.
  pose proof (hp_top _ _ _ H (a, s) ltac:(apply elem_of_app; right; left)) as Htop. unfold bend in Htop. cbn [fst snd] in Htop.
  destruct (laid_split base G a s (hp_laid _ _ _ H) Hs) as (G1 & G2 & -> & H1 & H2);
    [intros c Hc; by apply (hp_apart _ _ _ H); [left|]|].
  destruct (insert_ring h G1 G2 a s) as (G' & Hlk & Hld & Hfp & Hlen & Hcov & Hoth & Hap & Hends); try done;
    [apply H|apply H|lia|intros c Hc; pose proof (hp_top _ _ _ H c ltac:(apply elem_of_app; by left)); lia|].
  set (R := (base, 0) :: G1 ++ G2) in *. set (p := addr R (length G1)) in *.
  assert (find_place fuel a (freep h) h = Some p) as Hfind.
  { destruct (freep_index _ _ _ H) as (i & Hi & ->).
    apply (find_place_spec h (G1 ++ G2) (length G1) a); try done; try apply H.
    - simpl. rewrite length_app. lia.
    - destruct (addr_in (G1 ++ G2) (length G1)) as [[_ E]|(c & Hc & E & Hlk')]; [simpl; rewrite length_app; lia| |]; rewrite E; [done|].
      pose proof (laid_lt _ _ c (hp_laid _ _ _ H) Hc) as [_ ?]. destruct (length G1) as [|n] eqn:En.
      { unfold addr in E. simpl in E. by rewrite <- E. }
      simpl in Hlk'. rewrite lookup_app_l in Hlk' by lia. pose proof (H1 c ltac:(by eapply list_elem_of_lookup_2)). unfold bend, HSIZE in *. lia.
    - intros Hlt. destruct (addr_in (G1 ++ G2) (S (length G1))) as [[E _]|(c & Hc & E & Hlk')]; [done..|]. rewrite E.
      simpl in Hlk'. rewrite lookup_app_r in Hlk' by lia. pose proof (H2 c ltac:(by eapply list_elem_of_lookup_2)). unfold HSIZE in *. lia.
    - fold R. unfold R in *. simpl in *. rewrite length_app in *. case_decide; lia. }
  unfold free. replace (hadd (a + HSIZE) (-1)) with a by (unfold hadd, HSIZE; rewrite u32_small; unfold KERNBASE, HSIZE in *; lia).
  rewrite Hfind. cbn [mbind option_bind]. set (h' := glue p a (glue a (hptr (hd h p)) h)) in *.
  assert (brk h' = brk h) as Hbrk by (unfold h'; by rewrite !glue_brk).
  assert (forall x, covers A x -> x <> a /\ x <> p) as Hfar.
  { intros x (b & Hb & Hx). pose proof (used_in _ _ _ b H ltac:(by right)) as [? ?]. split.
    - apply list_elem_of_lookup in Hb as [i Hi]. pose proof (hp_pairs _ _ _ H (S i) 0%nat b (a, s) Hi eq_refl ltac:(done)) as Hab.
      unfold apart, bend, HSIZE in *. simpl in *. lia.
    - destruct (addr_in (G1 ++ G2) (length G1)) as [[_ E]|(c & Hc & E & _)]; [simpl; rewrite length_app; lia| |]; fold R p in E; rewrite E; [lia|].
      pose proof (hp_apart _ _ _ H b c ltac:(by right) Hc) as Hab. pose proof (laid_lt _ _ c (hp_laid _ _ _ H) Hc) as [_ ?].
      unfold apart, bend, HSIZE in *. lia. }
  assert (forall b, b ∈ A -> covers A b.1) as Hcv.
  { intros b Hb. exists b. split; [done|]. pose proof (used_in _ _ _ b H ltac:(by right)) as [? ?]. unfold bend, HSIZE. lia. }
  exists (h' <| freep := p |>), G'. split; [done|]. split_and!; try done.
  - destruct H as [P1 P2 P3 P4 P5 P6 P7 P8 P9].
    assert (forall b, b ∈ (a, s) :: G1 ++ G2 -> b ∈ (G1 ++ G2) ++ (a, s) :: A) as Hsub by (intros b; rewrite elem_of_app, !elem_of_cons; tauto).
    split; cbn [hd freep brk upd upd_freep]; try done; rewrite ?Hbrk.
    + done.
    + intros b [Hb|Hb]%elem_of_app; [|apply P5, elem_of_app; right; by right].
      destruct (Hends b Hb) as [_ (d & Hd & ->)]. by apply P5, Hsub.
    + intros b [Hb|Hb]%elem_of_app; [|apply P6, elem_of_app; right; by right].
      destruct (Hends b Hb) as [(d & Hd & ->) _]. by apply P6, Hsub.
    + intros b Hb. destruct (P7 b ltac:(by right)) as [? E]. split; [done|].
      rewrite Hoth; [done|by apply Hfar, Hcv|by apply Hfar, Hcv].
    + intros b c Hb Hc. eapply (Hap b); [by apply P7; right| |intros d Hd; by apply P8; [right|]|done].
      apply list_elem_of_lookup in Hb as [i Hi]. by apply (P9 (S i) 0%nat).
    + intros i j b c Hi Hj Hij. apply (P9 (S i) (S j)); [done|done|lia].
  - intros x Hx. apply Hoth; by apply Hfar.
Qed.

(** ** Searching the ring *)

(** The steps from position [i] to position [j], at least one. *)
Definition dist (n i j : nat) : nat := if decide (i < j)%nat then (j - i)%nat else (n - i + j)%nat.

Lemma dist_next n i j : (i < n)%nat -> (j < n)%nat -> nxt n i <> j -> dist n i j = S (dist n (nxt n i) j).
Proof. intros Hi Hj. unfold dist, nxt. repeat case_decide; lia. Qed.

Lemma dist_one n i j : (i < n)%nat -> (j < n)%nat -> nxt n i = j -> dist n i j = 1%nat.
Proof. intros Hi Hj. unfold dist, nxt. repeat case_decide; lia. Qed.

Lemma nxt_lt n i : (i < n)%nat -> (nxt n i < n)%nat.
Proof. unfold nxt. case_decide; lia. Qed.

Lemma addr_inj G i j : laid base G -> (i < length ((base, 0%Z) :: G))%nat -> (j < length ((base, 0%Z) :: G))%nat ->
  addr ((base, 0) :: G) i = addr ((base, 0) :: G) j -> i = j.
Proof.
  intros Hl Hi Hj E. destruct (lt_eq_lt_dec i j) as [[Hlt|]|Hlt]; [|done|].
  - pose proof (addr_mono G i j Hl ltac:(lia)). lia.
  - pose proof (addr_mono G j i Hl ltac:(lia)). lia.
Qed.

(** The loop of [malloc] takes the first block that is large enough, or gets back to [freep] and
    asks for more. *)
Lemma malloc_scan h G A nunits f : heap_ok h G A -> let R := (base, 0) :: G in let n := length R in
  (f < n)%nat -> freep h = addr R f -> forall fuel i, (i < n)%nat -> (dist n i f <= fuel)%nat ->
  (exists j, (j < n)%nat /\ nunits <= (R !!! nxt n j).2 /\
     malloc_loop fuel nunits (addr R i) h = Some (take_block nunits (addr R j) (addr R (nxt n j)) h)) \/
  ((forall j, (j < n)%nat -> (dist n i j <= dist n i f)%nat -> (R !!! j).2 < nunits) /\
   malloc_loop fuel nunits (addr R i) h =
     (r ← morecore (fuel - dist n i f) nunits h ;
      let '(p, h) := r in if p =? 0 then Some (0, h) else malloc_loop (fuel - dist n i f) nunits p h)).
Proof.
  intros H R n Hf Ef. induction fuel as [|fuel IH]; intros i Hi Hd.
  { unfold dist in Hd. case_decide; lia. }
  cbn [malloc_loop]. pose proof (hp_ring _ _ _ H) as Hr. pose proof (hp_laid _ _ _ H) as Hl. pose proof (nxt_lt n i Hi) as Hn.
  pose proof (ring_at _ (base, 0) G i Hr Hi) as Er. pose proof (ring_at _ (base, 0) G (nxt n i) Hr Hn) as En. fold R n in Er, En.
  rewrite Er. cbn [hptr]. rewrite En. cbn [hsize]. destruct (Z.leb_spec nunits (R !!! nxt n i).2) as [Hfit|Hfit].
  { left. exists i. by split_and!. }
  destruct (decide (nxt n i = f)) as [E|E].
  - rewrite E, Ef, Z.eqb_refl. right. rewrite (dist_one n i f Hi Hf E) in *. replace (S fuel - 1)%nat with fuel by lia. split; [|done].
    intros j Hj Hjd. destruct (decide (nxt n i = j)) as [<-|Hne]; [done|]. rewrite (dist_next n i j Hi Hj Hne) in Hjd.
    unfold dist in Hjd. repeat case_decide; lia.
  - rewrite (proj2 (Z.eqb_neq _ _)) by (rewrite Ef; intros Ea; by apply E, (addr_inj G)).
    pose proof (dist_next n i f Hi Hf E) as Hdn. destruct (IH (nxt n i) Hn ltac:(lia)) as [?|[Hno Heq]]; [by left|]. right.
    rewrite Hdn. replace (S fuel - S (dist n (nxt n i) f))%nat with (fuel - dist n (nxt n i) f)%nat by lia. split; [|done].
    intros j Hj Hjd. destruct (decide (nxt n i = j)) as [<-|Hne]; [done|]. apply Hno; [done|]. rewrite (dist_next n i j Hi Hj Hne) in Hjd. lia.
Qed.

(** ** Taking a block *)

Lemma apart_sym b c : apart b c -> apart c b.
Proof. unfold apart. lia. Qed.

Lemma heap_ok_pairs (A : list block) b : (forall i j c d, A !! i = Some c -> A !! j = Some d -> i <> j -> apart c d) ->
  (forall c, c ∈ A -> apart c b) -> forall i j c d, (b :: A) !! i = Some c -> (b :: A) !! j = Some d -> i <> j -> apart c d.
Proof.
  intros HA Hb [|i] [|j] c d; simpl; intros Hc Hd Hij; [done| | |apply (HA i j c d Hc Hd); lia].
  - injection Hc as <-. apply apart_sym, Hb. by eapply list_elem_of_lookup_2.
  - injection Hd as <-. apply Hb. by eapply list_elem_of_lookup_2.
Qed.

Lemma last_before_lt G1 G2 L p sp : laid base (G1 ++ G2) -> (base, 0) :: G1 = L ++ [(p, sp)] ->
  (forall d, d ∈ L -> d.1 < p) /\ (forall d, d ∈ G2 -> p < d.1) /\ base <= p /\ 0 <= sp.
Proof.
  intros Hl EL. assert ((base, 0) :: G1 ++ G2 = L ++ (p, sp) :: G2) as ER.
  { change ((base, 0) :: G1 ++ G2) with (((base, 0) :: G1) ++ G2). by rewrite EL, <- app_assoc. }
  pose proof (fun i j => addr_mono (G1 ++ G2) i j Hl) as Hm. rewrite ER in Hm.
  assert (forall i d, (L ++ (p, sp) :: G2) !! i = Some d -> addr (L ++ (p, sp) :: G2) i = d.1) as Ha
    by (intros i d Hd; unfold addr; by rewrite (list_lookup_total_correct _ _ _ Hd)).
  pose proof (Ha (length L) (p, sp) ltac:(by apply list_lookup_middle)) as Ep. cbn [fst] in Ep.
  split_and!.
  - intros d [i Hi]%list_elem_of_lookup. pose proof (lookup_lt_Some _ _ _ Hi) as Hlt. pose proof (Hm i (length L) ltac:(rewrite length_app; simpl; lia)) as H.
    by rewrite (Ha i d), Ep in H by (by apply lookup_app_l_Some).
  - intros d [i Hi]%list_elem_of_lookup. pose proof (lookup_lt_Some _ _ _ Hi) as Hlt.
    pose proof (Hm (length L) (length L + S i)%nat ltac:(rewrite length_app; simpl; lia)) as H. rewrite (Ha (length L + S i)%nat d), Ep in H; [done|].
    rewrite lookup_app_r by lia. by replace (length L + S i - length L)%nat with (S i) by lia.
  - destruct L as [|d L]; [simpl in EL; by injection EL as <- <- _|]. injection EL as <- EL.
    pose proof (laid_lt _ _ (p, sp) Hl ltac:(rewrite EL; apply elem_of_app; left; apply elem_of_app; right; by left)). simpl in *. lia.
  - destruct L as [|d L]; [simpl in EL; by injection EL as <- <- _|]. injection EL as <- EL.
    pose proof (laid_lt _ _ (p, sp) Hl ltac:(rewrite EL; apply elem_of_app; left; apply elem_of_app; right; by left)). simpl in *. lia.
Qed.

Lemma laid_apart lo Ga c Gb d : laid lo (Ga ++ c :: Gb) -> d ∈ Ga ++ Gb -> apart c d.
Proof.
  intros Hl [[i Hi]%list_elem_of_lookup|[i Hi]%list_elem_of_lookup]%elem_of_app.
  - right. apply Z.lt_le_incl, (laid_lookup lo (Ga ++ c :: Gb) i (length Ga)); [done|by apply lookup_app_l_Some|by apply list_lookup_middle|].
    by eapply lookup_lt_Some.
  - left. apply Z.lt_le_incl, (laid_lookup lo (Ga ++ c :: Gb) (length Ga) (length Ga + S i)); [done|by apply list_lookup_middle| |lia].
    rewrite lookup_app_r by lia. by replace (length Ga + S i - length Ga)%nat with (S i) by lia.
Qed.

(** What [malloc] does to the heap: a block is carved out of a free one. *)
Definition carved (h h' : heap) (G G' A : list block) (b : block) : Prop :=
  heap_ok h' G' (b :: A) /\ brk h' = brk h /\ (forall x, covers G x <-> covers G' x \/ b.1 <= x < bend b) /\
  (forall x, covers A x -> hd h' x = hd h x).

Lemma take_whole h Ga c Gb A : heap_ok h (Ga ++ c :: Gb) A -> let p := addr ((base, 0) :: Ga ++ c :: Gb) (length Ga) in
  carved h (set_hd p (fun x => x <| hptr := hptr (hd h c.1) |>) h <| freep := p |>) (Ga ++ c :: Gb) (Ga ++ Gb) A c.
Proof.
  intros H. destruct (last_before Ga) as (L & p & sp & EL & HlenL & Hcase).
  assert ((base, 0) :: Ga ++ c :: Gb = L ++ (p, sp) :: c :: Gb) as ER.
  { change ((base, 0) :: Ga ++ c :: Gb) with (((base, 0) :: Ga) ++ c :: Gb). rewrite EL, <- app_assoc. done. }
  rewrite ER. assert (addr (L ++ (p, sp) :: c :: Gb) (length Ga) = p) as ->.
  { unfold addr. rewrite <- HlenL, lookup_total_app_r, Nat.sub_diag by lia. done. }
  cbv zeta. set (h' := _ <| freep := p |>). destruct H as [P1 P2 P3 P4 P5 P6 P7 P8 P9]. pose proof P1 as P1'. rewrite ER in P1'.
  assert (forall x, x <> p -> hd h' x = hd h x) as Hoth by (intros x Hx; unfold h'; cbn [hd upd upd_freep]; rewrite set_hd_at; by rewrite (proj2 (Z.eqb_neq x p))).
  destruct (last_before_lt Ga (c :: Gb) L p sp P2 EL) as (HL & HR & Hbp & _).
  assert (c ∈ Ga ++ c :: Gb) as Hc by (apply elem_of_app; right; left).
  assert (forall d, d ∈ Ga ++ Gb -> d ∈ Ga ++ c :: Gb) as Hsub by (intros d; rewrite !elem_of_app, elem_of_cons; tauto).
  assert (forall b, b ∈ A -> covers A b.1) as Hcv by (intros b Hb; exists b; destruct (P7 b Hb); unfold bend, HSIZE; split; [done|lia]).
  assert (forall x, covers A x -> x <> p) as Hfar.
  { intros x (b & Hb & Hx) ->. pose proof (P6 b ltac:(apply elem_of_app; by right)). destruct Hcase as [(_ & _ & -> & _) | (G1' & _ & ->)].
    - unfold HSIZE in *. lia.
    - assert ((p, sp) ∈ (G1' ++ [(p, sp)]) ++ c :: Gb) as Hin by (apply elem_of_app; left; apply elem_of_app; right; by left).
      pose proof (P8 b (p, sp) Hb Hin) as Hab. pose proof (laid_lt _ _ _ P2 Hin) as [_ ?]. unfold apart, bend, HSIZE in *. simpl in *. lia. }
  rewrite links_app, !links_cons in P1'. destruct P1' as (L1 & L2 & L3 & L4). cbn [fst snd first] in *.
  assert (hsize (hd h c.1) = c.2) as Hcs by (by rewrite L3).
  split_and!; [|done| |intros x Hx; by apply Hoth, Hfar].
  - split; cbn [freep brk]; try done.
    + replace ((base, 0) :: Ga ++ Gb) with (L ++ (p, sp) :: Gb) by (change ((base, 0) :: Ga ++ Gb) with (((base, 0) :: Ga) ++ Gb); by rewrite EL, <- app_assoc).
      rewrite links_app, links_cons. cbn [fst snd first]. split_and!.
      * eapply links_ext; [|exact L1]. intros d Hd. apply HL in Hd. apply Hoth. lia.
      * unfold h'. cbn [hd upd upd_freep]. rewrite set_hd_at, Z.eqb_refl, L2, L3. done.
      * eapply links_ext; [|exact L4]. intros d Hd. apply Hoth. pose proof (HR d ltac:(by right)). lia.
    + apply laid_app in P2 as [P2 (Q1 & Q2 & Q3)]. apply laid_app. split; [done|]. eapply laid_weaken; [|done]. unfold bend, HSIZE in *. lia.
    + destruct Hcase as [(_ & _ & -> & _) | (G1' & _ & ->)]; [by left|right]. exists sp. apply elem_of_app; left. apply elem_of_app; right. by left.
    + intros b [Hb|[->|Hb]%elem_of_cons]%elem_of_app; apply P5, elem_of_app; auto.
    + intros b [Hb|[->|Hb]%elem_of_cons]%elem_of_app; apply P6, elem_of_app; auto.
    + intros b [->|Hb]%elem_of_cons; [|destruct (P7 b Hb); rewrite Hoth by (by apply Hfar, Hcv); done].
      split; [by apply (laid_lt _ _ _ P2 Hc)|]. rewrite Hoth; [done|]. pose proof (HR c ltac:(left)). lia.
    + intros b d [->|Hb]%elem_of_cons Hd; [|by apply P8; auto]. by eapply laid_apart.
    + apply heap_ok_pairs; [exact P9|]. intros b Hb. by apply P8.
  - intros x. rewrite !covers_app, covers_cons. tauto.
Qed.

Lemma take_part h Ga c Gb A nu p : heap_ok h (Ga ++ c :: Gb) A -> 0 < nu < c.2 -> p = base \/ (exists s, (p, s) ∈ Ga) ->
  let q := (c.1 + HSIZE * (c.2 - nu), nu) in
  carved h (set_hd q.1 (fun x => x <| hsize := nu |>) (set_hd c.1 (fun x => x <| hsize := c.2 - nu |>) h) <| freep := p |>)
    (Ga ++ c :: Gb) (Ga ++ (c.1, c.2 - nu) :: Gb) A q.
Proof.
  intros H Hnu Hp q. set (h' := _ <| freep := p |>). destruct H as [P1 P2 P3 P4 P5 P6 P7 P8 P9].
  set (c' := (c.1, c.2 - nu)).
  assert (c ∈ Ga ++ c :: Gb) as Hc by (apply elem_of_app; right; left).
  assert (forall x, x <> c.1 -> x <> q.1 -> hd h' x = hd h x) as Hoth.
  { intros x H1 H2. unfold h'. cbn [hd upd upd_freep]. rewrite !set_hd_at. by rewrite (proj2 (Z.eqb_neq x c.1)), (proj2 (Z.eqb_neq x q.1)). }
  assert (c.1 < q.1 < bend c /\ bend q = bend c /\ bend c' = q.1) as (Hq1 & Hq2 & Hq3) by (unfold q, c', bend, HSIZE; simpl; lia).
  assert (forall b, apart b c -> 0 < b.2 -> apart b q /\ apart b c' /\ forall x, b.1 <= x < bend b -> x <> c.1 /\ x <> q.1) as Hpart.
  { intros b Hb Hb2. unfold apart in *. rewrite Hq2, Hq3. change (c'.1) with c.1. clear -Hb Hb2 Hq1.
    assert (b.1 < bend b) by (unfold bend, HSIZE; lia). split_and!; [lia|lia|intros x Hx; lia]. }
  assert (forall d, d ∈ Ga ++ Gb -> apart d c /\ 0 < d.2) as Hd.
  { intros d Hd. split; [by apply apart_sym, (laid_apart base Ga c Gb)|]. apply (laid_lt _ _ _ P2). revert Hd. rewrite !elem_of_app, elem_of_cons. tauto. }
  assert (forall d, d ∈ Ga ++ Gb -> hd h' d.1 = hd h d.1) as Hring.
  { intros d Hd'. destruct (Hd d Hd') as [Ha Hd2]. destruct (Hpart d Ha Hd2) as (_ & _ & Hx). apply Hoth; apply Hx; unfold bend, HSIZE; lia. }
  pose proof (P6 c ltac:(apply elem_of_app; by left)) as Hlow.
  change ((base, 0) :: Ga ++ c :: Gb) with (((base, 0) :: Ga) ++ c :: Gb) in P1. rewrite links_app, (links_cons _ c) in P1. destruct P1 as (L1 & L2 & L3).
  split_and!; [|done| |].
  - split; try done.
    + change ((base, 0) :: Ga ++ c' :: Gb) with (((base, 0) :: Ga) ++ c' :: Gb). rewrite links_app, (links_cons _ c'). split; [|split].
      * eapply links_ext; [|exact L1]. intros d [->|Hd']%elem_of_cons; [|apply Hring, elem_of_app; by left].
        apply Hoth; simpl; unfold HSIZE in *; lia.
      * unfold h'. cbn [hd upd upd_freep]. rewrite !set_hd_at. change (c'.1) with c.1. rewrite Z.eqb_refl, (proj2 (Z.eqb_neq c.1 q.1)) by lia.
        by rewrite L2.
      * eapply links_ext; [|exact L3]. intros d Hd'. apply Hring, elem_of_app. by right.
    + apply laid_app in P2 as [P2 (Q1 & Q2 & Q3)]. apply laid_app. split; [done|]. split_and!; [done|simpl; lia|].
      eapply laid_weaken; [|exact Q3]. rewrite Hq3. lia.
    + destruct Hp as [->|[s Hs]]; [by left|right; exists s; apply elem_of_app; by left].
    + intros b [[Hb|[->|Hb]%elem_of_cons]%elem_of_app|[->|Hb]%elem_of_cons]%elem_of_app;
        [apply P5; rewrite !elem_of_app; auto| |apply P5; rewrite !elem_of_app, elem_of_cons; auto| |apply P5; rewrite !elem_of_app; auto];
        change (brk h') with (brk h); pose proof (P5 c ltac:(apply elem_of_app; by left)); rewrite ?Hq2, ?Hq3; lia.
    + intros b [[Hb|[->|Hb]%elem_of_cons]%elem_of_app|[->|Hb]%elem_of_cons]%elem_of_app;
        [apply P6; rewrite !elem_of_app; auto| |apply P6; rewrite !elem_of_app, elem_of_cons; auto| |apply P6; rewrite !elem_of_app; auto]; change (c'.1) with c.1; lia.
    + intros b [->|Hb]%elem_of_cons.
      * split; [simpl; lia|]. unfold h'. cbn [hd upd upd_freep]. by rewrite set_hd_at, Z.eqb_refl.
      * destruct (P7 b Hb) as [Hb2 Hbs]. split; [done|]. rewrite Hoth; [done|..];
          (eapply (Hpart b (P8 b c Hb Hc) Hb2); unfold bend, HSIZE; lia).
    + intros b d [->|Hb]%elem_of_cons Hd'.
      * apply elem_of_app in Hd' as [Hd'|[->|Hd']%elem_of_cons];
          [|right; rewrite Hq3; lia|]; apply apart_sym, Hpart; apply Hd, elem_of_app; auto.
      * destruct (P7 b Hb) as [Hb2 _]. apply elem_of_app in Hd' as [Hd'|[->|Hd']%elem_of_cons];
          [apply P8, elem_of_app; auto|by apply Hpart; [apply P8|]|apply P8, elem_of_app; [done|right; by right]].
    + apply heap_ok_pairs; [exact P9|]. intros b Hb. apply Hpart; [by apply P8|by apply P7].
  - intros x. rewrite !covers_app, !covers_cons. rewrite Hq2, Hq3. simpl in *. split; intros Hx; intuition lia.
  - intros x (b & Hb & Hx). destruct (P7 b Hb) as [Hb2 _]. apply Hoth; eapply (Hpart b (P8 b c Hb Hc) Hb2); exact Hx.
Qed.

Lemma take_block_spec h G A nu j : heap_ok h G A -> let R := (base, 0) :: G in let n := length R in
  (j < n)%nat -> 0 < nu <= (R !!! nxt n j).2 ->
  exists a G', fst (take_block nu (addr R j) (addr R (nxt n j)) h) = a + HSIZE /\
    carved h (snd (take_block nu (addr R j) (addr R (nxt n j)) h)) G G' A (a, nu).
Proof.
  intros H R n Hj [Hnu Hfit]. pose proof (nxt_lt n j Hj) as Hn.
  assert (nxt n j = S j) as Ex. { unfold nxt in *. case_decide; [|done]. unfold R in Hfit. simpl in Hfit. lia. }
  rewrite Ex in *. destruct (lookup_lt_is_Some_2 G j) as [c Hc]; [unfold n, R in Hn; simpl in Hn; lia|].
  assert (R !!! S j = c) as Ec by (unfold R; by apply list_lookup_total_correct). unfold addr at 2 4. rewrite Ec in *.
  destruct (list_elem_of_split_length _ _ _ Hc) as (Ga & Gb & -> & Elen).
  assert (hd h c.1 = mkHeader (first Gb base) c.2) as Ehd.
  { pose proof (hp_ring _ _ _ H) as Hr. change ((base, 0) :: Ga ++ c :: Gb) with (((base, 0) :: Ga) ++ c :: Gb) in Hr.
    rewrite links_app, (links_cons _ c) in Hr. apply Hr. }
  pose proof (hp_top _ _ _ H c ltac:(rewrite !elem_of_app, elem_of_cons; auto)) as Htop. pose proof (hp_low _ _ _ H c ltac:(rewrite !elem_of_app, elem_of_cons; auto)) as Hlow.
  pose proof (hp_brk _ _ _ H) as Hbrk. pose proof base_pos as Hb0.
  assert (forall k, 0 <= k <= c.2 -> hadd c.1 k = c.1 + HSIZE * k) as Hadd.
  { intros k Hk. unfold hadd. apply u32_small. unfold bend, HSIZE, KERNBASE in *. lia. }
  unfold take_block. rewrite Ehd. cbn [hsize]. destruct (Z.eqb_spec c.2 nu) as [E|E].
  - exists c.1, (Ga ++ Gb). cbn [fst snd]. split; [rewrite Hadd by lia; unfold HSIZE; lia|].
    replace (c.1, nu) with c by (destruct c; simpl in *; by subst). rewrite Elen.
    pose proof (take_whole h Ga c Gb A H) as Ht. cbv zeta in Ht. by rewrite Ehd in Ht.
  - exists (c.1 + HSIZE * (c.2 - nu)), (Ga ++ (c.1, c.2 - nu) :: Gb). rewrite set_hd_at, Z.eqb_refl, Ehd. cbn [hsize upd upd_hsize fst snd].
    replace (u32 (c.2 - nu)) with (c.2 - nu) by (symmetry; apply u32_small; unfold bend, HSIZE, KERNBASE in *; lia).
    rewrite Hadd by lia. split.
    + unfold hadd. apply u32_small. unfold bend, HSIZE, KERNBASE in *. lia.
    + apply (take_part h Ga c Gb A nu); [done|lia|].
      unfold R. destruct j as [|j]; [by left|]. destruct (addr_in (Ga ++ c :: Gb) (S j) Hj) as [[? _]|(d & Hd & -> & Hlk)]; [done|].
      right. exists d.2. simpl in Hlk. rewrite lookup_app_l in Hlk by lia.
      apply list_elem_of_lookup_2 in Hlk. by destruct d.
Qed.

(** Memory that is free throughout is free in one piece. *)
Lemma cover_one lo G a e : laid lo G -> a < e -> (forall x, a <= x < e -> covers G x) -> exists c, c ∈ G /\ c.1 <= a /\ e <= bend c.
Proof.
  intros Hl Hae Hcov. destruct (Hcov a ltac:(lia)) as (c & Hc & Hca). exists c. split_and!; [done|lia|].
  destruct (decide (e <= bend c)) as [|Hlt]; [done|]. destruct (Hcov (bend c) ltac:(lia)) as (d & Hd & Hdc). exfalso.
  apply list_elem_of_lookup in Hc as [i Hi]. apply list_elem_of_lookup in Hd as [j Hj].
  destruct (lt_eq_lt_dec i j) as [[Hij| ->]|Hij].
  - pose proof (laid_lookup _ _ _ _ _ _ Hl Hi Hj Hij). lia.
  - assert (c = d) as -> by congruence. lia.
  - pose proof (laid_lookup _ _ _ _ _ _ Hl Hj Hi Hij). lia.
Qed.

(** The heap with the new memory as a block in use. *)
Lemma grown_heap h G A m : heap_ok h G A -> 0 < m -> brk h + HSIZE * m <= KERNBASE ->
  heap_ok (set_hd (brk h) (fun x => x <| hsize := m |>) (h <| brk := brk h + HSIZE * m |>)) G ((brk h, m) :: A).
Proof.
  intros [P1 P2 P3 P4 P5 P6 P7 P8 P9] Hm HK. set (h1 := set_hd _ _ _).
  assert (forall b, b ∈ G ++ A -> b.1 < brk h) as Hlt.
  { intros b Hb. pose proof (P5 b Hb). assert (0 < b.2); [|unfold bend, HSIZE in *; lia].
    apply elem_of_app in Hb as [Hb|Hb]; [by apply (laid_lt _ _ _ P2)|by apply P7]. }
  assert (forall x, x < brk h -> hd h1 x = hd h x) as Hoth.
  { intros x Hx. unfold h1. rewrite set_hd_at. by rewrite (proj2 (Z.eqb_neq _ _)) by lia. }
  split; try done.
  - eapply links_ext; [|exact P1]. intros b [->|Hb]%elem_of_cons; apply Hoth; [simpl; unfold HSIZE in *; lia|]. apply Hlt, elem_of_app. by left.
  - change (brk h1) with (brk h + HSIZE * m). unfold HSIZE in *. lia.
  - intros b. change (brk h1) with (brk h + HSIZE * m). rewrite elem_of_app, elem_of_cons. intros [Hb|[->|Hb]]; [|done|].
    + pose proof (P5 b ltac:(apply elem_of_app; by left)). unfold HSIZE in *. lia.
    + pose proof (P5 b ltac:(apply elem_of_app; by right)). unfold HSIZE in *. lia.
  - intros b. rewrite elem_of_app, elem_of_cons. intros [Hb|[->|Hb]]; [apply P6, elem_of_app; auto|simpl; lia|apply P6, elem_of_app; auto].
  - intros b [->|Hb]%elem_of_cons.
    + split; [done|]. unfold h1. by rewrite set_hd_at, Z.eqb_refl.
    + destruct (P7 b Hb). rewrite Hoth; [done|]. apply Hlt, elem_of_app. by right.
  - intros b c [->|Hb]%elem_of_cons Hc; [|by apply P8]. right. apply P5, elem_of_app. by left.
  - apply heap_ok_pairs; [done|]. intros b Hb. left. apply P5, elem_of_app. by right.
Qed.

Lemma morecore_spec fuel h G A nu : heap_ok h G A -> 0 < nu -> HSIZE * nu < 2 ^ 31 -> (length G < fuel)%nat ->
  (morecore fuel nu h = Some (0, h) /\ sbrk (brk h) (HSIZE * Z.max 4096 nu) = None) \/
  exists h' G', morecore fuel nu h = Some (freep h', h') /\ heap_ok h' G' A /\ (length G' <= S (length G))%nat /\ brk h < brk h' /\
    (forall x, covers G' x <-> covers G x \/ brk h <= x < brk h') /\ (forall x, covers A x -> hd h' x = hd h x) /\
    exists c, c ∈ G' /\ nu <= c.2.
Proof.
  intros H Hnu Hmax Hf. unfold morecore. set (m := if nu <? 4096 then 4096 else nu).
  replace (Z.max 4096 nu) with m by (unfold m; case_zb; lia).
  assert (nu <= m /\ 0 < m /\ HSIZE * m < 2 ^ 31) as (Hm1 & Hm2 & Hm3) by (unfold m, HSIZE in *; case_zb; lia).
  assert (s32 (u32 (m * HSIZE)) = HSIZE * m) as ->.
  { rewrite u32_small by (unfold HSIZE in *; lia). unfold s32. rewrite Z.mod_small; unfold HSIZE in *; lia. }
  destruct (sbrk (brk h) (HSIZE * m)) as [b|] eqn:Eb; [|by left]. right.
  apply sbrk_grows in Eb as [-> HbK]; [|unfold HSIZE; lia]. destruct (hp_brk _ _ _ H) as [Hbrk1 Hbrk2]. pose proof base_pos as Hb0.
  set (h1 := set_hd _ _ _).
  assert (heap_ok h1 G ((brk h, m) :: A)) as H1 by (by apply grown_heap).
  destruct (free_spec fuel h1 G (brk h) m A H1 Hf) as (h' & G' & E & H' & Ebrk & Hlen & Hcov & Hdata).
  replace (hadd (brk h) 1) with (brk h + HSIZE) by (unfold hadd, HSIZE in *; symmetry; apply u32_small; unfold KERNBASE in *; lia).
  rewrite E. cbn [mbind option_bind]. exists h', G'. change (brk h1) with (brk h + HSIZE * m) in Ebrk. split_and!; try done.
  - unfold HSIZE in *. lia.
  - by rewrite Ebrk.
  - intros x Hx. rewrite Hdata by done. unfold h1. rewrite set_hd_at. destruct (Z.eqb_spec x (brk h)) as [->|]; [|done]. exfalso.
    destruct Hx as (b & Hb & Hx). pose proof (hp_top _ _ _ H b ltac:(apply elem_of_app; by right)). lia.
  - destruct (cover_one base G' (brk h) (brk h + HSIZE * m)) as (c & Hc & Hc1 & Hc2); [apply H'|unfold HSIZE; lia|intros x Hx; apply Hcov; by right|].
    exists c. split; [done|]. unfold bend, HSIZE in *. lia.
Qed.

Lemma units_enough nbytes : 0 <= nbytes < 2 ^ 31 - 16 ->
  0 < units nbytes /\ nbytes <= HSIZE * (units nbytes - 1) /\ HSIZE * units nbytes < 2 ^ 31.
Proof. intros H. unfold units, HSIZE. rewrite u32_small by lia. dlia. Qed.

(** Near the top of the address range the rounding wraps: a request for almost 4 GB asks for one unit. *)
Lemma units_wraps : units (2 ^ 32 - 1) = 1.
Proof. reflexivity. Qed.

Lemma freep_pos h G A : heap_ok h G A -> freep h <> 0.
Proof.
  intros H. pose proof base_pos. destruct (hp_freep _ _ _ H) as [->|[s Hs]]; [lia|].
  pose proof (laid_lt _ _ _ (hp_laid _ _ _ H) Hs) as [? _]. simpl in *. lia.
Qed.

(** The loop, once a block is large enough. *)
Lemma malloc_loop_fits fuel h G A nu : heap_ok h G A -> 0 < nu -> (length G < fuel)%nat -> (exists c, c ∈ G /\ nu <= c.2) ->
  exists a h' G', malloc_loop fuel nu (freep h) h = Some (a + HSIZE, h') /\ carved h h' G G' A (a, nu).
Proof.
  intros H Hnu Hf (c & Hc & Hcs). destruct (freep_index _ _ _ H) as (f & Hfl & Ef). rewrite Ef.
  assert (dist (length ((base, 0) :: G)) f f = length ((base, 0) :: G)) as Hd by (unfold dist; case_decide; lia).
  destruct (malloc_scan h G A nu f H Hfl Ef fuel f Hfl) as [(j & Hj & Hfit & ->)|[Hno _]].
  - rewrite Hd. simpl. lia.
  - destruct (take_block_spec h G A nu j H Hj) as (a & G' & E & Hcv); [done|].
    destruct (take_block _ _ _ _) as [r h']. simpl in *. subst r. by exists a, h', G'.
  - exfalso. apply list_elem_of_lookup in Hc as [i Hi]. pose proof (lookup_lt_Some _ _ _ Hi).
    specialize (Hno (S i) ltac:(simpl; lia)). rewrite Hd in Hno.
    rewrite (list_lookup_total_correct ((base, 0) :: G) (S i) c Hi) in Hno.
    enough (c.2 < nu) by lia. apply Hno. unfold dist. simpl in *. case_decide; lia.
Qed.

Lemma malloc_loop_spec fuel h G A nu : heap_ok h G A -> 0 < nu -> HSIZE * nu < 2 ^ 31 -> (2 * length G + 4 <= fuel)%nat ->
  (malloc_loop fuel nu (freep h) h = Some (0, h) /\ sbrk (brk h) (HSIZE * Z.max 4096 nu) = None /\ forall c, c ∈ G -> c.2 < nu) \/
  exists a h' G', malloc_loop fuel nu (freep h) h = Some (a + HSIZE, h') /\ heap_ok h' G' ((a, nu) :: A) /\ brk h <= brk h' /\
    (forall x, covers G' x \/ a <= x < a + HSIZE * nu <-> covers G x \/ brk h <= x < brk h') /\ (forall x, covers A x -> hd h' x = hd h x).
Proof.
  intros H Hnu Hmax Hf. destruct (decide (Exists (fun c => nu <= c.2) G)) as [Hfit|Hno].
  - right. destruct (malloc_loop_fits fuel h G A nu H Hnu) as (a & h' & G' & E & Hok & Hb & Hcov & Hdata); [lia|by apply Exists_exists|].
    exists a, h', G'. split_and!; try done; [lia|]. intros x. rewrite Hcov, Hb. unfold bend. simpl. intuition lia.
  - assert (forall c, c ∈ G -> c.2 < nu) as Hsmall.
    { intros c Hc. destruct (decide (nu <= c.2)); [|lia]. destruct Hno. apply Exists_exists. eauto. }
    destruct (freep_index _ _ _ H) as (f & Hfl & Ef).
    assert (dist (length ((base, 0) :: G)) f f = length ((base, 0) :: G)) as Hd by (unfold dist; case_decide; lia).
    destruct (malloc_scan h G A nu f H Hfl Ef fuel f Hfl) as [(j & Hj & Hfit & _)|[_ E]]; [rewrite Hd; simpl; lia| |].
    { exfalso. pose proof (nxt_lt _ _ Hj) as Hn. destruct (nxt (length ((base, 0) :: G)) j) as [|i]; [simpl in Hfit; lia|].
      destruct (lookup_lt_is_Some_2 G i) as [c Hc]; [simpl in Hn; lia|].
      rewrite (list_lookup_total_correct ((base, 0) :: G) (S i) c Hc) in Hfit. apply list_elem_of_lookup_2, Hsmall in Hc. lia. }
    rewrite <- Ef in E. rewrite E, Hd. set (fuel' := (fuel - _)%nat).
    destruct (morecore_spec fuel' h G A nu H Hnu Hmax) as [[-> Hgrow]|(h1 & G1 & -> & H1 & Hlen & Hb1 & Hcov1 & Hdata1 & Hfit1)];
      [unfold fuel'; simpl; lia|by left|]. right. cbn [mbind option_bind].
    rewrite (proj2 (Z.eqb_neq _ _)) by (by eapply freep_pos).
    destruct (malloc_loop_fits fuel' h1 G1 A nu H1 Hnu) as (a & h' & G' & E' & Hok & Hb & Hcov & Hdata); [unfold fuel'; simpl; lia|done|].
    exists a, h', G'. split_and!; try done; [lia| |].
    + intros x. rewrite Hb, <- Hcov1, Hcov. done.
    + intros x Hx. by rewrite Hdata, Hdata1.
Qed.

(** A heap before the first call, or in use. *)
Definition heap_inv (h : heap) (G A : list block) : Prop :=
  heap_ok h G A \/ (freep h = 0 /\ G = [] /\ A = [] /\ base + HSIZE <= brk h <= KERNBASE).

Lemma init_heap h : base + HSIZE <= brk h <= KERNBASE ->
  heap_ok (set_hd base (fun x => x <| hptr := base |> <| hsize := 0 |>) (h <| freep := base |>)) [] [].
Proof.
  intros Hb. split; [|done|by left|done|by intros ? ?%elem_of_nil..|by intros ? ? ?%elem_of_nil|done].
  split; [|done]. cbn [fst snd]. rewrite set_hd_at, Z.eqb_refl. done.
Qed.
End ring.

(** C15. For a request below 2^31 - 16 bytes [malloc] always returns: a block of its own that is
    large enough for the request, or 0, and 0 only if no free block is large enough and the
    system has refused to grow the process by the units asked for, 4096 at least.  All other blocks keep their place
    and contents, and no memory is lost: what was free or is new is free or in the block. *)
Theorem malloc_gives_fresh_block {P : Process} {PL : ProcessLaws P} fuel h G A nbytes :
  heap_inv h G A -> 0 <= nbytes < 2 ^ 31 - 16 -> (2 * length G + 4 <= fuel)%nat ->
  exists r h', malloc fuel nbytes h = Some (r, h') /\
    ((r = 0 /\ heap_ok h' G A /\ sbrk (brk h) (HSIZE * Z.max 4096 (units nbytes)) = None /\
      forall c, c ∈ G -> c.2 < units nbytes) \/
     exists G', heap_ok h' G' ((r - HSIZE, units nbytes) :: A) /\ nbytes <= HSIZE * (units nbytes - 1) /\
       (forall x, covers G' x \/ r - HSIZE <= x < r + HSIZE * (units nbytes - 1) <-> covers G x \/ brk h <= x < brk h') /\
       (forall x, covers A x -> hd h' x = hd h x)).
Proof.
  intros H Hn Hf. destruct (units_enough nbytes Hn) as (Hu1 & Hu2 & Hu3). unfold malloc.
  set (h0 := if freep h =? 0 then _ else h).
  assert (heap_ok h0 G A /\ brk h0 = brk h /\ forall x, covers A x -> hd h0 x = hd h x) as (H0 & Eb & Hd0).
  { unfold h0. destruct H as [H|(-> & -> & -> & Hb)]; [by rewrite (proj2 (Z.eqb_neq _ _)) by (by eapply freep_pos)|].
    split_and!; [by apply init_heap|done|]. by intros x (b & ?%elem_of_nil & _). }
  destruct (malloc_loop_spec fuel h0 G A (units nbytes) H0 Hu1 Hu3 Hf) as [(-> & Hgrow & Hsmall)|(a & h' & G' & -> & Hok & _ & Hcov & Hdata)].
  - exists 0, h0. split; [done|]. left. rewrite Eb in Hgrow. by split_and!.
  - exists (a + HSIZE), h'. split; [done|]. right. exists G'. replace (a + HSIZE - HSIZE) with a by lia. split_and!; try done.
    + intros x. rewrite <- Eb, <- Hcov. unfold HSIZE. replace (a + 8 + 8 * (units nbytes - 1)) with (a + 8 * units nbytes) by lia. done.
    + intros x Hx. by rewrite Hdata, Hd0.
Qed.

(** C16. [free] always finds the place of the block, makes its memory free and nothing else, merges
    it with the neighbours it touches (the ring never has two adjacent blocks), and leaves every
    other block alone. *)
Theorem free_returns_block {P : Process} {PL : ProcessLaws P} fuel h G A p s :
  heap_ok h G ((p - HSIZE, s) :: A) -> (length G < fuel)%nat ->
  exists h' G', free fuel p h = Some h' /\ heap_ok h' G' A /\ brk h' = brk h /\
    (forall x, covers G' x <-> covers G x \/ p - HSIZE <= x < p - HSIZE + HSIZE * s) /\ (forall x, covers A x -> hd h' x = hd h x).
Proof.
  intros H Hf. destruct (free_spec fuel h G (p - HSIZE) s A H Hf) as (h' & G' & E & Hok & Hb & _ & Hcov & Hd).
  replace (p - HSIZE + HSIZE) with p in E by lia. exists h', G'. by split_and!.
Qed.

(** ** A process

    Its data ends at 4096, and it may grow to 1 MB. *)
#[export] Instance demo_process : Process := {|
  base := 4000;
  sbrk b n := if b + n <=? 1048576 then Some (b + n) else None;
|}.
#[export] Instance demo_process_laws : ProcessLaws demo_process.
Proof.
  split; [done|]. intros b n b' Hn. simpl. destruct (Z.leb_spec (b + n) 1048576) as [H|H]; [|done]. intros [= <-]. unfold KERNBASE. lia.
Qed.

Definition fresh_heap : heap := mkHeap (fun _ => mkHeader 0 0) 0 4096.

Lemma malloc_gives_fresh_block_witness : exists r h', malloc 4 100 fresh_heap = Some (r, h') /\ r = 36760.
Proof.
  destruct (malloc_gives_fresh_block 4 fresh_heap [] [] 100) as (r & h' & E & _).
  - right. split_and!; done.
  - lia.
  - simpl. lia.
  - exists r, h'. split; [exact E|]. vm_compute in E. congruence.
Defined.

(** One block in use. *)
Definition used_heap : heap := mkHeap (fun x => if x =? 4000 then mkHeader 4000 0 else mkHeader 0 10) 4000 8192.

Lemma used_heap_ok : heap_ok used_heap [] [(4096, 10)].
Proof.
  split; try done.
  - by left.
  - intros b ->%list_elem_of_singleton. done.
  - intros b ->%list_elem_of_singleton. done.
  - intros b ->%list_elem_of_singleton. done.
  - by intros ? ? _ ?%elem_of_nil.
  - intros [|i] [|j] b c; simpl; done.
Qed.

Lemma free_returns_block_witness : exists h' G', free 1 4104 used_heap = Some h' /\ heap_ok h' G' [] /\
  forall x, covers G' x <-> covers [] x \/ 4096 <= x < 4176.
Proof.
  destruct (free_returns_block 1 used_heap [] [] 4104 10 used_heap_ok) as (h' & G' & E & Hok & _ & Hcov & _).
  - simpl. lia.
  - exists h', G'. exact (conj E (conj Hok Hcov)).
Defined.
