(* ===== verification/User.v ===== *)
(** * User: user programs and the system calls they make

    A user program is an interaction tree whose events are the system calls of user.h.  The
    behaviour of the system calls is a relation between the state before, the result and the
    state after; it leaves open what the kernel may decide: how much of what is available a
    [read] delivers, whether a call fails for want of resources.  [wp] is total correctness
    against every such behaviour. *)
From stdpp Require Import base list gmap strings.
From Stdlib Require Import ZArith Lia.
From ITree Require Import ITree Eq.Shallow.
From S2P Require Import Prelude.
Local Open Scope Z_scope.

(** ** System calls

    Paths and arguments are the bytes before their terminators.  [Read] returns the count and
    the bytes stored.  [Undefined] stands for an access out of bounds. *)
Record fstat_info := mkStat { s_type : Z; s_ino : Z; s_size : Z }.

Variant sysE : Type -> Type :=
  | Read (fd n : Z) : sysE (Z * list Z)
  | Write (fd : Z) (buf : list Z) : sysE Z
  | Open (path : list Z) (mode : Z) : sysE Z
  | Close (fd : Z) : sysE Z
  | Fstat (fd : Z) : sysE (Z * fstat_info)
  | Unlink (path : list Z) : sysE Z
  | Link (old new : list Z) : sysE Z
  | Mkdir (path : list Z) : sysE Z
  | Mknod (path : list Z) (major minor : Z) : sysE Z
  | Chdir (path : list Z) : sysE Z
  | Dup (fd : Z) : sysE Z
  | Pipe : sysE (Z * (Z * Z))
  | Fork : sysE Z
  | Wait : sysE Z
  | Kill (pid : Z) : sysE Z
  | Setpriority (pid priority : Z) : sysE Z
  | Exec (path : list Z) (argv : list (list Z)) : sysE Z
  | Exit : sysE Empty_set
  | Undefined (why : string) : sysE Empty_set.

Abbreviation prog := (itree sysE).
#[export] Instance prog_ret : MRet prog := fun A a => Ret a.
#[export] Instance prog_bind : MBind prog := fun A B f m => ITree.bind m f.

Definition call {A} (e : sysE A) : prog A := ITree.trigger e.
Definition exit {A} : prog A := v ← call Exit ; match v : Empty_set with end.
Definition undefined {A} (why : string) : prog A := v ← call (Undefined why) ; match v : Empty_set with end.

(** A loop: the body gives the next state or the result. *)
Definition loop {I A} (body : I -> prog (I + A)) : I -> prog A := ITree.iter body.

(** ** What the system calls do

    A descriptor leads to an open file, by its number, which it shares with the descriptors
    that [Dup] makes of it: they read and write at one offset. *)
Inductive device := Console | File (i : nat) | PipeRead (p : nat) | PipeWrite (p : nat) | NoDriver.
Record descriptor := mkDesc { d_dev : device; d_file : nat; d_read : bool; d_write : bool }.
Record node := mkNode { n_type : Z; n_data : list Z }.

(** What a process has done that leaves no other trace in its state: the result of each [Fork],
    0 in the child; [Wait]; the programs it could not execute. *)
Inductive event := Forked (pid : Z) | Waited | Tried (path : list Z) (argv : list (list Z)).

(** Names as the process may spell them, the files they lead to, those a name of which was
    removed, open descriptors, the offsets of open files, what is typed and printed, and the
    events so far.  Once there are other processes, everything but the
    descriptors and the events may change by their doing. *)
Record os := mkOs {
  names : gmap (list Z) nat;
  nodes : gmap nat node;
  orphans : gset nat;
  fds : gmap Z descriptor;
  offs : gmap nat nat;
  typed : list Z;
  printed : list Z;
  past : list event;
}.
#[export] Instance eta_os : Eta os := fun r => mkOs (names r) (nodes r) (orphans r) (fds r) (offs r) (typed r) (printed r) (past r).
#[export] Instance upd_names : Upd names := ltac:(derive_upd).
#[export] Instance upd_nodes : Upd nodes := ltac:(derive_upd).
#[export] Instance upd_orphans : Upd orphans := ltac:(derive_upd).
#[export] Instance upd_fds : Upd fds := ltac:(derive_upd).
#[export] Instance upd_offs : Upd offs := ltac:(derive_upd).
#[export] Instance upd_typed : Upd typed := ltac:(derive_upd).
#[export] Instance upd_printed : Upd printed := ltac:(derive_upd).
#[export] Instance upd_past : Upd past := ltac:(derive_upd).

Definition O_RDONLY : Z := 0.
Definition O_WRONLY : Z := 1.
Definition O_RDWR : Z := 2.
Definition O_CREATE : Z := 512.

Definition contents_of (s : os) (i : nat) : list Z := match nodes s !! i with Some x => n_data x | None => [] end.

(** [l] is what a read of at most [n] bytes may deliver of [rest]: something, unless there is nothing. *)
Definition delivers (n : Z) (rest l : list Z) : Prop :=
  exists k, l = take k rest /\ Z.of_nat k <= Z.max 0 n /\ (0 < n -> rest <> [] -> k <> O).

Definition NOFILE : Z := 16.

(** The descriptor a new file gets. *)
Definition lowest (m : gmap Z descriptor) (fd : Z) : Prop :=
  0 <= fd < NOFILE /\ m !! fd = None /\ forall fd', 0 <= fd' < fd -> m !! fd' <> None.

Definition overwrite (l : list Z) (o : nat) (b : list Z) : list Z := take o l ++ b ++ drop (o + length b) l.

Definition write_node (i o : nat) (b : list Z) (s : os) : os :=
  s <| nodes ::= alter (fun x => mkNode (n_type x) (overwrite (n_data x) o b)) i |>.

(** An open file is read or written further on by [k] bytes. *)
Definition advance (f k : nat) (s : os) : os := s <| offs ::= alter (fun o => (o + k)%nat) f |>.

Definition read_step (fd n : Z) (s : os) (r : Z * list Z) (s' : os) : Prop :=
  match fds s !! fd with
  | Some d =>
      if d_read d then
        match d_dev d with
        | Console => r.1 = Z.of_nat (length r.2) /\ delivers n (typed s) r.2 /\ s' = s <| typed := drop (length r.2) (typed s) |>
        | File i => exists o, offs s !! d_file d = Some o /\ r.1 = Z.of_nat (length r.2) /\
                      delivers n (drop o (contents_of s i)) r.2 /\ s' = advance (d_file d) (length r.2) s
        | PipeRead _ | PipeWrite _ => (r = (-1, []) \/ r.1 = Z.of_nat (length r.2) /\ r.1 <= Z.max 0 n) /\ s' = s
        | NoDriver => r = (-1, []) /\ s' = s
        end
      else r = (-1, []) /\ s' = s
  | None => r = (-1, []) /\ s' = s
  end.

(** A write to a file may stop short and fail. *)
Definition write_step (fd : Z) (b : list Z) (s : os) (r : Z) (s' : os) : Prop :=
  match fds s !! fd with
  | Some d =>
      if d_write d then
        match d_dev d with
        | Console => r = Z.of_nat (length b) /\ s' = s <| printed ::= (fun l => l ++ b) |>
        | File i => exists o k, offs s !! d_file d = Some o /\ (k <= length b)%nat /\
                      (r = Z.of_nat (length b) /\ k = length b \/ r = -1) /\
                      s' = advance (d_file d) k (write_node i o (take k b) s)
        | PipeRead _ | PipeWrite _ => (r = Z.of_nat (length b) \/ r = -1) /\ s' = s
        | NoDriver => r = -1 /\ s' = s
        end
      else r = -1 /\ s' = s
  | None => r = -1 /\ s' = s
  end.

Definition T_DIR : Z := 1.
Definition T_FILE : Z := 2.
Definition T_DEV : Z := 3.

(** Where a descriptor for a file leads: the data of a device is its major number, and 1 is the console. *)
Definition device_of (s : os) (i : nat) : device :=
  match nodes s !! i with
  | Some x => if n_type x =? T_DEV then if bool_decide (n_data x = [1]) then Console else NoDriver else File i
  | None => File i
  end.

Definition open_desc (dev : device) (f : nat) (mode : Z) : descriptor :=
  mkDesc dev f (Z.land mode O_WRONLY =? 0) (negb (Z.land mode (O_WRONLY + O_RDWR) =? 0)).

(** A number for a new open file. *)
Definition unused (f : nat) (s : os) : Prop := offs s !! f = None /\ forall fd d, fds s !! fd = Some d -> d_file d <> f.

(** A new descriptor for it, at its beginning. *)
Definition install (fd : Z) (d : descriptor) (s : os) : os := s <| fds ::= <[fd := d]> |> <| offs ::= <[d_file d := O]> |>.

Definition type_of (s : os) (i : nat) : Z := from_option n_type 0 (nodes s !! i).

(** A directory can only be read, and only a regular file is opened where one may be created. *)
Definition may_open (type mode : Z) : Prop :=
  (Z.land mode O_CREATE <> 0 -> type = T_FILE) /\ (type = T_DIR -> mode = O_RDONLY).

(** The files but for what is written in directories. *)
Definition relisted (n n' : gmap nat node) : Prop :=
  forall i, match n !! i with
            | Some x => exists y, n' !! i = Some y /\ n_type y = n_type x /\ (n_type x <> T_DIR -> y = x)
            | None => n' !! i = None
            end.

(** [path] leads to a new file [x]: other spellings of the path may do so too. *)
Definition created (path : list Z) (i : nat) (x : node) (s s' : os) : Prop :=
  names s !! path = None /\ nodes s !! i = None /\ (i ∉ orphans s) /\ (forall p, names s !! p <> Some i) /\
  exists m n, names s ⊆ m /\ m !! path = Some i /\ relisted (nodes s) n /\ s' = s <| names := m |> <| nodes := <[i := x]> n |>.

(** Neither a name nor a descriptor leads to the file: it is deleted. *)
Definition unreferenced (i : nat) (s : os) : Prop :=
  (forall p, names s !! p <> Some i) /\ forall fd d, fds s !! fd = Some d -> d_dev d <> File i.

(** [path] is removed: with it may go other names of its file [i] and, if this is a directory, those that lead
    through it.  The file is deleted with its last name, unless it is in use, here or in
    another process. *)
Definition removed (path : list Z) (i : nat) (s s' : os) : Prop :=
  exists m n, m ⊆ names s /\ m !! path = None /\
    (forall p j, names s !! p = Some j -> m !! p = None -> j = i \/ type_of s i = T_DIR) /\ relisted (nodes s) n /\
    let s1 := s <| names := m |> <| nodes := n |> <| orphans ::= union {[i]} |> in
    s' = s1 \/ unreferenced i s1 /\ s' = (s1 <| nodes ::= delete i |>).

(** A descriptor is closed; an open file has its offset until its last descriptor is closed. *)
Definition used (f : nat) (m : gmap Z descriptor) : bool := bool_decide (map_Exists (fun _ d => d_file d = f) m).

Definition closed (fd : Z) (s : os) : os :=
  match fds s !! fd with
  | Some d => s <| fds ::= delete fd |> <| offs ::= (fun o => if used (d_file d) (delete fd (fds s)) then o else delete (d_file d) o) |>
  | None => s
  end.

(** A file without names is deleted when nobody uses it any more. *)
Definition closes (fd : Z) (s s' : os) : Prop :=
  s' = closed fd s \/
  exists d i, fds s !! fd = Some d /\ d_dev d = File i /\ i ∈ orphans s /\ unreferenced i (closed fd s) /\
    s' = closed fd s <| nodes ::= delete i |>.

Definition open_step (path : list Z) (mode : Z) (s : os) (r : Z) (s' : os) : Prop :=
  r = -1 /\ s' = s \/
  lowest (fds s) r /\ exists i f, unused f s /\
  (names s !! path = Some i /\ may_open (type_of s i) mode /\ s' = install r (open_desc (device_of s i) f mode) s \/
   Z.land mode O_CREATE <> 0 /\ exists s1, created path i (mkNode T_FILE []) s s1 /\ s' = install r (open_desc (File i) f mode) s1).

Definition happened (e : event) (s : os) : os := s <| past ::= (fun l => l ++ [e]) |>.

Definition step {A} (e : sysE A) (s : os) : A -> os -> Prop :=
  match e in sysE A return A -> os -> Prop with
  | Read fd n => fun r s' => read_step fd n s r s'
  | Write fd b => fun r s' => write_step fd b s r s'
  | Open path mode => fun r s' => open_step path mode s r s'
  | Close fd => fun r s' => r = (if bool_decide (is_Some (fds s !! fd)) then 0 else -1) /\ closes fd s s'
  | Fstat fd => fun r s' => s' = s /\
      match fds s !! fd with
      | Some d => match d_dev d with
                  | File i => r.1 = 0 /\ r.2 = mkStat (type_of s i) (s_ino r.2) (Z.of_nat (length (contents_of s i)))
                  | Console | NoDriver => r.1 = 0
                  | PipeRead _ | PipeWrite _ => r.1 = -1
                  end
      | None => r.1 = -1
      end
  | Unlink path => fun r s' =>
      match names s !! path with
      | Some i => r = -1 /\ type_of s i = T_DIR /\ s' = s \/ r = 0 /\ removed path i s s'
      | None => r = -1 /\ s' = s
      end
  | Link old new => fun r s' => r = -1 /\ s' = s \/
      r = 0 /\ names s !! new = None /\ exists i m n, names s !! old = Some i /\ names s ⊆ m /\ m !! new = Some i /\
        relisted (nodes s) n /\ s' = s <| names := m |> <| nodes := n |>
  | Mkdir path => fun r s' => r = -1 /\ s' = s \/ r = 0 /\ exists i l, created path i (mkNode T_DIR l) s s'
  | Mknod path major _ => fun r s' => r = -1 /\ s' = s \/ r = 0 /\ exists i, created path i (mkNode T_DEV [major]) s s'
  | Chdir _ => fun r s' => r = -1 /\ s' = s \/ r = 0 /\ exists m, s' = s <| names := m |>
  | Dup fd => fun r s' =>
      r = -1 /\ s' = s /\ (fds s !! fd = None \/ forall fd', 0 <= fd' < NOFILE -> fds s !! fd' <> None) \/
      exists d, fds s !! fd = Some d /\ lowest (fds s) r /\ s' = s <| fds ::= <[r := d]> |>
  | Pipe => fun r s' => r.1 = -1 /\ s' = s \/
      r.1 = 0 /\ exists p f0 f1, let '(fd0, fd1) := r.2 in
        let d0 := mkDesc (PipeRead p) f0 true false in
        let d1 := mkDesc (PipeWrite p) f1 false true in
        lowest (fds s) fd0 /\ lowest (<[fd0 := d0]> (fds s)) fd1 /\ unused f0 s /\ unused f1 s /\ f0 <> f1 /\
        s' = install fd1 d1 (install fd0 d0 s)
  | Fork => fun r s' => fds s' = fds s /\ past s' = past s ++ [Forked r] /\ (r = -1 \/ 0 <= r)
  | Wait => fun _ s' => fds s' = fds s /\ past s' = past s ++ [Waited]
  | Kill _ | Setpriority _ _ => fun _ s' => s' = s
  | Exec path argv => fun r s' => r = -1 /\ s' = happened (Tried path argv) s
  | Exit | Undefined _ => fun _ _ => False
  end.

(** How a process ends. *)
Inductive ending := Exited | Execed (path : list Z) (argv : list (list Z)).

Definition is_exec {A} (e : sysE A) : bool := match e with Exec _ _ => true | _ => false end.

(** ** Total correctness

    [wp Q X t s]: from [s], whatever the system calls decide, [t] comes to an end, by returning
    a value in a state for which [Q] holds or by ending the process as [X] says. *)
Section wp.
Context {A : Type} (Q : A -> os -> Prop) (X : ending -> os -> Prop).

Inductive wp : prog A -> os -> Prop :=
  | wp_Ret t a s : observe t = RetF a -> Q a s -> wp t s
  | wp_Tau t u s : observe t = TauF u -> wp u s -> wp t s
  | wp_Exit t k s : observe t = VisF Exit k -> X Exited s -> wp t s
  | wp_Exec t path argv k s : observe t = VisF (Exec path argv) k -> X (Execed path argv) s ->
      wp (k (-1)) (happened (Tried path argv) s) -> wp t s
  | wp_Call t B (e : sysE B) k s : observe t = VisF e k -> is_exec e = false ->
      (exists r s', step e s r s') -> (forall r s', step e s r s' -> wp (k r) s') -> wp t s.

Lemma wp_observe t u s : observe t = observe u -> wp u s -> wp t s.
Proof.
  intros E H. destruct H as [u a s Hu|u v s Hu|u k s Hu|u path argv k s Hu|u B e k s Hu]; rewrite Hu in E;
    [eapply wp_Ret|eapply wp_Tau|eapply wp_Exit|eapply wp_Exec|eapply wp_Call]; eauto.
Qed.
End wp.

Section rules.
Context (X : ending -> os -> Prop).

Lemma wp_mono {A} (Q Q' : A -> os -> Prop) t s : wp Q X t s -> (forall a s', Q a s' -> Q' a s') -> wp Q' X t s.
Proof.
  intros H HQ. induction H; [eapply wp_Ret|eapply wp_Tau|eapply wp_Exit|eapply wp_Exec|eapply wp_Call]; eauto.
Qed.

Lemma wp_weaken {A} (Q : A -> os -> Prop) (X' : ending -> os -> Prop) t s :
  wp Q X' t s -> (forall e s', X' e s' -> X e s') -> wp Q X t s.
Proof.
  intros H HX. induction H; [eapply wp_Ret|eapply wp_Tau|eapply wp_Exit|eapply wp_Exec|eapply wp_Call]; eauto.
Qed.

Lemma wp_bind {A B} (Q : B -> os -> Prop) (t : prog A) (k : A -> prog B) s :
  wp (fun a => wp Q X (k a)) X t s -> wp Q X (t ≫= k) s.
Proof.
  unfold mbind, prog_bind. intros H. induction H as [t a s Ht HQ|t u s Ht _ IH|t h s Ht HX|t path argv h s Ht HX _ IH|t C e h s Ht Hne Hex _ IH].
  - eapply wp_observe; [|exact HQ]. by rewrite observe_bind, Ht.
  - eapply wp_Tau; [by rewrite observe_bind, Ht|done].
  - eapply wp_Exit; [by rewrite observe_bind, Ht|done].
  - eapply wp_Exec; [by rewrite observe_bind, Ht|done|done].
  - eapply wp_Call; [by rewrite observe_bind, Ht|done|done|done].
Qed.

Lemma wp_ret {A} (Q : A -> os -> Prop) a s : Q a s -> wp Q X (mret a) s.
Proof. intros. eapply wp_Ret; [reflexivity|done]. Qed.

Lemma wp_exit {A} (Q : A -> os -> Prop) s : X Exited s -> wp Q X exit s.
Proof. intros. apply wp_bind. eapply wp_Exit; [reflexivity|done]. Qed.

(** A call other than [Exec]. *)
Lemma wp_call {A} (Q : A -> os -> Prop) (e : sysE A) s : is_exec e = false ->
  (exists r s', step e s r s') -> (forall r s', step e s r s' -> Q r s') -> wp Q X (call e) s.
Proof. intros Hne Hex HQ. eapply wp_Call; [reflexivity|done|done|]. intros r s' Hs. by apply wp_ret, HQ. Qed.

Lemma wp_exec (Q : Z -> os -> Prop) path argv s : X (Execed path argv) s -> Q (-1) (happened (Tried path argv) s) -> wp Q X (call (Exec path argv)) s.
Proof. intros HX HQ. eapply wp_Exec; [reflexivity|done|]. by apply wp_ret. Qed.

(** A loop ends if a measure goes down. *)
Lemma wp_loop {I A} (Q : A -> os -> Prop) (Inv : I -> os -> Prop) (m : I -> os -> nat) (body : I -> prog (I + A)) :
  (forall i s, Inv i s -> wp (fun r s' => match r with inl i' => Inv i' s' /\ (m i' s' < m i s)%nat | inr a => Q a s' end) X (body i) s) ->
  forall i s, Inv i s -> wp Q X (loop body i) s.
Proof.
  intros Hbody. assert (forall n i s, Inv i s -> (m i s < n)%nat -> wp Q X (loop body i) s) as H; [|intros i s Hi; eapply H; [done|apply Nat.lt_succ_diag_r]].
  induction n as [|n IH]; intros i s Hi Hn; [lia|].
  apply (wp_observe _ _ _ (ITree.bind (body i) (fun r => match r with inl i' => Tau (loop body i') | inr a => Ret a end))); [reflexivity|].
  apply wp_bind. eapply wp_mono; [by apply Hbody|]. intros [i'|a] s' Hr.
  - destruct Hr as [Hi' Hm]. eapply wp_Tau; [reflexivity|]. apply IH; [done|lia].
  - eapply wp_Ret; [reflexivity|done].
Qed.
End rules.

(** ** Descriptors *)

(** States are equal if their components are. *)
Lemma os_eq s s' : names s = names s' -> nodes s = nodes s' -> orphans s = orphans s' -> fds s = fds s' -> offs s = offs s' ->
  typed s = typed s' -> printed s = printed s' -> past s = past s' -> s = s'.
Proof. destruct s, s'. cbn. congruence. Qed.

(** What is left to read from a descriptor. *)
Definition unread (fd : Z) (s : os) : option (list Z) :=
  match fds s !! fd with
  | Some d =>
      if d_read d then
        match d_dev d with
        | Console => Some (typed s)
        | File i => (fun o => drop o (contents_of s i)) <$> offs s !! d_file d
        | _ => None
        end
      else None
  | None => None
  end.

(** The state after [k] bytes were read. *)
Definition took (fd : Z) (k : nat) (s : os) : os :=
  match fds s !! fd with
  | Some d => match d_dev d with Console => s <| typed := drop k (typed s) |> | _ => advance (d_file d) k s end
  | None => s
  end.

(** The descriptor leads to the console. *)
Definition terminal (fd : Z) (s : os) : Prop :=
  exists d, fds s !! fd = Some d /\ d_dev d = Console /\ d_write d = true.

Definition print (b : list Z) (s : os) : os := s <| printed ::= (fun l => l ++ b) |>.

Lemma print_print a b s : print b (print a s) = print (a ++ b) s.
Proof. apply os_eq; try done. cbn. by rewrite (assoc_L (++)). Qed.

Lemma print_nil s : print [] s = s.
Proof. apply os_eq; try done. cbn. by rewrite app_nil_r. Qed.

Lemma terminal_fds fd s s' : fds s' = fds s -> terminal fd s -> terminal fd s'.
Proof. unfold terminal. by intros ->. Qed.

Lemma terminal_print fd b s : terminal fd s -> terminal fd (print b s).
Proof. done. Qed.

Lemma unread_print fd b s : unread fd (print b s) = unread fd s.
Proof. done. Qed.

Lemma fds_took fd k s : fds (took fd k s) = fds s.
Proof. unfold took. destruct (fds s !! fd) as [d|]; [|done]. by destruct (d_dev d). Qed.

Lemma names_took fd k s : names (took fd k s) = names s.
Proof. unfold took. destruct (fds s !! fd) as [d|]; [|done]. by destruct (d_dev d). Qed.

Lemma unread_took fd k s rest : unread fd s = Some rest -> unread fd (took fd k s) = Some (drop k rest).
Proof.
  unfold unread. rewrite fds_took. unfold took. destruct (fds s !! fd) as [d|] eqn:E; [|done]. destruct (d_read d) eqn:Er; [|done].
  destruct (d_dev d) as [|i|p|p|] eqn:Ed; intros H; simplify_eq; [done|].
  cbn. rewrite lookup_alter_eq. change (contents_of _ i) with (contents_of s i). destruct (offs s !! d_file d) as [o|]; [|done]. simplify_eq/=.
  by rewrite drop_drop.
Qed.

Lemma terminal_took fd fd' k s : terminal fd' s -> terminal fd' (took fd k s).
Proof. apply terminal_fds, fds_took. Qed.

Lemma advance_0 f s : advance f 0 s = s.
Proof. apply os_eq; try done. cbn. apply alter_id. intros o _. lia. Qed.

Lemma advance_advance f j k s : advance f k (advance f j s) = advance f (j + k) s.
Proof. apply os_eq; try done. cbn. rewrite alter_alter_eq. apply alter_ext. intros o _. cbn. lia. Qed.

Lemma took_0 fd s : took fd 0 s = s.
Proof.
  unfold took. destruct (fds s !! fd) as [d|]; [|done]. destruct (d_dev d); try apply advance_0. by apply os_eq.
Qed.

Lemma took_took fd j k s : took fd k (took fd j s) = took fd (j + k) s.
Proof.
  unfold took at 1. rewrite fds_took. unfold took. destruct (fds s !! fd) as [d|]; [|done]. destruct (d_dev d); try apply advance_advance.
  apply os_eq; try done. cbn. by rewrite drop_drop.
Qed.

Lemma took_print fd k b s : took fd k (print b s) = print b (took fd k s).
Proof. unfold took. change (fds (print b s)) with (fds s). destruct (fds s !! fd) as [d|]; [|done]. by destruct (d_dev d). Qed.

(** A file opened for reading. *)
Definition opened (fd : Z) (f i : nat) (s : os) : os := install fd (open_desc (File i) f O_RDONLY) s.
Definition file (s : os) (path : list Z) : option (list Z) := contents_of s <$> names s !! path.

(** The name, if there is one, leads to a file and not to a device. *)
Definition plain (s : os) (path : list Z) : Prop :=
  forall i, names s !! path = Some i -> exists x, nodes s !! i = Some x /\ n_type x <> T_DEV.

Lemma device_plain s path i : plain s path -> names s !! path = Some i -> device_of s i = File i.
Proof.
  intros Hp Hi. destruct (Hp i Hi) as (x & E & Hx). unfold device_of. rewrite E. by rewrite (proj2 (Z.eqb_neq _ _)).
Qed.

Lemma lowest_fresh m fd : lowest m fd -> m !! fd = None.
Proof. by intros (_ & H & _). Qed.

Lemma lowest_unique m fd fd' : lowest m fd -> lowest m fd' -> fd = fd'.
Proof.
  intros (H1 & H2 & H3) (H1' & H2' & H3'). destruct (Z.lt_trichotomy fd fd') as [H|[H|H]]; [|done|]; [destruct (H3' fd ltac:(lia) H2)|destruct (H3 fd' ltac:(lia) H2')].
Qed.

Lemma terminal_install t fd d s : terminal t s -> lowest (fds s) fd -> terminal t (install fd d s).
Proof.
  intros (d' & E & H) Hl. apply lowest_fresh in Hl. exists d'. split; [|done]. cbn. rewrite lookup_insert_ne; [done|]. congruence.
Qed.

Lemma unread_opened fd f i s : unread fd (opened fd f i s) = Some (contents_of s i).
Proof. unfold unread, opened. cbn. by rewrite !lookup_insert_eq. Qed.

(** *** Closing *)
Lemma fds_closed fd s : fds (closed fd s) = delete fd (fds s).
Proof. unfold closed. destruct (fds s !! fd) eqn:E; [done|]. by rewrite delete_id. Qed.

Lemma closes_frame fd s s' : closes fd s s' ->
  fds s' = delete fd (fds s) /\ names s' = names s /\ orphans s' = orphans s /\ printed s' = printed s /\ past s' = past s.
Proof.
  assert (forall s'', s'' = closed fd s -> fds s'' = delete fd (fds s) /\ names s'' = names s /\ orphans s'' = orphans s /\ printed s'' = printed s /\ past s'' = past s) as H.
  { intros s'' ->. split; [apply fds_closed|]. unfold closed. by destruct (fds s !! fd). }
  intros [->|(d & i & _ & _ & _ & _ & ->)]; [by apply H|]. cbn. by apply (H (closed fd s)).
Qed.

Lemma nodes_closed fd s : nodes (closed fd s) = nodes s.
Proof. unfold closed. by destruct (fds s !! fd). Qed.

(** Only a file without names is deleted. *)
Lemma closes_nodes fd s s' i x : closes fd s s' -> nodes s !! i = Some x -> i ∉ orphans s \/ (exists p, names s !! p = Some i) -> nodes s' !! i = Some x.
Proof.
  intros [->|(d & j & E & _ & Hj & [Hn _] & ->)] Hx Hi; [by rewrite nodes_closed|]. cbn. rewrite nodes_closed. rewrite lookup_delete_ne; [done|].
  intros ->. destruct Hi as [Hi|[p Hp]]; [done|]. apply (Hn p). unfold closed. by rewrite E.
Qed.

Lemma closes_named fd s s' d i p : fds s !! fd = Some d -> d_dev d = File i -> names s !! p = Some i -> closes fd s s' -> s' = closed fd s.
Proof.
  intros Hd Hi Hp [->|(d' & i' & E & Ei & _ & [Hn _] & _)]; [done|]. assert (i' = i) as -> by congruence. destruct (Hn p). unfold closed. by rewrite Hd.
Qed.

Lemma closes_other fd s s' : (forall d i, fds s !! fd = Some d -> d_dev d <> File i) -> closes fd s s' -> s' = closed fd s.
Proof. intros H [->|(d & i & E & Ei & _)]; [done|]. by destruct (H d i). Qed.

Lemma not_used f s : unused f s -> used f (fds s) = false.
Proof. intros [_ H]. apply bool_decide_false. intros (fd & d & E & Hd). by apply (H fd d). Qed.

(** What was opened is closed again. *)
Lemma closed_install fd d s : lowest (fds s) fd -> unused (d_file d) s -> closed fd (install fd d s) = s.
Proof.
  intros Hl Hf. apply lowest_fresh in Hl. unfold closed. cbn. rewrite lookup_insert_eq.
  assert (delete fd (<[fd:=d]> (fds s)) = fds s) as E by (rewrite delete_insert_eq; by apply delete_id).
  apply os_eq; try done. cbn. rewrite E, not_used by done. rewrite delete_insert_eq. by apply delete_id; destruct Hf.
Qed.

Lemma closed_took fd k f i s : lowest (fds s) fd -> unused f s -> closed fd (took fd k (opened fd f i s)) = s.
Proof.
  intros Hl Hf. rewrite <- (closed_install fd (open_desc (File i) f O_RDONLY) s Hl Hf) at 2. unfold took, closed. cbn. rewrite !lookup_insert_eq. cbn.
  rewrite lookup_insert_eq. apply os_eq; try done. cbn. rewrite delete_insert_eq, (delete_id (fds s)) by (by apply lowest_fresh).
  rewrite not_used by done. by rewrite delete_alter_eq.
Qed.

Lemma closed_print fd l s : closed fd (print l s) = print l (closed fd s).
Proof. unfold closed. change (fds (print l s)) with (fds s). by destruct (fds s !! fd). Qed.

(** A descriptor that was opened, for a file that was there or a new one. *)
Lemma opened_as path mode s fd s' : 0 <= fd -> open_step path mode s fd s' ->
  lowest (fds s) fd /\ past s' = past s /\
  exists i f, names s' !! path = Some i /\ offs s' !! f = Some O /\ fds s' = <[fd := open_desc (device_of s' i) f mode]> (fds s).
Proof.
  intros Hfd [[-> _]|(Hl & i & f & _ & [(Hi & _ & ->)|(_ & s1 & (_ & _ & _ & _ & m & n & _ & Hm & _ & ->) & ->)])]; [done|..];
    split_and!; try done; exists i, f; (split; [done|split; [cbn; apply lookup_insert_eq|]]); [done|].
  unfold device_of. cbn. by rewrite lookup_insert_eq.
Qed.

Section calls.
Context (X : ending -> os -> Prop).

Lemma delivers_some n rest : exists l, delivers n rest l.
Proof. exists (take (Z.to_nat (Z.max 0 n)) rest), (Z.to_nat (Z.max 0 n)). split_and!; [done|lia|lia]. Qed.

Lemma wp_read (Q : Z * list Z -> os -> Prop) fd n s rest : unread fd s = Some rest ->
  (forall l, delivers n rest l -> Q (Z.of_nat (length l), l) (took fd (length l) s)) -> wp Q X (call (Read fd n)) s.
Proof.
  unfold unread, took. destruct (fds s !! fd) as [d|] eqn:E; [|done]. destruct (d_read d) eqn:Er; [|done]. intros Hd HQ.
  apply wp_call; [done|..]; cbn; unfold read_step; rewrite E, Er.
  - destruct (delivers_some n rest) as [l Hl]. destruct (d_dev d); simplify_eq; [by eexists (Z.of_nat (length l), l), _|].
    destruct (offs s !! d_file d) as [o|]; [|done]. simplify_eq/=. by eexists (Z.of_nat (length l), l), _, o.
  - intros [c l] s' Hs. cbn in *. specialize (HQ l). destruct (d_dev d); simplify_eq; [destruct Hs as (-> & Hl & ->); by apply HQ|].
    destruct Hs as (o & Eo & -> & Hl & ->). rewrite Eo in Hd. simplify_eq/=. by apply HQ.
Qed.

Lemma wp_print (Q : Z -> os -> Prop) fd b s : terminal fd s -> Q (Z.of_nat (length b)) (print b s) -> wp Q X (call (Write fd b)) s.
Proof.
  intros (d & E & Ed & Ew) HQ. apply wp_call; [done|..]; cbn; unfold write_step; rewrite E, Ew, Ed.
  - by eexists _, _.
  - intros r s' [-> ->]. done.
Qed.

Lemma wp_close (Q : Z -> os -> Prop) fd s : (forall r s', closes fd s s' -> Q r s') -> wp Q X (call (Close fd)) s.
Proof. intros HQ. apply wp_call; [done|eexists _, _; split; [done|by left]|]. intros r s' [-> Hc]. by apply HQ. Qed.

(** What the shells need to know of it. *)
Lemma wp_shut (Q : Z -> os -> Prop) fd s : (forall r s', fds s' = delete fd (fds s) -> past s' = past s -> Q r s') -> wp Q X (call (Close fd)) s.
Proof. intros HQ. apply wp_close. intros r s' Hc. apply closes_frame in Hc as (Hf & _ & _ & _ & Hp). by apply HQ. Qed.

Lemma wp_open (Q : Z -> os -> Prop) path mode s : Q (-1) s ->
  (forall fd s', 0 <= fd -> open_step path mode s fd s' -> Q fd s') -> wp Q X (call (Open path mode)) s.
Proof.
  intros Hf HQ. apply wp_call; [done|eexists (-1), s; by left|]. intros r s' H. cbn in H. destruct H as [[-> ->]|H]; [done|].
  apply HQ; [destruct H as [[Hl _] _]; lia|by right].
Qed.

(** [Dup] with a descriptor free, everything below it in use. *)
Lemma wp_dup (Q : Z -> os -> Prop) fd d r s : fds s !! fd = Some d -> lowest (fds s) r ->
  Q r (s <| fds ::= <[r := d]> |>) -> wp Q X (call (Dup fd)) s.
Proof.
  intros Hd Hl HQ. apply wp_call; [done|eexists r, _; right; by exists d|]. intros r' s' [(_ & _ & [H|H])|(d' & Hd' & Hl' & ->)]; [congruence|..].
  - destruct Hl as (Hr & Hn & _). by destruct (H r).
  - rewrite (lowest_unique (fds s) r r' Hl Hl') in HQ. by assert (d' = d) as -> by congruence.
Qed.

Lemma wp_fork (Q : Z -> os -> Prop) s :
  (forall pid s', fds s' = fds s -> past s' = past s ++ [Forked pid] -> pid = -1 \/ 0 < pid -> Q pid s') ->
  (forall s', fds s' = fds s -> past s' = past s ++ [Forked 0] -> Q 0 s') -> wp Q X (call Fork) s.
Proof.
  intros Hp Hc. apply wp_call; [done|exists (-1), (happened (Forked (-1)) s); split_and!; [done|done|by left]|].
  intros r s' (Hf & Hk & Hr). destruct (decide (r = 0)) as [->|]; [by apply Hc|]. apply Hp; [done|done|lia].
Qed.

Lemma wp_wait (Q : Z -> os -> Prop) s : (forall pid s', fds s' = fds s -> past s' = past s ++ [Waited] -> Q pid s') -> wp Q X (call Wait) s.
Proof. intros HQ. apply wp_call; [done|by exists (-1), (happened Waited s)|]. intros r s' [Hf Hk]. by apply HQ. Qed.

(** The two ends of a pipe. *)
Definition pipe_out (p f : nat) : descriptor := mkDesc (PipeRead p) f true false.
Definition pipe_in (p f : nat) : descriptor := mkDesc (PipeWrite p) f false true.
Definition piped (fd0 fd1 : Z) (p f0 f1 : nat) (m : gmap Z descriptor) : gmap Z descriptor :=
  <[fd1 := pipe_in p f1]> (<[fd0 := pipe_out p f0]> m).

Lemma wp_pipe (Q : Z * (Z * Z) -> os -> Prop) s : (forall fd0 fd1, Q (-1, (fd0, fd1)) s) ->
  (forall fd0 fd1 p f0 f1 s', fds s !! fd0 = None -> fds s !! fd1 = None -> fd0 <> fd1 ->
    fds s' = piped fd0 fd1 p f0 f1 (fds s) -> past s' = past s -> Q (0, (fd0, fd1)) s') -> wp Q X (call Pipe) s.
Proof.
  intros Hf HQ. apply wp_call; [done|exists (-1, (0, 0)), s; by left|].
  intros [r [fd0 fd1]] s' [[Hr ->]|(Hr & p & f0 & f1 & H0 & H1 & _ & _ & _ & ->)]; cbn in Hr; subst r; [apply Hf|].
  apply lowest_fresh in H0, H1. apply lookup_insert_None in H1 as [H1 Hne]. by eapply HQ.
Qed.

Lemma wp_open_read (Q : Z -> os -> Prop) path s : plain s path -> Q (-1) s ->
  (forall fd f i, names s !! path = Some i -> lowest (fds s) fd -> unused f s -> Q fd (opened fd f i s)) -> wp Q X (call (Open path O_RDONLY)) s.
Proof.
  intros Hp Hf HQ. apply wp_open; [done|]. intros fd s' Hfd [[-> _]|(Hl & i & f & Hu & [(Hi & _ & ->)|(Hc & _)])]; [done| |done].
  rewrite (device_plain s path i) by done. by apply HQ.
Qed.
End calls.

(** [fork], with the parent on the second branch. *)
Lemma fork_child {A} (Q : A -> os -> Prop) (X : ending -> os -> Prop) (body : prog unit) (k : prog A) s :
  (forall s', fds s' = fds s -> past s' = past s ++ [Forked 0] -> wp (fun _ _ => False) X body s') ->
  (forall pid s', fds s' = fds s -> past s' = past s ++ [Forked pid] -> pid <> 0 -> wp Q X k s') ->
  wp Q X (pid ← call Fork ; (if pid =? 0 then body else mret tt) ;; k) s.
Proof.
  intros Hb Hk. apply wp_bind, wp_fork.
  - intros pid s' Hf Hfk Hp. rewrite (proj2 (Z.eqb_neq _ _)) by lia. apply wp_bind, wp_ret. eapply Hk; [done|done|lia].
  - intros s' Hf Hfk. cbn. apply wp_bind. eapply wp_mono; [by apply Hb|done].
Qed.

(** The parent after its children. *)
Lemma wp_wait_done X (Q : unit -> os -> Prop) s : (forall s', fds s' = fds s -> past s' = past s ++ [Waited] -> Q tt s') -> wp Q X (call Wait ;; mret tt) s.
Proof. intros HQ. apply wp_bind, wp_wait. intros pid s' Hf Hk. by apply wp_ret, HQ. Qed.

(** ** The standard descriptors, with those of the parent *)
Section standard.
Context (X : ending -> os -> Prop) (m : gmap Z descriptor) (H0 : is_Some (m !! 0)).

(** A standard descriptor is closed, and so the next one to be used. *)
Lemma lowest_closed n : n = 0 \/ n = 1 -> lowest (delete n m) n.
Proof.
  intros Hn. unfold lowest, NOFILE. split_and!; [lia|lia|apply lookup_delete_eq|]. intros fd Hfd. rewrite lookup_delete_ne by lia.
  replace fd with 0 by lia. destruct H0 as [d ->]. done.
Qed.

(** [open] then uses it. *)
Lemma wp_reopen (Q : Z -> os -> Prop) n file mode s : n = 0 \/ n = 1 -> fds s = delete n m -> Q (-1) s ->
  (forall s' i f, names s' !! file = Some i -> offs s' !! f = Some O -> fds s' = <[n := open_desc (device_of s' i) f mode]> m ->
    past s' = past s -> Q n s') ->
  wp Q X (call (Open file mode)) s.
Proof.
  intros Hn Ed Hf HQ. apply wp_open; [done|]. intros fd s' Hfd Ho. apply opened_as in Ho as (Hlo & Ek' & i & f & Hi & Ho & Es); [|done].
  rewrite Ed in Hlo, Es. rewrite (lowest_unique _ _ _ Hlo (lowest_closed n Hn)) in *. rewrite insert_delete_eq in Es. by eapply HQ.
Qed.

(** An end of a pipe takes its place. *)
Lemma wp_pipe_end {A} (Q : A -> os -> Prop) n p0 p1 pe p f0 f1 d (k : prog A) s : n = 0 \/ n = 1 -> is_Some (m !! n) ->
  m !! p0 = None -> m !! p1 = None -> p0 <> p1 -> fds s = piped p0 p1 p f0 f1 m -> fds s !! pe = Some d -> m !! pe = None ->
  (forall s', fds s' = <[n := d]> m -> past s' = past s -> wp Q X k s') ->
  wp Q X (call (Close n) ;; call (Dup pe) ;; call (Close p0) ;; call (Close p1) ;; k) s.
Proof.
  intros Hn Hin Hp0 Hp1 Hne Ef Hd Hpe Hk. apply wp_bind, wp_shut; intros _ s1 E1 K1. apply wp_bind, (wp_dup _ _ _ d n).
  - rewrite E1, lookup_delete_ne; [done|]. intros ->. rewrite Hpe in Hin. by destruct Hin.
  - rewrite E1. destruct (lowest_closed n Hn) as (Hb & _ & Hlow). split; [done|split; [apply lookup_delete_eq|]]. rewrite Ef. intros fd Hfd.
    specialize (Hlow fd Hfd). rewrite !lookup_delete_ne in * by lia. unfold piped. rewrite !lookup_insert_ne; [done|congruence..].
  - apply wp_bind, wp_shut; intros _ s2 E2 K2. apply wp_bind, wp_shut; intros _ s3 E3 K3. apply Hk; [|cbn in *; congruence].
    rewrite E3, E2. cbn. rewrite E1, Ef. unfold piped. apply map_eq. intros k'.
    destruct Hin as [dn Hin]. destruct (decide (k' = n)) as [->|]; [|destruct (decide (k' = p0)) as [->|]; [|destruct (decide (k' = p1)) as [->|]]]; by simplify_map_eq.
Qed.

(** Both ends are closed again. *)
Lemma piped_closed p0 p1 p f0 f1 : m !! p0 = None -> m !! p1 = None -> p0 <> p1 -> delete p1 (delete p0 (piped p0 p1 p f0 f1 m)) = m.
Proof.
  intros H1 H2 Hne. unfold piped. apply map_eq. intros k. destruct (decide (k = p0)) as [->|]; [|destruct (decide (k = p1)) as [->|]]; by simplify_map_eq.
Qed.
End standard.
