(* ===== verification/Ulib.v ===== *)
(** * Ulib: the library of user programs (ulib.c, printf.c)

    A C string is the list of its bytes before the terminator, an array is given by the bytes
    it can hold.  [printf] makes one [Write] for each byte; it is shown to print what a
    declarative reading of the format says, and numbers to be read back by [atoi]. *)
From stdpp Require Import base list gmap strings.
From Stdlib Require Import ZArith Lia Ascii.
From ITree Require Import ITree.
From S2P Require Import Prelude Mem User.
Local Open Scope Z_scope.

(** ** String literals of C, with [\n], [\t] and octal escapes [\0dd] *)
Fixpoint unescape (l : list Z) : list Z :=
  match l with
  | 92 :: 48 :: a :: b :: l' => (8 * (a - 48) + (b - 48)) :: unescape l'
  | 92 :: c :: l' => (if c =? 110 then 10 else if c =? 116 then 9 else c) :: unescape l'
  | c :: l' => c :: unescape l'
  | [] => []
  end.

Definition lit (s : string) : list Z := unescape ((fun c => Z.of_N (N_of_ascii c)) <$> String.list_ascii_of_string s).

#[global] Arguments lit : simpl never.

(** ** ulib.c *)
Fixpoint strcmp (p q : list Z) : Z :=
  match p, q with
  | a :: p', b :: q' => if a =? b then strcmp p' q' else u8 a - u8 b
  | a :: _, [] => u8 a
  | [], b :: _ => - u8 b
  | [], [] => 0
  end.

Definition strlen (s : list Z) : Z := Z.of_nat (length s).

(** [s] from the first [c] on. *)
Fixpoint strchr (s : list Z) (c : Z) : option (list Z) :=
  match s with
  | [] => None
  | x :: s' => if x =? c then Some s else strchr s' c
  end.

(** Into an array of [cap] bytes. *)
Definition strcpy (cap : Z) (t : list Z) : prog (list Z) :=
  if strlen t <? cap then mret t else undefined "strcpy: array too small".

(** [None] if the number does not fit an [int]. *)
Fixpoint atoi_loop (s : list Z) (n : Z) : option Z :=
  match s with
  | c :: s' =>
      if (48 <=? c) && (c <=? 57) then
        if n * 10 + c <? 2 ^ 31 then atoi_loop s' (n * 10 + c - 48) else None
      else Some n
  | [] => Some n
  end.

Definition atoi (s : list Z) : prog Z :=
  match atoi_loop s 0 with Some n => mret n | None => undefined "atoi: overflow" end.

(** [i] bytes are in the buffer already. *)
Definition gets (max : Z) : prog (list Z) :=
  loop (fun buf : list Z =>
    if Z.of_nat (length buf) + 1 <? max then
      r ← call (Read 0 1) ;
      let '(cc, c) := r in
      if cc <? 1 then mret (inr buf)
      else
        let buf := buf ++ c in
        if bool_decide (c = [10] \/ c = [13]) then mret (inr buf) else mret (inl buf)
    else mret (inr buf)) [].

Definition stat (n : list Z) : prog (Z * fstat_info) :=
  fd ← call (Open n O_RDONLY) ;
  if fd <? 0 then mret (-1, mkStat 0 0 0)
  else
    r ← call (Fstat fd) ;
    call (Close fd) ;;
    mret r.

(** Bytes are copied upwards, whatever the addresses. *)
Definition memmove (m : memory) (vdst vsrc n : Z) : memory := copy_up m vdst vsrc (Z.to_nat n).

(** ** printf.c *)
Definition putc (fd c : Z) : prog unit := call (Write fd [c]) ;; mret tt.

Fixpoint puts (fd : Z) (s : list Z) : prog unit :=
  match s with
  | [] => mret tt
  | c :: s' => putc fd c ;; puts fd s'
  end.

Definition digits : list Z := lit "0123456789ABCDEF".

(** The digits from the last on: the loop [do ... while]. *)
Fixpoint digits_loop (left : nat) (x base : Z) : list Z :=
  (digits !!! Z.to_nat (x mod base)) ::
  match left with
  | O => []
  | S left' => if x / base =? 0 then [] else digits_loop left' (x / base) base
  end.

Definition printint (fd xx base : Z) (sgn : bool) : prog unit :=
  let neg := sgn && (xx <? 0) in
  if neg && (xx =? - 2 ^ 31) then undefined "printint: overflow"
  else
    let x := if neg then - xx else u32 xx in
    let buf := digits_loop 15 x base in
    let buf := if neg then buf ++ [45] else buf in
    puts fd (rev buf).

(** An argument: a word, or a pointer to a string or null. *)
Inductive parg := PInt (x : Z) | PStr (s : list Z) | PNull.

Fixpoint printf_loop (fd : Z) (fmt : list Z) (state : bool) (ap : list parg) : prog unit :=
  match fmt with
  | [] => mret tt
  | c :: fmt' =>
      if negb state then
        if c =? 37 then printf_loop fd fmt' true ap
        else putc fd c ;; printf_loop fd fmt' false ap
      else if c =? 100 then
        match ap with PInt x :: ap' => printint fd x 10 true ;; printf_loop fd fmt' false ap' | _ => undefined "printf: argument" end
      else if (c =? 120) || (c =? 112) then
        match ap with PInt x :: ap' => printint fd x 16 false ;; printf_loop fd fmt' false ap' | _ => undefined "printf: argument" end
      else if c =? 115 then
        match ap with
        | PStr s :: ap' => puts fd s ;; printf_loop fd fmt' false ap'
        | PNull :: ap' => puts fd (lit "(null)") ;; printf_loop fd fmt' false ap'
        | _ => undefined "printf: argument"
        end
      else if c =? 99 then
        match ap with PInt x :: ap' => putc fd (u8 x) ;; printf_loop fd fmt' false ap' | _ => undefined "printf: argument" end
      else if c =? 37 then putc fd c ;; printf_loop fd fmt' false ap
      else putc fd 37 ;; putc fd c ;; printf_loop fd fmt' false ap
  end.

Definition printf (fd : Z) (fmt : string) (ap : list parg) : prog unit := printf_loop fd (lit fmt) false ap.

#[global] Arguments printf : simpl never.

(** ** What is printed *)
Definition number (xx base : Z) (sgn : bool) : list Z :=
  if sgn && (xx <? 0) then 45 :: rev (digits_loop 15 (- xx) base) else rev (digits_loop 15 (u32 xx) base).

(** The bytes for a format; [None] if an argument is missing or of the wrong kind, or is the
    least [int]. *)
Fixpoint format (fmt : list Z) (state : bool) (ap : list parg) : option (list Z) :=
  match fmt with
  | [] => Some []
  | c :: fmt' =>
      if negb state then (if c =? 37 then format fmt' true ap else cons c <$> format fmt' false ap)
      else
        match decide (c = 100), decide (c = 120 \/ c = 112), decide (c = 115), decide (c = 99), decide (c = 37), ap with
        | left _, _, _, _, _, PInt x :: ap' => if bool_decide (x = - 2 ^ 31) then None else app (number x 10 true) <$> format fmt' false ap'
        | right _, left _, _, _, _, PInt x :: ap' => app (number x 16 false) <$> format fmt' false ap'
        | right _, right _, left _, _, _, PStr s :: ap' => app s <$> format fmt' false ap'
        | right _, right _, left _, _, _, PNull :: ap' => app (lit "(null)") <$> format fmt' false ap'
        | right _, right _, right _, left _, _, PInt x :: ap' => cons (u8 x) <$> format fmt' false ap'
        | right _, right _, right _, right _, left _, _ => cons 37 <$> format fmt' false ap
        | right _, right _, right _, right _, right _, _ => app [37; c] <$> format fmt' false ap
        | _, _, _, _, _, _ => None
        end
  end.

Section printing.
Context (X : ending -> os -> Prop) (fd : Z).

Lemma wp_putc (Q : unit -> os -> Prop) c s : terminal fd s -> Q tt (print [c] s) -> wp Q X (putc fd c) s.
Proof. intros Ht HQ. apply wp_bind, wp_print; [done|]. by apply wp_ret. Qed.

Lemma wp_puts (Q : unit -> os -> Prop) l : forall s, terminal fd s -> Q tt (print l s) -> wp Q X (puts fd l) s.
Proof.
  induction l as [|c l IH]; intros s Ht HQ; [apply wp_ret; by rewrite print_nil in HQ|].
  apply wp_bind, wp_putc; [done|]. apply IH; [done|]. by rewrite print_print.
Qed.

Lemma wp_printint (Q : unit -> os -> Prop) x base sgn s : terminal fd s -> sgn && (x =? - 2 ^ 31) = false ->
  Q tt (print (number x base sgn) s) -> wp Q X (printint fd x base sgn) s.
Proof.
  intros Ht Hx HQ. unfold printint, number in *. destruct (sgn && (x <? 0)) eqn:E; cbn [andb].
  - destruct sgn; [|done]. cbn in Hx. rewrite Hx. apply wp_puts; [done|]. by rewrite rev_app_distr.
  - by apply wp_puts.
Qed.

Lemma wp_printf_loop (Q : unit -> os -> Prop) fmt : forall state ap l s, terminal fd s -> format fmt state ap = Some l ->
  Q tt (print l s) -> wp Q X (printf_loop fd fmt state ap) s.
Proof.
  induction fmt as [|c fmt IH]; intros state ap l s Ht Hf HQ; cbn [printf_loop format] in *; simplify_eq.
  { apply wp_ret. by rewrite print_nil in HQ. }
  destruct state; cbn [negb] in *.
  2:{ destruct (c =? 37); [by eapply IH|]. apply fmap_Some in Hf as (l' & Hf & ->). apply wp_bind, wp_putc; [done|].
      eapply IH; [done|done|]. by rewrite print_print. }
  destruct (decide (c = 100)) as [->|H1]; cbn [Z.eqb Pos.eqb orb].
  { destruct ap as [|[x| |] ap]; try done. case_bool_decide as Ex; [done|]. apply fmap_Some in Hf as (l' & Hf & ->).
    apply wp_bind, wp_printint; [done|by apply Z.eqb_neq|]. eapply IH; [done|done|]. by rewrite print_print. }
  rewrite (proj2 (Z.eqb_neq c 100)) by done.
  destruct (decide (c = 120 \/ c = 112)) as [H2|H2].
  { assert ((c =? 120) || (c =? 112) = true) as -> by (apply orb_true_iff; by rewrite !Z.eqb_eq).
    destruct ap as [|[x| |] ap]; try done. apply fmap_Some in Hf as (l' & Hf & ->). apply wp_bind, wp_printint; [done|done|].
    eapply IH; [done|done|]. by rewrite print_print. }
  assert ((c =? 120) || (c =? 112) = false) as -> by (apply orb_false_iff; rewrite !Z.eqb_neq; tauto).
  destruct (decide (c = 115)) as [->|H3]; cbn [Z.eqb Pos.eqb].
  { destruct ap as [|[x|t|] ap]; try done; apply fmap_Some in Hf as (l' & Hf & ->); apply wp_bind, wp_puts; try done;
      (eapply IH; [done|done|]; by rewrite print_print). }
  rewrite (proj2 (Z.eqb_neq c 115)) by done. destruct (decide (c = 99)) as [->|H4]; cbn [Z.eqb Pos.eqb].
  { destruct ap as [|[x| |] ap]; try done. apply fmap_Some in Hf as (l' & Hf & ->). apply wp_bind, wp_putc; [done|].
    eapply IH; [done|done|]. by rewrite print_print. }
  rewrite (proj2 (Z.eqb_neq c 99)) by done. destruct (decide (c = 37)) as [->|H5]; cbn [Z.eqb Pos.eqb].
  { apply fmap_Some in Hf as (l' & Hf & ->). apply wp_bind, wp_putc; [done|]. eapply IH; [done|done|]. by rewrite print_print. }
  rewrite (proj2 (Z.eqb_neq c 37)) by done. apply fmap_Some in Hf as (l' & Hf & ->).
  apply wp_bind, wp_putc; [done|]. apply wp_bind, wp_putc; [done|]. eapply IH; [done|done|]. by rewrite !print_print.
Qed.

Lemma wp_printf (Q : unit -> os -> Prop) fmt ap l s : terminal fd s -> format (lit fmt) false ap = Some l ->
  Q tt (print l s) -> wp Q X (printf fd fmt ap) s.
Proof. apply wp_printf_loop. Qed.
End printing.

(** Computes the format of a literal. *)
Ltac formats :=
  repeat match goal with |- context [lit ?s] => let x := eval vm_compute in (lit s) in change (lit s) with x end;
  cbn -[number bool_decide Z.pow]; rewrite ?bool_decide_false by lia; cbn -[number]; rewrite ?app_nil_r; reflexivity.

(** ** Reading numbers back *)
Lemma digit_ten d : 0 <= d < 10 -> digits !!! Z.to_nat d = 48 + d.
Proof.
  intros Hd. assert (d = 0 \/ d = 1 \/ d = 2 \/ d = 3 \/ d = 4 \/ d = 5 \/ d = 6 \/ d = 7 \/ d = 8 \/ d = 9) as Hc by lia.
  destruct Hc as [->|[->|[->|[->|[->|[->|[->|[->|[->| ->]]]]]]]]]; reflexivity.
Qed.

Lemma atoi_digits left : forall x rest, 0 <= x -> x + 48 < 2 ^ 31 -> x < 10 ^ Z.of_nat (S left) ->
  atoi_loop (rev (digits_loop left x 10) ++ rest) 0 = atoi_loop rest x.
Proof.
  induction left as [|left IH]; intros x rest H0 Hx Hl; cbn [digits_loop rev]; rewrite <- (assoc_L (++)); cbn [app];
    pose proof (Z.mod_pos_bound x 10 ltac:(lia)) as Hm; rewrite digit_ten by done; set (d := x mod 10) in *.
  - change (10 ^ Z.of_nat 1) with 10 in Hl. cbn [rev app atoi_loop]. assert (x = d) by (unfold d; dlia).
    rewrite (proj2 (Z.leb_le 48 _)), (proj2 (Z.leb_le _ 57)), (proj2 (Z.ltb_lt _ _)) by lia. cbn [andb]. f_equal. lia.
  - assert (x = 10 * (x / 10) + d) as E by (unfold d; dlia).
    assert (atoi_loop (48 + d :: rest) (x / 10) = atoi_loop rest x) as Hs.
    { cbn [atoi_loop]. rewrite (proj2 (Z.leb_le 48 _)), (proj2 (Z.leb_le _ 57)), (proj2 (Z.ltb_lt _ _)) by lia. cbn [andb]. f_equal. lia. }
    destruct (Z.eqb_spec (x / 10) 0) as [Hz|Hz]; [cbn [rev app]; by rewrite Hz in Hs|].
    rewrite IH; [done|dlia|dlia|]. rewrite Nat2Z.inj_succ, Z.pow_succ_r in Hl by lia. dlia.
Qed.

Lemma atoi_number x : 0 <= x -> x + 48 < 2 ^ 31 -> atoi_loop (number x 10 true) 0 = Some x.
Proof.
  intros H0 Hx. unfold number. rewrite (proj2 (Z.ltb_ge _ _)) by done. cbn [andb]. unfold u32. rewrite Z.mod_small by lia.
  rewrite <- (app_nil_r (rev _)). rewrite atoi_digits; [done|done|done|]. change (10 ^ Z.of_nat 16) with 10000000000000000. lia.
Qed.

(** C25. Numbers survive printing and reading: what [printf] prints for an [int] that is not
    negative, [atoi] reads as the same number, without overflow; the numbers above 2147483599,
    for which its sum overflows before the subtraction, are excepted. *)
Theorem printf_atoi_roundtrip fd n s : terminal fd s -> 0 <= n < 2 ^ 31 - 48 ->
  wp (fun _ s' => exists l, s' = print l s /\ forall s'', wp (fun r s3 => r = n /\ s3 = s'') (fun _ _ => False) (atoi l) s'')
    (fun _ _ => False) (printf fd "%d" [PInt n]) s.
Proof.
  intros Ht Hn. assert (format (lit "%d") false [PInt n] = Some (number n 10 true)) as E by formats.
  eapply wp_printf; [done|exact E|]. exists (number n 10 true). split; [done|]. intros s''. unfold atoi. rewrite atoi_number by lia. by apply wp_ret.
Qed.

Definition demo_os : os :=
  mkOs ∅ ∅ ∅ {[0 := mkDesc Console 0 true true; 1 := mkDesc Console 0 true true; 2 := mkDesc Console 0 true true]} {[0%nat := O]} [] [] [].

Lemma demo_terminal : terminal 1 demo_os.
Proof. by exists (mkDesc Console 0 true true). Qed.

Lemma printf_atoi_roundtrip_witness :
  wp (fun _ s' => exists l, s' = print l demo_os /\ forall s'', wp (fun r s3 => r = 1234 /\ s3 = s'') (fun _ _ => False) (atoi l) s'')
    (fun _ _ => False) (printf 1 "%d" [PInt 1234]) demo_os.
Proof. apply (printf_atoi_roundtrip 1 1234 demo_os demo_terminal). lia. Defined.

(** [memmove] is wrong when the areas overlap and the destination is behind the source. *)
Lemma memmove_overlap : let m := memmove (fun a => a mod 256) 101 100 2 in m 101 = 100 /\ m 102 <> 101.
Proof. vm_compute. done. Qed.
