(* ===== verification/Utils.v ===== *)
(** * Utils: the small user programs (cat.c, wc.c, head.c, cp.c, echo.c, ls.c, ...)

    Each [main] takes the arguments [argv], the program's name first.  The programs are proved
    against every behaviour of the system calls: how [read] cuts what it delivers into
    pieces makes no difference to the output. *)
From stdpp Require Import base list gmap strings.
From Stdlib Require Import ZArith Lia.
From ITree Require Import ITree.
From S2P Require Import Prelude Mem User Ulib.
Local Open Scope Z_scope.

Definition BUFSZ : Z := 512.
Definition first (s : list Z) : option Z := s !! 0%nat.
Definition STDIN : list Z := lit "_stdin".

(** ** cat.c *)
Definition cat (fd : Z) : prog unit :=
  n ← loop (fun _ : unit =>
        r ← call (Read fd BUFSZ) ;
        let '(n, buf) := r in
        if 0 <? n then
          w ← call (Write 1 buf) ;
          if negb (w =? n) then printf 1 "cat: write error\n" [] ;; exit else mret (inl tt)
        else mret (inr n)) tt ;
  if n <? 0 then printf 1 "cat: read error\n" [] ;; exit else mret tt.

Fixpoint cat_files (argv : list (list Z)) : prog unit :=
  match argv with
  | [] => mret tt
  | a :: argv' =>
      fd ← call (Open a 0) ;
      if fd <? 0 then printf 1 "cat: cannot open %s\n" [PStr a] ;; exit
      else
        cat fd ;;
        call (Close fd) ;;
        cat_files argv'
  end.

Definition cat_main (argv : list (list Z)) : prog unit :=
  match argv with
  | _ :: (_ :: _) as args => cat_files args ;; exit
  | _ => cat 0 ;; exit
  end.

(** ** wc.c *)
Record counts := mkCounts { c_lines : Z; c_words : Z; c_chars : Z; c_inword : bool }.

(** The counters are [int]s. *)
Definition incr (x : Z) : option Z := if x + 1 <? 2 ^ 31 then Some (x + 1) else None.

Definition wc_char (x : counts) (c : Z) : option counts :=
  chars ← incr (c_chars x) ;
  lines ← (if c =? 10 then incr (c_lines x) else Some (c_lines x)) ;
  match strchr [32; 13; 9; 10; 11] c with
  | Some _ => Some (mkCounts lines (c_words x) chars false)
  | None =>
      if c_inword x then Some (mkCounts lines (c_words x) chars true)
      else words ← incr (c_words x) ; Some (mkCounts lines words chars true)
  end.

Fixpoint wc_buf (x : counts) (buf : list Z) : option counts :=
  match buf with
  | [] => Some x
  | c :: buf' => x ← wc_char x c ; wc_buf x buf'
  end.

Definition wc (fd : Z) (name : list Z) : prog unit :=
  r ← loop (fun x : counts =>
        r ← call (Read fd BUFSZ) ;
        let '(n, buf) := r in
        if 0 <? n then
          match wc_buf x buf with
          | Some x => mret (inl x)
          | None => undefined "wc: overflow"
          end
        else mret (inr (n, x))) (mkCounts 0 0 0 false) ;
  let '(n, x) := r in
  if n <? 0 then printf 1 "wc: read error\n" [] ;; exit
  else printf 1 "%d %d %d %s\n" [PInt (c_lines x); PInt (c_words x); PInt (c_chars x); PStr name].

Fixpoint wc_files (argv : list (list Z)) : prog unit :=
  match argv with
  | [] => mret tt
  | a :: argv' =>
      fd ← call (Open a 0) ;
      if fd <? 0 then printf 1 "wc: cannot open %s\n" [PStr a] ;; exit
      else
        wc fd a ;;
        call (Close fd) ;;
        wc_files argv'
  end.

Definition wc_main (argv : list (list Z)) : prog unit :=
  match argv with
  | _ :: (_ :: _) as args => wc_files args ;; exit
  | _ => wc 0 [] ;; exit
  end.

(** ** head.c *)
Definition print_help : prog unit :=
  printf 1 "Usage: head [OPTION]... [FILE]...\nPrint the first 10 lines of each FILE to standard output.\nWith more than one FILE, precede each with a header giving the filename.\nPossible arguments are:\n\t-c NUM\t\tprint the first NUM bytes of each file;\n\t-n NUM\t\tprint the first NUM lines of each file;\n\t-q\t\tquiet, never print headers giving file names;\n\t-v\t\tverbose, print headers giving file names;\n" [] ;;
  exit.

Definition print_version : prog unit := printf 1 "head for xv6 1.0\nWritten by Nicolo' Gasparini\n" [] ;; exit.

Definition error_head {A} (err : Z) (s : parg) : prog A :=
  (if err =? 0 then printf 2 "head: syntax error\n" []
   else if err =? 1 then printf 2 "head: invalid option %s\nTry 'head --help' for more information\n" [s]
   else if err =? 2 then printf 2 "head: syntax error, expected at least one argument\n" []
   else if err =? 3 then printf 2 "head: invalid number of lines: %s\n" [s]
   else if err =? 4 then printf 2 "head: invalid number of bytes: %s\n" [s]
   else if err =? 5 then printf 2 "head: read error\n" []
   else if err =? 6 then printf 2 "head: cannot open '%s' for reading: No such file or directory\n" [s]
   else printf 2 "head: error\n" []) ;;
  exit.

(** The inner loop: [l] is the number of lines or bytes so far. *)
Fixpoint head_buf (buf : list Z) (l n moden : Z) : prog Z :=
  match buf with
  | [] => mret l
  | c :: buf' =>
      if l <? n then
        printf 1 "%c" [PInt c] ;;
        head_buf buf' (if (c =? 10) && negb (moden =? 2) then l + 1 else if moden =? 2 then l + 1 else l) n moden
      else mret l
  end.

Definition head (fn : list Z) (n mode moden : Z) : prog unit :=
  fd ← (if strcmp fn STDIN =? 0 then mret 0
        else
          fd ← call (Open fn 0) ;
          if fd <? 0 then error_head 6 (PStr fn) else mret fd) ;
  (if mode =? 2 then printf 1 "==> %s <==\n" [PStr fn] else mret tt) ;;
  r ← loop (fun l : Z =>
        r ← call (Read fd BUFSZ) ;
        let '(r, buf) := r in
        if (0 <? r) && (l <? n) then l ← head_buf buf l n moden ; mret (inl l) else mret (inr r)) 0 ;
  if r <? 0 then call (Close fd) ;; error_head 5 PNull
  else call (Close fd) ;; mret tt.

(** [args] are the arguments from [argv[i]] on; behind the last is a null pointer. *)
Fixpoint head_args (args : list (list Z)) (mode moden n : Z) : prog unit :=
  match args with
  | [] => exit
  | a :: args' =>
      buf ← strcpy BUFSZ a ;
      match buf with
      | 45 :: opt =>
          match opt with
          | 110 :: _ | 99 :: _ =>
              match args' with
              | [] => undefined "atoi of a null pointer"
              | x :: args'' =>
                  let lines := bool_decide (opt !! 0%nat = Some 110) in
                  v ← atoi x ;
                  (if v =? 0 then error_head (if lines then 3 else 4) (PStr x) else mret tt) ;;
                  n ← atoi x ;
                  head_args args'' mode (if lines then 1 else 2) n
              end
          | 118 :: _ => head_args args' 2 moden n
          | 113 :: _ => head_args args' 1 moden n
          | 45 :: c =>
              (if strcmp c (lit "version") =? 0 then print_version
               else if strcmp c (lit "help") =? 0 then print_help
               else error_head 1 (PStr a)) ;;
              head_args args' mode moden n
          | _ => error_head 1 (PStr a)
          end
      | _ =>
          let more := negb (bool_decide (args' = [])) in
          let mode := if more && (mode =? 0) then 2 else mode in
          head a n mode moden ;;
          (if more then printf 1 "\n" [] else mret tt) ;;
          head_args args' mode moden n
      end
  end.

Definition head_main (argv : list (list Z)) : prog unit :=
  match argv with
  | _ :: (_ :: _) as args => head_args args 0 0 10
  | _ => head STDIN 10 0 0 ;; exit
  end.

(** ** cp.c *)
Inductive cp_mode := MODE_INTERACTIVE | MODE_FORCE | MODE_NOCLOBBER.

Definition cp_usage : prog unit :=
  printf 1 "用法: cp [-f|-i|-n] 源文件 目标文件\n" [] ;;
  printf 1 "  -f  强制覆盖，不提示\n" [] ;;
  printf 1 "  -i  覆盖前询问（默认）\n" [] ;;
  printf 1 "  -n  不覆盖已存在的文件\n" [].

(** The mode and the arguments behind the option. *)
Definition cp_options (argv : list (list Z)) : prog (cp_mode * list (list Z)) :=
  match argv with
  | _ :: a :: args =>
      if bool_decide (first a = Some 45) then
        if strcmp a (lit "-f") =? 0 then mret (MODE_FORCE, args)
        else if strcmp a (lit "-i") =? 0 then mret (MODE_INTERACTIVE, args)
        else if strcmp a (lit "-n") =? 0 then mret (MODE_NOCLOBBER, args)
        else
          printf 1 "cp: 无效的选项 '%s'\n" [PStr a] ;;
          cp_usage ;;
          exit
      else mret (MODE_INTERACTIVE, a :: args)
  | _ => mret (MODE_INTERACTIVE, [])
  end.

(** Step 4: what to do about a target that exists. *)
Definition cp_confirm (mode : cp_mode) (fd_source : Z) (target_file : list Z) : prog unit :=
  match mode with
  | MODE_NOCLOBBER =>
      printf 1 "cp: 目标文件 '%s' 已存在，不覆盖（使用 -n 选项）\n" [PStr target_file] ;;
      call (Close fd_source) ;;
      exit
  | MODE_INTERACTIVE =>
      printf 1 "cp: 目标文件 '%s' 已存在，是否覆盖? (y/n): " [PStr target_file] ;;
      r ← call (Read 0 2) ;
      let '(n, response) := r in
      if n <=? 0 then
        printf 1 "cp: 读取用户输入失败\n" [] ;;
        call (Close fd_source) ;;
        exit
      else if negb (bool_decide (first response = Some 121)) && negb (bool_decide (first response = Some 89)) then
        printf 1 "cp: 操作已取消\n" [] ;;
        call (Close fd_source) ;;
        exit
      else printf 1 "cp: 正在覆盖文件...\n" []
  | MODE_FORCE => mret tt
  end.

(** Step 7: the loop, with the result of the last [read]. *)
Definition cp_loop (fd_source fd_target : Z) (target_file : list Z) : prog Z :=
  loop (fun _ : unit =>
    r ← call (Read fd_source BUFSZ) ;
    let '(n, buf) := r in
    if 0 <? n then
      w ← call (Write fd_target buf) ;
      if negb (w =? n) then
        printf 1 "cp: 写入目标文件 %s 时发生错误\n" [PStr target_file] ;;
        call (Close fd_source) ;;
        call (Close fd_target) ;;
        exit
      else mret (inl tt)
    else mret (inr n)) tt.

Definition cp_main (argv : list (list Z)) : prog unit :=
  o ← cp_options argv ;
  let '(mode, args) := o in
  match args with
  | [source_file; target_file] =>
      fd_source ← call (Open source_file O_RDONLY) ;
      if fd_source <? 0 then printf 1 "cp: 无法打开源文件 %s\n" [PStr source_file] ;; exit
      else
        st ← stat target_file ;
        (if st.1 =? 0 then cp_confirm mode fd_source target_file else mret tt) ;;
        call (Unlink target_file) ;;
        fd_target ← call (Open target_file (Z.lor O_CREATE O_WRONLY)) ;
        if fd_target <? 0 then
          printf 1 "cp: 无法创建目标文件 %s\n" [PStr target_file] ;;
          call (Close fd_source) ;;
          exit
        else
          n ← cp_loop fd_source fd_target target_file ;
          (if n <? 0 then printf 1 "cp: 读取源文件 %s 时发生错误\n" [PStr source_file] else mret tt) ;;
          call (Close fd_source) ;;
          call (Close fd_target) ;;
          exit
  | _ => cp_usage ;; exit
  end.

(** ** echo.c, rm.c, mkdir.c, ln.c, kill.c, nice.c *)
Fixpoint echo_args (args : list (list Z)) : prog unit :=
  match args with
  | [] => mret tt
  | a :: args' =>
      printf 1 "%s%s" [PStr a; PStr (match args' with [] => [10] | _ => [32] end)] ;;
      echo_args args'
  end.

Definition echo_main (argv : list (list Z)) : prog unit := echo_args (tail argv) ;; exit.

Fixpoint rm_args (args : list (list Z)) : prog unit :=
  match args with
  | [] => mret tt
  | a :: args' =>
      r ← call (Unlink a) ;
      if r <? 0 then printf 2 "rm: %s failed to delete\n" [PStr a] else rm_args args'
  end.

Definition rm_main (argv : list (list Z)) : prog unit :=
  match argv with
  | _ :: (_ :: _) as args => rm_args args ;; exit
  | _ => printf 2 "Usage: rm files...\n" [] ;; exit
  end.

Fixpoint mkdir_args (args : list (list Z)) : prog unit :=
  match args with
  | [] => mret tt
  | a :: args' =>
      r ← call (Mkdir a) ;
      if r <? 0 then printf 2 "mkdir: %s failed to create\n" [PStr a] else mkdir_args args'
  end.

Definition mkdir_main (argv : list (list Z)) : prog unit :=
  match argv with
  | _ :: (_ :: _) as args => mkdir_args args ;; exit
  | _ => printf 2 "Usage: mkdir files...\n" [] ;; exit
  end.

Definition ln_main (argv : list (list Z)) : prog unit :=
  match argv with
  | [_; old; new] =>
      r ← call (Link old new) ;
      (if r <? 0 then printf 2 "link %s %s: failed\n" [PStr old; PStr new] else mret tt) ;;
      exit
  | _ => printf 2 "Usage: ln old new\n" [] ;; exit
  end.

Fixpoint kill_args (args : list (list Z)) : prog unit :=
  match args with
  | [] => mret tt
  | a :: args' => pid ← atoi a ; call (Kill pid) ;; kill_args args'
  end.

Definition kill_main (argv : list (list Z)) : prog unit :=
  match argv with
  | _ :: (_ :: _) as args => kill_args args ;; exit
  | _ => printf 2 "usage: kill pid...\n" [] ;; exit
  end.

Definition nice_main (argv : list (list Z)) : prog unit :=
  match argv with
  | [_; a1; a2] =>
      pid ← atoi a1 ;
      priority ← atoi a2 ;
      if (priority <? 1) || (20 <? priority) then printf 2 "nice: priority must be between 1 and 20\n" [] ;; exit
      else
        r ← call (Setpriority pid priority) ;
        (if r <? 0 then printf 2 "nice: failed to set priority (pid %d not found?)\n" [PInt pid]
         else printf 1 "nice: priority of process %d set to %d\n" [PInt pid; PInt priority]) ;;
        exit
  | _ => printf 2 "Usage: nice pid priority\n" [] ;; exit
  end.

(** ** ls.c *)
Definition DIRSIZ : nat := 14.

(** Backwards from the end to the last slash. *)
Fixpoint to_slash (l : list Z) : list Z :=
  match l with
  | c :: l' => if c =? 47 then [] else c :: to_slash l'
  | [] => []
  end.

Definition fmtname (path : list Z) : list Z :=
  let p := rev (to_slash (rev path)) in
  if Nat.leb DIRSIZ (length p) then p else p ++ replicate (DIRSIZ - length p) 32.

(** [struct dirent]: the number and the name, which ends at a zero or fills its field. *)
Definition de_inum (de : list Z) : Z := de !!! 0%nat + 256 * de !!! 1%nat.
Fixpoint upto_nul (l : list Z) : list Z :=
  match l with c :: l' => if c =? 0 then [] else c :: upto_nul l' | [] => [] end.
Definition de_name (de : list Z) : list Z := upto_nul (take DIRSIZ (drop 2 de)).

Definition ls_entry (path : list Z) (st : fstat_info) : prog unit :=
  printf 1 "%s %d %d %d\n" [PStr (fmtname path); PInt (s_type st); PInt (s_ino st); PInt (s_size st)].

Definition ls_dir (fd : Z) (path : list Z) : prog unit :=
  loop (fun _ : unit =>
    r ← call (Read fd 16) ;
    let '(n, de) := r in
    if negb (n =? 16) then mret (inr tt)
    else if de_inum de =? 0 then mret (inl tt)
    else
      let buf := path ++ [47] ++ de_name de in
      st ← stat buf ;
      (if st.1 <? 0 then printf 1 "ls: cannot stat %s\n" [PStr buf] else ls_entry buf st.2) ;;
      mret (inl tt)) tt.

Definition ls (path : list Z) : prog unit :=
  fd ← call (Open path 0) ;
  if fd <? 0 then printf 2 "ls: cannot open %s\n" [PStr path]
  else
    r ← call (Fstat fd) ;
    let '(r, st) := r in
    if r <? 0 then printf 2 "ls: cannot stat %s\n" [PStr path] ;; call (Close fd) ;; mret tt
    else
      (if s_type st =? T_FILE then ls_entry path st
       else if s_type st =? T_DIR then
         if BUFSZ <? strlen path + 1 + Z.of_nat DIRSIZ + 1 then printf 1 "ls: path too long\n" []
         else ls_dir fd path
       else mret tt) ;;
      call (Close fd) ;;
      mret tt.

Fixpoint ls_args (args : list (list Z)) : prog unit :=
  match args with
  | [] => mret tt
  | a :: args' => ls a ;; ls_args args'
  end.

Definition ls_main (argv : list (list Z)) : prog unit :=
  match argv with
  | _ :: (_ :: _) as args => ls_args args ;; exit
  | _ => ls (lit ".") ;; exit
  end.

(** ** What [wc] counts *)
Definition is_space (c : Z) : bool := bool_decide (c ∈ [32; 13; 9; 10; 11]).

(** A word begins at a character that is no space, at the start or behind a space. *)
Definition word_start (l : list Z) (i : nat) : bool :=
  match l !! i with
  | Some c => negb (is_space c) && match i with O => true | S i' => from_option is_space true (l !! i') end
  | None => false
  end.

Definition lines (l : list Z) : Z := Z.of_nat (length (filter (fun c => c = 10) l)).
Definition words (l : list Z) : Z := Z.of_nat (length (filter (fun i => word_start l i = true) (seq 0 (length l)))).

Lemma strchr_space c : match strchr [32; 13; 9; 10; 11] c with Some _ => true | None => false end = is_space c.
Proof.
  unfold is_space. cbn [strchr]. repeat case_match; symmetry; first [apply bool_decide_true|apply bool_decide_false];
    rewrite ?elem_of_cons, ?Z.eqb_eq, ?Z.eqb_neq in *; set_solver by lia.
Qed.

Lemma filter_same {A} (P1 P2 : A -> Prop) `{!forall x, Decision (P1 x), !forall x, Decision (P2 x)} (l : list A) :
  (forall x, x ∈ l -> P1 x <-> P2 x) -> filter P1 l = filter P2 l.
Proof.
  induction l as [|x l IH]; intros Hs; [done|]. rewrite !filter_cons, IH by (intros y Hy; apply Hs; by right).
  destruct (Hs x (list_elem_of_here _ _)). repeat case_decide; tauto.
Qed.

Lemma words_snoc l c : words (l ++ [c]) = words l + (if word_start (l ++ [c]) (length l) then 1 else 0).
Proof.
  unfold words. rewrite length_app, Nat.add_comm. cbn [length Nat.add]. rewrite seq_S, filter_app, length_app.
  rewrite (filter_same _ (fun i => word_start l i = true) (seq 0 (length l))).
  - rewrite Nat2Z.inj_add. f_equal. rewrite filter_cons. cbn. by destruct (word_start _ _).
  - intros i Hi. apply elem_of_seq in Hi. unfold word_start. rewrite lookup_app_l by lia.
    destruct i as [|i]; [done|]. rewrite lookup_app_l by lia. done.
Qed.

(** The counts without the bound. *)
Definition count (x : counts) (c : Z) : counts :=
  mkCounts (if c =? 10 then c_lines x + 1 else c_lines x)
    (if is_space c || c_inword x then c_words x else c_words x + 1) (c_chars x + 1) (negb (is_space c)).

Lemma wc_char_count x c : 0 <= c_chars x < 2 ^ 31 - 1 -> c_lines x <= c_chars x -> c_words x <= c_chars x -> wc_char x c = Some (count x c).
Proof.
  intros H1 H2 H3. unfold wc_char, count, incr. rewrite (proj2 (Z.ltb_lt (c_chars x + 1) _)) by lia. cbn [mbind option_bind].
  rewrite (proj2 (Z.ltb_lt (c_lines x + 1) _)), (proj2 (Z.ltb_lt (c_words x + 1) _)) by lia. rewrite <- strchr_space.
  destruct (c =? 10), (strchr _ c), (c_inword x); done.
Qed.

Lemma wc_buf_count l : forall x, 0 <= c_chars x -> c_chars x + Z.of_nat (length l) < 2 ^ 31 -> c_lines x <= c_chars x -> c_words x <= c_chars x ->
  wc_buf x l = Some (foldl count x l).
Proof.
  induction l as [|c l IH]; intros x H0 H1 H2 H3; [done|]. cbn [wc_buf foldl length] in *. rewrite wc_char_count by lia. cbn [mbind option_bind].
  apply IH; unfold count; cbn; [lia|lia|case_match; lia|case_match; lia].
Qed.

Lemma wc_buf_app l1 l2 : forall x, wc_buf x (l1 ++ l2) = wc_buf x l1 ≫= fun y => wc_buf y l2.
Proof. induction l1 as [|c l1 IH]; intros x; [done|]. cbn. destruct (wc_char x c); [apply IH|done]. Qed.

Lemma wc_counts_fold l : foldl count (mkCounts 0 0 0 false) l =
  mkCounts (lines l) (words l) (Z.of_nat (length l)) (match last l with Some c => negb (is_space c) | None => false end).
Proof.
  induction l as [|c l IH] using rev_ind; [done|]. rewrite foldl_app. cbn [foldl]. rewrite IH, last_snoc, words_snoc.
  unfold count, lines. cbn [c_chars c_lines c_words c_inword]. rewrite filter_app, !length_app.
  assert (word_start (l ++ [c]) (length l) = negb (is_space c) && negb (match last l with Some c => negb (is_space c) | None => false end)) as ->.
  { unfold word_start. rewrite lookup_app_r, Nat.sub_diag by lia. cbn. f_equal. destruct l as [|x l _] using rev_ind; [done|].
    rewrite last_snoc, length_app, Nat.add_comm. cbn. rewrite lookup_app_l by (rewrite length_app; simpl; lia).
    rewrite lookup_app_r, Nat.sub_diag by lia. cbn. by rewrite negb_involutive. }
  assert (Z.of_nat (length (filter (fun c => c = 10) l) + length (filter (fun c => c = 10) [c])) =
    if c =? 10 then Z.of_nat (length (filter (fun c => c = 10) l)) + 1 else Z.of_nat (length (filter (fun c => c = 10) l))) as ->.
  { rewrite filter_cons. destruct (Z.eqb_spec c 10); [rewrite decide_True by done|rewrite decide_False by done]; cbn; lia. }
  destruct (is_space c); cbn [negb andb orb]; [f_equal; cbn; lia|]. destruct (match last l with Some _ => _ | None => _ end); cbn [negb]; f_equal; cbn; lia.
Qed.

Lemma wc_buf_counts l : Z.of_nat (length l) < 2 ^ 31 -> wc_buf (mkCounts 0 0 0 false) l =
  Some (mkCounts (lines l) (words l) (Z.of_nat (length l)) (match last l with Some c => negb (is_space c) | None => false end)).
Proof. intros Hl. by rewrite wc_buf_count, wc_counts_fold by (cbn; lia). Qed.

(** ** What [head] prints *)
Fixpoint first_lines (n : nat) (l : list Z) : list Z :=
  match l, n with
  | c :: l', S n' => c :: first_lines (if c =? 10 then n' else n) l'
  | _, _ => []
  end.

(** The first [n] bytes or lines. *)
Definition beginning (moden n : Z) (l : list Z) : list Z :=
  if moden =? 2 then take (Z.to_nat n) l else first_lines (Z.to_nat n) l.
Definition units (moden : Z) (l : list Z) : Z := if moden =? 2 then Z.of_nat (length l) else lines l.

Lemma lines_cons c l : lines (c :: l) = (if c =? 10 then 1 else 0) + lines l.
Proof. unfold lines. rewrite filter_cons. destruct (Z.eqb_spec c 10); [rewrite decide_True by done|rewrite decide_False by done]; simpl; lia. Qed.

Lemma lines_app l1 l2 : lines (l1 ++ l2) = lines l1 + lines l2.
Proof. unfold lines. rewrite filter_app, length_app. lia. Qed.

Lemma lines_nonneg l : 0 <= lines l.
Proof. unfold lines. lia. Qed.

Definition unit_of (moden c : Z) : Z := if (moden =? 2) || (c =? 10) then 1 else 0.

Lemma units_cons moden c l : units moden (c :: l) = unit_of moden c + units moden l.
Proof. unfold units, unit_of. destruct (moden =? 2); cbn [orb]; [simpl; lia|apply lines_cons]. Qed.

Lemma units_app moden l1 l2 : units moden (l1 ++ l2) = units moden l1 + units moden l2.
Proof. unfold units. destruct (moden =? 2); [rewrite length_app; lia|apply lines_app]. Qed.

Lemma beginning_nil moden m : beginning moden m [] = [].
Proof. unfold beginning. destruct (moden =? 2); [by rewrite take_nil|done]. Qed.

Lemma beginning_done moden m l : m <= 0 -> beginning moden m l = [].
Proof. intros Hm. unfold beginning. replace (Z.to_nat m) with O by lia. destruct (moden =? 2); [done|by destruct l]. Qed.

Lemma beginning_cons moden m c l : 0 < m -> beginning moden m (c :: l) = c :: beginning moden (m - unit_of moden c) l.
Proof.
  intros Hm. unfold beginning, unit_of. destruct (moden =? 2); cbn [orb].
  - replace (Z.to_nat m) with (S (Z.to_nat (m - 1))) by lia. done.
  - destruct (Z.to_nat m) as [|k] eqn:E; [lia|]. simpl. f_equal. destruct (c =? 10); f_equal; lia.
Qed.

Lemma beginning_all moden l : forall m, units moden (beginning moden m l) < m -> beginning moden m l = l.
Proof.
  induction l as [|c l IH]; intros m Hm; [apply beginning_nil|]. destruct (Z.le_gt_cases m 0).
  - rewrite beginning_done in Hm by done. unfold units, lines in Hm. destruct (moden =? 2); simpl in Hm; lia.
  - rewrite beginning_cons, units_cons in Hm by lia. rewrite beginning_cons, IH by lia. done.
Qed.

Lemma beginning_app moden l1 l2 : forall m, beginning moden m l1 = l1 -> beginning moden m (l1 ++ l2) = l1 ++ beginning moden (m - units moden l1) l2.
Proof.
  induction l1 as [|c l1 IH]; intros m Hm; cbn [app].
  - f_equal. unfold units, lines. destruct (moden =? 2); simpl; lia.
  - destruct (Z.le_gt_cases m 0); [by rewrite beginning_done in Hm|]. rewrite beginning_cons in Hm by lia. injection Hm as Hm.
    rewrite beginning_cons, IH, units_cons by (done || lia). do 3 f_equal. lia.
Qed.

Lemma beginning_stop moden l1 l2 : forall m, m <= units moden (beginning moden m l1) -> beginning moden m (l1 ++ l2) = beginning moden m l1.
Proof.
  induction l1 as [|c l1 IH]; intros m Hm; cbn [app].
  - rewrite beginning_nil in *. apply beginning_done. unfold units, lines in Hm. destruct (moden =? 2); simpl in Hm; lia.
  - destruct (Z.le_gt_cases m 0); [by rewrite !beginning_done|]. rewrite beginning_cons, units_cons in Hm by lia.
    rewrite !beginning_cons, IH by lia. done.
Qed.

(** ** What the programs do *)
Section programs.
Context (X : ending -> os -> Prop).

Lemma delivers_length n rest l : delivers n rest l -> rest = l ++ drop (length l) rest /\ (0 < n -> rest <> [] -> l <> []).
Proof.
  intros (k & -> & Hk & Hp). split.
  - rewrite length_take. destruct (decide (k <= length rest)%nat).
    + rewrite Nat.min_l by lia. by rewrite take_drop.
    + rewrite Nat.min_r by lia. rewrite take_ge, drop_ge, app_nil_r by lia. done.
  - intros Hn Hr. specialize (Hp Hn Hr). destruct rest; [done|]. by destruct k.
Qed.

Lemma delivers_nil n rest : 0 < n -> delivers n rest [] -> rest = [].
Proof. intros Hn Hd. destruct (delivers_length _ _ _ Hd) as [_ Hp]. destruct rest; [done|]. by destruct Hp. Qed.

(** A loop that reads to the end: [P] holds of the state with what has been read so far. *)
Lemma wp_read_loop {I A} (Q : A -> os -> Prop) (P : list Z -> I -> os -> Prop) fd (body : I -> Z * list Z -> prog (I + A)) rest0 :
  (forall seen i s, P seen i s -> exists rest, unread fd s = Some rest /\ rest0 = seen ++ rest) ->
  (forall seen i s, P seen i s -> seen = rest0 -> wp (fun r s' => match r with inl _ => False | inr a => Q a s' end) X (body i (0, [])) (took fd 0 s)) ->
  (forall seen i s l, P seen i s -> l <> [] -> seen ++ l `prefix_of` rest0 ->
    wp (fun r s' => match r with inl i' => P (seen ++ l) i' s' | inr a => Q a s' end) X (body i (Z.of_nat (length l), l)) (took fd (length l) s)) ->
  forall seen i s, P seen i s -> wp Q X (loop (fun i => r ← call (Read fd BUFSZ) ; body i r) i) s.
Proof.
  intros Hun Hend Hmore seen i s HP.
  apply (wp_loop X Q (fun i s => exists seen, P seen i s)
           (fun _ s => match unread fd s with Some rest => length rest | None => O end)); [|by exists seen].
  clear seen i s HP. intros i s [seen HP]. destruct (Hun _ _ _ HP) as (rest & Er & Eq). apply wp_bind.
  eapply wp_read; [done|]. intros l Hd. rewrite Er. destruct (decide (l = [])) as [->|Hne].
  - apply delivers_nil in Hd; [|done]. subst rest. rewrite app_nil_r in Eq. eapply wp_mono; [by eapply Hend|]. intros [i'|a] s' Hr; done.
  - destruct (delivers_length _ _ _ Hd) as [El _]. eapply wp_mono.
    + apply (Hmore seen i s l HP Hne). rewrite Eq, El, (assoc_L (++)). by apply prefix_app_r.
    + intros [i'|a] s' Hr; [|done]. split; [by exists (seen ++ l)|]. destruct (Hun _ _ _ Hr) as (rest' & -> & Eq').
      assert (length rest0 = length rest0) as EL by done. rewrite Eq in EL at 1. rewrite Eq' in EL. rewrite !length_app in EL.
      destruct l; [done|]. simpl in *. lia.
Qed.

(** [cat] prints what it reads. *)
Lemma cat_spec (Q : unit -> os -> Prop) fd s rest : unread fd s = Some rest -> terminal 1 s ->
  Q tt (print rest (took fd (length rest) s)) -> wp Q X (cat fd) s.
Proof.
  intros Hu Ht HQ. apply wp_bind.
  apply (wp_read_loop (fun n s' => wp Q X (if n <? 0 then printf 1 "cat: read error\n" [] ;; exit else mret tt) s')
    (fun seen _ s' => s' = print seen (took fd (length seen) s) /\ seen `prefix_of` rest) fd _ rest) with (seen := []).
  - intros seen _ s' [-> [r ->]]. exists r. split; [|done]. rewrite unread_print, (unread_took _ _ _ _ Hu). by rewrite drop_app_length.
  - intros seen _ s' [-> _] ->. cbn. apply wp_ret. apply wp_ret. by rewrite took_0.
  - intros seen _ s' l [-> _] Hne Hp. assert (0 < Z.of_nat (length l)) as Hl by (destruct l; [done|simpl; lia]). cbv beta iota.
    rewrite (proj2 (Z.ltb_lt _ _)) by done. apply wp_bind, wp_print; [by rewrite took_print; apply terminal_print, terminal_took, terminal_took|].
    rewrite Z.eqb_refl. apply wp_ret. split; [|done]. rewrite took_print, took_took, print_print, length_app. done.
  - cbn. rewrite print_nil, took_0. split; [done|apply prefix_nil].
Qed.

Lemma wc_spec (Q : unit -> os -> Prop) fd name s rest : unread fd s = Some rest -> terminal 1 s -> Z.of_nat (length rest) < 2 ^ 31 ->
  Q tt (print (number (lines rest) 10 true ++ 32 :: number (words rest) 10 true ++ 32 :: number (Z.of_nat (length rest)) 10 true ++ 32 :: name ++ [10])
         (took fd (length rest) s)) -> wp Q X (wc fd name) s.
Proof.
  intros Hu Ht Hlen HQ. apply wp_bind.
  apply (wp_read_loop _ (fun seen x s' => wc_buf (mkCounts 0 0 0 false) seen = Some x /\ s' = took fd (length seen) s /\ seen `prefix_of` rest) fd
    (fun x r => let '(n, buf) := r in if 0 <? n then match wc_buf x buf with Some x => mret (inl x) | None => undefined "wc: overflow" end
                else mret (inr (n, x))) rest) with (seen := []).
  - intros seen x s' (_ & -> & [r ->]). exists r. split; [|done]. rewrite (unread_took _ _ _ _ Hu). by rewrite drop_app_length.
  - intros seen x s' (Ex & -> & _) ->. rewrite wc_buf_counts in Ex by done. injection Ex as <-. cbn. apply wp_ret. cbv beta iota. rewrite took_0. cbn [c_lines c_words c_chars].
    eapply wp_printf; [by apply terminal_took| |exact HQ].
    assert (0 <= lines rest /\ 0 <= words rest) as [] by (unfold lines, words; lia). formats.
  - intros seen x s' l (Ex & -> & _) Hne Hp. assert (0 < Z.of_nat (length l)) as Hl by (destruct l; [done|simpl; lia]).
    rewrite (proj2 (Z.ltb_lt _ _)) by done. pose proof (wc_buf_app seen l (mkCounts 0 0 0 false)) as E. rewrite Ex in E. cbn [mbind option_bind] in E.
    rewrite wc_buf_counts in E by (apply prefix_length in Hp; lia). rewrite <- E. apply wp_ret. rewrite wc_buf_counts by (apply prefix_length in Hp; lia).
    split_and!; [done|by rewrite took_took, length_app|done].
  - split_and!; [done|by rewrite took_0|apply prefix_nil].
Qed.

Lemma head_buf_spec n moden buf : forall (Q : Z -> os -> Prop) l s, Forall (fun c => 0 <= c < 256) buf -> terminal 1 s ->
  Q (l + units moden (beginning moden (n - l) buf)) (print (beginning moden (n - l) buf) s) -> wp Q X (head_buf buf l n moden) s.
Proof.
  assert (units moden [] = 0) as E0 by (unfold units, lines; by destruct (moden =? 2)).
  induction buf as [|c buf IH]; intros Q l s Hb Ht HQ; cbn [head_buf].
  - apply wp_ret. by rewrite beginning_nil, print_nil, E0, Z.add_0_r in HQ.
  - apply Forall_cons in Hb as [Hc Hb]. destruct (Z.ltb_spec l n).
    + rewrite beginning_cons, units_cons in HQ by lia. apply wp_bind. eapply wp_printf; [done|formats|].
      change [u8 c] with [c mod 2 ^ 8]. rewrite Z.mod_small by lia.
      set (l' := if _ && _ then _ else _). assert (l' = l + unit_of moden c) as E.
      { unfold l', unit_of. destruct (moden =? 2), (c =? 10); cbn; lia. }
      rewrite E. apply IH; [done|done|]. rewrite print_print. replace (n - (l + unit_of moden c)) with (n - l - unit_of moden c) by lia.
      by rewrite <- Z.add_assoc.
    + apply wp_ret. by rewrite beginning_done, print_nil, E0, Z.add_0_r in HQ by lia.
Qed.

(** The loop of [head]. *)
Lemma head_loop_spec fd n moden (Q : Z -> os -> Prop) s rest : unread fd s = Some rest -> terminal 1 s -> Forall (fun c => 0 <= c < 256) rest ->
  (forall r k, 0 <= r -> Q r (print (beginning moden n rest) (took fd k s))) ->
  wp Q X (loop (fun l : Z =>
        r ← call (Read fd BUFSZ) ;
        let '(r, buf) := r in
        if (0 <? r) && (l <? n) then l ← head_buf buf l n moden ; mret (inl l) else mret (inr r)) 0) s.
Proof.
  intros Hu Ht Hby HQ.
  apply (wp_read_loop Q (fun seen l s' => l = units moden (beginning moden n seen) /\ s' = print (beginning moden n seen) (took fd (length seen) s) /\ seen `prefix_of` rest) fd
    (fun l r => let '(r, buf) := r in if (0 <? r) && (l <? n) then l ← head_buf buf l n moden ; mret (inl l) else mret (inr r)) rest) with (seen := []).
  - intros seen l s' (-> & -> & [r ->]). exists r. split; [|done]. rewrite unread_print, (unread_took _ _ _ _ Hu). by rewrite drop_app_length.
  - intros seen l s' (-> & -> & _) ->. apply wp_ret. rewrite took_0. by apply HQ.
  - intros seen l s' buf (-> & -> & Hs) Hne Hp. assert (0 < Z.of_nat (length buf)) as Hl by (destruct buf; [done|simpl; lia]).
    rewrite (proj2 (Z.ltb_lt _ _)) by done. cbn [andb]. rewrite took_print, took_took. destruct (Z.ltb_spec (units moden (beginning moden n seen)) n) as [Hlt|Hge].
    + apply beginning_all in Hlt as E. rewrite E in *. apply wp_bind. apply head_buf_spec.
      * destruct Hp as [r ->]. rewrite !Forall_app in Hby. apply Hby.
      * by apply terminal_print, terminal_took.
      * apply wp_ret. rewrite print_print, beginning_app, length_app by done. split_and!; [|done|done].
        by rewrite units_app.
    + apply wp_ret. destruct Hs as [r ->]. rewrite <- (beginning_stop moden seen r n Hge). apply HQ. lia.
  - rewrite beginning_nil, print_nil, took_0. split_and!; [unfold units, lines; by destruct (moden =? 2)|done|apply prefix_nil].
Qed.
End programs.

(** A file that was read and has its name is closed: only the output is left. *)
Lemma close_read (X : ending -> os -> Prop) (Q : Z -> os -> Prop) fd k f i path s l : names s !! path = Some i -> lowest (fds s) fd -> unused f s ->
  (forall r, Q r (print l s)) -> wp Q X (call (Close fd)) (print l (took fd k (opened fd f i s))).
Proof.
  intros Hi Hl Hu HQ. apply wp_close. intros r s' Hc. apply (closes_named _ _ _ (open_desc (File i) f O_RDONLY) i path) in Hc; [| |done|].
  - subst s'. rewrite closed_print, closed_took by done. apply HQ.
  - cbn [print fds]. change (fds (print l ?t)) with (fds t). rewrite fds_took. apply lookup_insert_eq.
  - change (names (print l ?t)) with (names t). by rewrite names_took.
Qed.

(** What [cat] may print for its arguments: the files in order, up to one that cannot be opened. *)
Fixpoint cat_output (files : list Z -> option (list Z)) (args : list (list Z)) (out : list Z) : Prop :=
  match args with
  | [] => out = []
  | a :: args' =>
      out = lit "cat: cannot open " ++ a ++ [10] \/
      exists c out', files a = Some c /\ out = c ++ out' /\ cat_output files args' out'
  end.

Lemma cat_files_spec (X : ending -> os -> Prop) args : forall (Q : unit -> os -> Prop) s, terminal 1 s -> Forall (plain s) args ->
  (forall out, cat_output (file s) args out -> Q tt (print out s)) -> (forall out, cat_output (file s) args out -> X Exited (print out s)) ->
  wp Q X (cat_files args) s.
Proof.
  induction args as [|a args IH]; intros Q s Ht Hp HQ HX; cbn [cat_files].
  - apply wp_ret. rewrite <- (print_nil s). by apply HQ.
  - inversion Hp; subst. apply wp_bind, wp_open_read; [done|..].
    + cbn. apply wp_bind. eapply wp_printf; [done|formats|]. apply wp_exit, HX. left. done.
    + intros fd f i Hi Hl Hu. assert (0 <= fd) as Hfd by (by destruct Hl as [[? _] _]). rewrite (proj2 (Z.ltb_ge fd 0)) by done. set (c := contents_of s i).
      apply wp_bind, (cat_spec X _ fd _ c); [apply unread_opened|by apply terminal_install|].
      assert (file s a = Some c) as Ef by (unfold file; by rewrite Hi). apply wp_bind, (close_read X _ fd _ f i a s); [done..|]. intros _.
      apply IH; [done..| |]; intros out Ho; rewrite print_print; [apply HQ|apply HX]; right; by exists c, out.
Qed.

(** [cat] prints the concatenation of the files it is given, whatever pieces [read] delivers
    them in. If one cannot be opened, it says so and stops there. Its files are closed
    again, and it changes nothing but the terminal. *)
Theorem cat_prints_files name a args s : terminal 1 s -> Forall (plain s) (a :: args) ->
  wp (fun _ _ => False) (fun e s' => e = Exited /\ exists out, cat_output (file s) (a :: args) out /\ s' = print out s)
    (cat_main (name :: a :: args)) s.
Proof.
  intros Ht Hp. apply wp_bind, cat_files_spec; [done..| |]; intros out Ho; [apply wp_exit|]; split; [done|by exists out|done|by exists out].
Qed.

(** A file with three lines. *)
Definition demo_files : os := demo_os <| names := {[ [97] := 0%nat ]} |> <| nodes := {[ 0%nat := mkNode T_FILE [104; 105; 10; 121; 111; 10; 33; 10] ]} |>.

Lemma cat_prints_files_witness :
  wp (fun _ _ => False) (fun e s' => e = Exited /\ exists out, cat_output (file demo_files) [[97]] out /\ s' = print out demo_files)
    (cat_main [[99]; [97]]) demo_files.
Proof. apply (cat_prints_files [99] [97] [] demo_files); [by exists (mkDesc Console 0 true true)|]. repeat constructor. intros i [= <-]. by eexists. Defined.

(** C22. [wc] prints the number of lines, words and bytes of what it reads, and the name. A word
    begins at a character that is not a space, at the beginning or behind a space; in
    which pieces [read] delivers the bytes does not matter.  The input is shorter than 2^31
    bytes, which the counters can count. *)
Theorem wc_counts fd name s rest : unread fd s = Some rest -> terminal 1 s -> Z.of_nat (length rest) < 2 ^ 31 ->
  wp (fun _ s' => s' = print (number (lines rest) 10 true ++ 32 :: number (words rest) 10 true ++ 32 ::
                              number (Z.of_nat (length rest)) 10 true ++ 32 :: name ++ [10]) (took fd (length rest) s))
    (fun _ _ => False) (wc fd name) s.
Proof. intros Hu Ht Hlen. by eapply wc_spec. Qed.

Lemma wc_counts_witness :
  wp (fun _ s' => printed s' = lit "1 2 8 a\n") (fun _ _ => False) (wc 0 [97]) (demo_os <| typed := lit "to  be\n " |>).
Proof.
  eapply wp_mono; [apply (wc_counts 0 [97] (demo_os <| typed := lit "to  be\n " |>) (lit "to  be\n ")); [done|by exists (mkDesc Console 0 true true)|vm_compute; reflexivity]|].
  intros [] s' ->. vm_compute. reflexivity.
Defined.

(** C21. [head] prints the first [n] lines of a file, or its first [n] bytes in byte mode, and
    closes it; if it cannot be opened, it says so on the second output and exits. *)
Theorem head_prints_beginning fn n moden s c :
  terminal 1 s -> terminal 2 s -> strcmp fn STDIN <> 0 -> plain s fn -> file s fn = Some c -> Forall (fun x => 0 <= x < 256) c ->
  wp (fun _ s' => s' = print (beginning moden n c) s)
    (fun e s' => e = Exited /\ s' = print (lit "head: cannot open '" ++ fn ++ lit "' for reading: No such file or directory\n") s)
    (head fn n 0 moden) s.
Proof.
  intros Ht Ht2 Hfn Hp Hc Hby. unfold head. rewrite (proj2 (Z.eqb_neq _ 0)) by done. apply wp_bind, wp_bind, wp_open_read; [done|..].
  - cbn. apply wp_bind. eapply wp_printf; [done|formats|]. apply wp_exit. split; [done|]. f_equal.
  - intros fd f i Hi Hl Hu. assert (0 <= fd) as Hfd by (by destruct Hl as [[? _] _]). rewrite (proj2 (Z.ltb_ge fd 0)) by done. apply wp_ret.
    unfold file in Hc. rewrite Hi in Hc. injection Hc as <-. cbn [Z.eqb]. apply wp_bind, wp_ret, wp_bind.
    apply (head_loop_spec _ fd n moden _ _ (contents_of s i)); [apply unread_opened|by apply terminal_install|done|].
    intros r k Hr. rewrite (proj2 (Z.ltb_ge r 0)) by done. apply wp_bind, (close_read _ _ fd k f i fn s); [done..|]. intros _. by apply wp_ret.
Qed.

Lemma head_prints_beginning_witness :
  wp (fun _ s' => printed s' = lit "hi\nyo\n") (fun e _ => e = Exited) (head [97] 2 0 1) demo_files.
Proof.
  eapply wp_weaken; [eapply wp_mono|].
  { apply (head_prints_beginning [97] 2 1 demo_files [104; 105; 10; 121; 111; 10; 33; 10]);
        [by exists (mkDesc Console 0 true true)|by exists (mkDesc Console 0 true true)|done|by intros i [= <-]; eexists|done|repeat constructor; lia]. }
  - intros [] s' ->. vm_compute. reflexivity.
  - by intros e s' [-> _].
Defined.

(** ** cp

    While a copy is made: [fd] reads the file [i] at [a], [td] writes the new file [j] at [b],
    which holds [w] so far; [f] and [g] are the open files. *)
Definition copying (s : os) (fd td : Z) (f g i j a b : nat) (w : list Z) : os :=
  s <| nodes ::= <[j := mkNode T_FILE w]> |>
    <| fds ::= (fun m => <[td := mkDesc (File j) g false true]> (<[fd := mkDesc (File i) f true false]> m)) |>
    <| offs ::= (fun o => <[g := b]> (<[f := a]> o)) |>.

Section copying.
Context (X : ending -> os -> Prop) (s : os) (fd td : Z) (f g i j : nat).
Context (Hfd : fds s !! fd = None) (Htd : fds s !! td = None) (Hne : fd <> td) (Hfg : f <> g) (Hij : i <> j).

Lemma copying_source a b w : fds (copying s fd td f g i j a b w) !! fd = Some (mkDesc (File i) f true false).
Proof. cbn. by rewrite lookup_insert_ne, lookup_insert_eq. Qed.

Lemma copying_target a b w : fds (copying s fd td f g i j a b w) !! td = Some (mkDesc (File j) g false true).
Proof. cbn. by rewrite lookup_insert_eq. Qed.

Lemma copying_unread a b w : unread fd (copying s fd td f g i j a b w) = Some (drop a (contents_of s i)).
Proof.
  unfold unread. rewrite copying_source. cbn [d_read d_dev d_file]. cbn [copying offs]. cbn. rewrite lookup_insert_ne, lookup_insert_eq by done. cbn.
  unfold contents_of. cbn. by rewrite lookup_insert_ne.
Qed.

Lemma copying_took a b w k : took fd k (copying s fd td f g i j a b w) = copying s fd td f g i j (a + k) b w.
Proof.
  unfold took. rewrite copying_source. cbn [d_dev d_file]. apply os_eq; try done. cbn. rewrite alter_insert_ne by congruence.
  by rewrite alter_insert_eq.
Qed.

Lemma copying_write a b w l : b = length w ->
  advance g (length l) (write_node j b l (copying s fd td f g i j a b w)) = copying s fd td f g i j a (b + length l) (w ++ l).
Proof.
  intros ->. apply os_eq; try done; cbn; rewrite alter_insert_eq; [|done]. unfold overwrite. cbn.
  by rewrite firstn_all, (drop_ge w), app_nil_r by lia.
Qed.

Lemma copying_terminal a b w : terminal 1 s -> terminal 1 (copying s fd td f g i j a b w).
Proof. intros (d & E & H). exists d. split; [|done]. cbn. rewrite !lookup_insert_ne by congruence. done. Qed.

(** Both are closed. Files that have not lost their names are still there. *)
Lemma wp_close_both {A} (Q : A -> os -> Prop) a b w l :
  (forall s', fds s' = fds s -> names s' = names s -> printed s' = printed s ++ l ->
    (forall k x, nodes (copying s fd td f g i j a b w) !! k = Some x -> k ∉ orphans s -> nodes s' !! k = Some x) -> X Exited s') ->
  wp Q X (call (Close fd) ;; call (Close td) ;; exit) (print l (copying s fd td f g i j a b w)).
Proof.
  intros HX. apply wp_bind, wp_close. intros _ s1 C1. apply wp_bind, wp_close. intros _ s2 C2. apply wp_exit.
  destruct (closes_frame _ _ _ C1) as (F1 & N1 & O1 & P1 & _), (closes_frame _ _ _ C2) as (F2 & N2 & O2 & P2 & _). apply HX.
  - rewrite F2, F1. cbn. rewrite delete_insert_ne by congruence. rewrite !delete_insert_eq by done. by rewrite !delete_id by (rewrite ?lookup_delete_ne; done).
  - by rewrite N2, N1.
  - by rewrite P2, P1.
  - intros k x Hx Hk. eapply closes_nodes; [done| |left; by rewrite O1]. eapply closes_nodes; [done|done|by left].
Qed.

(** The loop copies the file, or writes less and prints a message. *)
Lemma cp_loop_spec (Q : Z -> os -> Prop) target_file : terminal 1 s ->
  (forall w l a b s', l <> [] -> fds s' = fds s -> names s' = names s -> printed s' = printed s ++ l ->
    (forall k x, nodes (copying s fd td f g i j a b w) !! k = Some x -> k ∉ orphans s -> nodes s' !! k = Some x) -> X Exited s') ->
  (forall a, Q 0 (copying s fd td f g i j a a (contents_of s i))) ->
  wp Q X (cp_loop fd td target_file) (copying s fd td f g i j 0 0 []).
Proof.
  intros Ht HX HQ.
  apply (wp_read_loop X Q (fun seen _ s' => s' = copying s fd td f g i j (length seen) (length seen) seen /\ seen `prefix_of` contents_of s i) fd _
           (contents_of s i)) with (seen := []).
  - intros seen _ s' [-> [r Er]]. exists r. split; [|done]. by rewrite copying_unread, Er, drop_app_length.
  - intros seen _ s' [-> _] ->. cbn. apply wp_ret. rewrite took_0. apply HQ.
  - intros seen _ s' l [-> _] Hl Hp. rewrite copying_took. cbv beta iota. rewrite (proj2 (Z.ltb_lt _ _)) by (destruct l; simpl in *; [done|lia]).
    apply wp_bind, wp_call; [done|..]; cbn [step]; unfold write_step; rewrite copying_target; cbn [d_write d_dev d_file].
    + eexists _, _, (length seen), (length l). split_and!; [cbn; apply lookup_insert_eq|done|by left|done].
    + intros r s' (o & k & Eo & Hk & Hr & ->). cbn in Eo. rewrite lookup_insert_eq in Eo. injection Eo as <-.
      remember (take k l) as l' eqn:El'. assert (k = length l') as Ek by (subst l'; rewrite length_take; lia).
      rewrite Ek, copying_write by done. destruct (decide (r = Z.of_nat (length l))) as [->|Hr'].
      * rewrite Z.eqb_refl. apply wp_ret. destruct Hr as [[_ ->]| ]; [|lia]. rewrite firstn_all in El'. subst l'. by rewrite length_app.
      * rewrite (proj2 (Z.eqb_neq _ _)) by done. cbn [negb]. apply wp_bind. eapply wp_printf; [by apply copying_terminal|formats|].
        apply wp_close_both. intros s' ? ? Hpr ?. eapply HX; [|done|done|exact Hpr|done]. by destruct target_file.
  - split; [done|apply prefix_nil].
Qed.
End copying.

(** [stat] leaves everything as it is. *)
Lemma wp_stat (X : ending -> os -> Prop) (Q : Z * fstat_info -> os -> Prop) path s : (forall r, Q r s) -> wp Q X (stat path) s.
Proof.
  intros HQ. apply wp_bind, wp_open; [by apply wp_ret|]. intros fd s' Hfd [[-> _]|(Hl & i & f & Hu & [(Hi & _ & ->)|(Hc & _)])]; [done| |done].
  rewrite (proj2 (Z.ltb_ge _ _)) by done. match goal with |- context [install fd ?x s] => remember x as d eqn:Ed end.
  assert (d_dev d = device_of s i /\ d_file d = f) as [Hd Hf] by (by subst d). clear Ed. assert (fds (install fd d s) !! fd = Some d) as Ed by (cbn; apply lookup_insert_eq).
  apply wp_bind, wp_call; [done|..]; cbn [step]; rewrite Ed.
  - destruct (d_dev d); first [by eexists (0, mkStat 0 0 0), _|by eexists (-1, mkStat 0 0 0), _|by eexists (0, mkStat _ 0 _), _].
  - intros r _ [-> _]. apply wp_bind, wp_close. intros _ s' Hc. apply wp_ret. enough (s' = closed fd (install fd d s)) as ->; [by rewrite closed_install by (done || by rewrite Hf)|].
    destruct (d_dev d) as [|i'|p|p|] eqn:Ei; try (eapply closes_other; [|done]; intros d' i'; rewrite Ed; intros [= <-]; by rewrite Ei).
    assert (i' = i) as -> by (unfold device_of in Hd; repeat case_match; congruence). by eapply closes_named.
Qed.

(** After [unlink], [path] leads nowhere, unless to a directory; only the file it led to may be gone, and
    not while it is open here. *)
Definition dropped (path : list Z) (s : os) (m : gmap (list Z) nat) (n : gmap nat node) (o : gset nat) : Prop :=
  (m !! path = None \/ exists i x, m !! path = Some i /\ n !! i = Some x /\ n_type x = T_DIR) /\
  (forall k x, nodes s !! k = Some x -> n_type x <> T_DIR ->
     names s !! path <> Some k \/ (exists fd d, fds s !! fd = Some d /\ d_dev d = File k) -> n !! k = Some x) /\
  (forall k, n !! k = None -> nodes s !! k = None \/ k ∈ o) /\
  (forall k, k ∈ o -> k ∈ orphans s \/ names s !! path = Some k).

Lemma relisted_refl n : relisted n n.
Proof. intros i. destruct (n !! i) as [x|] eqn:E; [|done]. by exists x. Qed.

Lemma relisted_file n n' k x : relisted n n' -> n !! k = Some x -> n_type x <> T_DIR -> n' !! k = Some x.
Proof. intros H E Hx. specialize (H k). rewrite E in H. destruct H as (y & Hy & _ & Heq). by rewrite Hy, Heq. Qed.

Lemma relisted_None n n' k : relisted n n' -> n' !! k = None -> n !! k = None.
Proof. intros H E. specialize (H k). destruct (n !! k) as [x|]; [|done]. destruct H as (y & Hy & _). congruence. Qed.

Lemma removed_dropped path i s s' : names s !! path = Some i -> removed path i s s' ->
  exists m n o, dropped path s m n o /\ s' = s <| names := m |> <| nodes := n |> <| orphans := o |>.
Proof.
  intros Hi (m & n & _ & Hm & _ & Hn & [->|[[Hnm Hfd] ->]]); exists m.
  - exists n, ({[i]} ∪ orphans s). split; [|done]. split_and!; [by left| | |].
    + intros k x Hx Ht _. by eapply relisted_file.
    + intros k Hk. left. by eapply relisted_None.
    + intros k [->%elem_of_singleton|Hk]%elem_of_union; [by right|by left].
  - exists (delete i n), ({[i]} ∪ orphans s). split; [|done]. split_and!; [by left| | |].
    + intros k x Hx Ht Hk. rewrite lookup_delete_ne; [by eapply relisted_file|]. intros ->. destruct Hk as [Hk|(fd & d & E & Ed)]; [done|]. by destruct (Hfd fd d).
    + intros k [->|Hk]%lookup_delete_None; [right; set_solver|]. left. by eapply relisted_None.
    + intros k [->%elem_of_singleton|Hk]%elem_of_union; [by right|by left].
Qed.

Lemma kept_dropped path s : (names s !! path = None \/ exists i x, names s !! path = Some i /\ nodes s !! i = Some x /\ n_type x = T_DIR) ->
  dropped path s (names s) (nodes s) (orphans s).
Proof. intros H. split_and!; [done|by intros k x Hx _ _|by left|by left]. Qed.

Lemma wp_unlink (X : ending -> os -> Prop) (Q : Z -> os -> Prop) path s :
  (forall r m n o, dropped path s m n o -> Q r (s <| names := m |> <| nodes := n |> <| orphans := o |>)) -> wp Q X (call (Unlink path)) s.
Proof.
  intros HQ. assert (s <| names := names s |> <| nodes := nodes s |> <| orphans := orphans s |> = s) as Es by (by apply os_eq). apply wp_call; [done|..]; cbn.
  - destruct (names s !! path) as [i|] eqn:E; [|by eexists (-1), _]. eexists 0, _. right. split; [done|]. exists (delete path (names s)), (nodes s).
    split_and!; [apply delete_subseteq|apply lookup_delete_eq| |apply relisted_refl|by left].
    intros p k Hp [->|Hk]%lookup_delete_None; [left|]; congruence.
  - intros r s'. destruct (names s !! path) as [i|] eqn:E.
    + intros [(-> & Ht & ->)|(-> & Hr)].
      * rewrite <- Es. apply HQ, kept_dropped. right. unfold type_of in Ht. destruct (nodes s !! i) as [x|] eqn:Ex; [|done]. by exists i, x.
      * apply removed_dropped in Hr as (m & n & o & Hd & ->); [|done]. by apply HQ.
    + intros [-> ->]. rewrite <- Es. apply HQ, kept_dropped. by left.
Qed.

Lemma printed_more l s s' : printed s' = printed s ++ l -> l <> [] -> printed s' <> printed s.
Proof. intros -> Hl E. apply Hl, (app_inv_head (printed s)). by rewrite app_nil_r. Qed.

(** [open] where no file is there but perhaps a directory: a new one. *)
Lemma created_file path mode s fd s' : 0 <= fd -> Z.land mode O_CREATE <> 0 ->
  (names s !! path = None \/ exists i x, names s !! path = Some i /\ nodes s !! i = Some x /\ n_type x = T_DIR) -> open_step path mode s fd s' ->
  exists i f s1, lowest (fds s) fd /\ unused f s /\ created path i (mkNode T_FILE []) s s1 /\ s' = install fd (open_desc (File i) f mode) s1.
Proof.
  intros Hfd Hm Hn [[-> _]|(Hl & i & f & Hu & [(Hi & [Hf _] & _)|(_ & s1 & Hc & ->)])]; [done| |by exists i, f, s1].
  specialize (Hf Hm). destruct Hn as [Hn|(i' & x & Hi' & Hx & Ht)]; [congruence|]. assert (i' = i) as -> by congruence.
  unfold type_of in Hf. rewrite Hx in Hf. cbn in Hf. by rewrite Ht in Hf.
Qed.

(** The name leads to a regular file with these contents. *)
Definition regular (s : os) (path : list Z) (data : list Z) : Prop := exists i, names s !! path = Some i /\ nodes s !! i = Some (mkNode T_FILE data).

Lemma regular_plain s path data : regular s path data -> plain s path.
Proof. intros (i & Hi & Hx) i' Hi'. assert (i' = i) as -> by congruence. by exists (mkNode T_FILE data). Qed.

(** What [cp] leaves: its descriptors as they were, all files but directories and the old target. *)
Definition spared (target : list Z) (s s' : os) : Prop :=
  fds s' = fds s /\ forall k x, nodes s !! k = Some x -> n_type x <> T_DIR -> names s !! target <> Some k -> nodes s' !! k = Some x.

Section cp.
Context (target : list Z) (data : list Z) (s : os) (fd : Z) (f i : nat).
Context (Hnone : orphans s = ∅) (Hx : nodes s !! i = Some (mkNode T_FILE data)) (Hl : lowest (fds s) fd) (Hu : unused f s) (Ht : terminal 1 s).

Definition cp_result (e : ending) (s' : os) : Prop :=
  e = Exited /\ spared target s s' /\
  (printed s' = printed s -> exists j, nodes s !! j = None /\ names s' !! target = Some j /\ nodes s' !! j = Some (mkNode T_FILE data)).

Lemma dropped_kept m n o k x : dropped target (opened fd f i s) m n o -> nodes s !! k = Some x -> n_type x <> T_DIR -> names s !! target <> Some k ->
  n !! k = Some x /\ k ∉ o.
Proof.
  intros (_ & D2 & _ & D4) Hk Hd Hn. split; [apply D2; [done|done|by left]|]. intros Ho. destruct (D4 k Ho) as [H|H]; [|done].
  change (orphans (opened fd f i s)) with (orphans s) in H. set_solver.
Qed.

Lemma dropped_source m n o : dropped target (opened fd f i s) m n o -> n !! i = Some (mkNode T_FILE data).
Proof.
  intros (_ & D2 & _ & _). apply D2; [done|done|]. right. exists fd, (open_desc (File i) f O_RDONLY). split; [cbn; apply lookup_insert_eq|done].
Qed.

(** What is there when the copy ends, by [l] printed. *)
Lemma copying_result m n o m' n' td g j a b w l s' : dropped target (opened fd f i s) m n o -> n !! j = None -> relisted n n' ->
  let s0 := s <| names := m' |> <| nodes := n' |> <| orphans := o |> in
  fds s' = fds s0 -> printed s' = printed s0 ++ l -> names s' = names s0 ->
  (forall k x, nodes (copying s0 fd td f g i j a b w) !! k = Some x -> k ∉ orphans s0 -> nodes s' !! k = Some x) ->
  m' !! target = Some j -> j ∉ o -> l <> [] \/ w = data -> cp_result Exited s'.
Proof.
  intros HD Hj Hn' s0 F P N K Ej Ho Hw. split; [done|split; [split; [done|]|]].
  - intros k x Hk Hd Hn. destruct (dropped_kept m n o k x) as [H1 H2]; [done..|]. apply K; [|done]. cbn. rewrite lookup_insert_ne by congruence.
    by eapply relisted_file.
  - intros E. destruct Hw as [Hw| ->]; [by destruct (printed_more l s s' P Hw)|]. exists j. split_and!.
    + destruct HD as (_ & _ & D3 & _). by destruct (D3 j Hj).
    + by rewrite N.
    + apply K; [|done]. cbn. apply lookup_insert_eq.
Qed.

(** The copy, once the target is removed. *)
Lemma cp_copy (Q : unit -> os -> Prop) source m n o : dropped target (opened fd f i s) m n o ->
  wp Q cp_result
    (fd_target ← call (Open target (Z.lor O_CREATE O_WRONLY)) ;
     if fd_target <? 0 then printf 1 "cp: 无法创建目标文件 %s\n" [PStr target] ;; call (Close fd) ;; exit
     else
       n ← cp_loop fd fd_target target ;
       (if n <? 0 then printf 1 "cp: 读取源文件 %s 时发生错误\n" [PStr source] else mret tt) ;;
       call (Close fd) ;; call (Close fd_target) ;; exit)
    (opened fd f i s <| names := m |> <| nodes := n |> <| orphans := o |>).
Proof.
  intros HD. set (s1 := opened fd f i s <| names := m |> <| nodes := n |> <| orphans := o |>).
  assert (fds s1 = <[fd := mkDesc (File i) f true false]> (fds s)) as F1 by done. apply lowest_fresh in Hl as Hn. apply wp_bind, wp_open.
  - cbn. apply wp_bind. eapply wp_printf; [by eapply (terminal_fds _ (opened fd f i s)), terminal_install|formats|]. apply wp_bind, wp_close. intros _ s' Hc. apply wp_exit.
    destruct (closes_frame _ _ _ Hc) as (F & _ & _ & P & _). split; [done|split; [split|]].
    + rewrite F. cbn. rewrite delete_insert_eq. by apply delete_id.
    + intros k x Hk Hd Hnt. destruct (dropped_kept m n o k x) as [H1 H2]; [done..|]. eapply closes_nodes; [done|done|by left].
    + intros E. exfalso. revert E. eapply printed_more; [exact P|done].
  - intros td s' Htd Ho. rewrite (proj2 (Z.ltb_ge _ _)) by done. pose proof HD as (D1 & _).
    apply created_file in Ho as (j & g & s2 & Hlo & [Hg _] & (_ & Hj & Hjo & _ & m' & n' & _ & Ej & Hn' & ->) & ->); [|lia|done|done].
    cbn in Hj, Hjo. cbn in Hg. apply lookup_insert_None in Hg as [_ Hfg]. apply lowest_fresh in Hlo. rewrite F1 in Hlo. apply lookup_insert_None in Hlo as [Hn2 Hne].
    apply dropped_source in HD as Hi. assert (i <> j) as Hij by congruence. set (s0 := s <| names := m' |> <| nodes := n' |> <| orphans := o |>).
    assert (contents_of s0 i = data) as Ec by (unfold contents_of; cbn; by rewrite (relisted_file n n' i _ Hn' Hi)).
    change (install _ _ _) with (copying s0 fd td f g i j 0 0 []). apply wp_bind, cp_loop_spec; try done.
    + intros w l a b s' Hl' F N P K. eapply copying_result; try done. by left.
    + intros a. rewrite Ec. cbn [Z.ltb Z.compare]. apply wp_bind, wp_ret. rewrite <- (print_nil (copying _ _ _ _ _ _ _ _ _ _)).
      apply wp_close_both; [done..|]. intros s' F N P K. eapply copying_result; try done. by right.
Qed.
End cp.

(** C19. [cp -f] makes a copy of a regular file: it exits having printed nothing only if the target's name leads to a
    new file, which was not there before, with the contents of the source, also where the
    source and the target are one file. Whether it succeeds or fails, it leaves no descriptor
    open, and every file, directories apart, to which the name of the target did not lead
    has its contents; the old target may be deleted in any case. *)
Theorem cp_copies_file name source target s data :
  terminal 1 s -> orphans s = ∅ -> regular s source data ->
  wp (fun _ _ => False)
    (fun e s' => e = Exited /\ fds s' = fds s /\
       (forall k x, nodes s !! k = Some x -> n_type x <> T_DIR -> names s !! target <> Some k -> nodes s' !! k = Some x) /\
       (printed s' = printed s -> exists j, nodes s !! j = None /\ names s' !! target = Some j /\ nodes s' !! j = Some (mkNode T_FILE data)))
    (cp_main [name; lit "-f"; source; target]) s.
Proof.
  intros Ht Ho Hr. apply (wp_weaken _ _ (cp_result target data s)); [|by intros e s' (-> & [] & ?)]. pose proof (regular_plain _ _ _ Hr) as Hp. destruct Hr as (i & Hi & Hx).
  apply wp_bind, wp_ret, wp_bind, wp_open_read; [done|..].
  - cbn. apply wp_bind. eapply wp_printf; [done|formats|]. apply wp_exit. split; [done|split; [done|]]. intros E. exfalso. revert E. by eapply printed_more.
  - intros fd f i' Hi' Hl Hu. assert (i' = i) as -> by congruence. assert (0 <= fd) as Hfd by (by destruct Hl as [[? _] _]). rewrite (proj2 (Z.ltb_ge _ _)) by done.
    apply wp_bind, wp_stat. intros r. apply wp_bind.
    assert (forall Q : unit -> os -> Prop, Q tt (opened fd f i s) -> wp Q (cp_result target data s) (if r.1 =? 0 then cp_confirm MODE_FORCE fd target else mret tt) (opened fd f i s)) as Hc
      by (intros; destruct (r.1 =? 0); by apply wp_ret).
    apply Hc. clear Hc. apply wp_bind, wp_unlink. intros _ m n o HD. by apply cp_copy.
Qed.

Lemma cp_copies_file_witness :
  wp (fun _ _ => False)
    (fun e s' => e = Exited /\ (printed s' = [] -> exists j, names s' !! [98] = Some j /\ nodes s' !! j = Some (mkNode T_FILE [104; 105; 10; 121; 111; 10; 33; 10])))
    (cp_main [[99; 112]; lit "-f"; [97]; [98]]) demo_files.
Proof.
  eapply wp_weaken; [apply (cp_copies_file [99; 112] [97] [98] demo_files); [by exists (mkDesc Console 0 true true)|done|by exists O]|].
  intros e s' (-> & _ & _ & H). split; [done|]. intros E. destruct (H E) as (j & _ & Hj). by exists j.
Defined.
