(* ===== verification/Lsh.v ===== *)
(** * Lsh: the shell lsh.c

    A line is cut into tokens by [strtok], the tokens are sorted into a [cmd], and the command
    is built in or run in child processes.  Shown: the tokens are the words of the line; what
    the parser makes of lines with at most one operator; the children run the words of the
    command with the descriptors it asks for, and the shell keeps its own. *)
From stdpp Require Import base list gmap strings.
From Stdlib Require Import ZArith Lia.
From ITree Require Import ITree.
From S2P Require Import Prelude User Ulib Utils.
Local Open Scope Z_scope.

Definition LSH_RL_BUFSIZE : Z := 1024.
Definition LSH_TOK_BUFSIZE : nat := 64.
Definition LSH_PATH_MAX : nat := 128.
Definition LSH_TOK_DELIM : list Z := [32; 9; 13; 10; 7].

(** ** Tokens *)
Fixpoint strcspn (string chars : list Z) : nat :=
  match string with
  | [] => O
  | c :: s => if bool_decide (c ∈ chars) then O else S (strcspn s chars)
  end.

(** The loop that leads to the first character of a token. *)
Fixpoint skip (s delim : list Z) : list Z :=
  match s with
  | [] => []
  | ch :: s' => match strchr delim ch with Some _ => skip s' delim | None => s end
  end.

(** [s] is what was left; the result is the token and what is left behind the byte that ended it. *)
Definition strtok (s delim : list Z) : option (list Z * list Z) :=
  match skip s delim with
  | [] => None
  | s' => let n := strcspn s' delim in Some (take n s', drop (S n) s')
  end.

(** The calls of [strtok] by the loop in [main]; each uses up a byte. *)
Fixpoint tokens (fuel : nat) (s : list Z) : list (list Z) :=
  match fuel with
  | O => []
  | S fuel' => match strtok s LSH_TOK_DELIM with Some (token, s') => token :: tokens fuel' s' | None => [] end
  end.

(** ** Commands *)
Inductive ctype := EXEC | PIPE | REDIN | REDOUT.

#[export] Instance ctype_eq_dec : EqDecision ctype.
Proof. solve_decision. Defined.

(** The arrays hold the strings before the first null. *)
Record cmd := mkCmd { type : ctype; left : list (list Z); right : list (list Z) }.
#[export] Instance eta_cmd : Eta cmd := fun r => mkCmd (type r) (left r) (right r).
#[export] Instance upd_type : Upd type := ltac:(derive_upd).
#[export] Instance upd_left : Upd left := ltac:(derive_upd).
#[export] Instance upd_right : Upd right := ltac:(derive_upd).

(** The loop's variables [parsingRight] and [expectRedirFile]. *)
Record parsing := mkParsing { pcmd : cmd; parsingRight : bool; expectRedirFile : bool }.

(** Behind the last entry of an array. *)
Definition add (token : list Z) (l : list (list Z)) : option (list (list Z)) :=
  if (length l <? LSH_TOK_BUFSIZE)%nat then Some (l ++ [token]) else None.

Definition parse_token (p : parsing) (token : list Z) : option parsing :=
  let cmd := pcmd p in
  if strcmp token (lit "<") =? 0 then Some (mkParsing (cmd <| type := REDIN |>) (parsingRight p) true)
  else if strcmp token (lit ">") =? 0 then Some (mkParsing (cmd <| type := REDOUT |>) (parsingRight p) true)
  else if strcmp token (lit "|") =? 0 then Some (mkParsing (cmd <| type := PIPE |>) true (expectRedirFile p))
  else if expectRedirFile p then
    match right cmd with
    | [] => Some (mkParsing (cmd <| right := [token] |>) (parsingRight p) false)
    | _ => Some (mkParsing cmd (parsingRight p) false)
    end
  else if negb (parsingRight p) then
    l ← add token (left cmd) ; Some (mkParsing (cmd <| left := l |>) (parsingRight p) (expectRedirFile p))
  else
    l ← add token (right cmd) ; Some (mkParsing (cmd <| right := l |>) (parsingRight p) (expectRedirFile p)).

Fixpoint parse_tokens (p : parsing) (ts : list (list Z)) : option cmd :=
  match ts with
  | [] => Some (pcmd p)
  | t :: ts' => p' ← parse_token p t ; parse_tokens p' ts'
  end.

(** The command of a line; [None] if an array overflows. *)
Definition parse (ts : list (list Z)) : option cmd := parse_tokens (mkParsing (mkCmd EXEC [] []) false false) ts.

(** ** The path that [pwd] shows *)

(** Bytes are copied until the buffer holds all but one of the bytes it can. *)
Definition fill (out src : list Z) : list Z := out ++ take (LSH_PATH_MAX - 1 - length out) src.

Definition lsh_join_paths (base add : list Z) : list Z :=
  if bool_decide (first add = Some 47) then fill [] add
  else
    let out := fill [] base in
    let out :=
      match out with
      | [] => [47]
      | _ => if negb (bool_decide (list.last out = Some 47)) && (length out <? LSH_PATH_MAX - 1)%nat then out ++ [47] else out
      end in
    fill out add.

(** The index of the first byte from [i] on for which [stop] holds, at the terminator at the latest. *)
Fixpoint seek (stop : Z -> bool) (fuel : nat) (buf : list Z) (i : nat) : nat :=
  match fuel with
  | O => i
  | S fuel' => if stop (buf !!! i) then i else seek stop fuel' buf (S i)
  end.

Definition cstring (buf : list Z) (i : nat) : list Z := upto_nul (drop i buf).

(** The loop over [pathbuf], which holds its terminator; [segs] are the starts of the segments. *)
Fixpoint segments (fuel : nat) (pathbuf : list Z) (i : nat) (segs : list nat) : list Z * list nat :=
  match fuel with
  | O => (pathbuf, segs)
  | S fuel' =>
      if pathbuf !!! i =? 0 then (pathbuf, segs)
      else
        let i := seek (fun c => negb (c =? 47)) (length pathbuf) pathbuf i in
        if pathbuf !!! i =? 0 then (pathbuf, segs)
        else
          let start := i in
          let i := seek (fun c => (c =? 0) || (c =? 47)) (length pathbuf) pathbuf i in
          let pathbuf := <[i := 0]> pathbuf in
          if pathbuf !!! start =? 0 then segments fuel' pathbuf i segs
          else if strcmp (cstring pathbuf start) (lit ".") =? 0 then segments fuel' pathbuf i segs
          else if strcmp (cstring pathbuf start) (lit "..") =? 0 then segments fuel' pathbuf i (take (pred (length segs)) segs)
          else segments fuel' pathbuf i (if (length segs <? 64)%nat then segs ++ [start] else segs)
  end.

(** The loop that writes the segments, each behind a slash. *)
Fixpoint write_segments (pathbuf : list Z) (segs : list nat) (out : list Z) : list Z :=
  match segs with
  | [] => out
  | start :: segs' => write_segments pathbuf segs' (fill (fill out [47]) (cstring pathbuf start))
  end.

Definition lsh_normalize_path (base input : list Z) : list Z :=
  let temp := lsh_join_paths base input in
  let pathbuf := fill [] temp ++ [0] in
  let '(pathbuf, segs) := segments (length pathbuf) pathbuf 0 [] in
  match segs with
  | [] => [47]
  | _ => write_segments pathbuf segs []
  end.

(** ** Running a command

    The string [lsh_cwd] is passed and returned. *)
Definition lsh_try_exec (file : list Z) (argv : list (list Z)) : prog unit :=
  if (LSH_TOK_BUFSIZE <=? length argv)%nat then undefined "argv: no null at the end"
  else
    match strchr file 47 with
    | None =>
        call (Exec file argv) ;;
        buf ← strcpy 127 file ;
        call (Exec (47 :: buf) argv) ;;
        mret tt
    | Some _ => call (Exec file argv) ;; mret tt
    end.

Definition lsh_cd (cwd : list Z) (cmd : cmd) : prog (list Z) :=
  match left cmd !! 1%nat with
  | None => printf 2 "lsh: expected argument to \042cd\042\n" [] ;; mret cwd
  | Some dir =>
      r ← call (Chdir dir) ;
      if r <? 0 then printf 2 "lsh: cannot change directory to %s\n" [PStr dir] ;; mret cwd
      else mret (lsh_normalize_path cwd dir)
  end.

Definition lsh_pwd (cwd : list Z) (cmd : cmd) : prog (list Z) := printf 1 "%s\n" [PStr cwd] ;; mret cwd.

Definition builtin_str : list (list Z) := [lit "cd"; lit "pwd"; lit "help"; lit "exit"].

Fixpoint lsh_help_names (names : list (list Z)) : prog unit :=
  match names with
  | [] => mret tt
  | n :: names' => printf 1 "  %s\n" [PStr n] ;; lsh_help_names names'
  end.

Definition lsh_help (cwd : list Z) (cmd : cmd) : prog (list Z) :=
  printf 1 "xv6 LSH\n" [] ;;
  printf 1 "Type program names and arguments, and hit enter.\n" [] ;;
  printf 1 "The following are built in:\n" [] ;;
  lsh_help_names builtin_str ;;
  mret cwd.

Definition lsh_exit (cwd : list Z) (cmd : cmd) : prog (list Z) := exit.

Definition builtin_func : list (list Z -> cmd -> prog (list Z)) := [lsh_cd; lsh_pwd; lsh_help; lsh_exit].

(** What each child ends with. *)
Definition run (argv : list (list Z)) : prog unit :=
  match argv with
  | [] => undefined "argv[0] is null"
  | file :: _ =>
      lsh_try_exec file argv ;;
      printf 2 "lsh: exec %s 失败\n" [PStr file] ;;
      exit
  end.

(** The [switch] for commands that are not built in. *)
Definition lsh_run (cmd : cmd) : prog unit :=
  match type cmd with
  | EXEC =>
      pid ← call Fork ;
      (if pid =? 0 then run (left cmd) else mret tt) ;;
      call Wait ;;
      mret tt
  | REDIN =>
      pid ← call Fork ;
      (if pid =? 0 then
         call (Close 0) ;;
         match right cmd with
         | [] => undefined "open: null path"
         | file :: _ =>
             fd ← call (Open file O_RDONLY) ;
             if fd <? 0 then printf 2 "lsh: 无法打开文件 %s\n" [PStr file] ;; exit
             else run (left cmd)
         end
       else mret tt) ;;
      call Wait ;;
      mret tt
  | REDOUT =>
      pid ← call Fork ;
      (if pid =? 0 then
         call (Close 1) ;;
         match right cmd with
         | [] => undefined "open: null path"
         | file :: _ =>
             fd ← call (Open file (Z.lor O_WRONLY O_CREATE)) ;
             if fd <? 0 then printf 2 "lsh: 无法创建文件 %s\n" [PStr file] ;; exit
             else run (left cmd)
         end
       else mret tt) ;;
      call Wait ;;
      mret tt
  | PIPE =>
      r ← call Pipe ;
      let '(ok, (p0, p1)) := r in
      if ok <? 0 then printf 2 "lsh: 管道创建失败\n" []
      else
        pid ← call Fork ;
        (if pid =? 0 then call (Close 1) ;; call (Dup p1) ;; call (Close p0) ;; call (Close p1) ;; run (left cmd) else mret tt) ;;
        pid ← call Fork ;
        (if pid =? 0 then call (Close 0) ;; call (Dup p0) ;; call (Close p0) ;; call (Close p1) ;; run (right cmd) else mret tt) ;;
        call (Close p0) ;;
        call (Close p1) ;;
        call Wait ;;
        call Wait ;;
        mret tt
  end.

(** The loop over the built-in commands. *)
Fixpoint builtin (names : list (list Z)) (funcs : list (list Z -> cmd -> prog (list Z))) (name : list Z) : option (list Z -> cmd -> prog (list Z)) :=
  match names, funcs with
  | n :: names', f :: funcs' => if strcmp name n =? 0 then Some f else builtin names' funcs' name
  | _, _ => None
  end.

Definition lsh_execute (cwd : list Z) (cmd : cmd) : prog (list Z) :=
  match left cmd with
  | [] => undefined "strcmp: null"
  | name :: _ =>
      match builtin builtin_str builtin_func name with
      | Some f => f cwd cmd
      | None => lsh_run cmd ;; mret cwd
      end
  end.

(** ** The main loop, whose body ends early for an empty line and for an operator that lacks an operand *)
Definition lsh_line (cwd : list Z) : prog (list Z) :=
  printf 1 "lsh> " [] ;;
  line ← gets LSH_RL_BUFSIZE ;
  let line := upto_nul line in
  match parse (tokens (S (length line)) line) with
  | None => undefined "token array overflow"
  | Some cmd =>
      match left cmd with
      | [] => mret cwd
      | _ =>
          if negb (bool_decide (type cmd = EXEC)) && bool_decide (right cmd = []) then
            printf 2 "lsh: 语法错误：重定向或管道缺少目标\n" [] ;; mret cwd
          else lsh_execute cwd cmd
      end
  end.

Definition lsh_main : prog unit := loop (fun cwd => cwd ← lsh_line cwd ; mret (inl cwd)) [47].

(** ** The tokens are the words of the line *)
(** A line cut at every delimiter. *)
Fixpoint fields (s : list Z) : list (list Z) :=
  match s with
  | [] => [[]]
  | c :: s' =>
      if bool_decide (c ∈ LSH_TOK_DELIM) then [] :: fields s'
      else match fields s' with w :: ws => (c :: w) :: ws | [] => [[c]] end
  end.

Lemma strchr_elem s c : strchr s c = None <-> c ∉ s.
Proof.
  induction s as [|x s IH]; cbn; [split; [intros _; apply not_elem_of_nil|done]|]. rewrite not_elem_of_cons, <- IH.
  destruct (Z.eqb_spec x c) as [->|Hne]; [split; [done|by intros []]|]. split; [done|by intros []].
Qed.

Lemma skip_fields s : filter (fun w => w <> []) (fields (skip s LSH_TOK_DELIM)) = filter (fun w => w <> []) (fields s).
Proof.
  induction s as [|c s IH]; [done|]. cbn [skip]. destruct (strchr LSH_TOK_DELIM c) eqn:E; [|done].
  rewrite IH. cbn [fields]. rewrite bool_decide_true; [done|]. destruct (decide (c ∈ LSH_TOK_DELIM)) as [H|H]; [done|]. apply strchr_elem in H. congruence.
Qed.

Lemma skip_length s : (length (skip s LSH_TOK_DELIM) <= length s)%nat.
Proof. induction s as [|c s IH]; [done|]. cbn [skip]. destruct (strchr LSH_TOK_DELIM c); simpl; lia. Qed.

Lemma skip_head s c s' : skip s LSH_TOK_DELIM = c :: s' -> c ∉ LSH_TOK_DELIM.
Proof. induction s as [|x s IH]; [done|]. cbn [skip]. destruct (strchr LSH_TOK_DELIM x) eqn:E; [exact IH|]. intros [= -> ->]. by apply strchr_elem. Qed.

(** The first word, which may be empty, and the fields behind it. *)
Lemma fields_cspn s : let n := strcspn s LSH_TOK_DELIM in
  fields s = take n s :: match drop n s with [] => [] | _ :: s' => fields s' end.
Proof.
  induction s as [|c s IH]; [done|]. cbn [strcspn fields]. case_bool_decide as H; [done|]. cbn [take drop]. by rewrite IH.
Qed.

Lemma tokens_fields fuel : forall s, (length s < fuel)%nat -> tokens fuel s = filter (fun w => w <> []) (fields s).
Proof.
  induction fuel as [|fuel IH]; intros s Hs; [lia|]. cbn [tokens]. unfold strtok. rewrite <- skip_fields. pose proof (skip_length s) as Hl.
  destruct (skip s LSH_TOK_DELIM) as [|c s'] eqn:E; [done|]. apply skip_head in E. rewrite fields_cspn. cbn [strcspn].
  rewrite bool_decide_false by done. cbn [take drop]. rewrite filter_cons_True by done. f_equal.
  set (n := strcspn s' LSH_TOK_DELIM). assert (drop (S n) s' = drop 1 (drop n s')) as Ed by (rewrite drop_drop; f_equal; lia).
  rewrite Ed. assert (length (drop n s') <= length s')%nat as Hd by (rewrite length_drop; lia).
  destruct (drop n s') as [|x r]; cbn [drop]; rewrite ?drop_0, IH by (simpl in *; lia); done.
Qed.

(** ** What the parser makes of the tokens *)
Definition word (t : list Z) : Prop := Forall (fun c => 0 < c < 256) t /\ t ∉ [[60]; [62]; [124]].

Lemma strcmp_one t c : Forall (fun c => 0 < c < 256) t -> 0 < c < 256 -> t <> [c] -> strcmp t [c] <> 0.
Proof.
  intros Ht Hc Hne. assert (forall x, 0 < x < 256 -> u8 x = x) as Hu by (intros; apply Z.mod_small; lia).
  destruct Ht as [|x t Hx Ht]; cbn; [rewrite Hu; lia|]. destruct (Z.eqb_spec x c) as [->|Hx']; [|rewrite !Hu; lia].
  destruct Ht as [|y t Hy Ht]; [done|]. cbn. rewrite Hu; lia.
Qed.

Lemma parse_word p t : word t -> parse_token p t =
  if expectRedirFile p then
    Some (mkParsing (match right (pcmd p) with [] => pcmd p <| right := [t] |> | _ => pcmd p end) (parsingRight p) false)
  else if parsingRight p then l ← add t (right (pcmd p)) ; Some (mkParsing (pcmd p <| right := l |>) true false)
  else l ← add t (left (pcmd p)) ; Some (mkParsing (pcmd p <| left := l |>) false false).
Proof.
  intros [Hb Hn]. rewrite !not_elem_of_cons in Hn. destruct Hn as (H1 & H2 & H3 & _). destruct p as [c pr ex]. unfold parse_token.
  change (lit "<") with [60]. change (lit ">") with [62]. change (lit "|") with [124].
  rewrite !(proj2 (Z.eqb_neq _ _)) by (by apply strcmp_one). cbn. destruct ex; [by destruct (right c)|]. by destruct pr.
Qed.

Lemma add_some t l : (length l < LSH_TOK_BUFSIZE)%nat -> add t l = Some (l ++ [t]).
Proof. intros H. unfold add. by rewrite (proj2 (Nat.ltb_lt _ _)). Qed.

(** Words go to the array of the side that is being filled. *)
Lemma parse_words (pr : bool) ws : forall (c : cmd) ts, Forall word ws ->
  (length (if pr then right c else left c) + length ws <= LSH_TOK_BUFSIZE)%nat ->
  parse_tokens (mkParsing c pr false) (ws ++ ts) =
  parse_tokens (mkParsing (if pr then c <| right ::= (fun l => l ++ ws) |> else c <| left ::= (fun l => l ++ ws) |>) pr false) ts.
Proof.
  induction ws as [|w ws IH]; intros c ts Hw Hl.
  - cbn [app]. do 2 f_equal. destruct c as [ct cl cr], pr; [change (mkCmd ct cl cr = mkCmd ct cl (cr ++ []))|change (mkCmd ct cl cr = mkCmd ct (cl ++ []) cr)];
      by rewrite app_nil_r.
  - inversion Hw; subst. cbn [app parse_tokens]. rewrite parse_word by done. cbn [expectRedirFile parsingRight pcmd].
    destruct pr; rewrite add_some by (simpl in *; lia); cbn [mbind option_bind]; rewrite IH by (done || (cbn; rewrite length_app; simpl in *; lia));
      do 2 f_equal; destruct c as [ct cl cr];
      [change (mkCmd ct cl ((cr ++ [w]) ++ ws) = mkCmd ct cl (cr ++ w :: ws))|change (mkCmd ct ((cl ++ [w]) ++ ws) cr = mkCmd ct (cl ++ w :: ws) cr)];
      by rewrite <- (assoc_L (++)).
Qed.

Lemma parse_redirection (c : cmd) pr op ty f ts : word f -> right c = [] -> (op = lit "<" /\ ty = REDIN) \/ (op = lit ">" /\ ty = REDOUT) ->
  parse_tokens (mkParsing c pr false) (op :: f :: ts) = parse_tokens (mkParsing (c <| type := ty |> <| right := [f] |>) pr false) ts.
Proof.
  intros Hf Hr Ho. destruct c as [ct cl cr]. cbn in Hr. subst cr. set (c := mkCmd ct cl []). assert (parse_token (mkParsing c pr false) op = Some (mkParsing (c <| type := ty |>) pr true)) as E by (by destruct Ho as [[-> ->]|[-> ->]]).
  cbn [parse_tokens]. rewrite E. cbn [mbind option_bind]. by rewrite parse_word.
Qed.

(** C20. [lsh] reads a line as a command: [strtok] finds exactly the words between the delimiters;
    a line without operators is a command with its arguments, a line with one pipe, two
    commands, and with one redirection, the words before and behind it with the file.  Up to
    the 64 words there is room for, no array overflows. *)
Theorem lsh_parses_line s :
  let ts := tokens (S (length s)) s in
  ts = filter (fun w => w <> []) (fields s) /\
  forall a b, Forall word (a ++ b) -> (length (a ++ b) <= LSH_TOK_BUFSIZE)%nat ->
    (ts = a -> parse ts = Some (mkCmd EXEC a [])) /\
    (ts = a ++ lit "|" :: b -> parse ts = Some (mkCmd PIPE a b)) /\
    (forall f, word f -> ts = a ++ lit "<" :: f :: b -> parse ts = Some (mkCmd REDIN (a ++ b) [f])) /\
    (forall f, word f -> ts = a ++ lit ">" :: f :: b -> parse ts = Some (mkCmd REDOUT (a ++ b) [f])).
Proof.
  intros ts. split; [apply tokens_fields; lia|]. intros a b [Ha Hb]%Forall_app Hl. rewrite length_app in Hl. generalize ts. clear ts. intros ts.
  assert (forall l (c : cmd) (pr : bool), Forall word l -> (length (if pr then right c else left c) + length l <= LSH_TOK_BUFSIZE)%nat -> parse_tokens (mkParsing c pr false) l =
    Some (if pr then c <| right ::= (fun r => r ++ l) |> else c <| left ::= (fun r => r ++ l) |>)) as Hend.
  { intros l c pr Hw Hlen. by rewrite <- (app_nil_r l) at 1; rewrite parse_words. }
  unfold parse. split_and!.
  - intros ->. apply Hend; [done|simpl; lia].
  - intros ->. rewrite parse_words by (done || simpl; lia). apply (Hend b); [done|simpl; lia].
  - intros f Hf ->. rewrite parse_words by (done || simpl; lia). rewrite (parse_redirection _ _ _ REDIN) by eauto. apply (Hend b); [done|simpl; lia].
  - intros f Hf ->. rewrite parse_words by (done || simpl; lia). rewrite (parse_redirection _ _ _ REDOUT) by eauto. apply (Hend b); [done|simpl; lia].
Qed.

Lemma lsh_parses_line_witness : parse (tokens 20 (lit "ls -l\t\ta | wc\n")) = Some (mkCmd PIPE [lit "ls"; lit "-l"; lit "a"] [lit "wc"]).
Proof.
  pose proof (lsh_parses_line (lit "ls -l\t\ta | wc\n")) as [_ H].
  destruct (H [lit "ls"; lit "-l"; lit "a"] [lit "wc"]) as (_ & Hp & _); [|vm_compute; lia|].
  - repeat constructor; vm_compute; try done; intros E; repeat (inversion E as [|? ? ? E']; subst; clear E; rename E' into E).
  - exact (Hp eq_refl).
Defined.

(** With two operators the command is not the one that was typed: the file to read is written, and
    the program behind the pipe. *)
Lemma lsh_mixes_redirections :
  parse [lit "sort"; lit "<"; lit "in"; lit ">"; lit "out"] = Some (mkCmd REDOUT [lit "sort"] [lit "in"]) /\
  parse [lit "ls"; lit "|"; lit "wc"; lit ">"; lit "out"] = Some (mkCmd REDOUT [lit "ls"] [lit "wc"]).
Proof. split; vm_compute; reflexivity. Qed.

(** ** The path that [pwd] shows *)
Lemma seek_before stop fuel : forall buf i k, (i <= k < seek stop fuel buf i)%nat -> stop (buf !!! k) = false.
Proof.
  induction fuel as [|fuel IH]; intros buf i k Hk; cbn [seek] in Hk; [lia|]. destruct (stop (buf !!! i)) eqn:E; [lia|].
  destruct (decide (k = i)) as [->|Hne]; [done|]. eapply IH, conj; [|apply Hk]. lia.
Qed.

Lemma upto_nul_free l : forall n c, (forall k, (k < n)%nat -> l !!! k <> c) -> l !!! n = 0 -> c ∉ upto_nul l.
Proof.
  induction l as [|x l IH]; intros n c Hn H0; [apply not_elem_of_nil|]. cbn [upto_nul]. destruct (Z.eqb_spec x 0) as [->|Hx]; [apply not_elem_of_nil|].
  destruct n as [|n]; [done|]. apply not_elem_of_cons. split.
  - intros ->. by apply (Hn O); [lia|].
  - apply (IH n); [|done]. intros k Hk. apply (Hn (S k)). lia.
Qed.

Lemma seek_within stop fuel buf n : stop 0 = true -> buf !!! n = 0 -> forall i, (i <= n < i + fuel)%nat -> (i <= seek stop fuel buf i <= n)%nat.
Proof.
  intros Hs Hn. induction fuel as [|fuel IH]; intros i Hi; cbn [seek]; [lia|]. destruct (stop (buf !!! i)) eqn:E; [lia|].
  destruct (decide (i = n)) as [->|Hne]; [by rewrite Hn, Hs in E|]. specialize (IH (S i)). lia.
Qed.

(** The loop stops behind the first segment, where it has just put a terminator. *)
Lemma segments_one fuel path : let '(buf, segs) := segments fuel (path ++ [0]) 0 [] in
  segs = [] \/ exists start, segs = [start] /\ 47 ∉ cstring buf start.
Proof.
  assert (forall fuel buf i segs, buf !!! i = 0 -> segments fuel buf i segs = (buf, segs)) as Hstop.
  { intros [|f] buf i segs E; [done|]. cbn [segments]. by rewrite E. }
  set (pathbuf := path ++ [0]). assert (pathbuf !!! length path = 0) as H0 by (unfold pathbuf; by rewrite list_lookup_total_middle).
  assert (length pathbuf = S (length path)) as Hl by (unfold pathbuf; rewrite length_app; simpl; lia).
  destruct fuel as [|fuel]; [by left|]. cbn [segments]. destruct (_ =? 0); [by left|].
  destruct (seek_within (fun c => negb (c =? 47)) (length pathbuf) pathbuf (length path) eq_refl H0 0) as [_ Hs]; [lia|].
  set (start := seek _ _ pathbuf 0) in *. destruct (_ =? 0); [by left|].
  set (stop := fun c => (c =? 0) || (c =? 47)).
  destruct (seek_within stop (length pathbuf) pathbuf (length path) eq_refl H0 start) as [Hse He]; [lia|].
  set (e := seek stop _ pathbuf start) in *. assert (<[e := 0]> pathbuf !!! e = 0) as Ee by (apply list_lookup_total_insert_eq; lia).
  rewrite !Hstop by done. repeat destruct (_ =? 0); [by left..|]. right. exists start. split; [done|].
  apply (upto_nul_free _ (e - start)).
  - intros k Hk. rewrite lookup_total_drop, list_lookup_total_insert_ne by lia.
    pose proof (seek_before stop (length pathbuf) pathbuf start (start + k)) as Hb. specialize (Hb ltac:(fold e; lia)).
    apply orb_false_iff in Hb as [_ Hb]. by apply Z.eqb_neq.
  - rewrite lookup_total_drop. by replace (start + (e - start))%nat with e by lia.
Qed.

(** The path that [pwd] shows has never more than one component: [lsh_normalize_path] leaves the
    others out. *)
Lemma lsh_normalize_one base input : exists seg, lsh_normalize_path base input = 47 :: seg /\ 47 ∉ seg.
Proof.
  unfold lsh_normalize_path. set (path := fill [] _). pose proof (segments_one (length (path ++ [0])) path) as H.
  destruct (segments _ _ _ _) as [buf segs]. destruct H as [->|(start & -> & Hn)]; [exists []; split; [done|apply not_elem_of_nil]|].
  exists (take 126 (cstring buf start)). split; [done|]. intros (i & E & _)%elem_of_take. by eapply Hn, list_elem_of_lookup_2.
Qed.

Lemma lsh_pwd_wrong : lsh_normalize_path (lit "/a") (lit "b") = lit "/a".
Proof. vm_compute. reflexivity. Qed.

(** ** The children *)

(** The paths under which a program is looked for, in this order. *)
Definition attempts (argv : list (list Z)) : list (list Z) :=
  match argv with
  | file :: _ => if bool_decide (47 ∈ file) then [file] else [file; 47 :: file]
  | [] => []
  end.

Definition fits (argv : list (list Z)) : Prop := argv <> [] /\ (length argv < LSH_TOK_BUFSIZE)%nat /\ Forall (fun a => strlen a < 127) argv.

(** How the descriptors of the program [argv] differ from those of the shell, in the child made
    by the forks [born]. *)
Definition connected (c : cmd) (m : gmap Z descriptor) (born : list event) (s : os) (argv : list (list Z)) : Prop :=
  match type c with
  | EXEC => argv = left c /\ born = [Forked 0] /\ fds s = m
  | REDIN => argv = left c /\ born = [Forked 0] /\ exists file i f, right c !! 0%nat = Some file /\ names s !! file = Some i /\
      offs s !! f = Some O /\ fds s = <[0 := open_desc (device_of s i) f O_RDONLY]> m
  | REDOUT => argv = left c /\ born = [Forked 0] /\ exists file i f, right c !! 0%nat = Some file /\ names s !! file = Some i /\
      offs s !! f = Some O /\ fds s = <[1 := open_desc (device_of s i) f (Z.lor O_WRONLY O_CREATE)]> m
  | PIPE => exists p f, argv = left c /\ born = [Forked 0] /\ fds s = <[1 := pipe_in p f]> m \/
                        argv = right c /\ (exists pid, pid <> 0 /\ born = [Forked pid; Forked 0]) /\ fds s = <[0 := pipe_out p f]> m
  end.

(** A child tries to execute its program, connected as the command says, under each path in turn until
    one can be executed. *)
Definition goes_on (c : cmd) (m : gmap Z descriptor) (before : list event) (e : ending) (s : os) : Prop :=
  exists argv born s1, connected c m born s1 argv /\ past s1 = before ++ born /\
    match e with
    | Execed path argv' => argv' = argv /\ exists tried rest, attempts argv = tried ++ path :: rest /\
        s = s1 <| past ::= (fun l => l ++ ((fun p => Tried p argv) <$> tried)) |>
    | Exited => exists l, format (lit "lsh: exec %s 失败\n") false [PStr (default [] (argv !! 0%nat))] = Some l /\
        s = print l (s1 <| past ::= (fun l => l ++ ((fun p => Tried p argv) <$> attempts argv)) |>)
    end.

(** The message of a child whose file cannot be opened. *)
Definition open_error (t : ctype) : string :=
  match t with REDIN => "lsh: 无法打开文件 %s\n" | REDOUT => "lsh: 无法创建文件 %s\n" | _ => "" end.

Definition not_opened (c : cmd) (before : list event) (s : os) : Prop :=
  exists file l s1, (type c = REDIN \/ type c = REDOUT) /\ right c !! 0%nat = Some file /\
    format (lit (open_error (type c))) false [PStr file] = Some l /\ past s1 = before ++ [Forked 0] /\ s = print l s1.

(** How the children end, with [m] the descriptors of the shell and [before] its past. *)
Definition child_ends (c : cmd) (m : gmap Z descriptor) (before : list event) (e : ending) (s : os) : Prop :=
  goes_on c m before e s \/ e = Exited /\ not_opened c before s.

(** What the shell has done when its children are done. *)
Definition parent_did (c : cmd) (did : list event) : Prop :=
  match type c with
  | PIPE => did = [] \/ exists pid1 pid2, pid1 <> 0 /\ pid2 <> 0 /\ did = [Forked pid1; Forked pid2; Waited; Waited]
  | _ => exists pid, pid <> 0 /\ did = [Forked pid; Waited]
  end.

Section children.
Context (c : cmd) (m : gmap Z descriptor) (before : list event).

Lemma past_more l1 l2 s : s <| past ::= (fun l => l ++ l1) |> <| past ::= (fun l => l ++ l2) |> = (s <| past ::= (fun l => l ++ (l1 ++ l2)) |>).
Proof. apply os_eq; try done. cbn. by rewrite (assoc_L (++)). Qed.

Lemma past_same s : s <| past ::= (fun l => l ++ []) |> = s.
Proof. apply os_eq; try done. cbn. by rewrite app_nil_r. Qed.

Lemma run_spec (Q : unit -> os -> Prop) argv born s : terminal 2 s -> past s = before ++ born -> fits argv -> connected c m born s argv ->
  wp Q (child_ends c m before) (run argv) s.
Proof.
  intros Ht Hb (Hne & Hl & Hs) Hc. unfold run, lsh_try_exec. destruct argv as [|file args]; [done|].
  rewrite (proj2 (Nat.leb_gt _ _)) by done. set (argv := file :: args) in *.
  assert (wp (A := unit) Q (child_ends c m before) (printf 2 "lsh: exec %s 失败\n" [PStr file] ;; exit)
    (s <| past ::= (fun l => l ++ ((fun p => Tried p argv) <$> attempts argv)) |>)) as Hfail.
  { apply wp_bind. assert (exists l, format (lit "lsh: exec %s 失败\n") false [PStr file] = Some l) as [l El] by (eexists; formats).
    eapply wp_printf; [done|exact El|]. apply wp_exit. left. exists argv, born, s. split_and!; [done..|]. by exists l. }
  assert (forall tried path rest, attempts argv = tried ++ path :: rest ->
    child_ends c m before (Execed path argv) (s <| past ::= (fun l => l ++ ((fun p => Tried p argv) <$> tried)) |>)) as Hex.
  { intros tried path rest Ea. left. exists argv, born, s. split_and!; [done..|]. by exists tried, rest. }
  unfold attempts in *. cbn [argv] in *. apply wp_bind. destruct (strchr file 47) eqn:E.
  - assert (bool_decide (47 ∈ file) = true) as Eb.
    { apply bool_decide_true. destruct (decide (47 ∈ file)) as [|Hn]; [done|]. apply strchr_elem in Hn. congruence. }
    rewrite Eb in *. apply wp_bind, wp_exec; [|by apply wp_ret]. rewrite <- (past_same s). by eapply (Hex []).
  - assert (bool_decide (47 ∈ file) = false) as Eb by (by apply bool_decide_false, strchr_elem).
    rewrite Eb in *. apply wp_bind, wp_exec; [rewrite <- (past_same s); by eapply (Hex [])|].
    inversion Hs; subst. unfold strcpy. rewrite (proj2 (Z.ltb_lt _ _)) by done. apply wp_bind, wp_ret, wp_bind, wp_exec; [by eapply (Hex [file])|].
    apply wp_ret. unfold happened. rewrite past_more. exact Hfail.
Qed.

Context (H0 : is_Some (m !! 0)) (H1 : is_Some (m !! 1)) (H2 : exists d, m !! 2 = Some d /\ d_dev d = Console /\ d_write d = true).

Lemma terminal_kept s n : fds s = delete n m -> n <> 2 -> terminal 2 s.
Proof. intros E Hn. destruct H2 as (d & Ed & Hd). exists d. split; [|done]. by rewrite E, lookup_delete_ne. Qed.

Lemma terminal_replaced s n d : fds s = <[n := d]> m -> n <> 2 -> terminal 2 s.
Proof. intros E Hn. destruct H2 as (d' & Ed & Hd). exists d'. split; [|done]. by rewrite E, lookup_insert_ne. Qed.

Lemma redirect_child n mode file s : n = 0 \/ n = 1 -> fds s = m -> past s = before ++ [Forked 0] -> fits (left c) ->
  type c = REDIN \/ type c = REDOUT -> right c !! 0%nat = Some file -> is_Some (format (lit (open_error (type c))) false [PStr file]) ->
  (forall s' i f, names s' !! file = Some i -> offs s' !! f = Some O -> fds s' = <[n := open_desc (device_of s' i) f mode]> m ->
     connected c m [Forked 0] s' (left c)) ->
  wp (fun _ _ => False) (child_ends c m before)
    (call (Close n) ;; fd ← call (Open file mode) ; if fd <? 0 then printf 2 (open_error (type c)) [PStr file] ;; exit else run (left c)) s.
Proof.
  intros Hn Ef Ek Hl Ht Hfile [l Ep] Hc. apply wp_bind, wp_shut. intros _ s1 E1 K1. rewrite Ef in E1. apply wp_bind, (wp_reopen _ m H0 _ n); [done|done|..].
  - cbn [Z.ltb Z.compare]. apply wp_bind. eapply wp_printf; [eapply terminal_kept; [done|lia]|done|]. apply wp_exit. right. split; [done|].
    exists file, l, s1. by rewrite K1, Ek.
  - intros s' i f Hi Ho Es Ek'. rewrite (proj2 (Z.ltb_ge _ _)) by lia.
    apply (run_spec _ _ [Forked 0]); [eapply terminal_replaced; [done|lia]|by rewrite Ek', K1|done|by eapply Hc].
Qed.

Lemma lsh_run_spec (Q : unit -> os -> Prop) s : fds s = m -> past s = before -> fits (left c) ->
  (type c <> EXEC -> right c <> []) -> (type c = PIPE -> fits (right c)) ->
  (forall s' did, fds s' = m -> past s' = before ++ did -> parent_did c did -> Q tt s') -> wp Q (child_ends c m before) (lsh_run c) s.
Proof.
  intros Em Eb Hl Hr Hp HQ. unfold lsh_run. unfold parent_did in HQ.
  assert (forall pid s1 s', fds s1 = fds s -> past s1 = past s ++ [Forked pid] -> fds s' = fds s1 -> past s' = past s1 ++ [Waited] ->
    fds s' = m /\ past s' = before ++ [Forked pid; Waited]) as Hone.
  { intros pid s1 s' F1 P1 F2 P2. rewrite F2, F1, Em, P2, P1, Eb, <- (assoc_L (++)). done. }
  destruct (type c) eqn:Et.
  - apply fork_child; [intros s1 Ef Ek|intros pid s1 Ef Ek Hpid; apply wp_wait_done; intros s2 Ef2 Ek2; destruct (Hone _ _ _ Ef Ek Ef2 Ek2); eapply HQ; eauto].
    apply (run_spec _ _ [Forked 0]); [|by rewrite Ek, Eb|done|].
    + destruct H2 as (d & Hd). exists d. by rewrite Ef, Em.
    + unfold connected. rewrite Et. split_and!; [done|done|congruence].
  - apply wp_bind, wp_pipe.
    + intros q0 q1. cbn. eapply wp_printf; [destruct H2 as (d & Hd); exists d; by rewrite Em|formats|]. apply (HQ _ []); [done| |by left].
      by rewrite app_nil_r.
    + intros p0 p1 p f0 f1 s0 Hl0 Hl1 Hne E0 K0. cbn [Z.ltb Z.compare]. rewrite Em in *. rewrite Eb in *. apply fork_child.
      * intros s1 Ef Ek. eapply (wp_pipe_end _ m H0 _ 1 p0 p1 p1 p f0 f1); try done; [by right|by rewrite Ef|rewrite Ef, E0; apply lookup_insert_eq|].
        intros s' Hs' Ek'. apply (run_spec _ _ [Forked 0]); [by eapply terminal_replaced|by rewrite Ek', Ek, K0|done|]. unfold connected. rewrite Et. exists p, f1. by left.
      * intros pid1 s1 Ef Ek Hpid1. apply fork_child.
        -- intros s2 Ef2 Ek2. eapply (wp_pipe_end _ m H0 _ 0 p0 p1 p0 p f0 f1); try done; [by left|by rewrite Ef2, Ef|rewrite Ef2, Ef, E0; unfold piped; by rewrite lookup_insert_ne, lookup_insert_eq|].
           intros s' Hs' Ek'. apply (run_spec _ _ [Forked pid1; Forked 0]); [by eapply terminal_replaced|by rewrite Ek', Ek2, Ek, K0, <- (assoc_L (++))|by apply Hp|].
           unfold connected. rewrite Et. exists p, f0. right. split_and!; [done|by exists pid1|done].
        -- intros pid2 s2 Ef2 Ek2 Hpid2. apply wp_bind, wp_shut; intros _ s3 Ef3 Ek3. apply wp_bind, wp_shut; intros _ s4 Ef4 Ek4.
           apply wp_bind, wp_wait. intros _ s5 Ef5 Ek5. apply wp_wait_done. intros s6 Ef6 Ek6. apply (HQ _ [Forked pid1; Forked pid2; Waited; Waited]).
           ++ rewrite Ef6, Ef5, Ef4, Ef3, Ef2, Ef, E0. by apply piped_closed.
           ++ rewrite Ek6, Ek5, Ek4, Ek3, Ek2, Ek, K0, <- !(assoc_L (++)). done.
           ++ right. by exists pid1, pid2.
  - apply fork_child; [intros s1 Ef Ek|intros pid s1 Ef Ek Hpid; apply wp_wait_done; intros s2 Ef2 Ek2; destruct (Hone _ _ _ Ef Ek Ef2 Ek2); eapply HQ; eauto].
    destruct (right c) as [|file r] eqn:Er; [by destruct Hr|]. change "lsh: 无法打开文件 %s\n"%string with (open_error REDIN). rewrite <- Et.
    apply redirect_child; [by left|congruence|by rewrite Ek, Eb|done|by left|by rewrite Er|rewrite Et; eexists; formats|].
    intros s' i f Hi Ho Hs. unfold connected. rewrite Et, Er. split_and!; [done|done|]. by exists file, i, f.
  - apply fork_child; [intros s1 Ef Ek|intros pid s1 Ef Ek Hpid; apply wp_wait_done; intros s2 Ef2 Ek2; destruct (Hone _ _ _ Ef Ek Ef2 Ek2); eapply HQ; eauto].
    destruct (right c) as [|file r] eqn:Er; [by destruct Hr|]. change "lsh: 无法创建文件 %s\n"%string with (open_error REDOUT). rewrite <- Et.
    apply redirect_child; [by right|congruence|by rewrite Ek, Eb|done|by right|by rewrite Er|rewrite Et; eexists; formats|].
    intros s' i f Hi Ho Hs. unfold connected. rewrite Et, Er. split_and!; [done|done|]. by exists file, i, f.
Qed.
End children.

(** ** A line typed at the prompt *)
Lemma fields_newline l : filter (fun w => w <> []) (fields (l ++ [10])) = filter (fun w => w <> []) (fields l).
Proof.
  assert (fields (l ++ [10]) = fields l ++ [[]]) as ->; [|by rewrite filter_app, app_nil_r].
  induction l as [|c l IH]; [done|]. cbn [app fields]. rewrite IH. case_bool_decide; [done|].
  destruct (fields l) as [|w ws] eqn:E; [|done]. by rewrite fields_cspn in E.
Qed.

Lemma upto_nul_id l : Forall (fun c => 0 < c) l -> upto_nul l = l.
Proof. induction 1 as [|c l Hc Hl IH]; [done|]. cbn. rewrite (proj2 (Z.eqb_neq _ _)) by lia. by rewrite IH. Qed.

Lemma delivers_one x rest r : delivers 1 (x :: rest) r -> r = [x].
Proof. intros (k & -> & Hk & Hne). destruct k as [|[|k]]; [by destruct Hne|done|lia]. Qed.

(** [gets] delivers the line with its end. *)
Lemma wp_gets X (Q : list Z -> os -> Prop) max l rest : forall s, unread 0 s = Some (l ++ 10 :: rest) ->
  Forall (fun c => c <> 10 /\ c <> 13) l -> Z.of_nat (length l) + 1 < max ->
  Q (l ++ [10]) (took 0 (S (length l)) s) -> wp Q X (gets max) s.
Proof.
  intros s Hu Hl Hm HQ. apply (wp_loop X Q (fun buf s' => exists l', l = buf ++ l' /\ s' = took 0 (length buf) s)
    (fun buf _ => length l - length buf)%nat); [|by exists l; rewrite took_0]. intros buf s' (l' & -> & ->).
  rewrite length_app in *. apply Forall_app in Hl as [_ Hl]. rewrite (proj2 (Z.ltb_lt _ _)) by lia. rewrite <- (assoc_L (++)) in *.
  apply wp_bind. eapply wp_read; [by apply unread_took|]. rewrite drop_app_length. intros r Hd. rewrite took_took.
  destruct l' as [|x l']; apply delivers_one in Hd as ->; cbn [app length Z.of_nat Z.ltb Z.compare].
  - rewrite bool_decide_true by (by left). apply wp_ret. rewrite Nat.add_0_r, Nat.add_1_r in *. done.
  - inversion Hl as [|? ? [H1 H2] Hl']; subst. rewrite bool_decide_false by naive_solver. apply wp_ret. split; [|rewrite length_app; simpl; lia].
    exists l'. by rewrite <- (assoc_L (++)), length_app.
Qed.

Lemma wp_help_names X (Q : unit -> os -> Prop) ns : forall s, terminal 1 s -> (forall l, Q tt (print l s)) -> wp Q X (lsh_help_names ns) s.
Proof.
  induction ns as [|n ns IH]; intros s Ht HQ; cbn [lsh_help_names]; [apply wp_ret; rewrite <- (print_nil s); apply HQ|].
  apply wp_bind. eapply wp_printf; [done|formats|]. apply IH; [done|]. intros l. rewrite print_print. apply HQ.
Qed.

(** The name of a command that is built in. *)
Definition is_builtin (c : cmd) : Prop := exists name args, left c = name :: args /\ Exists (fun n => strcmp name n = 0) builtin_str.

(** What the shell itself has done for a line: nothing for an empty one, one whose operator lacks its
    operand and a built-in command; and else its children. *)
Definition line_did (c : cmd) (did : list event) : Prop :=
  (did = [] /\ (left c = [] \/ type c <> EXEC /\ right c = [] \/ is_builtin c)) \/ (~ is_builtin c /\ parent_did c did).

(** What ends while a line is run: its children, or the shell by [exit]. *)
Definition line_ends (c : cmd) (s : os) (e : ending) (s' : os) : Prop :=
  ~ is_builtin c /\ child_ends c (fds s) (past s) e s' \/
  e = Exited /\ fds s' = fds s /\ past s' = past s /\ exists name args, left c = name :: args /\ strcmp name (lit "exit") = 0.

Lemma lsh_execute_spec cwd (c : cmd) s : terminal 1 s -> terminal 2 s -> is_Some (fds s !! 0) -> fits (left c) ->
  (type c <> EXEC -> right c <> []) -> (type c = PIPE -> fits (right c)) ->
  wp (fun _ s' => fds s' = fds s /\ exists did, past s' = past s ++ did /\ line_did c did) (line_ends c s) (lsh_execute cwd c) s.
Proof.
  intros Ht1 Ht2 H0 Hl Hr Hp. unfold lsh_execute. destruct (left c) as [|name args] eqn:El; [by destruct Hl|].
  assert (forall n s', n ∈ builtin_str -> strcmp name n = 0 -> fds s' = fds s -> past s' = past s ->
    fds s' = fds s /\ exists did, past s' = past s ++ did /\ line_did c did) as Hb.
  { intros n s' Hn Hc F P. split; [done|]. exists []. split; [by rewrite app_nil_r|]. left. split; [done|]. right. right. exists name, args.
    split; [done|]. apply Exists_exists. by exists n. }
  cbn [builtin builtin_str builtin_func]. repeat case_match; simplify_eq; rewrite ?Z.eqb_eq, ?Z.eqb_neq in *.
  - unfold lsh_cd. rewrite El. destruct args as [|dir args]; cbn [lookup list_lookup].
    + apply wp_bind. eapply wp_printf; [done|formats|]. apply wp_ret, (Hb (lit "cd")); [by left|done..].
    + apply wp_bind, wp_call; [done|eexists (-1), s; by left|]. intros r s' [[-> ->]|(-> & m & ->)]; cbn [Z.ltb Z.compare].
      * apply wp_bind. eapply wp_printf; [done|formats|]. apply wp_ret, (Hb (lit "cd")); [by left|done..].
      * apply wp_ret, (Hb (lit "cd")); [by left|done..].
  - apply wp_bind. eapply wp_printf; [done|formats|]. apply wp_ret, (Hb (lit "pwd")); [right; by left|done..].
  - unfold lsh_help. do 3 (apply wp_bind; eapply wp_printf; [done|formats|]). apply wp_bind, wp_help_names; [done|]. intros l.
    apply wp_ret, (Hb (lit "help")); [do 2 right; by left|done..].
  - apply wp_exit. right. split_and!; [done..|]. by exists name, args.
  - assert (~ is_builtin c) as Hn.
    { intros (name' & args' & E & Hx). rewrite El in E. simplify_eq. repeat (apply Exists_cons in Hx as [?|Hx]; [done|]). by apply Exists_nil in Hx. }
    apply wp_bind. eapply wp_weaken; [eapply (lsh_run_spec c (fds s) (past s))|]; try done.
    + destruct Ht1 as (d & Hd & _). by exists d.
    + by rewrite El.
    + intros s' did Hf Hk Hd. apply wp_ret. split; [done|]. exists did. split; [done|by right].
    + intros e s' H'. by left.
Qed.


