(* ===== verification/Runcmd.v ===== *)
(** * Runcmd: the shell sh.c runs its commands; init.c

    The commands that the parser makes are run by child processes.  Shown: whatever line is
    typed, each program that comes to be executed is one of the command, with its words as
    arguments and the descriptors its redirections and pipes call for, and the shell goes on
    with its own. *)
From stdpp Require Import base list gmap strings.
From Stdlib Require Import ZArith Lia.
From ITree Require Import ITree.
From S2P Require Import Prelude Sh User Ulib Utils.
Local Open Scope Z_scope.

Definition panic {A} (s : string) : prog A := printf 2 "%s\n" [PStr (lit s)] ;; exit.

Definition fork1 : prog Z :=
  pid ← call Fork ;
  if pid =? -1 then panic "fork" else mret pid.

(** The strings of a command are known here; it never returns. *)
Fixpoint runcmd (c : cmd (list Z)) : prog unit :=
  match c with
  | EXEC argv =>
      match argv with
      | [] => exit
      | file :: _ =>
          call (Exec file argv) ;;
          printf 2 "exec %s failed\n" [PStr file] ;;
          exit
      end
  | REDIR c file mode fd =>
      call (Close fd) ;;
      r ← call (Open file mode) ;
      if r <? 0 then
        printf 2 "open %s failed\n" [PStr file] ;;
        exit
      else runcmd c ;; exit
  | LIST l r =>
      pid ← fork1 ;
      (if pid =? 0 then runcmd l else mret tt) ;;
      call Wait ;;
      runcmd r ;;
      exit
  | PIPE l r =>
      q ← call Pipe ;
      let '(ok, (p0, p1)) := q in
      if ok <? 0 then panic "pipe"
      else
        pid ← fork1 ;
        (if pid =? 0 then call (Close 1) ;; call (Dup p1) ;; call (Close p0) ;; call (Close p1) ;; runcmd l else mret tt) ;;
        pid ← fork1 ;
        (if pid =? 0 then call (Close 0) ;; call (Dup p0) ;; call (Close p0) ;; call (Close p1) ;; runcmd r else mret tt) ;;
        call (Close p0) ;;
        call (Close p1) ;;
        call Wait ;;
        call Wait ;;
        exit
  | BACK c =>
      pid ← fork1 ;
      (if pid =? 0 then runcmd c else mret tt) ;;
      exit
  end.

(** The line, or nothing at the end of the input. *)
Definition getcmd (nbuf : Z) : prog (option (list Z)) :=
  printf 2 "$ " [] ;;
  buf ← gets nbuf ;
  match upto_nul buf with
  | [] => mret None
  | line => mret (Some line)
  end.

(** [parsecmd] with its messages, and the strings after [nulterminate]. *)
Definition parseline_strings (s : list Z) : prog (cmd (list Z)) :=
  match parseline (parse_fuel s) s with
  | POk c ps =>
      match (peek ps []).1 with
      | [] => mret (cmd_map (string_at (length s) (nulterminate (length s) c (s ++ [0]))) c)
      | ps => printf 2 "leftovers: %s\n" [PStr ps] ;; panic "syntax"
      end
  | PPanic msg => panic msg
  | PFuel => undefined "no result"
  end.

Definition sh_line (buf : list Z) : prog unit :=
  if bool_decide (take 3 buf = lit "cd ") then
    let path := drop 3 (take (length buf - 1) buf) in
    r ← call (Chdir path) ;
    if r <? 0 then printf 2 "cannot cd %s\n" [PStr path] else mret tt
  else
    pid ← fork1 ;
    (if pid =? 0 then c ← parseline_strings buf ; runcmd c else mret tt) ;;
    call Wait ;;
    mret tt.

Definition open_console : prog unit :=
  loop (fun _ : unit =>
    fd ← call (Open (lit "console") O_RDWR) ;
    if fd <? 0 then mret (inr tt)
    else if 3 <=? fd then call (Close fd) ;; mret (inr tt)
    else mret (inl tt)) tt.

Definition sh_main : prog unit :=
  open_console ;;
  loop (fun _ : unit =>
    r ← getcmd 100 ;
    match r with
    | None => mret (inr tt)
    | Some buf => sh_line buf ;; mret (inl tt)
    end) tt ;;
  exit.

(** ** init.c

    [schedulerName[schedSelected]] is the name the kernel was built with. *)
Definition init_argv : list (list Z) := [lit "sh"; lit "lsh"].

Definition init_setup (policy : list Z) : prog unit :=
  fd ← call (Open (lit "console") O_RDWR) ;
  (if fd <? 0 then
     call (Mknod (lit "console") 1 1) ;;
     call (Open (lit "console") O_RDWR) ;;
     mret tt
   else mret tt) ;;
  call (Dup 0) ;;
  call (Dup 0) ;;
  printf 1 "Scheduler default policy: %s\n" [PStr policy].

Definition init_shell : prog unit :=
  call (Exec (lit "lsh") init_argv) ;;
  printf 1 "init: exec sh failed\n" [] ;;
  exit.

(** One round: a shell, until it ends. *)
Definition init_round : prog unit :=
  printf 1 "init: starting lsh\n" [] ;;
  pid ← call Fork ;
  if pid <? 0 then printf 1 "init: fork failed\n" [] ;; exit
  else
    (if pid =? 0 then init_shell else mret tt) ;;
    loop (fun _ : unit =>
      wpid ← call Wait ;
      if (0 <=? wpid) && negb (wpid =? pid) then printf 1 "zombie!\n" [] ;; mret (inl tt)
      else mret (inr tt)) tt.

Definition init_main (policy : list Z) : prog unit :=
  init_setup policy ;;
  loop (fun _ : unit => init_round ;; mret (inl tt)) tt.

(** ** What is executed

    [ends c s e s']: a process that runs the command [c] from the state [s] on, or one of its
    children, ends as [e] says, in [s'].  Every [Execed] is a program of [c]; a process exits
    only if there is nothing left to do for it, if its program could not be executed, or if
    a file or a pipe could not be opened or a child not be made. *)
Definition opened_at (fd : Z) (file : list Z) (mode : Z) (s s1 : os) : Prop :=
  exists i f, names s1 !! file = Some i /\ offs s1 !! f = Some O /\
    fds s1 = <[fd := open_desc (device_of s1 i) f mode]> (fds s) /\ past s1 = past s.

(** In [s1] what has happened since [s] is [did], and the descriptors are [m]. *)
Definition later (s s1 : os) (did : list event) (m : gmap Z descriptor) : Prop := past s1 = past s ++ did /\ fds s1 = m.

Inductive ends : cmd (list Z) -> os -> ending -> os -> Prop :=
  | ends_exec file args s : ends (EXEC (file :: args)) s (Execed file (file :: args)) s
  | ends_exec_failed file args s l : format (lit "exec %s failed\n") false [PStr file] = Some l ->
      ends (EXEC (file :: args)) s Exited (print l (happened (Tried file (file :: args)) s))
  | ends_exec_none s : ends (EXEC []) s Exited s
  | ends_redir c file mode fd s s1 e s' : opened_at fd file mode s s1 -> ends c s1 e s' -> ends (REDIR c file mode fd) s e s'
  | ends_redir_failed c file mode fd s s1 l : later s s1 [] (delete fd (fds s)) -> format (lit "open %s failed\n") false [PStr file] = Some l ->
      ends (REDIR c file mode fd) s Exited (print l s1)
  | ends_list_left l r s s1 e s' : later s s1 [Forked 0] (fds s) -> ends l s1 e s' -> ends (LIST l r) s e s'
  | ends_list_right l r s s1 pid e s' : 0 < pid -> later s s1 [Forked pid; Waited] (fds s) -> ends r s1 e s' -> ends (LIST l r) s e s'
  | ends_list_failed l r s s1 : later s s1 [Forked (-1)] (fds s) -> ends (LIST l r) s Exited (print (lit "fork\n") s1)
  | ends_pipe_left l r p f s s1 e s' : later s s1 [Forked 0] (<[1 := pipe_in p f]> (fds s)) -> ends l s1 e s' -> ends (PIPE l r) s e s'
  | ends_pipe_right l r p f s s1 pid e s' : 0 < pid -> later s s1 [Forked pid; Forked 0] (<[0 := pipe_out p f]> (fds s)) -> ends r s1 e s' ->
      ends (PIPE l r) s e s'
  | ends_pipe_both l r s pid1 pid2 s' : 0 < pid1 -> 0 < pid2 -> later s s' [Forked pid1; Forked pid2; Waited; Waited] (fds s) ->
      ends (PIPE l r) s Exited s'
  | ends_pipe_failed l r s : ends (PIPE l r) s Exited (print (lit "pipe\n") s)
  | ends_pipe_child_failed l r s s1 did m : later s s1 did m -> did = [Forked (-1)] \/ (exists pid, 0 < pid /\ did = [Forked pid; Forked (-1)]) ->
      ends (PIPE l r) s Exited (print (lit "fork\n") s1)
  | ends_back c s s1 e s' : later s s1 [Forked 0] (fds s) -> ends c s1 e s' -> ends (BACK c) s e s'
  | ends_back_left c s pid s' : 0 < pid -> later s s' [Forked pid] (fds s) -> ends (BACK c) s Exited s'
  | ends_back_failed c s s1 : later s s1 [Forked (-1)] (fds s) -> ends (BACK c) s Exited (print (lit "fork\n") s1).

(** The standard descriptors are open, and the last is the console. *)
Definition std (s : os) : Prop := is_Some (fds s !! 0) /\ is_Some (fds s !! 1) /\ terminal 2 s.

Lemma std_fds s s' : fds s' = fds s -> std s -> std s'.
Proof. intros E (H0 & H1 & H2). unfold std. rewrite E. split_and!; [done|done|by eapply terminal_fds]. Qed.

Lemma std_replaced s s' n d : n = 0 \/ n = 1 -> fds s' = <[n := d]> (fds s) -> std s -> std s'.
Proof.
  intros Hn E (H0 & H1 & d2 & E2 & H2). split_and!; [rewrite E; apply lookup_insert_is_Some'; auto..|].
  exists d2. split; [|done]. by rewrite E, lookup_insert_ne by lia.
Qed.

Lemma wp_panic {A} (Q : A -> os -> Prop) (X : ending -> os -> Prop) msg s : terminal 2 s -> X Exited (print (lit msg ++ [10]) s) -> wp Q X (panic msg) s.
Proof.
  intros Ht HX. unfold panic. revert HX. generalize (lit msg). intros m HX. apply wp_bind. eapply wp_printf; [done|formats|]. by apply wp_exit.
Qed.

(** A child that does not return, and the parent that goes on. *)
Lemma wp_fork1 {A} (Q : A -> os -> Prop) (X : ending -> os -> Prop) (body : prog unit) (k : prog A) s :
  std s -> (forall s', later s s' [Forked (-1)] (fds s) -> X Exited (print (lit "fork\n") s')) ->
  (forall s', later s s' [Forked 0] (fds s) -> wp (fun _ _ => False) X body s') ->
  (forall pid s', 0 < pid -> later s s' [Forked pid] (fds s) -> wp Q X k s') ->
  wp Q X (pid ← fork1 ; (if pid =? 0 then body else mret tt) ;; k) s.
Proof.
  intros Hs HX Hb Hk. apply wp_bind, wp_bind, wp_fork.
  - intros pid s' Hf Hfk Hp. destruct (pid =? -1) eqn:E.
    + apply Z.eqb_eq in E as ->. apply wp_panic; [by eapply std_fds in Hs as (_ & _ & ?)|by apply HX].
    + apply Z.eqb_neq in E. apply wp_ret. rewrite (proj2 (Z.eqb_neq _ _)) by lia. apply wp_bind, wp_ret. eapply (Hk pid); [lia|done].
  - intros s' Hf Hfk. cbn. apply wp_ret. cbn. apply wp_bind. eapply wp_mono; [by apply Hb|done].
Qed.

Lemma std_piped s s' p0 p1 p f0 f1 : fds s !! p0 = None -> fds s !! p1 = None -> fds s' = piped p0 p1 p f0 f1 (fds s) -> std s -> std s'.
Proof.
  intros E0 E1 E (H0 & H1 & d & E2 & H2). assert (forall k, is_Some (fds s !! k) -> fds s' !! k = fds s !! k) as Hk.
  { intros k [x Hx]. rewrite E. unfold piped. rewrite !lookup_insert_ne by congruence. done. }
  split_and!; [by rewrite Hk..|]. exists d. split; [|done]. rewrite Hk; [done|by exists d].
Qed.

(** A part of a command is run as part of it. *)
Lemma part_ends c c0 s s0 t : wp (A := unit) (fun _ _ => False) (ends c s) t s -> (forall e s', ends c s e s' -> ends c0 s0 e s') ->
  wp (fun _ _ => False) (ends c0 s0) t s.
Proof. intros Ht H. eapply wp_weaken; [done|]. auto. Qed.

(** A pipe and the two children at its ends. *)
Lemma runcmd_pipe l r s : std s ->
  (forall s1, std s1 -> wp (fun _ _ => False) (ends l s1) (runcmd l) s1) -> (forall s1, std s1 -> wp (fun _ _ => False) (ends r s1) (runcmd r) s1) ->
  wp (fun _ _ => False) (ends (PIPE l r) s) (runcmd (PIPE l r)) s.
Proof.
  intros Hs Hl Hr. pose proof Hs as (H0 & H1 & H2). cbn [runcmd]. apply wp_bind, wp_pipe; [intros q0 q1; apply wp_panic; [done|apply ends_pipe_failed]|].
  intros p0 p1 p f0 f1 s0 Hn0 Hn1 Hne E0 K0. cbn [Z.ltb Z.compare]. assert (std s0) as Hs0 by (exact (std_piped _ _ _ _ _ _ _ Hn0 Hn1 E0 Hs)). apply wp_fork1; [done|..].
  - intros s1 [P _]. eapply (ends_pipe_child_failed _ _ _ _ [Forked (-1)]); [|by left]. split; [by rewrite P, K0|done].
  - intros s1 [P F]. rewrite K0 in P. rewrite E0 in F. eapply (wp_pipe_end _ (fds s) H0 _ 1 p0 p1 p1 p f0 f1); try done; [by right|rewrite F; apply lookup_insert_eq|].
    intros s' F' P'. eapply part_ends; [apply Hl; eapply std_replaced; [|done|done]; by right|]. intros e s2. eapply ends_pipe_left. split; [by rewrite P', P|done].
  - intros pid s1 Hpid [P F]. rewrite K0 in P. rewrite E0 in F. apply wp_fork1; [exact (std_piped _ _ _ _ _ _ _ Hn0 Hn1 F Hs)|..].
    + intros s2 [P2 _]. eapply (ends_pipe_child_failed _ _ _ _ [Forked pid; Forked (-1)]); [|right; by exists pid]. split; [by rewrite P2, P, <- (assoc_L (++))|done].
    + intros s2 [P2 F2]. rewrite F in F2. rewrite P, <- (assoc_L (++)) in P2.
      eapply (wp_pipe_end _ (fds s) H0 _ 0 p0 p1 p0 p f0 f1); try done; [by left|rewrite F2; unfold piped; by rewrite lookup_insert_ne, lookup_insert_eq|].
      intros s' F' P'. eapply part_ends; [apply Hr; eapply std_replaced; [|done|done]; by left|]. intros e s3. eapply ends_pipe_right; [exact Hpid|]. split; [by rewrite P', P2|done].
    + intros pid2 s2 Hpid2 [P2 F2]. rewrite F in F2. rewrite P in P2. apply wp_bind, wp_shut; intros _ s3 F3 P3. apply wp_bind, wp_shut; intros _ s4 F4 P4.
      apply wp_bind, wp_wait. intros _ s5 F5 P5. apply wp_bind, wp_wait. intros _ s6 F6 P6. apply wp_exit, (ends_pipe_both _ _ _ pid pid2); [done|done|]. split.
      * rewrite P6, P5, P4, P3, P2, <- !(assoc_L (++)). done.
      * rewrite F6, F5, F4, F3, F2. by apply piped_closed.
Qed.

(** The command never returns. *)
Lemma runcmd_spec c : forall s, representable c -> std s -> wp (fun _ _ => False) (ends c s) (runcmd c) s.
Proof.
  induction c as [argv|c IH file mode fd|l IHl r IHr|l IHl r IHr|c IH]; intros s Hr Hs; cbn [representable] in Hr.
  - cbn [runcmd]. destruct argv as [|file args]; [apply wp_exit, ends_exec_none|]. apply wp_bind, wp_exec; [apply ends_exec|].
    assert (exists l, format (lit "exec %s failed\n") false [PStr file] = Some l) as [l El] by (eexists; formats).
    apply wp_bind. eapply wp_printf; [apply Hs|exact El|]. by apply wp_exit, ends_exec_failed.
  - cbn [runcmd]. destruct Hr as (Hr & _ & Hrk). assert (fd = 0 \/ fd = 1) as Hfd by (unfold redir_kind in Hrk; lia). pose proof Hs as (H0 & H1 & H2).
    assert (exists l, format (lit "open %s failed\n") false [PStr file] = Some l) as [l El] by (eexists; formats).
    apply wp_bind, wp_shut; intros _ s1 F1 P1. apply wp_bind, (wp_reopen _ (fds s) H0 _ fd); [done|done|..].
    + cbn [Z.ltb Z.compare]. apply wp_bind. eapply wp_printf; [|exact El|].
      * destruct H2 as (d & E & Hd). exists d. split; [|done]. by rewrite F1, lookup_delete_ne by lia.
      * apply wp_exit. eapply ends_redir_failed; [|done]. split; [by rewrite app_nil_r|done].
    + intros s2 i f Hi Ho F2 P2. rewrite (proj2 (Z.ltb_ge _ _)) by lia. apply wp_bind. apply (wp_mono _ (fun _ _ => False)); [|done].
      eapply part_ends; [apply IH; [done|by eapply std_replaced]|]. intros e s'. eapply ends_redir. exists i, f. split_and!; [done..|congruence].
  - destruct Hr as [Hl Hr]. apply runcmd_pipe; [done|intros; by apply IHl|intros; by apply IHr].
  - cbn [runcmd]. destruct Hr as [Hl Hr]. apply wp_fork1; [done|intros; by apply ends_list_failed|..].
    + intros s1 H. eapply part_ends; [apply IHl; [done|by eapply std_fds; [apply H|]]|]. intros e s'. by eapply ends_list_left.
    + intros pid s1 Hpid [P F]. apply wp_bind, wp_wait. intros _ s2 F2 P2. apply wp_bind. apply (wp_mono _ (fun _ _ => False)); [|done].
      eapply part_ends; [apply IHr; [done|eapply std_fds; [|done]; congruence]|]. intros e s'. eapply ends_list_right; [exact Hpid|].
      split; [by rewrite P2, P, <- (assoc_L (++))|congruence].
  - cbn [runcmd]. apply wp_fork1; [done|intros; by apply ends_back_failed|..].
    + intros s1 H. eapply part_ends; [apply IH; [done|by eapply std_fds; [apply H|]]|]. intros e s'. by eapply ends_back.
    + intros pid s1 Hpid H. apply wp_exit. by eapply ends_back_left.
Qed.

(** What ends while the shell runs a line: the shell itself if it cannot [fork], or a child that parses the line and runs the
    command. *)
Definition sh_ends (buf : list Z) (s : os) (e : ending) (s' : os) : Prop :=
  (e = Exited /\ exists s1, later s s1 [Forked (-1)] (fds s) /\ s' = print (lit "fork\n") s1) \/
  exists s1, later s s1 [Forked 0] (fds s) /\
    match parsecmd buf with
    | POk (c, _) _ => ends (cmd_map text c) s1 e s'
    | _ => e = Exited /\ exists l, l <> [] /\ s' = print l s1
    end.

(** What the shell itself has done: it changes its directory, or makes a child and waits. *)
Definition sh_did (buf : list Z) (did : list event) : Prop :=
  if bool_decide (take 3 buf = lit "cd ") then did = [] else exists pid, 0 < pid /\ did = [Forked pid; Waited].


