(* ===== verification/Mkfs.v ===== *)
(** * Mkfs: the program that makes the first file system (mkfs.c)

    The program runs on the host and builds the disk image: superblock, an empty log, inodes,
    the free map, the root directory and a file for each argument.  The image is a file of
    sectors; reading behind its end fails, as [rsect] then finds.  A file on the host is what
    successive calls of [read] deliver.  The image is shown to be a file system in the sense of
    Blocks.v and Contents.v, which the kernel's operations start from and keep. *)
From stdpp Require Import base list list_numbers gmap strings functions sorting.
From Stdlib Require Import ZArith Lia FunctionalExtensionality.
From S2P Require Import Prelude Mem Layout Machine Sched Sleeplock Disk Bio Log Fs Tx Blocks Inode Contents Filewrite.
Local Open Scope Z_scope.

(** ** Results: a failed [assert], or a message from [perror] and [exit(1)]. *)
Inductive mk (A : Type) : Type :=
  | OK (a : A)
  | Assert (what : string)
  | Exit (what : string)
  | NoFuel.
Arguments OK {A} a.
Arguments Assert {A} what.
Arguments Exit {A} what.
Arguments NoFuel {A}.

#[export] Instance mk_ret : MRet mk := fun A a => OK a.
#[export] Instance mk_bind : MBind mk := fun A B f m =>
  match m with OK a => f a | Assert w => Assert w | Exit w => Exit w | NoFuel => NoFuel end.

(** ** Layout *)
Definition NINODES : Z := 200.
Definition nbitmap : Z := FSSIZE / (Z.of_nat BSIZE * 8) + 1.
Definition ninodeblocks : Z := NINODES / IPB + 1.
Definition nlog : Z := LOGSIZE.
Definition nmeta : Z := 2 + nlog + ninodeblocks + nbitmap.

(** Intel byte order, on a host of the same order. *)
Definition xshort (x : Z) : Z := half_at [u8 x; u8 (Z.shiftr x 8)] 0.
Definition xint (x : Z) : Z := word_at [u8 x; u8 (Z.shiftr x 8); u8 (Z.shiftr x 16); u8 (Z.shiftr x 24)] 0.

Definition sb : superblock :=
  mkSuperblock (xint FSSIZE) (xint (FSSIZE - nmeta)) (xint NINODES) (xint nlog) (xint 2) (xint (2 + nlog))
    (xint (2 + nlog + ninodeblocks)).

(** The bytes of [sb], at the start of a block of zeros. *)
Definition sb_block : list Z :=
  set_word (set_word (set_word (set_word (set_word (set_word (set_word zeros
    0 (sb_size sb)) 4 (sb_nblocks sb)) 8 (sb_ninodes sb)) 12 (sb_nlog sb)) 16 (sb_logstart sb))
    20 (sb_inodestart sb)) 24 (sb_bmapstart sb).

(** ** The image and the counters

    [nsect] is the length of the image file in sectors; what was never written of it reads as zeros. *)
Record image := mkImage { sectors : Z -> list Z; nsect : Z; freeinode : Z; freeblock : Z }.
#[export] Instance eta_image : Eta image := fun r => mkImage (sectors r) (nsect r) (freeinode r) (freeblock r).
#[export] Instance upd_sectors : Upd sectors := ltac:(derive_upd).
#[export] Instance upd_nsect : Upd nsect := ltac:(derive_upd).
#[export] Instance upd_freeinode : Upd freeinode := ltac:(derive_upd).
#[export] Instance upd_freeblock : Upd freeblock := ltac:(derive_upd).

Definition wsect (sec : Z) (buf : list Z) (st : image) : image :=
  st <| sectors ::= <[sec := buf]> |> <| nsect ::= Z.max (sec + 1) |>.

Definition rsect (sec : Z) (st : image) : mk (list Z) :=
  if sec <? nsect st then OK (sectors st sec) else Exit "read".

(** A [struct dinode] is represented by the inode that the kernel makes of it. *)
Definition dinode0 (n : Z) : inode := zero_inode <| idev := 1 |> <| inum := n |>.

Definition winode (inum : Z) (ip : inode) (st : image) : mk image :=
  let bn := IBLOCK inum sb in
  buf ← rsect bn st ;
  OK (wsect bn (put_dinode buf (dinode_off inum) ip) st).

Definition rinode (inum : Z) (st : image) : mk inode :=
  let bn := IBLOCK inum sb in
  buf ← rsect bn st ;
  OK (get_dinode buf (dinode_off inum) (dinode0 inum)).

Definition ialloc (type : Z) (st : image) : mk (Z * image) :=
  let inum := freeinode st in
  let st := st <| freeinode := u32 (inum + 1) |> in
  let din := dinode0 inum <| itype := xshort type |> <| nlink := xshort 1 |> <| isize := xint 0 |> in
  st ← winode inum din st ;
  OK (inum, st).

Definition balloc (used : Z) (st : image) : mk image :=
  if used <? Z.of_nat BSIZE * 8 then
    OK (wsect (sb_bmapstart sb) (foldl (fun buf i => set_bit i buf) zeros (seqZ 0 used)) st)
  else Assert "used < BSIZE*8".

(** [freeblock++] *)
Definition next_block (st : image) : Z * image := (freeblock st, st <| freeblock := u32 (freeblock st + 1) |>).

(** Sees to it that there is an indirect block. *)
Definition iappend_indirect (din : inode) (st : image) : inode * image :=
  if xint (addrs din !!! NDIRECT) =? 0 then
    let '(b, st) := next_block st in (din <| addrs ::= <[NDIRECT := xint b]> |>, st)
  else (din, st).

(** The block [x] of the file for [fbn], with the inode and the image after allocations. *)
Definition iappend_block (fbn : Z) (din : inode) (st : image) : mk (Z * inode * image) :=
  if fbn <? Z.of_nat NDIRECT then
    let '(din, st) :=
      if xint (addrs din !!! Z.to_nat fbn) =? 0 then
        let '(b, st) := next_block st in (din <| addrs ::= <[Z.to_nat fbn := xint b]> |>, st)
      else (din, st) in
    OK (xint (addrs din !!! Z.to_nat fbn), din, st)
  else
    let '(din, st) := iappend_indirect din st in
    let o := Z.to_nat (4 * (fbn - Z.of_nat NDIRECT)) in
    indirect ← rsect (xint (addrs din !!! NDIRECT)) st ;
    let '(indirect, st) :=
      if word_at indirect o =? 0 then
        let '(b, st) := next_block st in
        let indirect := set_word indirect o (xint b) in
        (indirect, wsect (xint (addrs din !!! NDIRECT)) indirect st)
      else (indirect, st) in
    OK (xint (word_at indirect o), din, st).

(** The loop of [iappend]: [p] are the bytes still to be written. *)
Fixpoint iappend_loop (left : nat) (p : list Z) (off : Z) (din : inode) (st : image) : mk (Z * inode * image) :=
  match p with
  | [] => OK (off, din, st)
  | _ =>
      match left with
      | O => NoFuel
      | S left' =>
          let fbn := off / Z.of_nat BSIZE in
          if fbn <? MAXFILE then
            r ← iappend_block fbn din st ;
            let '(x, din, st) := r in
            let n1 := Z.min (Z.of_nat (length p)) ((fbn + 1) * Z.of_nat BSIZE - off) in
            buf ← rsect x st ;
            let buf := splice buf (Z.to_nat (off - fbn * Z.of_nat BSIZE)) (take (Z.to_nat n1) p) in
            iappend_loop left' (drop (Z.to_nat n1) p) (off + n1) din (wsect x buf st)
          else Assert "fbn < MAXFILE"
      end
  end.

Definition iappend (inum : Z) (p : list Z) (st : image) : mk image :=
  din ← rinode inum st ;
  r ← iappend_loop (length p) p (xint (isize din)) din st ;
  let '(off, din, st) := r in
  winode inum (din <| isize := xint off |>) st.

(** ** [main] *)

(** [strncpy] of the host, into [DIRSIZ] bytes. *)
Definition padded (name : list Z) : list Z := take DIRSIZ name ++ replicate (DIRSIZ - length name) 0.

(** The new image, with zeros in all sectors but the superblock. *)
Definition new_image : image :=
  let st := foldl (fun st i => wsect i zeros st) (mkImage (fun _ => zeros) 0 1 nmeta) (seqZ 0 FSSIZE) in
  wsect 1 sb_block st.

Definition make_root (st : image) : mk (Z * image) :=
  r ← ialloc T_DIR st ;
  let '(rootino, st) := r in
  if rootino =? ROOTINO then
    st ← iappend rootino (encode_dirent (xshort rootino) (padded [46])) st ;
    st ← iappend rootino (encode_dirent (xshort rootino) (padded [46; 46])) st ;
    OK (rootino, st)
  else Assert "rootino == ROOTINO".

(** What the calls of [read] deliver is appended, until one delivers nothing. *)
Fixpoint copy_file (inum : Z) (reads : list (list Z)) (st : image) : mk image :=
  match reads with
  | [] | [] :: _ => OK st
  | buf :: reads' => st ← iappend inum buf st ; copy_file inum reads' st
  end.

(** The name in the file system: without a leading underscore. *)
Definition skip_underscore (name : list Z) : list Z :=
  match name with c :: l => if c =? 95 then l else name | [] => name end.

(** An argument: its name and, if [open] succeeds, what reading it delivers. *)
Record arg := mkArg { aname : list Z; afile : option (list (list Z)) }.

Definition add_file (rootino : Z) (a : arg) (st : image) : mk image :=
  if bool_decide (slash ∈ aname a) then Assert "index(argv[i], '/') == 0"
  else
    match afile a with
    | None => Exit "open"
    | Some reads =>
        r ← ialloc T_FILE st ;
        let '(inum, st) := r in
        st ← iappend rootino (encode_dirent (xshort inum) (padded (skip_underscore (aname a)))) st ;
        copy_file inum reads st
    end.

Fixpoint add_files (rootino : Z) (args : list arg) (st : image) : mk image :=
  match args with
  | [] => OK st
  | a :: args' => st ← add_file rootino a st ; add_files rootino args' st
  end.

(** The size of the root directory is rounded up; then the free map is written. *)
Definition finish (rootino : Z) (st : image) : mk image :=
  din ← rinode rootino st ;
  let off := xint (isize din) in
  let off := u32 ((off / Z.of_nat BSIZE + 1) * Z.of_nat BSIZE) in
  st ← winode rootino (din <| isize := xint off |>) st ;
  balloc (freeblock st) st.

Definition main (args : list arg) : mk image :=
  r ← make_root new_image ;
  let '(rootino, st) := r in
  st ← add_files rootino args st ;
  finish rootino st.

(** ** Byte order and layout *)
Lemma xint_id x : 0 <= x < 2 ^ 32 -> xint x = x.
Proof.
  intros Hx. unfold xint, word_at, u8. cbn [lookup_total list_lookup_total Nat.add].
  rewrite !Z.shiftr_div_pow2 by lia. change (2 ^ 8) with 256. change (2 ^ 16) with 65536. change (2 ^ 24) with 16777216. dlia.
Qed.

Lemma xshort_id x : 0 <= x < 2 ^ 16 -> xshort x = x.
Proof.
  intros Hx. unfold xshort, half_at, u8. cbn [lookup_total list_lookup_total Nat.add].
  rewrite !Z.shiftr_div_pow2 by lia. change (2 ^ 8) with 256. dlia.
Qed.

Lemma sb_fields : sb = mkSuperblock 1000 941 200 30 2 32 58.
Proof. vm_compute. reflexivity. Qed.

Lemma sb_decode : decode_sb sb_block = sb.
Proof. vm_compute. reflexivity. Qed.

Lemma nmeta_eq : nmeta = 59.
Proof. reflexivity. Qed.

(** ** The free map *)
Definition bitmap (used : Z) : list Z := foldl (fun buf i => set_bit i buf) zeros (seqZ 0 used).

Lemma bitmap_succ n : 0 <= n -> bitmap (n + 1) = set_bit n (bitmap n).
Proof. intros Hn. unfold bitmap. rewrite seqZ_app by lia. rewrite foldl_app, Z.add_0_l. done. Qed.

Lemma bitmap_nat n : is_block (bitmap (Z.of_nat n)).
Proof.
  induction n as [|n IH]; [apply zeros_block|]. replace (Z.of_nat (S n)) with (Z.of_nat n + 1) by lia.
  rewrite bitmap_succ by lia. by apply set_bit_block.
Qed.

Lemma bitmap_block n : is_block (bitmap n).
Proof.
  destruct (decide (0 <= n)); [rewrite <- (Z2Nat.id n) by lia; apply bitmap_nat|].
  unfold bitmap. rewrite seqZ_nil by lia. apply zeros_block.
Qed.

Lemma bit_clear_zeros b : 0 <= b < BPB -> bit_clear zeros b = true.
Proof.
  intros Hb. unfold bit_clear, zeros. rewrite lookup_total_replicate_2; [done|]. unfold BPB, BSIZE in *. dlia.
Qed.

(** The first [n] blocks are in use. *)
Lemma bit_clear_bitmap n b : 0 <= n <= BPB -> 0 <= b < BPB -> bit_clear (bitmap n) b = (n <=? b).
Proof.
  intros [H0 Hn] Hb. revert n H0 Hn. refine (natlike_ind _ _ _); [intros _|intros n Hn IH Hn'].
  - unfold bitmap. rewrite seqZ_nil by lia. simpl. rewrite bit_clear_zeros by done. symmetry. apply Z.leb_le. lia.
  - change (Z.succ n) with (n + 1) in *. rewrite bitmap_succ by done.
    rewrite bit_clear_set by (apply bitmap_block || lia). rewrite IH by lia.
    destruct (Z.leb_spec n b), (Z.eqb_spec b n), (Z.leb_spec (n + 1) b); simpl; lia || done.
Qed.

(** ** The file system while it is made

    The free map is written at the end; [shown] has it from the start. *)
Definition shown (st : image) : Z -> list Z := <[sb_bmapstart sb := bitmap (freeblock st)]> (sectors st).

Record image_ok (st : image) : Prop := {
  io_super : sectors st 1 = sb_block;
  io_nsect : nsect st = FSSIZE;
  io_inode : 1 <= freeinode st <= NINODES;
  io_next : nmeta <= freeblock st <= FSSIZE;
  io_block n : is_block (sectors st n);
  io_free n : freeblock st <= n < FSSIZE -> sectors st n = zeros;
  io_log n : 2 <= n < 2 + nlog -> sectors st n = zeros;
}.

Lemma shown_other st n : n <> sb_bmapstart sb -> shown st n = sectors st n.
Proof. intros H. unfold shown. by rewrite fn_lookup_insert_ne. Qed.

Lemma shown_bmap st : shown st (sb_bmapstart sb) = bitmap (freeblock st).
Proof. unfold shown. by rewrite fn_lookup_insert. Qed.

Lemma shown_fs_ok st : image_ok st -> fs_ok (shown st) sb.
Proof.
  intros H. split.
  - rewrite shown_other by done. rewrite (io_super _ H). apply sb_decode.
  - by vm_compute.
  - intros n _. destruct (decide (n = sb_bmapstart sb)) as [->|Hn]; [rewrite shown_bmap; apply bitmap_block|].
    rewrite shown_other by done. apply H.
  - intros b Hb. pose proof (io_next _ H) as Hr. rewrite nmeta_eq in Hr. change (sb_bmapstart sb) with 58 in Hb.
    rewrite shown_bmap, bit_clear_bitmap by (unfold FSSIZE, BPB in *; lia). apply Z.leb_gt. lia.
Qed.

Lemma shown_free st b : image_ok st -> b ∈ free_blocks (shown st) sb <-> freeblock st <= b < FSSIZE.
Proof.
  intros H. pose proof (io_next _ H) as Hr. rewrite nmeta_eq in Hr. rewrite elem_of_free, shown_bmap. change (sb_size sb) with FSSIZE.
  destruct (decide (0 <= b < FSSIZE)) as [Hb|Hb]; [|lia].
  rewrite bit_clear_bitmap by (unfold FSSIZE, BPB in *; lia). rewrite Z.leb_le. lia.
Qed.

(** ** Sectors *)
Lemma shown_wsect st x d : x <> sb_bmapstart sb -> shown (wsect x d st) = <[x := d]> (shown st).
Proof.
  intros Hx. apply functional_extensionality. intros n. unfold shown, wsect. simpl.
  destruct (decide (n = sb_bmapstart sb)) as [->|Hb].
  - by rewrite fn_lookup_insert, (fn_lookup_insert_ne _ x), fn_lookup_insert.
  - rewrite (fn_lookup_insert_ne _ (sb_bmapstart sb)) by done. destruct (decide (n = x)) as [->|Hn].
    + by rewrite !fn_lookup_insert.
    + by rewrite !(fn_lookup_insert_ne _ x), fn_lookup_insert_ne by done.
Qed.

Lemma image_ok_wsect st x d : image_ok st -> 2 + nlog <= x < freeblock st -> is_block d -> image_ok (wsect x d st).
Proof.
  intros H Hx Hd. pose proof (io_next _ H) as Hn. change nlog with 30 in *. split; simpl; try apply H.
  - rewrite fn_lookup_insert_ne by lia. apply H.
  - rewrite (io_nsect _ H). lia.
  - intros n. destruct (decide (n = x)) as [->|]; [by rewrite fn_lookup_insert|]. rewrite fn_lookup_insert_ne by done. apply H.
  - intros n Hr. rewrite fn_lookup_insert_ne by lia. by apply (io_free _ H).
  - intros n Hr. change nlog with 30 in *. rewrite fn_lookup_insert_ne by lia. by apply (io_log _ H).
Qed.

Lemma rsect_ok st x : image_ok st -> x < FSSIZE -> x <> sb_bmapstart sb -> rsect x st = OK (shown st x).
Proof. intros H Hx Hb. unfold rsect. rewrite (io_nsect _ H), (proj2 (Z.ltb_lt _ _)), shown_other by done. done. Qed.

(** [freeblock++] allocates. *)
Lemma next_block_spec st : image_ok st -> freeblock st < FSSIZE ->
  let '(b, st') := next_block st in
  b ∈ free_blocks (shown st) sb /\ b = freeblock st /\ image_ok st' /\ shown st' = allocated b sb (shown st) /\
  freeblock st' = freeblock st + 1 /\ freeinode st' = freeinode st.
Proof.
  intros H Hlt. pose proof (io_next _ H) as Hn. rewrite nmeta_eq in Hn. unfold FSSIZE in *. simpl.
  rewrite u32_small by lia. split_and!; [apply shown_free; [done|unfold FSSIZE; lia]|done| | |done|done].
  - split; simpl; try apply H; [rewrite nmeta_eq; unfold FSSIZE; lia|]. intros n Hr. apply (io_free _ H). lia.
  - apply functional_extensionality. intros n. unfold allocated. destruct (decide (n = freeblock st)) as [->|Hne].
    + rewrite fn_lookup_insert, shown_other by (change (sb_bmapstart sb) with 58; lia). simpl. apply (io_free _ H). unfold FSSIZE. lia.
    + rewrite fn_lookup_insert_ne by done. destruct (decide (n = sb_bmapstart sb)) as [->|Hb].
      * rewrite fn_lookup_insert, !shown_bmap. simpl. apply bitmap_succ. lia.
      * rewrite fn_lookup_insert_ne by done. by rewrite !shown_other.
Qed.

(** ** Inodes on the image *)
Lemma iblock_sb n : 0 <= n < NINODES -> 32 <= IBLOCK n sb < 58.
Proof.
  intros Hn. unfold IBLOCK, u32, IPB, NINODES in *. change (sb_inodestart sb) with 32. rewrite Z.mod_small; dlia.
Qed.

Lemma winode_spec st ip : image_ok st -> 0 <= inum ip < NINODES -> exists st',
  winode (inum ip) ip st = OK st' /\ image_ok st' /\ shown st' = iupdated sb ip (shown st) /\
  freeblock st' = freeblock st /\ freeinode st' = freeinode st.
Proof.
  intros H Hn. pose proof (iblock_sb _ Hn) as Hb. pose proof (io_next _ H) as Hr. rewrite nmeta_eq in Hr. unfold winode.
  rewrite rsect_ok by (done || change (sb_bmapstart sb) with 58; unfold FSSIZE; lia). cbn [mbind mk_bind].
  eexists. split; [done|]. split_and!; [|by apply shown_wsect; change (sb_bmapstart sb) with 58; lia|done|done].
  apply image_ok_wsect; [done|change nlog with 30; lia|]. apply put_dinode_block, (fo_block _ _ (shown_fs_ok _ H)).
  change (sb_inodestart sb) with 32. change (sb_size sb) with 1000. lia.
Qed.

Lemma rinode_spec st n : image_ok st -> 0 <= n < NINODES -> rinode n st = OK (disk_inode (shown st) sb n).
Proof.
  intros H Hn. pose proof (iblock_sb _ Hn) as Hb. unfold rinode.
  rewrite rsect_ok by (done || change (sb_bmapstart sb) with 58; unfold FSSIZE; lia). done.
Qed.

(** ** Appending to a file *)

(** The blocks a file of a size takes, the indirect block included. *)
Definition blocks_of (size : Z) : Z :=
  (size + BLK - 1) / BLK + (if Z.of_nat NDIRECT * BLK <? size then 1 else 0).

(** The file has the blocks for [size] bytes and no more. *)
Definition tight (size : Z) (V : Z -> list Z) (ip : inode) : Prop :=
  (forall j, 0 <= j < MAXFILE -> ptr V ip j <> 0 <-> j * BLK < size) /\ (indirect ip <> 0 <-> Z.of_nat NDIRECT * BLK < size).

Lemma tight_mapped off size V ip a V' ip' :
  let bn := off / BLK in
  0 <= off -> off < size <= (bn + 1) * BLK -> tight off V ip -> mapped sb bn V ip a V' ip' ->
  (indirect ip' <> 0 <-> Z.of_nat NDIRECT * BLK < size) -> tight size V' ip'.
Proof.
  intros bn Ho Hs [Hp Hi] Hm Hi'. split; [|done]. intros j Hj. destruct (decide (j = bn)) as [->|Hne].
  - rewrite (mp_ptr _ _ _ _ _ _ _ Hm). split; [intros _; unfold bn, BSIZE in *; dlia|intros _; apply (mp_some _ _ _ _ _ _ _ Hm)].
  - rewrite (mp_only _ _ _ _ _ _ _ Hm) by done. rewrite Hp by done. unfold bn, BSIZE in *. dlia.
Qed.

Section block.
Context (st : image) (din : inode) (off size : Z).
Abbreviation V := (shown st).
Abbreviation fbn := (off / BLK).
Context (H : image_ok st) (Hfi : file_ok V sb din) (Ho : 0 <= off) (Hmax : fbn < MAXFILE).
Context (Ht : tight off V din) (Hs : off < size <= (fbn + 1) * BLK).
Context (Hroom : freeblock st + (blocks_of size - blocks_of off) <= FSSIZE).

Definition block_done (r : mk (Z * inode * image)) : Prop := exists x din' st',
  r = OK (x, din', st') /\ image_ok st' /\ mapped sb fbn V din x (shown st') din' /\ tight size (shown st') din' /\
  freeblock st' = freeblock st + (blocks_of size - blocks_of off) /\ freeinode st' = freeinode st.

Lemma ptr_xint j : 0 <= j <= MAXFILE -> xint (ptr V din j) = ptr V din j.
Proof using H Hfi.
  clear Ht Hs Hmax. intros Hj. apply xint_id. destruct (decide (ptr V din j = 0)) as [->|Hn]; [lia|].
  destruct (fi_ptr _ _ _ Hfi j Hj Hn) as [Hr _]. change (sb_bmapstart sb) with 58 in Hr. change (sb_size sb) with 1000 in Hr. lia.
Qed.

Lemma addr_xint j : (j <= NDIRECT)%nat -> xint (addrs din !!! j) = addrs din !!! j.
Proof using H Hfi.
  clear Ht Hs Hmax. intros Hj. destruct (addrs_range _ _ _ (shown_fs_ok _ H) Hfi) as [Hl Hr]. apply xint_id.
  rewrite Forall_lookup in Hr. apply (Hr j), list_lookup_lookup_total_lt. lia.
Qed.

Lemma fbn_ptr : ptr V din fbn <> 0 <-> fbn * BLK < off.
Proof using Ho Hmax Ht. apply Ht. split; [apply Z.div_pos; unfold BSIZE; lia|done]. Qed.

(** The block was there. *)
Lemma block_same : ptr V din fbn <> 0 -> freeblock st = freeblock st + (blocks_of size - blocks_of off) /\ tight size V din.
Proof using All.
  intros Hn. pose proof (proj1 fbn_ptr Hn) as Hlt. unfold blocks_of, BSIZE, NDIRECT in *. split.
  - destruct (Z.ltb_spec (Z.of_nat 12 * Z.of_nat 512) size), (Z.ltb_spec (Z.of_nat 12 * Z.of_nat 512) off); dlia.
  - apply (tight_mapped off size V din (ptr V din fbn)); [done..|apply mapped_same; [by apply shown_fs_ok|done..]|].
    rewrite (proj2 Ht). unfold BSIZE, NDIRECT in *. dlia.
Qed.

Lemma block_direct : fbn < Z.of_nat NDIRECT -> block_done (iappend_block fbn din st).
Proof using All.
  intros Hd. pose proof (Z.div_pos off BLK Ho ltac:(unfold BSIZE; lia)) as H0. unfold iappend_block. rewrite (proj2 (Z.ltb_lt _ _)) by done.
  assert (ptr V din fbn = addrs din !!! Z.to_nat fbn) as Ep by (unfold ptr; by rewrite (proj2 (Z.ltb_lt fbn _)) by lia).
  rewrite !addr_xint, <- Ep by lia. destruct (Z.eqb_spec (ptr V din fbn) 0) as [Hz|Hn].
  - assert (blocks_of size - blocks_of off = 1) as E1.
    { assert (~ fbn * BLK < off) by (rewrite <- fbn_ptr; lia). unfold blocks_of, BSIZE, NDIRECT in *.
      rewrite !(proj2 (Z.ltb_ge _ _)); dlia. }
    pose proof (next_block_spec st H ltac:(lia)) as Hnb. destruct (next_block st) as [b st'].
    destruct Hnb as (Hb & Eb & H' & Es & Ef & Ei). pose proof (io_next _ H) as Hr. unfold FSSIZE in Hr. rewrite nmeta_eq in Hr.
    pose proof (mapped_direct sb fbn V din b (shown_fs_ok _ H) Hfi ltac:(lia) Hz Hb) as Hm.
    rewrite (xint_id b) by (unfold FSSIZE in *; lia). cbn [addrs]. rewrite <- Es in Hm.
    assert ((<[Z.to_nat fbn := b]> (addrs din)) !!! Z.to_nat fbn = b) as Elook.
    { apply list_lookup_total_insert_eq. rewrite (fi_addrs _ _ _ Hfi). lia. }
    eexists _, _, _. split; [by simpl; rewrite Elook, xint_id by (unfold FSSIZE in *; lia)|]. split_and!; [done|done| |lia|done].
    apply (tight_mapped off size V din b); [done..|]. simpl. rewrite list_lookup_total_insert_ne by (unfold NDIRECT in *; lia).
    rewrite (proj2 Ht). unfold BSIZE, NDIRECT in *. dlia.
  - destruct (block_same Hn) as [Ef Ht']. eexists _, _, _. split; [done|]. split_and!; [done| |done|done|done].
    rewrite <- Ep, ptr_xint by (unfold MAXFILE in *; lia). apply mapped_same; [by apply shown_fs_ok|done|done].
Qed.

Lemma indirect_spec : (indirect din = 0 -> freeblock st < FSSIZE) ->
  let '(din1, st1) := iappend_indirect din st in
  image_ok st1 /\ extends sb V din (shown st1) din1 /\ keeps_data V din (shown st1) /\
  (forall j, 0 <= j < MAXFILE -> ptr (shown st1) din1 j = ptr V din j) /\ indirect din1 <> 0 /\ indirect din1 < FSSIZE /\
  freeblock st1 = freeblock st + (if indirect din =? 0 then 1 else 0) /\ freeinode st1 = freeinode st /\
  (indirect din <> 0 -> din1 = din /\ st1 = st).
Proof using H Hfi.
  clear Hmax Ht Hs Hroom Ho. intros Hlt. pose proof (shown_fs_ok _ H) as Hfs. unfold iappend_indirect. rewrite addr_xint by lia.
  destruct (Z.eqb_spec (indirect din) 0) as [Hz|Hn].
  - pose proof (next_block_spec st H (Hlt Hz)) as Hnb. destruct (next_block st) as [b st']. destruct Hnb as (Hb & Eb & H' & Es & Ef & Ei).
    pose proof (free_data _ _ _ Hfs Hb) as Hr. change (sb_bmapstart sb) with 58 in Hr. change (sb_size sb) with 1000 in Hr.
    rewrite xint_id by lia. rewrite Es, !(new_indirect_at sb V din b) by done.
    split_and!; [done|by apply extend_indirect|by apply keeps_allocated|by apply new_indirect_ptr|lia|unfold FSSIZE; lia|lia|done|done].
  - split_and!; try done; [by apply extends_refl| |lia].
    destruct (fi_ptr _ _ _ Hfi MAXFILE ltac:(done) Hn) as [Hr _]. rewrite ptr_indirect in Hr. by destruct Hr.
Qed.

Lemma block_indirect : Z.of_nat NDIRECT <= fbn -> block_done (iappend_block fbn din st).
Proof using All.
  intros Hd. unfold iappend_block. rewrite (proj2 (Z.ltb_ge _ _)) by done.
  assert (indirect din = 0 <-> off = Z.of_nat NDIRECT * BLK) as Hi.
  { destruct Ht as [_ Hti]. unfold BSIZE, NDIRECT in *. destruct (decide (addrs din !!! 12%nat = 0)); dlia. }
  assert (indirect din = 0 -> freeblock st < FSSIZE) as Hlt.
  { rewrite Hi. intros E. unfold blocks_of in Hroom. rewrite E in Hroom. rewrite Z.ltb_irrefl in Hroom.
    rewrite (proj2 (Z.ltb_lt _ _)) in Hroom by lia. unfold BSIZE, NDIRECT in *. dlia. }
  pose proof (indirect_spec Hlt) as Hsp. destruct (iappend_indirect din st) as [din1 st1].
  destruct Hsp as (H1 & Hex & Hk & Hp & Hi1 & Hi1' & Ef1 & Ei1 & Esame). pose proof (ex_fs _ _ _ _ _ Hex) as Hfs1. pose proof (ex_file _ _ _ _ _ Hex) as Hfi1.
  assert (ptr (shown st1) din1 fbn = word_at (shown st1 (indirect din1)) (Z.to_nat (4 * (fbn - Z.of_nat NDIRECT)))) as Ew.
  { unfold ptr. by rewrite (proj2 (Z.ltb_ge fbn _)), (proj2 (Z.eqb_neq fbn _)), (proj2 (Z.eqb_neq _ 0) Hi1) by lia. }
  destruct (fi_ptr _ _ _ Hfi1 MAXFILE ltac:(done) Hi1) as [Hri Hnf]. rewrite ptr_indirect in Hri, Hnf.
  rewrite (shown_free _ _ H1) in Hnf. change (sb_bmapstart sb) with 58 in Hri. change (sb_size sb) with 1000 in Hri.
  rewrite !(xint_id (indirect din1)) by lia. rewrite rsect_ok by (done || change (sb_bmapstart sb) with 58; lia).
  cbn [mbind mk_bind]. rewrite <- Ew, Hp by lia.
  assert (Z.of_nat NDIRECT * BLK < size) as Hbig by (unfold BSIZE, NDIRECT in *; dlia).
  destruct (Z.eqb_spec (ptr V din fbn) 0) as [Hz|Hn].
  - assert (blocks_of size - blocks_of off = 1 + (if indirect din =? 0 then 1 else 0)) as E1.
    { assert (~ fbn * BLK < off) by (rewrite <- fbn_ptr; lia). unfold blocks_of. rewrite (proj2 (Z.ltb_lt _ _) Hbig).
      destruct (Z.eqb_spec (indirect din) 0) as [E|E]; [apply Hi in E; subst off; by rewrite Z.ltb_irrefl; unfold BSIZE, NDIRECT in *; dlia|].
      rewrite Hi in E. unfold BSIZE, NDIRECT in *. rewrite (proj2 (Z.ltb_lt _ _)) by dlia. dlia. }
    pose proof (next_block_spec st1 H1 ltac:(lia)) as Hnb. destruct (next_block st1) as [b st2].
    destruct Hnb as (Hb & Eb & H2 & Es & Ef2 & Ei2). pose proof (free_data _ _ _ Hfs1 Hb) as Hr.
    change (sb_bmapstart sb) with 58 in Hr. change (sb_size sb) with 1000 in Hr. rewrite (xint_id b) by lia.
    destruct (indirect_apart sb _ din1 b Hfs1 Hfi1 Hb Hi1) as [Hib Hib'].
    pose proof (mapped_entry sb fbn V din _ din1 b Hex Hk Hp Hi1 ltac:(lia) Hz Hb) as Hm.
    assert (is_block (shown st1 (indirect din1))) as Hblk by (apply (fo_block _ _ Hfs1); change (sb_inodestart sb) with 32; change (sb_size sb) with 1000; lia).
    rewrite word_set_same, Z.mod_small by (destruct Hblk; unfold MAXFILE, NINDIRECT, NDIRECT, BSIZE in *; lia).
    rewrite xint_id by lia. eexists _, _, _. split; [done|]. set (st3 := wsect _ _ _).
    assert (shown st3 = with_entry sb (shown st1) din1 b fbn) as Es3.
    { unfold st3. rewrite shown_wsect, Es by done. unfold with_entry. by rewrite (allocated_other sb (shown st1) b (indirect din1)). }
    rewrite Es3. split_and!; [|done|by apply (tight_mapped off size V din b)|simpl; lia|simpl; lia].
    apply image_ok_wsect; [done|change nlog with 30; unfold FSSIZE in *; lia|by apply set_word_block].
  - destruct (block_same Hn) as [Ef Ht']. destruct Esame as [-> ->]; [intros Hz; by apply Hn, no_indirect_ptr|].
    rewrite <- Ew, ptr_xint by lia. eexists _, _, _. split; [done|]. split_and!; [done| |done|done|done].
    by apply mapped_same.
Qed.
End block.

Lemma block_spec st din off size :
  image_ok st -> file_ok (shown st) sb din -> 0 <= off -> off / BLK < MAXFILE -> tight off (shown st) din ->
  off < size <= (off / BLK + 1) * BLK -> freeblock st + (blocks_of size - blocks_of off) <= FSSIZE ->
  block_done st din off size (iappend_block (off / BLK) din st).
Proof.
  intros. destruct (Z.lt_ge_cases (off / BLK) (Z.of_nat NDIRECT)); [by apply block_direct|by apply block_indirect].
Qed.

Lemma blocks_of_mono a b : a <= b -> blocks_of a <= blocks_of b.
Proof.
  intros H. unfold blocks_of. assert ((a + BLK - 1) / BLK <= (b + BLK - 1) / BLK) by (apply Z.div_le_mono; unfold BSIZE; lia).
  destruct (Z.ltb_spec (Z.of_nat NDIRECT * BLK) a), (Z.ltb_spec (Z.of_nat NDIRECT * BLK) b); lia.
Qed.

Lemma iappend_loop_spec left : forall p off din st,
  (length p <= left)%nat -> image_ok st -> file_ok (shown st) sb din -> 0 <= off -> tight off (shown st) din ->
  off + Z.of_nat (length p) <= MAXFILE * BLK -> Forall (fun x => 0 <= x < 256) p ->
  freeblock st + (blocks_of (off + Z.of_nat (length p)) - blocks_of off) <= FSSIZE ->
  exists din' st', iappend_loop left p off din st = OK (off + Z.of_nat (length p), din', st') /\ image_ok st' /\
    written sb off p (shown st) din (shown st') din' /\ tight (off + Z.of_nat (length p)) (shown st') din' /\
    freeblock st' = freeblock st + (blocks_of (off + Z.of_nat (length p)) - blocks_of off) /\ freeinode st' = freeinode st.
Proof.
  induction left as [|left IH]; intros p off din st Hle H Hfi Ho Ht Hmax Hp Hroom;
    (destruct (decide (p = [])) as [->|Hne]; [exists din, st; simpl; rewrite Z.add_0_r, Z.sub_diag, Z.add_0_r;
       split_and!; try done; apply written_nil; [by apply shown_fs_ok|done]|]); [destruct p; [done|simpl in Hle; lia]|].
  assert (0 < Z.of_nat (length p)) as Hpos by (destruct p; [done|simpl; lia]).
  pose proof (Z.mod_pos_bound off BLK ltac:(unfold BSIZE; lia)) as Hb. assert (0 <= off / BLK < MAXFILE) as Hbn by (apply blk_div; lia).
  assert (iappend_loop (S left) p off din st = (
    r ← iappend_block (off / BLK) din st ;
    let '(x, din, st) := r in
    let n1 := Z.min (Z.of_nat (length p)) ((off / BLK + 1) * BLK - off) in
    buf ← rsect x st ;
    let buf := splice buf (Z.to_nat (off - off / BLK * BLK)) (take (Z.to_nat n1) p) in
    iappend_loop left (drop (Z.to_nat n1) p) (off + n1) din (wsect x buf st))) as ->.
  { destruct p; [done|]. cbn [iappend_loop]. by rewrite (proj2 (Z.ltb_lt _ _)) by lia. }
  assert ((off / BLK + 1) * BLK - off = BLK - off mod BLK) as -> by (unfold BSIZE; dlia).
  assert (off - off / BLK * BLK = off mod BLK) as -> by (unfold BSIZE; dlia).
  set (n1 := Z.min _ _). assert (0 < n1 <= BLK - off mod BLK /\ n1 <= Z.of_nat (length p)) as Hn1 by lia.
  pose proof (blocks_of_mono (off + n1) (off + Z.of_nat (length p)) ltac:(lia)) as Hmono.
  destruct (block_spec st din off (off + n1) H Hfi Ho ltac:(lia) Ht) as (x & din1 & st1 & -> & H1 & Hm & Ht1 & Ef1 & Ei1);
    [unfold BSIZE in *; dlia|lia|].
  pose proof (mp_ext _ _ _ _ _ _ _ Hm) as Hex. pose proof (ex_file _ _ _ _ _ Hex) as Hfi1. pose proof (ex_fs _ _ _ _ _ Hex) as Hfs1.
  pose proof (mp_ptr _ _ _ _ _ _ _ Hm) as Ep. pose proof (mp_some _ _ _ _ _ _ _ Hm) as Hx. rewrite <- Ep in Hx.
  destruct (fi_ptr _ _ _ Hfi1 (off / BLK) ltac:(lia) Hx) as [Hr Hnf]. rewrite Ep in Hr, Hnf, Hx. rewrite (shown_free _ _ H1) in Hnf.
  change (sb_bmapstart sb) with 58 in Hr. change (sb_size sb) with 1000 in Hr. unfold FSSIZE in *.
  assert (is_block (shown st1 x)) as Hblk by (apply (fo_block _ _ Hfs1); change (sb_inodestart sb) with 32; change (sb_size sb) with 1000; lia).
  cbn [mbind mk_bind]. rewrite rsect_ok by (done || change (sb_bmapstart sb) with 58; unfold FSSIZE; lia). cbn [mbind mk_bind].
  set (d := splice _ _ _). set (st2 := wsect x d st1).
  assert (is_block d) as Hd by (apply splice_block; [done|rewrite length_take; lia|by apply Forall_take]).
  assert (shown st2 = <[x := d]> (shown st1)) as Es2 by (apply shown_wsect; change (sb_bmapstart sb) with 58; lia).
  assert (image_ok st2) as H2 by (apply image_ok_wsect; [done|change nlog with 30; lia|done]).
  assert (forall j, ptr (shown st2) din1 j = ptr (shown st1) din1 j) as Hp2.
  { intros j. rewrite Es2, <- Ep. apply (data_ptr sb); [done..|lia|by rewrite Ep|done]. }
  destruct (IH (drop (Z.to_nat n1) p) (off + n1) din1 st2) as (din' & st' & E' & H' & Hw & Ht' & Ef' & Ei').
  - rewrite length_drop. lia.
  - done.
  - rewrite Es2, <- Ep. apply (extends_data sb); [done..|lia|by rewrite Ep|done].
  - lia.
  - split; [intros j Hj; rewrite Hp2; by apply Ht1|apply Ht1].
  - rewrite length_drop. lia.
  - by apply Forall_drop.
  - rewrite length_drop. simpl. replace (off + n1 + Z.of_nat (length p - Z.to_nat n1)) with (off + Z.of_nat (length p)) by lia. lia.
  - rewrite length_drop in E', Ht', Ef'. replace (off + n1 + Z.of_nat (length p - Z.to_nat n1)) with (off + Z.of_nat (length p)) in * by lia.
    exists din', st'. split; [done|]. split_and!; [done| |done|simpl in Ef'; lia|by rewrite Ei'].
    apply (written_cons sb off p n1 (shown st) din x (shown st1) din1); [done|lia|done|lia|done|done|].
    unfold d in Es2. by rewrite <- Es2.
Qed.

Abbreviation node st n := (disk_inode (shown st) sb n).

(** The last block is zero behind the end of the file. *)
Definition clean (V : Z -> list Z) (ip : inode) : Prop :=
  forall o, isize ip <= o < MAXFILE * BLK -> ptr V ip (o / BLK) <> 0 -> byte V ip o = 0.

(** An inode as [ilock] reads it is the one on disk. *)
Lemma disk_inode_eq V ip :
  (forall d o, get_dinode d o ip = get_dinode d o (dinode0 (inum ip))) -> file_state V sb ip -> disk_inode V sb (inum ip) = ip.
Proof. intros Hg H. unfold disk_inode. change (zero_inode <| idev := 1 |> <| inum := inum ip |>) with (dinode0 (inum ip)). rewrite <- Hg. apply H. Qed.

Section append.
Context (st : image) (n : Z) (p : list Z).
Abbreviation V := (shown st).
Abbreviation ip := (node st n).
Abbreviation size' := (isize ip + Z.of_nat (length p)).
Context (H : image_ok st) (Hst : file_state V sb ip) (Ht : tight (isize ip) V ip).
Context (Hp : p <> []) (Hby : Forall (fun x => 0 <= x < 256) p) (Hmax : size' <= MAXFILE * BLK).
Context (Hroom : freeblock st + (blocks_of size' - blocks_of (isize ip)) <= FSSIZE).

Lemma iappend_effect : exists st',
  iappend n p st = OK st' /\ image_ok st' /\ freeinode st' = freeinode st /\
  freeblock st' = freeblock st + (blocks_of size' - blocks_of (isize ip)) /\
  rewritten sb (isize ip) p V ip (shown st') (node st' n) /\ isize (node st' n) = size' /\ tight size' (shown st') (node st' n) /\
  (clean V ip -> clean (shown st') (node st' n)) /\
  (forall ip2, file_ok V sb ip2 -> disjoint_files V ip ip2 -> forall m, in_file V ip2 m -> shown st' m = V m).
Proof using All.
  pose proof (shown_fs_ok _ H) as Hfs. destruct (fs_whole _ _ _ Hst) as [[Hs0 _] _].
  assert (0 <= n < NINODES) as Hn by apply (fs_inum _ _ _ Hst).
  assert (0 <= isize ip < 2 ^ 32) as Hs by (unfold MAXFILE, NINDIRECT, NDIRECT, BSIZE in *; lia).
  unfold iappend. rewrite rinode_spec by done. cbn [mbind mk_bind]. rewrite xint_id by done.
  destruct (iappend_loop_spec (length p) p (isize ip) ip st) as (din' & st1 & -> & H1 & Hw & Ht1 & Ef1 & Ei1);
    [lia|done|apply Hst|done|done|done|done|done|].
  cbn [mbind mk_bind]. rewrite xint_id by (unfold MAXFILE, NINDIRECT, NDIRECT, BSIZE in *; lia).
  pose proof (wr_ext _ _ _ _ _ _ _ Hw) as Hex. pose proof (ex_ip _ _ _ _ _ Hex) as Eip.
  assert (0 < Z.of_nat (length p)) as Hpos by (destruct p; [done|simpl; lia]).
  pose proof (written_beyond sb (isize ip) p V ip (shown st1) din' Hfs Hst ltac:(lia) Hmax Hw ltac:(lia)) as Hrw.
  cbv zeta in Hrw. set (ip2 := din' <| isize := size' |>) in *.
  assert (inum ip2 = n) as En by (unfold ip2; by rewrite Eip).
  destruct (winode_spec st1 ip2 H1) as (st2 & E2 & H2 & Es2 & Ef2 & Ei2); [by rewrite En|]. rewrite En in E2.
  assert (node st2 n = ip2) as Enode.
  { rewrite <- En, Es2. apply disk_inode_eq; [|apply Hrw]. intros d o. unfold ip2. rewrite Eip. done. }
  assert (forall m, in_file (shown st1) ip2 m -> shown st2 m = shown st1 m) as Hsame.
  { intros m Hm. rewrite Es2. apply (iupdated_file sb (shown st1) ip2) with ip2; [by apply shown_fs_ok|by rewrite En| |done].
    destruct (ex_file _ _ _ _ _ Hex). by split. }
  exists st2. rewrite Enode. split_and!; [done|done|by rewrite Ei2|by rewrite Ef2|by rewrite Es2|done| | |].
  - split; [|apply Ht1]. intros j Hj. rewrite (apart_ptr (shown st1) (shown st2) ip2 Hsame). by apply Ht1.
  - intros Hc o Ho. change (size' <= o < MAXFILE * BLK) in Ho. rewrite (apart_ptr (shown st1) (shown st2) ip2 Hsame). intros Hq.
    rewrite (apart_byte (shown st1) (shown st2) ip2 Hsame) by (done || lia). change (byte (shown st1) din' o = 0).
    destruct (decide (ptr V ip (o / BLK) = 0)) as [Hz|Hz].
    + apply (wr_zero _ _ _ _ _ _ _ Hw); [lia|lia|done|done].
    + rewrite (wr_old _ _ _ _ _ _ _ Hw) by (done || lia). apply Hc; [lia|done].
  - intros ip3 H3 Hdis m Hm. destruct (extends_others _ _ _ _ _ ip3 Hfs Hex H3 Hdis) as (Hsame3 & Hnf & _). rewrite <- (Hsame3 m Hm), Es2.
    apply (iupdated_file sb (shown st1) ip2) with ip3; [by apply shown_fs_ok|by rewrite En| |].
    + by apply (apart_file_ok sb V).
    + by apply (apart_in_file V (shown st1) ip3 Hsame3).
Qed.
End append.
