(* ===== verification/MkfsImage.v ===== *)
(** * MkfsImage: the image that mkfs.c makes is a file system

    The steps of Mkfs.v keep the files made so far: each has its contents, its own blocks and no
    others, and every block in use belongs to a file.  At the end the image has the directory
    and the files of the arguments, an empty log and unused inodes otherwise. *)
From stdpp Require Import base list list_numbers gmap strings functions sorting.
From Stdlib Require Import ZArith Lia FunctionalExtensionality.
From S2P Require Import Prelude Mem Layout Machine Sched Sleeplock Disk Bio Log Fs Tx Blocks Inode Contents Filewrite Mkfs.
Local Open Scope Z_scope.

(** A new inode, and one that is not in use, has no blocks. *)
Section empty.
Context (V : Z -> list Z) (n t l : Z) (Hn : 0 <= n < NINODES) (Ht : 0 <= t < 2 ^ 15) (Hl : 0 <= l < 2 ^ 15).
Definition new_dinode : inode := dinode0 n <| itype := t |> <| nlink := l |> <| isize := 0 |>.

Lemma new_ptr j : 0 <= j <= MAXFILE -> ptr V new_dinode j = 0.
Proof using Type.
  clear. intros Hj. unfold ptr. change (addrs new_dinode) with (replicate (S NDIRECT) 0).
  destruct (Z.ltb_spec j (Z.of_nat NDIRECT)); [apply lookup_total_replicate_2; lia|].
  rewrite lookup_total_replicate_2 by lia. simpl. by destruct (j =? MAXFILE).
Qed.

Lemma new_in_file m : ~ in_file V new_dinode m.
Proof using Type. clear. intros [Hm (j & Hj & E)]. rewrite new_ptr in E by done. by subst. Qed.

Lemma new_fields : dinode_ok new_dinode.
Proof using Ht Hl.
  split; [|split; [simpl; lia|split; [done|by repeat constructor]]]. repeat constructor; simpl; lia.
Qed.

Lemma new_state : get_dinode (V (IBLOCK n sb)) (dinode_off n) new_dinode = new_dinode -> file_state V sb new_dinode.
Proof using Hn Ht Hl.
  intros Hd. split; try done.
  - split; [done|intros j Hj; by rewrite new_ptr|intros j j' Hj Hj'; by rewrite new_ptr].
  - split; [unfold MAXFILE, NINDIRECT, NDIRECT, BSIZE; simpl; lia|]. intros j Hj Hs. change (isize new_dinode) with 0 in Hs.
    unfold BSIZE in Hs. lia.
  - apply new_fields.
Qed.
End empty.

(** ** All files

    [files] are the types and contents of the inodes from 1 on. *)
Record node_ok (st : image) (n t : Z) (c : list Z) : Prop := {
  no_state : file_state (shown st) sb (node st n);
  no_contents : contents (shown st) (node st n) = c;
  no_type : itype (node st n) = t /\ nlink (node st n) = 1;
  no_tight : tight (isize (node st n)) (shown st) (node st n);
  no_clean : clean (shown st) (node st n);
}.

Definition total (files : list (Z * list Z)) : Z :=
  foldr (fun f => Z.add (blocks_of (Z.of_nat (length f.2)))) 0 files.

Abbreviation nth_inode i := (1 + Z.of_nat i).

Record made (files : list (Z * list Z)) (st : image) : Prop := {
  md_ok : image_ok st;
  md_count : freeinode st = nth_inode (length files);
  md_node i t c : files !! i = Some (t, c) -> node_ok st (nth_inode i) t c;
  md_disjoint i j : (i < length files)%nat -> (j < length files)%nat -> i <> j ->
    disjoint_files (shown st) (node st (nth_inode i)) (node st (nth_inode j));
  md_used b : nmeta <= b < freeblock st -> exists i, (i < length files)%nat /\ in_file (shown st) (node st (nth_inode i)) b;
  md_blocks : freeblock st = nmeta + total files;
  md_unused n : freeinode st <= n < NINODES -> file_state (shown st) sb (dinode0 n);
}.

Lemma total_insert files i t c c' : files !! i = Some (t, c) ->
  total (<[i := (t, c')]> files) = total files + (blocks_of (Z.of_nat (length c')) - blocks_of (Z.of_nat (length c))).
Proof.
  revert i. induction files as [|f files IH]; intros [|i] Hi; simpl in *; try done; [injection Hi as ->; simpl; lia|].
  rewrite (IH i Hi). lia.
Qed.

Lemma node_size st n t c : node_ok st n t c -> isize (node st n) = Z.of_nat (length c).
Proof.
  intros H. rewrite <- (no_contents _ _ _ _ H), contents_length. destruct (fs_whole _ _ _ (no_state _ _ _ _ H)). lia.
Qed.

(** A file that an operation leaves alone. *)
Lemma node_apart st st' n t c : node_ok st n t c -> file_state (shown st') sb (node st n) ->
  (forall m, in_file (shown st) (node st n) m -> shown st' m = shown st m) ->
  node st' n = node st n /\ node_ok st' n t c.
Proof.
  intros [Hs Hc Hty [Hp Hi] Hcl] Hst Hsame. assert (node st' n = node st n) as E by (by apply (disk_inode_eq (shown st') (node st n))).
  split; [exact E|]. set (ip := node st n) in *. clearbody ip. destruct (fs_whole _ _ _ Hs) as [Hsz _].
  pose proof (apart_ptr (shown st) (shown st') ip Hsame) as Hptr. split; rewrite E; try done.
  - rewrite (apart_contents (shown st) (shown st') ip Hsame); [done|apply Hs].
  - split; [|done]. intros j Hj. rewrite Hptr. by apply Hp.
  - intros o Ho. rewrite Hptr. intros Hq. rewrite (apart_byte (shown st) (shown st') ip Hsame) by (done || lia). by apply Hcl.
Qed.

Lemma splice_end (c p : list Z) : splice c (length c) p = c ++ p.
Proof. unfold splice. rewrite take_ge, drop_ge, app_nil_r by lia. done. Qed.

Lemma iappend_made files st i t c p :
  made files st -> files !! i = Some (t, c) -> p <> [] -> Forall (fun x => 0 <= x < 256) p ->
  Z.of_nat (length (c ++ p)) <= MAXFILE * BLK -> nmeta + total (<[i := (t, c ++ p)]> files) <= FSSIZE ->
  exists st', iappend (nth_inode i) p st = OK st' /\ made (<[i := (t, c ++ p)]> files) st'.
Proof.
  intros H Hi Hp Hby Hmax Hroom. pose proof (md_node _ _ H i t c Hi) as Hno. pose proof (node_size _ _ _ _ Hno) as Esz.
  pose proof (md_blocks _ _ H) as Ebl. rewrite (total_insert files i t c (c ++ p) Hi) in Hroom. rewrite length_app in *. rewrite Nat2Z.inj_add in *.
  destruct (iappend_effect st (nth_inode i) p (md_ok _ _ H) (no_state _ _ _ _ Hno) (no_tight _ _ _ _ Hno) Hp Hby)
    as (st' & E & H' & Ei & Ef & Hrw & Esz' & Ht & Hc & Hap); [by rewrite Esz|rewrite Esz; lia|]. rewrite Esz in *.
  set (n := nth_inode i) in *. pose proof (lookup_lt_Some _ _ _ Hi) as Hil.
  assert (forall j, (j < length files)%nat -> j <> i -> exists t2 c2, files !! j = Some (t2, c2) /\
    node st' (nth_inode j) = node st (nth_inode j) /\ node_ok st' (nth_inode j) t2 c2 /\
    (forall m, in_file (shown st') (node st' (nth_inode j)) m <-> in_file (shown st) (node st (nth_inode j)) m) /\
    disjoint_files (shown st') (node st' n) (node st' (nth_inode j))) as Hoth.
  { intros j Hj Hne. destruct (lookup_lt_is_Some_2 _ _ Hj) as [[t2 c2] E2]. exists t2, c2. split; [done|].
    pose proof (md_node _ _ H j t2 c2 E2) as Hno2. pose proof (md_disjoint _ _ H i j Hil Hj ltac:(done)) as Hdis. fold n in Hdis.
    destruct (rw_others _ _ _ _ _ _ _ Hrw (node st (nth_inode j)) (no_state _ _ _ _ Hno2)) as (Hst2 & _ & Hdis2);
      [simpl; lia|done|].
    pose proof (Hap _ (fs_file _ _ _ (no_state _ _ _ _ Hno2)) Hdis) as Hsame.
    destruct (node_apart st st' (nth_inode j) t2 c2 Hno2 Hst2 Hsame) as [En Hok].
    rewrite En. split_and!; [done|done| |done]. intros m. by apply apart_in_file. }
  exists st'. split; [done|]. split.
  - done.
  - rewrite Ei, length_insert. apply H.
  - intros j t2 c2 Hj. destruct (decide (j = i)) as [->|Hne].
    + rewrite list_lookup_insert_eq in Hj by done. injection Hj as <- <-. fold n. split; [apply Hrw| | | |].
      * rewrite (rw_contents _ _ _ _ _ _ _ Hrw), (no_contents _ _ _ _ Hno), Nat2Z.id. apply splice_end.
      * rewrite (rw_inode _ _ _ _ _ _ _ Hrw). apply Hno.
      * by rewrite Esz'.
      * apply Hc, Hno.
    + rewrite list_lookup_insert_ne in Hj by done. destruct (Hoth j) as (t3 & c3 & E3 & _ & Hok & _);
        [by eapply lookup_lt_Some|done|]. congruence.
  - rewrite length_insert. intros j1 j2 Hj1 Hj2 Hne. destruct (decide (j1 = i)) as [->|H1].
    + destruct (Hoth j2) as (_ & _ & _ & _ & _ & _ & Hd); done.
    + destruct (Hoth j1 Hj1 H1) as (_ & _ & _ & _ & _ & Hin1 & Hd1). destruct (decide (j2 = i)) as [->|H2].
      * intros m Hm Hm2. by apply (Hd1 m).
      * destruct (Hoth j2 Hj2 H2) as (_ & _ & _ & _ & _ & Hin2 & Hd2). intros m. rewrite Hin1, Hin2. by apply (md_disjoint _ _ H).
  - rewrite length_insert. intros b Hb. destruct (Z.lt_ge_cases b (freeblock st)) as [Hlt|Hge].
    + destruct (md_used _ _ H b ltac:(lia)) as (j & Hj & Hin). exists j. split; [done|]. destruct (decide (j = i)) as [->|Hne].
      * by apply (rw_ptr _ _ _ _ _ _ _ Hrw).
      * destruct (Hoth j Hj Hne) as (_ & _ & _ & _ & _ & Hin2 & _). by apply Hin2.
    + exists i. split; [done|]. pose proof (io_next _ H'). apply (rw_kept _ _ _ _ _ _ _ Hrw).
      * apply shown_free; [apply H|lia].
      * rewrite shown_free by done. lia.
  - rewrite (total_insert files i t c (c ++ p) Hi), length_app, Nat2Z.inj_add, Ef. lia.
  - rewrite Ei. intros n2 Hn2. pose proof (md_count _ _ H). apply (rw_others _ _ _ _ _ _ _ Hrw (dinode0 n2)).
    + by apply (md_unused _ _ H).
    + change (n2 <> n). lia.
    + intros m _. apply (new_in_file (shown st) n2 0 0).
Qed.

(** Writing an inode leaves the other files alone. *)
Lemma iupdated_apart V ip ip2 :
  fs_ok V sb -> 0 <= inum ip < NINODES -> length (addrs ip) = S NDIRECT -> file_state V sb ip2 -> inum ip2 <> inum ip ->
  file_state (iupdated sb ip V) sb ip2 /\ (forall m, in_file V ip2 m -> iupdated sb ip V m = V m).
Proof.
  intros Hfs Hn Hl H2 Hne. assert (forall m, in_file V ip2 m -> iupdated sb ip V m = V m) as Hsame.
  { intros m Hm. by apply (iupdated_file sb V ip Hfs Hn ip2); [apply H2|]. }
  split; [|done]. apply (file_state_change V); [done|..].
  - apply (apart_file_ok sb V); [apply H2|done|]. intros m Hm. rewrite iupdated_free by done. by apply (in_file_range V sb ip2), Hm; apply H2.
  - apply (apart_whole V); [done|apply H2].
  - rewrite iupdated_other by (done || apply (fs_inum _ _ _ H2)). apply (fs_disk _ _ _ H2).
Qed.

Lemma winode_others st st' ip n t c :
  fs_ok (shown st) sb -> shown st' = iupdated sb ip (shown st) -> 0 <= inum ip < NINODES -> length (addrs ip) = S NDIRECT ->
  node_ok st n t c -> n <> inum ip ->
  node_ok st' n t c /\ forall m, in_file (shown st') (node st' n) m <-> in_file (shown st) (node st n) m.
Proof.
  intros Hfs Es Hn Hl Hno Hne.
  destruct (iupdated_apart (shown st) ip (node st n) Hfs Hn Hl (no_state _ _ _ _ Hno) Hne) as [Hst Hsame]. rewrite <- Es in Hst, Hsame.
  destruct (node_apart st st' n t c Hno Hst Hsame) as [E Hno']. rewrite E. split; [done|]. intros m. by apply apart_in_file.
Qed.

Lemma total_cons f files : total (f :: files) = blocks_of (Z.of_nat (length f.2)) + total files.
Proof. done. Qed.

Lemma total_app l1 l2 : total (l1 ++ l2) = total l1 + total l2.
Proof. induction l1 as [|f l1 IH]; simpl; lia. Qed.

Lemma ialloc_made files st t :
  made files st -> nth_inode (length files) < NINODES -> 0 <= t < 2 ^ 15 ->
  exists st', ialloc t st = OK (nth_inode (length files), st') /\ made (files ++ [(t, [])]) st'.
Proof.
  intros H Hlt Ht. pose proof (md_ok _ _ H) as Hok. unfold ialloc. rewrite (md_count _ _ H). set (n := nth_inode (length files)) in *.
  set (st0 := st <| freeinode := _ |>). rewrite (xshort_id t), (xshort_id 1), (xint_id 0) by lia. change (_ <| isize := 0 |>) with (new_dinode n t 1).
  assert (image_ok st0) as H0.
  { split; try apply Hok. unfold st0, NINODES in *. simpl. rewrite u32_small by lia. lia. }
  assert (0 <= n < NINODES) as Hn by lia.
  destruct (winode_spec st0 (new_dinode n t 1) H0 Hn) as (st' & E & H' & Es & Ef & Ei). change (inum (new_dinode n t 1)) with n in E. rewrite E.
  cbn [mbind mk_bind]. exists st'. split; [done|]. change (shown st0) with (shown st) in Es. pose proof (shown_fs_ok _ Hok) as Hfs.
  assert (file_state (shown st') sb (new_dinode n t 1)) as Hnew.
  { apply new_state; [done..|]. rewrite Es. by apply (iupdated_same sb (shown st) (new_dinode n t 1) Hfs Hn), new_fields. }
  assert (node st' n = new_dinode n t 1) as En by (by apply (disk_inode_eq (shown st') (new_dinode n t 1))).
  assert (forall j t2 c2, files !! j = Some (t2, c2) -> node_ok st' (nth_inode j) t2 c2 /\
    forall m, in_file (shown st') (node st' (nth_inode j)) m <-> in_file (shown st) (node st (nth_inode j)) m) as Hoth.
  { intros j t2 c2 Hj. pose proof (md_node _ _ H j t2 c2 Hj) as Hno. apply lookup_lt_Some in Hj.
    apply (winode_others st st' (new_dinode n t 1)); [done..|]. change (nth_inode j <> n). lia. }
  assert (forall j, (j < length files)%nat -> exists t2 c2, files !! j = Some (t2, c2)) as Hsome
    by (intros j Hj; destruct (lookup_lt_is_Some_2 _ _ Hj) as [[t2 c2] E2]; by exists t2, c2).
  split.
  - done.
  - rewrite Ei, length_app. unfold st0, NINODES in *. simpl. rewrite u32_small by lia. lia.
  - intros j t2 c2 Hj. destruct (decide (j < length files)%nat) as [Hl|Hl].
    + rewrite lookup_app_l in Hj by done. by apply (Hoth j).
    + rewrite lookup_app_r in Hj by lia. apply list_lookup_singleton_Some in Hj as [Hj [= <- <-]]. replace j with (length files) by lia.
      fold n. split; rewrite ?En; [done|done|done| |].
      * split; [|done]. intros j' Hj'. rewrite new_ptr by lia. change (isize _) with 0. unfold BSIZE. lia.
      * intros o Ho. change (isize (new_dinode n t 1)) with 0 in Ho. apply blk_div in Ho. by rewrite new_ptr by lia.
  - rewrite length_app. simpl. intros j1 j2 Hj1 Hj2 Hne m. 
    destruct (decide (j1 = length files)) as [->|H1]; [fold n; rewrite En; intros Hm; by apply new_in_file in Hm|].
    destruct (decide (j2 = length files)) as [->|H2]; [fold n; rewrite En; intros _; apply new_in_file|].
    destruct (Hsome j1) as (t1 & c1 & E1); [lia|]. destruct (Hsome j2) as (t2 & c2 & E2); [lia|].
    destruct (Hoth j1 _ _ E1) as (_ & ->). destruct (Hoth j2 _ _ E2) as (_ & ->). apply (md_disjoint _ _ H); lia.
  - intros b Hb. rewrite Ef in Hb. destruct (md_used _ _ H b Hb) as (j & Hj & Hin). exists j. rewrite length_app. split; [lia|].
    destruct (Hsome j Hj) as (t2 & c2 & E2). by apply (Hoth j _ _ E2).
  - rewrite Ef, total_app. unfold st0. simpl. change (blocks_of _) with 0. rewrite (md_blocks _ _ H). lia.
  - intros n2 Hn2. assert (n < n2) as Hn2' by (rewrite Ei in Hn2; unfold st0, NINODES in *; simpl in Hn2; rewrite u32_small in Hn2; lia).
    rewrite Es. apply iupdated_apart; [done|done|done| |change (n2 <> n); lia]. apply (md_unused _ _ H). rewrite (md_count _ _ H). fold n. lia.
Qed.

(** ** The new image *)
Lemma zeroed l : forall st, (forall n, sectors st n = zeros) ->
  forall n, sectors (foldl (fun st i => wsect i zeros st) st l) n = zeros.
Proof.
  induction l as [|i l IH]; intros st H n; simpl; [done|]. apply IH. intros m. simpl.
  destruct (decide (m = i)) as [->|]; [by rewrite fn_lookup_insert|by rewrite fn_lookup_insert_ne].
Qed.

Lemma new_image_sector n : n <> 1 -> sectors new_image n = zeros.
Proof.
  intros Hn. unfold new_image. pose proof (zeroed (seqZ 0 FSSIZE) (mkImage (fun _ => zeros) 0 1 nmeta) (fun _ => eq_refl) n) as H.
  revert H. generalize (foldl (fun st i => wsect i zeros st) (mkImage (fun _ => zeros) 0 1 nmeta) (seqZ 0 FSSIZE)).
  intros st H. unfold wsect. simpl. by rewrite fn_lookup_insert_ne.
Qed.

Lemma new_image_super : sectors new_image 1 = sb_block.
Proof.
  unfold new_image. generalize (foldl (fun st i => wsect i zeros st) (mkImage (fun _ => zeros) 0 1 nmeta) (seqZ 0 FSSIZE)).
  intros st. unfold wsect. simpl. by rewrite fn_lookup_insert.
Qed.

Lemma new_image_ok : image_ok new_image.
Proof.
  split.
  - apply new_image_super.
  - vm_compute. reflexivity.
  - vm_compute. split; discriminate.
  - vm_compute. split; discriminate.
  - intros n. destruct (decide (n = 1)) as [->|Hn]; [|rewrite new_image_sector by done; apply zeros_block].
    rewrite new_image_super. unfold sb_block. do 7 apply set_word_block. apply zeros_block.
  - intros n Hn. apply new_image_sector. intros ->. assert (nmeta <= 1) as Hm by apply Hn. by rewrite nmeta_eq in Hm.
  - intros n Hn. apply new_image_sector. lia.
Qed.

Lemma zero_dinode n : get_dinode zeros (dinode_off n) (dinode0 n) = dinode0 n.
Proof.
  unfold dinode_off, IPB. pose proof (Z.mod_pos_bound n 8 ltac:(lia)) as Hm.
  assert (n mod 8 = 0 \/ n mod 8 = 1 \/ n mod 8 = 2 \/ n mod 8 = 3 \/ n mod 8 = 4 \/ n mod 8 = 5 \/ n mod 8 = 6 \/ n mod 8 = 7) as Hc by lia.
  destruct Hc as [->|[->|[->|[->|[->|[->|[->| ->]]]]]]]; reflexivity.
Qed.

Lemma new_image_counters : freeinode new_image = 1 /\ freeblock new_image = nmeta.
Proof. vm_compute. done. Qed.

Lemma new_image_made : made [] new_image.
Proof.
  pose proof new_image_ok as Hok. pose proof (fun n => new_image_sector n) as Hsec. destruct new_image_counters as [Ei Ef].
  generalize dependent new_image. intros st Hok Hsec Ei Ef. split.
  - done.
  - done.
  - intros i t c Hi. by rewrite lookup_nil in Hi.
  - intros i j Hi. simpl in Hi. lia.
  - lia.
  - rewrite Ef. simpl. lia.
  - intros n Hn. apply (new_state (shown st) n 0 0); [lia..|]. pose proof (iblock_sb n ltac:(lia)) as Hb.
    rewrite shown_other by (change (sb_bmapstart sb) with 58; lia). rewrite Hsec by lia. apply zero_dinode.
Qed.

(** ** Files from the arguments *)

(** What the program reads of a host file. *)
Fixpoint delivered (reads : list (list Z)) : list Z :=
  match reads with
  | [] | [] :: _ => []
  | buf :: reads' => buf ++ delivered reads'
  end.

Definition bytes_of (a : arg) : list Z := match afile a with Some reads => delivered reads | None => [] end.

Definition entry (i : nat) (a : arg) : list Z := encode_dirent (2 + Z.of_nat i) (padded (skip_underscore (aname a))).
Definition dots : list Z := encode_dirent 1 (padded [46]) ++ encode_dirent 1 (padded [46; 46]).
Definition root_dir (args : list arg) : list Z := dots ++ concat (imap entry args).
Definition made_files (args : list arg) : list (Z * list Z) :=
  (T_DIR, root_dir args) :: ((fun a => (T_FILE, bytes_of a)) <$> args).

Lemma total_nonneg files : 0 <= total files.
Proof.
  induction files as [|f files IH]; simpl; [lia|]. assert (0 <= blocks_of (Z.of_nat (length f.2))); [|lia].
  transitivity (blocks_of 0); [done|]. apply blocks_of_mono. lia.
Qed.

Lemma total_append files i t c p q : files !! i = Some (t, c) ->
  total (<[i := (t, c ++ p)]> files) <= total (<[i := (t, c ++ p ++ q)]> files).
Proof.
  intros Hi. rewrite !(total_insert files i t c) by done. pose proof (blocks_of_mono (Z.of_nat (length (c ++ p))) (Z.of_nat (length (c ++ p ++ q)))).
  rewrite !length_app in *. lia.
Qed.

Lemma copy_file_made reads : forall files st i t c,
  made files st -> files !! i = Some (t, c) -> Forall (fun x => 0 <= x < 256) (delivered reads) ->
  Z.of_nat (length (c ++ delivered reads)) <= MAXFILE * BLK -> nmeta + total (<[i := (t, c ++ delivered reads)]> files) <= FSSIZE ->
  exists st', copy_file (nth_inode i) reads st = OK st' /\ made (<[i := (t, c ++ delivered reads)]> files) st'.
Proof.
  induction reads as [|buf reads IH]; intros files st i t c H Hi Hby Hmax Hroom;
    [|destruct buf as [|b buf]; [|cbn [copy_file delivered] in *; set (l := b :: buf) in *]];
    [exists st; cbn [delivered]; rewrite app_nil_r, list_insert_id by done; done..|].
  pose proof (lookup_lt_Some _ _ _ Hi) as Hl. apply Forall_app in Hby as [Hb1 Hb2].
  pose proof (total_append files i t c l (delivered reads) Hi) as Hmono.
  destruct (iappend_made files st i t c l H Hi ltac:(done) Hb1) as (st1 & -> & H1); [rewrite !length_app in *; lia|lia|].
  cbn [mbind mk_bind]. destruct (IH _ st1 i t (c ++ l) H1) as (st2 & E2 & H2).
  - by apply list_lookup_insert_eq.
  - done.
  - by rewrite <- (assoc_L (++)).
  - by rewrite list_insert_insert_eq, <- (assoc_L (++)).
  - exists st2. split; [done|]. by rewrite list_insert_insert_eq, <- (assoc_L (++)) in H2.
Qed.

(** What the arguments must be: no slash, readable, bytes, not longer than the longest file. *)
Definition arg_ok (a : arg) : Prop :=
  (slash ∉ aname a) /\ Forall (fun x => 0 <= x < 256) (aname a) /\ afile a <> None /\
  Forall (fun x => 0 <= x < 256) (bytes_of a) /\ Z.of_nat (length (bytes_of a)) <= MAXFILE * BLK.

Lemma padded_bytes name : Forall (fun x => 0 <= x < 256) name -> Forall (fun x => 0 <= x < 256) (padded name).
Proof. intros H. apply Forall_app. split; [by apply Forall_take|by apply Forall_replicate]. Qed.

Lemma padded_length name : length (padded name) = DIRSIZ.
Proof. unfold padded. rewrite length_app, length_take, length_replicate. lia. Qed.

Lemma encode_bytes n name : Forall (fun x => 0 <= x < 256) name -> Forall (fun x => 0 <= x < 256) (encode_dirent n (padded name)).
Proof.
  intros H. unfold encode_dirent, u8. simpl. repeat constructor; try (apply Z.mod_pos_bound; lia). by apply padded_bytes.
Qed.

Lemma encode_length n name : length (encode_dirent n (padded name)) = 16%nat.
Proof. unfold encode_dirent. rewrite length_app, padded_length. done. Qed.

Lemma entry_length i a : length (entry i a) = 16%nat.
Proof. apply encode_length. Qed.

Lemma root_dir_length args : length (root_dir args) = (16 * (2 + length args))%nat.
Proof.
  unfold root_dir, dots. rewrite !length_app, !encode_length. enough (forall k, length (concat (imap (fun i => entry (k + i)) args)) = 16 * length args)%nat as E.
  { specialize (E 0%nat). change (length (concat (imap entry args)) = 16 * length args)%nat in E. rewrite E. lia. }
  induction args as [|a args IH]; intros k; [done|]. cbn [imap concat length]. rewrite length_app, entry_length.
  rewrite (imap_ext _ (fun i => entry (S k + i))); [rewrite IH; lia|]. intros j x _. unfold compose. f_equal. lia.
Qed.

Lemma root_dir_snoc args a : root_dir (args ++ [a]) = root_dir args ++ entry (length args) a.
Proof. unfold root_dir. rewrite imap_app, concat_app. cbn [imap concat]. unfold compose. rewrite app_nil_r, Nat.add_0_r. by rewrite (assoc_L (++)). Qed.

Lemma made_files_length args : length (made_files args) = S (length args).
Proof. simpl. by rewrite length_fmap. Qed.

Lemma total_made args args' : total (made_files args) <= total (made_files (args ++ args')).
Proof.
  unfold made_files. rewrite fmap_app, !total_cons, total_app. cbn [fst snd]. pose proof (total_nonneg ((fun a => (T_FILE, bytes_of a)) <$> args')).
  pose proof (blocks_of_mono (Z.of_nat (length (root_dir args))) (Z.of_nat (length (root_dir (args ++ args'))))) as Hm.
  rewrite !root_dir_length, length_app in *. lia.
Qed.

Lemma skip_underscore_bytes (P : Z -> Prop) name : Forall P name -> Forall P (skip_underscore name).
Proof. destruct name as [|c l]; simpl; [done|]. intros H. destruct (c =? 95); [by inversion H|done]. Qed.

Lemma insert_last {A} (h x y : A) l n : length l = n -> <[S n := y]> (h :: l ++ [x]) = h :: l ++ [y].
Proof. intros <-. simpl. f_equal. rewrite insert_app_r_alt, Nat.sub_diag by lia. done. Qed.

(** One argument: an inode, an entry in the directory, the contents. *)
Lemma add_file_made args a st :
  made (made_files args) st -> arg_ok a -> nth_inode (S (length args)) < NINODES ->
  nmeta + total (made_files (args ++ [a])) <= FSSIZE ->
  exists st', add_file ROOTINO a st = OK st' /\ made (made_files (args ++ [a])) st'.
Proof.
  intros H (Hsl & Hnm & Hfile & Hby & Hmax) Hn Hroom. unfold add_file. rewrite bool_decide_false by done.
  unfold bytes_of in *. destruct (afile a) as [reads|] eqn:Ea; [|done].
  set (fs := (fun a => (T_FILE, match afile a with Some reads => delivered reads | None => [] end)) <$> args).
  assert (made_files args = (T_DIR, root_dir args) :: fs) as E0 by done.
  assert (made_files (args ++ [a]) = (T_DIR, root_dir args ++ entry (length args) a) :: fs ++ [(T_FILE, delivered reads)]) as E1.
  { unfold made_files. rewrite root_dir_snoc, fmap_app. simpl. unfold bytes_of. by rewrite Ea. }
  rewrite E0 in H. rewrite E1 in Hroom |- *. assert (length fs = length args) as Hfs by (unfold fs; by rewrite length_fmap).
  destruct (ialloc_made _ st T_FILE H) as (st1 & -> & H1); [simpl; rewrite Hfs; done|done|]. cbn [mbind mk_bind length].
  rewrite Hfs. rewrite xshort_id by (unfold NINODES in *; lia).
  assert (encode_dirent (nth_inode (S (length args))) (padded (skip_underscore (aname a))) = entry (length args) a) as ->
    by (unfold entry; f_equal; lia). pose proof (entry_length (length args) a) as Hel.
  pose proof (blocks_of_mono 0 (Z.of_nat (length (delivered reads))) ltac:(lia)) as Hb0. change (blocks_of 0) with 0 in Hb0.
  cbn [app] in H1. rewrite total_cons, total_app, total_cons in Hroom. cbn [fst snd] in Hroom. change (total []) with 0 in Hroom.
  destruct (iappend_made _ st1 0 T_DIR (root_dir args) (entry (length args) a) H1 eq_refl) as (st2 & E2 & H2).
  - by destruct (entry (length args) a).
  - by apply encode_bytes, skip_underscore_bytes.
  - rewrite length_app, root_dir_length, Hel. unfold NINODES, MAXFILE, NINDIRECT, NDIRECT, BSIZE in *. lia.
  - cbn [insert list_insert]. rewrite total_cons, total_app, total_cons. cbn [fst snd]. change (total []) with 0.
    change (blocks_of (Z.of_nat (length []))) with 0. lia.
  - change ROOTINO with (nth_inode 0). rewrite E2. cbn [mbind mk_bind]. cbn [insert list_insert] in H2.
    destruct (copy_file_made reads _ st2 (S (length args)) T_FILE [] H2) as (st3 & -> & H3).
    + simpl. rewrite lookup_app_r, Hfs, Nat.sub_diag by lia. done.
    + done.
    + done.
    + rewrite insert_last by done. rewrite total_cons, total_app, total_cons. cbn [fst snd app]. change (total []) with 0. lia.
    + exists st3. split; [done|]. by rewrite insert_last in H3.
Qed.

Lemma add_files_made args' : forall args st,
  made (made_files args) st -> Forall arg_ok args' -> nth_inode (length (args ++ args')) < NINODES ->
  nmeta + total (made_files (args ++ args')) <= FSSIZE ->
  exists st', add_files ROOTINO args' st = OK st' /\ made (made_files (args ++ args')) st'.
Proof.
  induction args' as [|a args' IH]; intros args st H Ha Hn Hroom; [exists st; by rewrite app_nil_r|].
  apply Forall_cons in Ha as [Ha Ha']. rewrite length_app in Hn. simpl in Hn. replace (args ++ a :: args') with ((args ++ [a]) ++ args') in * by (by rewrite <- (assoc_L (++))).
  pose proof (total_made (args ++ [a]) args') as Hm. cbn [add_files].
  destruct (add_file_made args a st H Ha) as (st1 & -> & H1); [lia..|]. cbn [mbind mk_bind]. apply IH; [done|done| |done].
  rewrite !length_app. simpl. lia.
Qed.

Lemma make_root_made : exists st, make_root new_image = OK (ROOTINO, st) /\ made (made_files []) st.
Proof.
  unfold make_root. destruct (ialloc_made [] new_image T_DIR new_image_made) as (st0 & -> & H0); [done..|]. cbn [mbind mk_bind length].
  change (nth_inode 0 =? ROOTINO) with true. cbv iota. rewrite xshort_id by lia.
  destruct (iappend_made _ st0 0 T_DIR [] (encode_dirent (nth_inode 0) (padded [46])) H0 eq_refl) as (st1 & -> & H1);
    [done|apply encode_bytes; by repeat constructor|done|done|]. cbn [mbind mk_bind].
  destruct (iappend_made _ st1 0 T_DIR _ (encode_dirent (nth_inode 0) (padded [46; 46])) H1 eq_refl) as (st2 & -> & H2);
    [done|apply encode_bytes; by repeat constructor|done|done|]. cbn [mbind mk_bind]. exists st2. by split.
Qed.

(** ** The size of the root directory *)
Definition rounded (c : list Z) : list Z :=
  c ++ replicate (Z.to_nat ((Z.of_nat (length c) / BLK + 1) * BLK) - length c) 0.

(** A file whose size is set within its blocks. *)
Section resize.
Context (V : Z -> list Z) (ip : inode) (size : Z).
Abbreviation ip' := (ip <| isize := size |>).
Abbreviation V' := (iupdated sb ip' V).
Context (Hfs : fs_ok V sb) (Hst : file_state V sb ip) (Hs : 0 <= size <= MAXFILE * BLK).
Context (Hw : forall j, 0 <= j -> j * BLK < size -> ptr V ip j <> 0).

Lemma resized_inum : 0 <= inum ip' < sb_ninodes sb.
Proof using Hst. clear -Hst. change (inum ip') with (inum ip). apply (fs_inum _ _ _ Hst). Qed.

Lemma resized_same m : in_file V ip m -> V' m = V m.
Proof using Hfs Hst. clear Hs Hw. intros Hm. by apply (iupdated_file sb V ip' Hfs resized_inum ip); [apply Hst|]. Qed.

Lemma resized_fields : dinode_ok ip'.
Proof using Hst Hs.
  clear Hfs Hw. destruct (fs_fields _ _ _ Hst) as (H1 & _ & H3). split; [exact H1|]. split; [|exact H3].
  simpl. unfold MAXFILE, NINDIRECT, NDIRECT, BSIZE in *. lia.
Qed.

Lemma resized_state : file_state V' sb ip'.
Proof using All.
  pose proof resized_fields as Hdi. destruct Hst as [Hfi _ Hdev Hin _ _]. split; [| |exact Hdev|exact Hin|exact Hdi|].
  - assert (file_ok V' sb ip) as []; [|by split]. apply (apart_file_ok sb V); [done|apply resized_same|].
    intros m Hm. rewrite iupdated_free by (done || apply resized_inum). by apply (in_file_range _ _ _ _ Hfi).
  - split; [done|]. intros j H0 Hl. change (ptr V' ip j <> 0). rewrite (apart_ptr V V' ip resized_same). by apply Hw.
  - by apply (iupdated_same sb V ip' Hfs resized_inum).
Qed.
End resize.

Section round.
Context (files : list (Z * list Z)) (st : image) (i : nat) (t : Z) (c : list Z).
Abbreviation n := (nth_inode i).
Abbreviation size := (Z.of_nat (length c)).
Abbreviation size' := ((size / BLK + 1) * BLK).
Context (H : made files st) (Hi : files !! i = Some (t, c)) (Hmod : size mod BLK <> 0) (Hmax : size' <= MAXFILE * BLK).

Lemma round_bounds : size < size' /\ (forall j, j * BLK < size' <-> j * BLK < size) /\ blocks_of size' = blocks_of size.
Proof using Hmod.
  clear -Hmod. unfold blocks_of, BSIZE, NDIRECT in *. split_and!; [dlia|intros j; dlia|].
  destruct (Z.ltb_spec (Z.of_nat 12 * Z.of_nat 512) ((size / Z.of_nat 512 + 1) * Z.of_nat 512)), (Z.ltb_spec (Z.of_nat 12 * Z.of_nat 512) size); dlia.
Qed.

Abbreviation ip := (node st n).
Abbreviation ip' := (ip <| isize := size' |>).

Lemma round_file st' : shown st' = iupdated sb ip' (shown st) -> node_ok st' n t (rounded c) /\
  forall m, in_file (shown st') (node st' n) m <-> in_file (shown st) ip m.
Proof using H Hi Hmod Hmax.
  intros Es. pose proof (md_node _ _ H i t c Hi) as Hno. pose proof (node_size _ _ _ _ Hno) as Esz. destruct Hno as [Hst Hc Hty Ht Hcl].
  destruct round_bounds as (Hlt & Hj & _). pose proof (shown_fs_ok _ (md_ok _ _ H)) as Hfs.
  assert (inum ip = n) as Enum by reflexivity.
  assert (forall d o, get_dinode d o ip = get_dinode d o (dinode0 n)) as Hg by reflexivity.
  generalize dependent (node st n). intros x Es Hst Hc Hty Ht Hcl Esz Enum Hg.
  set (x' := x <| isize := size' |>) in *. pose proof (resized_same (shown st) x size' Hfs Hst) as Hsame. fold x' in Hsame. rewrite <- Es in Hsame.
  pose proof (apart_ptr (shown st) (shown st') x Hsame) as Hptr.
  assert (forall o, 0 <= o < size' -> ptr (shown st) x (o / BLK) <> 0) as Hthere.
  { intros o Ho. apply (proj1 Ht); [apply blk_div; lia|]. rewrite Esz. apply Hj. unfold BSIZE in *. dlia. }
  assert (forall o, 0 <= o < size' -> byte (shown st') x' o = byte (shown st) x o) as Hbyte.
  { intros o Ho. change (byte (shown st') x o = byte (shown st) x o). apply apart_byte; [done|lia|by apply Hthere]. }
  assert (file_state (shown st') sb x') as Hst'.
  { rewrite Es. apply resized_state; [done|done|lia|]. intros j H0 Hl. destruct (fs_whole _ _ _ Hst) as [_ Hw]. apply Hw; [done|].
    rewrite Esz. by apply Hj. }
  assert (node st' n = x') as En.
  { rewrite <- Enum. change (inum x) with (inum x'). apply disk_inode_eq; [|done]. intros d o. change (inum x') with (inum x). rewrite Enum. apply Hg. }
  rewrite En. split; [|intros m; change (in_file (shown st') x m <-> in_file (shown st) x m); by apply apart_in_file].
  split; rewrite ?En; [done| |done| |].
  - unfold contents at 1. change (isize x') with size'. rewrite (seqZ_split 0 size size'), fmap_app by lia. unfold rounded. f_equal.
    + transitivity (contents (shown st) x); [|done]. unfold contents. rewrite Esz. apply list_fmap_ext. intros k o Hk. apply lookup_seqZ in Hk as [-> Hk]. apply Hbyte. lia.
    + apply list_eq. intros k. rewrite list_lookup_fmap. destruct (decide (Z.of_nat k < size' - size)).
      * rewrite lookup_seqZ_lt, lookup_replicate_2 by lia. simpl. rewrite Hbyte by lia. f_equal. rewrite Z.add_0_l.
        apply Hcl; [lia|apply Hthere; lia].
      * rewrite lookup_seqZ_ge by lia. symmetry. apply lookup_replicate_None. lia.
  - destruct Ht as [Hp Hd]. split; [intros j Hjr; change (ptr (shown st') x j <> 0 <-> j * BLK < size'); rewrite Hptr, Hj, <- Esz; by apply Hp|].
    change (indirect x <> 0 <-> Z.of_nat NDIRECT * BLK < size'). by rewrite Hj, <- Esz.
  - intros o Ho. change (size' <= o < MAXFILE * BLK) in Ho. change (ptr (shown st') x (o / BLK) <> 0 -> byte (shown st') x o = 0).
    rewrite Hptr. intros Hq. exfalso. apply (proj1 Ht) in Hq; [|apply blk_div; lia]. rewrite Esz in Hq. unfold BSIZE in *. dlia.
Qed.
End round.

Lemma total_rounded files i t c : files !! i = Some (t, c) -> Z.of_nat (length c) mod BLK <> 0 ->
  total (<[i := (t, rounded c)]> files) = total files.
Proof.
  intros Hi Hmod. destruct (round_bounds c Hmod) as (Hlt & _ & E). rewrite (total_insert files i t c) by done.
  unfold rounded. rewrite length_app, length_replicate. set (k := Z.to_nat _).
  replace (Z.of_nat (length c + (k - length c))) with ((Z.of_nat (length c) / BLK + 1) * BLK) by lia. lia.
Qed.

Lemma round_made files st i t c : made files st -> files !! i = Some (t, c) -> Z.of_nat (length c) mod BLK <> 0 ->
  let size' := (Z.of_nat (length c) / BLK + 1) * BLK in size' <= MAXFILE * BLK ->
  exists st', winode (nth_inode i) (node st (nth_inode i) <| isize := size' |>) st = OK st' /\ made (<[i := (t, rounded c)]> files) st'.
Proof.
  intros H Hi Hmod size' Hmax. pose proof (md_node _ _ H i t c Hi) as Hno. pose proof (shown_fs_ok _ (md_ok _ _ H)) as Hfs.
  pose proof (resized_inum (shown st) _ size' (no_state _ _ _ _ Hno)) as Hn. pose proof (fi_addrs _ _ _ (fs_file _ _ _ (no_state _ _ _ _ Hno))) as Hl.
  set (ip' := node st (nth_inode i) <| isize := size' |>) in *. assert (inum ip' = nth_inode i) as En by reflexivity.
  destruct (winode_spec st ip' (md_ok _ _ H) Hn) as (st' & E & H' & Es & Ef & Ei). rewrite En in E. exists st'. split; [done|].
  destruct (round_file files st i t c H Hi Hmod Hmax st' Es) as [Hnew Hin]. pose proof (lookup_lt_Some _ _ _ Hi) as Hil.
  assert (forall j, (j < length files)%nat -> exists t2 c2, <[i := (t, rounded c)]> files !! j = Some (t2, c2) /\ node_ok st' (nth_inode j) t2 c2 /\
    forall m, in_file (shown st') (node st' (nth_inode j)) m <-> in_file (shown st) (node st (nth_inode j)) m) as Hoth.
  { intros j Hj. destruct (decide (j = i)) as [->|Hne]; [exists t, (rounded c); by rewrite list_lookup_insert_eq by done|].
    destruct (lookup_lt_is_Some_2 _ _ Hj) as [[t2 c2] E2]. exists t2, c2. rewrite list_lookup_insert_ne by done. split; [done|].
    apply (winode_others st st' ip'); [done..| |rewrite En; lia]. by apply (md_node _ _ H). }
  split.
  - done.
  - rewrite length_insert, Ei. apply H.
  - intros j t2 c2 Hj. destruct (Hoth j) as (t3 & c3 & E3 & Hok & _); [apply lookup_lt_Some in Hj; by rewrite length_insert in Hj|]. congruence.
  - rewrite length_insert. intros j1 j2 H1 H2 Hne m. destruct (Hoth j1 H1) as (_ & _ & _ & _ & ->). destruct (Hoth j2 H2) as (_ & _ & _ & _ & ->).
    by apply (md_disjoint _ _ H).
  - rewrite length_insert, Ef. intros b Hb. destruct (md_used _ _ H b Hb) as (j & Hj & Hb'). exists j. split; [done|].
    destruct (Hoth j Hj) as (_ & _ & _ & _ & ->). done.
  - rewrite Ef, total_rounded by done. apply H.
  - rewrite Ei, Es. intros n2 Hn2. apply iupdated_apart; [done|done|done|by apply (md_unused _ _ H)|]. rewrite En. change (n2 <> nth_inode i).
    pose proof (md_count _ _ H). lia.
Qed.

Lemma finish_made c fs st : made ((T_DIR, c) :: fs) st -> Z.of_nat (length c) mod BLK <> 0 ->
  (Z.of_nat (length c) / BLK + 1) * BLK <= MAXFILE * BLK ->
  exists st1 st', finish ROOTINO st = OK st' /\ sectors st' = shown st1 /\ made ((T_DIR, rounded c) :: fs) st1.
Proof.
  intros H Hmod Hmax. pose proof (md_node _ _ H 0 T_DIR c eq_refl) as Hno. pose proof (node_size _ _ _ _ Hno) as Esz.
  destruct (fs_whole _ _ _ (no_state _ _ _ _ Hno)) as [Hs _]. pose proof (fs_inum _ _ _ (no_state _ _ _ _ Hno)) as Hn.
  unfold finish. rewrite rinode_spec by (apply (md_ok _ _ H) || by vm_compute). change ROOTINO with (nth_inode 0). cbn [mbind mk_bind].
  rewrite (xint_id (isize _)) by (unfold MAXFILE, NINDIRECT, NDIRECT, BSIZE in *; lia). rewrite Esz, u32_small, xint_id
    by (pose proof (Z.div_pos (Z.of_nat (length c)) BLK); unfold MAXFILE, NINDIRECT, NDIRECT, BSIZE in *; lia).
  destruct (round_made _ st 0 T_DIR c H eq_refl Hmod Hmax) as (st1 & -> & H1). cbn [mbind mk_bind]. pose proof (io_next _ (md_ok _ _ H1)).
  unfold balloc. rewrite (proj2 (Z.ltb_lt _ _)) by (unfold FSSIZE, BSIZE in *; lia). eexists st1, _. split; [done|]. by split.
Qed.

(** The files on the image, by inode number from 1 on. *)
Definition image_files (args : list arg) : list (Z * list Z) :=
  (T_DIR, rounded (root_dir args)) :: ((fun a => (T_FILE, bytes_of a)) <$> args).

(** C5. The image is a file system. If no name has a slash, every file can be read and is not
    longer than a file can be, there are inodes and blocks enough, and the directory does not end
    with a block, then the program succeeds and makes an image with: a superblock and free map as
    the kernel expects; an empty log; the root directory with "." and ".." and an entry
    for each argument, followed by zeros; the inode and the bytes of every argument;
    every block in use in exactly one file; all other inodes unused. *)
Theorem mkfs_makes_file_system args :
  Forall arg_ok args -> Z.of_nat (length args) + 2 <= NINODES -> (Z.of_nat (length args) + 2) mod 32 <> 0 ->
  nmeta + total (made_files args) <= FSSIZE ->
  exists st, main args = OK st /\
    let V := sectors st in let inode_of n := disk_inode V sb n in
    fs_ok V sb /\ (forall n, 2 <= n < 2 + nlog -> V n = zeros) /\
    (forall i t c, image_files args !! i = Some (t, c) -> let ip := inode_of (nth_inode i) in
      file_state V sb ip /\ itype ip = t /\ nlink ip = 1 /\ disk_contents V sb (nth_inode i) = c) /\
    (forall i j, (i <= length args)%nat -> (j <= length args)%nat -> i <> j ->
      disjoint_files V (inode_of (nth_inode i)) (inode_of (nth_inode j))) /\
    (forall b, sb_bmapstart sb < b < sb_size sb -> b ∉ free_blocks V sb ->
      exists i, (i <= length args)%nat /\ in_file V (inode_of (nth_inode i)) b) /\
    (forall n, 2 + Z.of_nat (length args) <= n < NINODES -> itype (inode_of n) = 0).
Proof.
  intros Ha Hn Hmod Hroom. unfold main. destruct make_root_made as (st0 & -> & H0). cbn [mbind mk_bind].
  destruct (add_files_made args [] st0 H0 Ha) as (st1 & -> & H1); [simpl; lia|done|]. cbn [mbind mk_bind]. rewrite app_nil_l in H1.
  destruct (finish_made (root_dir args) _ st1 H1) as (st2 & st & -> & Es & H2).
  { rewrite root_dir_length. unfold BSIZE. dlia. }
  { rewrite root_dir_length. unfold NINODES, MAXFILE, NINDIRECT, NDIRECT, BSIZE in *. dlia. }
  exists st. split; [done|]. cbv zeta. rewrite Es. pose proof (md_ok _ _ H2) as Hok. pose proof (md_count _ _ H2) as Hc.
  assert (length (image_files args) = S (length args)) as Hlen by (simpl; by rewrite length_fmap). fold (image_files args) in H2, Hc.
  split_and!.
  - by apply shown_fs_ok.
  - intros n Hr. change nlog with 30 in Hr. rewrite shown_other by (change (sb_bmapstart sb) with 58; lia).
    apply (io_log _ Hok). change nlog with 30. lia.
  - intros i t c Hi. destruct (md_node _ _ H2 i t c Hi) as [Hst Hco [Ht Hl] _ _]. split_and!; done.
  - intros i j Hi Hj Hne. apply (md_disjoint _ _ H2); lia.
  - intros b Hb Hnf. rewrite (shown_free _ _ Hok) in Hnf. change (sb_bmapstart sb) with 58 in Hb. change (sb_size sb) with FSSIZE in Hb.
    destruct (md_used _ _ H2 b) as (i & Hi & Hin); [rewrite nmeta_eq; lia|]. exists i. split; [lia|done].
  - intros n Hr. pose proof (md_unused _ _ H2 n ltac:(lia)) as Hu.
    change n with (inum (dinode0 n)). by rewrite disk_inode_eq.
Qed.

(** One file, [_a], read in two pieces. *)
Lemma mkfs_makes_file_system_witness : exists st,
  main [mkArg [95; 97] (Some [[104; 105]; [10]])] = OK st /\ disk_contents (sectors st) sb 2 = [104; 105; 10].
Proof.
  destruct (mkfs_makes_file_system [mkArg [95; 97] (Some [[104; 105]; [10]])]) as (st & E & _ & _ & Hf & _).
  - constructor; [|constructor]. split_and!; [|by repeat constructor|done|by repeat constructor|by vm_compute].
    apply (bool_decide_unpack _). by vm_compute.
  - by vm_compute.
  - by vm_compute.
  - by vm_compute.
  - exists st. split; [exact E|]. by destruct (Hf 1%nat T_FILE [104; 105; 10] eq_refl) as (_ & _ & _ & Hc).
Defined.

(** With 30 files the directory fills one block exactly, and its size then covers a second block
    that it does not have. *)
Lemma mkfs_directory_without_block :
  match main (replicate 30 (mkArg [97] (Some []))) with
  | OK st => let ip := disk_inode (sectors st) sb 1 in isize ip = 1024 /\ ptr (sectors st) ip 1 = 0
  | _ => False
  end.
Proof. vm_compute. done. Qed.

(** The number of inodes is not checked: inode 208 is in the block of the free map, which is
    written last. *)
Lemma mkfs_loses_inode :
  match main (replicate 207 (mkArg [97] (Some []))) with
  | OK st => freeinode st = 209 /\ itype (disk_inode (sectors st) sb 208) <> T_FILE
  | _ => False
  end.
Proof. vm_compute. done. Qed.
